(* ===== verification/_CoqProject ===== *)
-Q . S2P
Prelude.v
Conc.v
Ref.v
Rbt.v
RbtRep.v
RbtRot.v
RbtIns.v
RbtOps.v
RbtSearch.v
RbtDel.v
RbtDelete.v
RbtSwap.v
RbtDelTop.v
RbtSpec.v
Idx.v
IdxSpec.v
OrdIndex.v
Mmalloc.v
Chunks.v
MmallocSpec.v
MmallocOps.v
MmallocProps.v
Event.v
EventHeap.v
EventHeapOps.v
EventSpec.v
RailQuota.v
RailQuotaSpec.v
CStr.v
Qgroup.v
QgroupSpec.v
QgroupProps.v
QgroupNet.v
Bytes.v
MsgPart.v
MsgSpec.v
MsgProps.v
MsgSend.v
Mem.v
MemFrame.v
Reloc.v
CFloat.v
Ev.v
EvSys.v
EvInv.v
EvSteps.v
EvWork.v
EvProps.v
MVal.v
MValSpec.v
Schema.v
SchemaSpec.v
Rrbt.v
RrbtReloc.v
LdmsHeap.v
HeapReloc.v
HeapInit.v
SetCreate.v
SchemaInv.v
SetOps.v
RecOps.v
ListOps.v
SetLayout.v
SetInit.v
SetSpec.v
SetMetric.v
SetBuild.v
SetTrans.v
SetProps.v
SetMake.v
SetPlain.v
SetArray.v
SetExample.v
SetClaims.v
SetFindings.v
RowKey.v
RowCache.v
RowCacheRep.v
RowCacheSpec.v
RowCacheProps.v
