(* ===== verification/Prelude.v ===== *)
(** * Verification of LDMS

    LDMS (ovis-hpc/ldms) collects metrics on the nodes of a cluster, moves
    them between daemons and stores them.  This development models parts of
    its C code that other parts rest on and proves what they promise:

    - an intrusive red-black tree, src/lib/src/coll/rbt.c, used by nearly
      every table of the program (members of quota groups and the buffers of
      incoming messages below are two of its users);
    - the allocator of the memory of metric sets, src/lib/src/mmalloc/mmalloc.c,
      which keeps its free chunks in two such trees;
    - the event scheduler, src/lib/src/ovis_event/ovis_event.c: a binary heap
      of timers and a queue of one-shot events;
    - the quota and the rate limit of a rail (several transport endpoints used
      as one connection), src/ldms/src/core/ldms_rail.c: how many bytes an
      endpoint may still send to its peer;
    - quota groups, src/ldms/src/core/ldms_qgroup.c: processes that share the
      quota they return to their peers;
    - the message service, src/ldms/src/core/ldms_msg.c: publishing a message
      takes quota, cuts it into requests, and the receiver puts the requests
      together, delivers the message, forwards it, and returns the quota
      through the quota group;
    - schemas, metric sets, records and lists, src/ldms/src/core/ldms.c: a set
      is one block of bytes, meta data followed by a ring of data sections,
      that samplers write under transactions and that is copied between
      machines as it is;
    - the heap inside a set, src/ldms/src/core/ldms_heap.c, an allocator over
      two red-black trees of offsets, src/ldms/src/core/rrbt.c, that serves
      the lists of a set;
    - event workers, src/lib/src/ovis_ev: threads that call actors for the
      events other threads post to them, at once or at a time;
    - the row cache of the daemon, src/ldms/src/ldmsd/ldmsd_row_cache.c: the
      last rows of every group of a decomposition, in trees of trees;
    - the prefix tree src/lib/src/coll/idx.c and the reference counts
      src/lib/src/ovis_ref/ref.h.

    ** Files

    Prelude: machine integers with their wrap-around, a state monad whose
    [None] is a failed assertion, an access out of bounds or a division by
    zero, loops with fuel, total correctness [runs], error numbers.

    Conc: words shared by threads.  A computation carries the finite list of
    the other threads' actions, which take effect between its atomic
    accesses; [after] says a result is that of one atomic step.  Ref: the
    reference counts, plain and tracking, and the protocol of their users.

    Rbt: every function of rbt.c over a store of nodes.  RbtRep, RbtRot,
    RbtIns, RbtOps, RbtSearch, RbtDel, RbtDelete, RbtSwap, RbtDelTop: the
    representation of a functional tree in the store, the effect of each
    step, and the proofs of insertion, search and deletion.  RbtSpec: the
    theorems.  The class [Comparator] is what the tree needs of the
    application's comparison; CStr gives it for [strcmp].

    Idx: every function of idx.c over a tree of layers.  IdxSpec: the
    theorems, against a finite map.

    OrdIndex: the interface between trees and allocators, a class of index
    operations and a class of their laws, and the instance that shows that
    rbt.c keeps the laws for every comparison callback that orders the keys in
    use.  Mmalloc: [mm_init], [mm_alloc], [mm_free], [mm_realloc] over any
    index.  Chunks: the specification, a list of chunks.  MmallocSpec,
    MmallocOps, MmallocProps: lemmas on the steps, on the operations, and the
    theorems, whose witnesses run over the tree.

    Event: the heap, the computation of wake-up times, the rounds of the
    scheduler and the registration of events.  EventHeap, EventHeapOps: order
    and back-pointers.  EventSpec: the theorems.

    RailQuota: acquiring and releasing quota, paying debts, the rate limit,
    reconfiguration, and the queue of messages that wait for quota.
    RailQuotaSpec: the theorems.

    Qgroup: configuration, members, periodic reset, requests for and
    donations of quota, start and stop, and the release of a received message
    ([__msg_buf_s_ref_free] of ldms_msg.c).  QgroupSpec: accounting of one
    process.  QgroupProps: life cycle, members, reset.  QgroupNet: a step
    relation over all the processes and the requests in flight: releases,
    resets, starts and other sections, asks, deliveries and losses, one
    function at a time in each process.

    Bytes: byte strings and integer encodings.  MsgPart: [__part_send],
    [__rep_publish], [__process_msg], [__cred_allowed_as], the hash, the
    choice of an endpoint.  MsgSpec, MsgProps: the theorems.  MsgSend:
    [ldms_msg_publish] and [__remote_client_cb] over the quota words of
    RailQuota, with their theorems.

    Ev: the functions of ev.c and evw.c over a store of events and workers;
    what a function does between taking and releasing a lock is a definition
    of its own.  EvSys: the transition system of clients and worker threads,
    whose steps are these definitions, the discipline of clients as a
    condition on runs ([disciplined]), and the queues as they are in the lists
    and trees ([in_queues]).
    EvInv: the invariant.  EvSteps, EvWork: the steps of clients and of
    workers keep it.  EvProps: the theorems and runs.

    RowKey: indexes of rows and their comparison, on the bytes of the values.
    RowCache: the functions of ldmsd_row_cache.c over a store of groups,
    entries, rows and indexes; the class [IndexRef] says where an index is.
    RowCacheRep: the abstract cache, the relation to the store and
    expiry.  RowCacheSpec: the steps of a call.  RowCacheProps: the theorems
    and examples with the real comparison.

    Mem, MemFrame: memory as bytes, loads and stores, what a write leaves.
    Reloc: computations on memory that do not depend on its address;
    RrbtReloc, HeapReloc: the tree and the heap of a set are such.
    CFloat: integer and floating types and their conversions.  MVal: value
    types, their sizes and names, accessors and conversions of
    [union ldms_value]; MValSpec: their lemmas and theorems.  Schema: schemas,
    records and templates over a store of objects; SchemaSpec, SchemaInv: the
    invariant of the store and that every call keeps it.  Rrbt, LdmsHeap: the
    tree and the heap on bytes; HeapInit: a new heap.  SetCreate: the bytes of
    a new set and its registration.  SetOps, RecOps, ListOps: access to
    metrics, transactions, records, lists.  SetLayout, SetInit, SetBuild,
    SetMake, SetPlain: what creation writes.  SetSpec: well-formed sets
    ([set_ok]).  SetMetric, SetTrans, SetProps, SetArray: access and
    transactions on them.  SetExample: a set to evaluate the theorems at.
    SetClaims: the theorems.  SetFindings: runs that go wrong.

    ** What the theorems show

    Trees: insertion and deletion refine insertion into and removal from a
    sorted sequence, keep the balance, pointers and cardinality, and the
    searches and iteration agree with the sequence; the height is at most
    twice the logarithm, and the source's own checker accepts every tree.

    Allocator: allocation is best fit and cuts off what is needed, release
    joins free neighbours, and both keep trees, prefixes and chunks in step;
    one undoes the other.  Resizing either does not return or gives too few
    bytes.  The theorems assume that a grain holds a prefix (the program uses
    grains of 1024 bytes) and that a region has fewer than 2^31 grains.

    Scheduler: a round fires an event that is due, or answers the exact time
    to the next one; heap insertion and removal of the top refine a set;
    periodic times are the next multiples.  Four theorems show inputs on which
    the code does not do that (removal from the middle of the heap, a one-shot
    event deleted after it fired, a reference kept, a phase of minus two
    periods).

    Quotas: acquiring is one atomic step under any interference and returns;
    no branch loses or makes bytes, apart from the ones named in theorems
    (unlimited quotas, the race of the rate limit, a release that the reset
    overlooks, a failed publish).  In a quota group the bytes returned never
    exceed what the resets issued and what stopped members give back without
    taking quota, for every order of steps and losses.  The assertions of the
    ask routine hold in every interleaving of the life cycle; that of the
    reset can fail when a release races with it.

    Messages: what fits one request, exactly or with room, arrives with every
    field, unless its generation number is a multiple of 2^32 and an
    unfinished message of the same source is held; sending ends
    when each parameter fits a request.  Messages of more than one request do
    not arrive: the theorems give the two reasons, and show the overrun of the
    hop records and the test of the wrong credential field.

    Sets: every call of the schema interface keeps sizes, positions and back
    links in step with the metric lists (in the meta data size the members a
    record had when it was added count twice); a set created from a reachable schema
    of plain metrics has a descriptor and a slot for every metric, no two of
    which overlap.  Setters change their slot and the generation number and
    nothing else, the run-time typed ones do what the typed ones do, readers
    see the values from before a transaction until it ends and the new ones
    afterwards, and the duration of a transaction is exact.  Closed runs show
    a metric placed outside of its set, a heap that grants bytes past its end,
    and a list that is corrupted by a second append.  A session of calls on an
    initialised heap of a set gives the same answers and bytes wherever the heap is mapped.

    Event workers: in every interleaving with disciplined clients each
    successful post leads to exactly one call of an actor, the event is once
    in the list or tree of one worker until then, references are never dropped
    twice or used after the event is freed, and a worker never sleeps past the
    first event.  Disciplined clients put only references they have, do not
    cancel an event that is being posted, that was cancelled before or that a
    flush took, and keep counts below their type's bound; closed runs show
    that the library, which checks none of this, fails when an event is
    cancelled twice.  The clock does not overflow.

    Row cache: a call refines the abstract cache (expiry, choice of the group,
    eviction, ordered insertion) without a bad access, and groups, entries,
    rows and indexes are freed exactly when the abstract cache drops them; a
    group is kept for the timeout after its last row and gone after twice the
    timeout once the cache is used; a listing after a call gives the last rows
    of the group the call leaves.  The
    comparison is defined and an order on the indexes of one shape without
    NaN.  Closed runs show the limits of 0 rows, NaN and array columns.

    Prefix tree and reference counts: the tree implements a finite map, for
    present and missing keys and refused arguments; its deletion leaves empty
    layers behind and miscounts when the key is missing; the two builds of the counts agree,
    and users that follow the protocol free an object exactly once.

    ** Bounds and fuel

    Loops over a tree run with the number of nodes as fuel plus one, loops
    that retry a compare-and-exchange with the number of pending actions of
    other threads plus one, the flush of a queue with its length plus one, and
    the fragmenting loop with any fuel, for which four blocks per parameter
    and two more are proved to be enough.  The search for a power of two runs
    for the 64 bits of a [size_t].  Walks over a tree in the heap of a set
    run with the number of bytes of the memory, of which a node takes 32, and
    the purge of nested lists with a depth the caller gives.  The loops of the
    row cache run with the numbers of groups and entries plus one; a worker's
    loops are steps of the transition system.  The theorems are about runs
    that return ([runs], [Some]), so the fuel is shown to be enough where they
    state it.  Sizes are bounded where the C types bound them, or where a
    theorem says so; times of the row cache are below 2^60 seconds.

    ** Not modelled

    The request protocol of ldms_xprt.c, the daemon (ldmsd) apart from its row
    cache, the decompositions, and the other collections are not modelled:
    they are state machines over connections, loaded plugins and JSON
    configurations.  Of the workers the naming of threads is left out, and
    their directories are finite maps; an index of the row cache with its keys
    is one object of its store.  Of ldms.c the
    deletion, publication and lookup of sets, set information and mirrored
    sets are left out; SHA-256, the allocator of sets and the changes other
    threads make to the directory of sets are parameters.  The machine is
    little-endian with a signed [char], as the byte layouts assume.
    Samplers, stores, authentication plugins and the zap transports are input
    and output around external libraries; where modelled code calls them,
    their results are parameters.  Inside the modelled files: set-up and
    tear-down of connections, the statistics and profiling lists, [mm_stats],
    the bytes users keep in their blocks, and the
    channels and clients that messages are delivered to.  Library calls of the
    operating system ([getpwuid_r], [clock_gettime], [malloc]) are parameters
    too. *)

From stdpp Require Import prelude gmap sorting.


#[global] Open Scope Z_scope.

(** ** Machine integers

    C integers are kept as [Z]; every place where the source relies on a
    width writes the wrap-around out with one of these functions. *)

Definition wrapu (w : Z) (z : Z) : Z := z mod 2 ^ w.
Definition wraps (w : Z) (z : Z) : Z := (z + 2 ^ (w - 1)) mod 2 ^ w - 2 ^ (w - 1).

Abbreviation u8 := (wrapu 8).
Abbreviation u16 := (wrapu 16).
Abbreviation u32 := (wrapu 32).
Abbreviation u64 := (wrapu 64).
Abbreviation s8 := (wraps 8).
Abbreviation s16 := (wraps 16).
Abbreviation s32 := (wraps 32).
Abbreviation s64 := (wraps 64).

Lemma wrapu_small w z : 0 <= z < 2 ^ w -> wrapu w z = z.
Proof. intros ?. by apply Z.mod_small. Qed.

Lemma wrapu_range w z : 0 <= w -> 0 <= wrapu w z < 2 ^ w.
Proof. intros ?. apply Z.mod_pos_bound. by apply Z.pow_pos_nonneg. Qed.

Lemma wraps_small w z : 0 < w -> - 2 ^ (w - 1) <= z < 2 ^ (w - 1) -> wraps w z = z.
Proof.
  intros Hw Hz. unfold wraps.
  assert (2 ^ w = 2 * 2 ^ (w - 1)) as Heq.
  { rewrite <- Z.pow_succ_r by lia. f_equal. lia. }
  rewrite Z.mod_small; lia.
Qed.

Lemma wraps_range w z : 0 < w -> - 2 ^ (w - 1) <= wraps w z < 2 ^ (w - 1).
Proof.
  intros Hw. unfold wraps.
  assert (2 ^ w = 2 * 2 ^ (w - 1)) as Heq.
  { rewrite <- Z.pow_succ_r by lia. f_equal. lia. }
  pose proof (Z.mod_pos_bound (z + 2 ^ (w - 1)) (2 ^ w)). lia.
Qed.

Lemma s32_small z : -2147483648 <= z < 2147483648 -> s32 z = z.
Proof. intros. apply wraps_small; [done|]. by change (2 ^ (32 - 1)) with 2147483648. Qed.
Lemma u32_small z : 0 <= z < 4294967296 -> u32 z = z.
Proof. intros. by apply wrapu_small. Qed.
Lemma s64_small z : -9223372036854775808 <= z < 9223372036854775808 -> s64 z = z.
Proof. intros. apply wraps_small; [done|]. by change (2 ^ (64 - 1)) with 9223372036854775808. Qed.
Lemma u64_small z : 0 <= z < 18446744073709551616 -> u64 z = z.
Proof. intros. by apply wrapu_small. Qed.

(** The round-up macro of the allocators, [((s + (r - 1)) & ~(r - 1))] on
    [size_t]. *)
Definition mask_roundup (s r : Z) : Z :=
  Z.land (u64 (s + (r - 1))) (u64 (Z.lnot (r - 1))).

Lemma mask_roundup_pow2 b s :
  0 <= b < 64 -> 0 <= s -> s + (2 ^ b - 1) < 2 ^ 64 ->
  mask_roundup s (2 ^ b) = (s + (2 ^ b - 1)) / 2 ^ b * 2 ^ b.
Proof.
  intros Hb Hs Hlt. unfold mask_roundup. assert (0 < 2 ^ b) by (apply Z.pow_pos_nonneg; lia).
  rewrite wrapu_small by lia. set (x := s + (2 ^ b - 1)) in *.
  rewrite <- Z.shiftr_div_pow2, <- Z.shiftl_mul_pow2 by lia.
  apply Z.bits_inj'. intros n Hn. rewrite Z.land_spec, Z.shiftl_spec by done.
  unfold wrapu. destruct (Z.ltb_spec n 64) as [H64|H64].
  - rewrite Z.mod_pow2_bits_low, Z.lnot_spec by done.
    replace (2 ^ b - 1) with (Z.ones b) by (rewrite Z.ones_equiv; lia).
    destruct (Z.ltb_spec n b).
    + rewrite Z.ones_spec_low, (Z.testbit_neg_r _ (n - b)) by lia. by rewrite andb_false_r.
    + rewrite Z.ones_spec_high, Z.shiftr_spec by lia.
      replace (n - b + b) with n by lia. by rewrite andb_true_r.
  - rewrite Z.mod_pow2_bits_high by lia. rewrite andb_false_r, Z.shiftr_spec by lia.
    replace (n - b + b) with n by lia. symmetry. destruct (decide (x = 0)) as [->|]; [apply Z.bits_0|].
    apply Z.bits_above_log2; [lia|]. apply Z.log2_lt_pow2; [lia|].
    apply Z.lt_le_trans with (2 ^ 64); [lia|]. by apply Z.pow_le_mono_r.
Qed.

(** The round-up to eight bytes of the metric-set code. *)
Lemma mask_roundup_8 s : 0 <= s < 2 ^ 63 -> mask_roundup s 8 = (s + 7) / 8 * 8.
Proof. intros. apply (mask_roundup_pow2 3); lia. Qed.

(** ** Error numbers of <errno.h> *)

Definition EPERM : Z := 1.
Definition ENOENT : Z := 2.
Definition EINTR : Z := 4.
Definition EAGAIN : Z := 11.
Definition ENOMEM : Z := 12.
Definition EACCES : Z := 13.
Definition EBUSY : Z := 16.
Definition EEXIST : Z := 17.
Definition EINVAL : Z := 22.
Definition ENOSPC : Z := 28.
Definition ERANGE : Z := 34.
Definition ENAMETOOLONG : Z := 36.
Definition EBADMSG : Z := 74.
Definition EOVERFLOW : Z := 75.
Definition EMSGSIZE : Z := 90.
Definition ENOTSUP : Z := 95.
Definition ENOBUFS : Z := 105.
Definition ENOTCONN : Z := 107.
Definition E2BIG : Z := 7.
Definition EINPROGRESS : Z := 115.

(** ** The C state monad

    A C function that reads and writes a store [S] is a computation that
    either returns a value and the new store or gets stuck: [None] stands for
    a failed [assert], a NULL or dangling dereference, or a loop that exceeds
    its fuel. *)

Definition M (S A : Type) : Type := S -> option (A * S).

#[global] Instance M_ret S : MRet (M S) := fun A a s => Some (a, s).
#[global] Instance M_bind S : MBind (M S) := fun A B f m s =>
  match m s with
  | Some (a, s') => f a s'
  | None => None
  end.

Definition stuck {S A} : M S A := fun _ => None.
Definition get {S} : M S S := fun s => Some (s, s).
Definition put {S} (s : S) : M S unit := fun _ => Some (tt, s).
Definition modify {S} (f : S -> S) : M S unit := fun s => Some (tt, f s).
Definition gets {S A} (f : S -> A) : M S A := fun s => Some (f s, s).
Definition lift_opt {S A} (o : option A) : M S A := fun s => (., s) <$> o.
Definition c_assert {S} (b : bool) : M S unit := if b then mret tt else stuck.

(** [for]/[while] loops: the body either yields the next loop state or leaves
    the loop with a value. *)
Fixpoint loopM {S A B} (fuel : nat) (body : A -> M S (A + B)) (a : A) : M S B :=
  match fuel with
  | O => stuck
  | Datatypes.S n =>
      r ← body a;
      match r with
      | inl a' => loopM n body a'
      | inr b => mret b
      end
  end.

(** Total correctness of a computation: it returns, and the result and final
    store satisfy [Q]. *)
Definition runs {S A} (m : M S A) (s : S) (Q : A -> S -> Prop) : Prop :=
  exists a s', m s = Some (a, s') /\ Q a s'.

Section runs.
Context {S : Type}.

Lemma runs_ret {A} (a : A) (s : S) Q : Q a s -> runs (mret a) s Q.
Proof. intros. by exists a, s. Qed.

Lemma runs_bind {A B} (m : M S A) (f : A -> M S B) s Q :
  runs m s (fun a s' => runs (f a) s' Q) -> runs (m ≫= f) s Q.
Proof.
  intros (a & s' & Hm & b & s'' & Hf & HQ). exists b, s''. split; [|done].
  unfold mbind, M_bind. by rewrite Hm.
Qed.

Lemma runs_mono {A} (m : M S A) s (P Q : A -> S -> Prop) :
  runs m s P -> (forall a s', P a s' -> Q a s') -> runs m s Q.
Proof. intros (a & s' & Hm & HP) HPQ. exists a, s'. auto. Qed.

Lemma runs_inv {A} (m : M S A) s a s' Q :
  m s = Some (a, s') -> runs m s Q -> Q a s'.
Proof. intros Hm (b & s'' & ? & ?). by simplify_eq. Qed.

Lemma runs_get (s : S) Q : Q s s -> runs get s Q.
Proof. intros. by exists s, s. Qed.

Lemma runs_gets {A} (f : S -> A) s Q : Q (f s) s -> runs (gets f) s Q.
Proof. intros. by exists (f s), s. Qed.

Lemma runs_put (s s0 : S) Q : Q tt s -> runs (put s) s0 Q.
Proof. intros. by exists tt, s. Qed.

Lemma runs_modify (f : S -> S) s Q : Q tt (f s) -> runs (modify f) s Q.
Proof. intros. by exists tt, (f s). Qed.

Lemma runs_assert (b : bool) (s : S) Q : b = true -> Q tt s -> runs (c_assert b) s Q.
Proof. intros -> ?. by exists tt, s. Qed.

(** A loop returns when the index of its invariant decreases. *)
Lemma runs_loop {A B} (I : nat -> A -> S -> Prop)
    (body : A -> M S (A + B)) (Q : B -> S -> Prop) fuel n a s :
  (forall n a s, I n a s ->
     runs (body a) s (fun r s' =>
       match r with
       | inl a' => exists n', (n' < n)%nat /\ I n' a' s'
       | inr b => Q b s'
       end)) ->
  I n a s -> (n < fuel)%nat -> runs (loopM fuel body a) s Q.
Proof.
  intros Hbody. revert n a s. induction fuel as [|fuel IH]; intros n a s HI Hn; [lia|].
  simpl. apply runs_bind. eapply runs_mono; [by eapply Hbody|].
  intros [a'|b] s'; [|by intros; apply runs_ret].
  intros (n' & Hlt & HI'). eapply IH; [done|lia].
Qed.

End runs.

(** Regrouping a sequence of steps. *)
Lemma runs_bind_assoc {S A B C} (m : M S A) (f : A -> M S B) (h : B -> M S C) s Q :
  runs ((m ≫= f) ≫= h) s Q -> runs (m ≫= fun x => f x ≫= h) s Q.
Proof.
  intros (c & s' & Hrun & HQ). exists c, s'. split; [|done]. revert Hrun. unfold mbind, M_bind.
  by destruct (m s) as [[x s1]|].
Qed.
