(* ===== verification/Conc.v ===== *)
(** * Shared words under interference

    The quota code of src/ldms/src/core works on words shared by several
    threads through atomic accesses (loads, stores, compare-and-exchange,
    add-and-fetch).  A thread is a computation over the shared state and the
    list of what the other threads do: before each atomic access of the
    thread the next pending action of the others takes effect.  The list is
    arbitrary but finite, so a theorem about every list covers every
    interleaving in which the others make finitely many moves, and a retry
    loop returns because each failed compare-and-exchange uses one of them
    up.  A field of the shared state is a [lens]. *)

From stdpp Require Import prelude.
From S2P Require Import Prelude.

(** ** Fields *)

Record lens (S A : Type) := Lens {
  lget : S -> A;
  lset : A -> S -> S;
}.
Arguments Lens {S A}.
Arguments lget {S A}.
Arguments lset {S A}.

Class LensOk {S A} (l : lens S A) : Prop := {
  lens_get_set : forall a s, lget l (lset l a s) = a;
  lens_set_get : forall s, lset l (lget l s) s = s;
  lens_set_set : forall a b s, lset l a (lset l b s) = lset l a s;
}.

Definition lens_id {S} : lens S S := Lens (fun s => s) (fun a _ => a).

Definition lens_comp {S A B} (l : lens S A) (k : lens A B) : lens S B :=
  Lens (fun s => lget k (lget l s))
       (fun b s => lset l (lset k b (lget l s)) s).

#[global] Instance lens_id_ok S : LensOk (@lens_id S).
Proof. done. Qed.

#[global] Instance lens_comp_ok {S A B} (l : lens S A) (k : lens A B) :
  LensOk l -> LensOk k -> LensOk (lens_comp l k).
Proof.
  intros Hl Hk. split; intros; simpl.
  - by rewrite !lens_get_set.
  - by rewrite !lens_set_get.
  - by rewrite lens_get_set, !lens_set_set.
Qed.

(** ** Atomic accesses *)

Record conc (S : Type) := Conc {
  shared : S;
  others : list (S -> S);
}.
Arguments Conc {S}.
Arguments shared {S}.
Arguments others {S}.

(** The actions of the others applied in order. *)
Definition run_others {S} (gs : list (S -> S)) (s : S) : S :=
  fold_left (fun s g => g s) gs s.

Section accesses.
Context {S : Type}.

Definition atomic {A} (f : S -> A * S) : M (conc S) A := fun c =>
  match others c with
  | [] => let '(a, s') := f (shared c) in Some (a, Conc s' [])
  | g :: gs => let '(a, s') := f (g (shared c)) in Some (a, Conc s' gs)
  end.

Definition load {A} (l : lens S A) : M (conc S) A :=
  atomic (fun s => (lget l s, s)).

Definition store {A} (l : lens S A) (v : A) : M (conc S) unit :=
  atomic (fun s => (tt, lset l v s)).

(** [__atomic_compare_exchange]: the value found, and whether it was the
    expected one and has been replaced. *)
Definition cas (l : lens S Z) (expected desired : Z) : M (conc S) (bool * Z) :=
  atomic (fun s =>
    let v := lget l s in
    if v =? expected then ((true, v), lset l desired s) else ((false, v), s)).

(** [__atomic_add_fetch] on a [uint64_t]. *)
Definition add_fetch (l : lens S Z) (n : Z) : M (conc S) Z :=
  atomic (fun s => let v := u64 (lget l s + n) in (v, lset l v s)).

(** A retry loop makes at most one round per pending action of the others,
    besides the first and the last. *)
Definition retries : M (conc S) nat := gets (fun c => 2 + length (others c))%nat.

(** [after P c c']: between [c] and [c'] the others took the actions [gs],
    the last access of the thread turned the state they led to into that of
    [c'], as [P] says. *)
Definition after (c c' : conc S) (P : S -> S -> Prop) : Prop :=
  exists gs, others c = gs ++ others c' /\ P (run_others gs (shared c)) (shared c').

Lemma runs_atomic {A} (f : S -> A * S) c Q :
  (forall gs rest,
     others c = gs ++ rest ->
     (length gs <= 1)%nat -> (gs = [] -> rest = []) ->
     Q (fst (f (run_others gs (shared c)))) (Conc (snd (f (run_others gs (shared c)))) rest)) ->
  runs (atomic f) c Q.
Proof.
  intros H. unfold runs, atomic. destruct (others c) as [|g gs] eqn:E.
  - specialize (H [] [] eq_refl). simpl in H.
    destruct (f (shared c)) as [a s']. exists a, (Conc s' []). split; [done|].
    apply H; [lia|done].
  - specialize (H [g] gs eq_refl). simpl in H.
    destruct (f (g (shared c))) as [a s']. exists a, (Conc s' gs). split; [done|].
    apply H; [lia|done].
Qed.

Lemma run_others_app (gs hs : list (S -> S)) s :
  run_others (gs ++ hs) s = run_others hs (run_others gs s).
Proof. apply fold_left_app. Qed.

(** Without interference an access is a plain one. *)
Lemma runs_atomic_alone {A} (f : S -> A * S) s Q :
  Q (fst (f s)) (Conc (snd (f s)) []) -> runs (atomic f) (Conc s []) Q.
Proof.
  intros. apply runs_atomic. intros gs rest H1 _ _. simpl in *.
  symmetry in H1. apply app_eq_nil in H1 as [-> ->]. done.
Qed.

End accesses.

(** ** Rules for the accesses *)

Section access_rules.
Context {S : Type}.
Implicit Types (c : conc S) (gs rest : list (S -> S)).

(** The moves of the others around one access: at most one action, and none
    only when none is left. *)
Definition one_move (l gs rest : list (S -> S)) : Prop :=
  l = gs ++ rest /\ (length gs <= 1)%nat /\ (gs = [] -> rest = []).

Lemma runs_load {A} (l : lens S A) c Q :
  (forall gs rest, one_move (others c) gs rest ->
     Q (lget l (run_others gs (shared c))) (Conc (run_others gs (shared c)) rest)) ->
  runs (load l) c Q.
Proof. intros H. apply runs_atomic. intros. by apply H. Qed.

Lemma runs_cas (l : lens S Z) e d c Q :
  (forall gs rest, one_move (others c) gs rest ->
     lget l (run_others gs (shared c)) = e ->
     Q (true, e) (Conc (lset l d (run_others gs (shared c))) rest)) ->
  (forall gs rest, one_move (others c) gs rest ->
     lget l (run_others gs (shared c)) <> e ->
     Q (false, lget l (run_others gs (shared c))) (Conc (run_others gs (shared c)) rest)) ->
  runs (cas l e d) c Q.
Proof.
  intros Ht Hf. apply runs_atomic. intros gs rest H1 H2 H3.
  destruct (Z.eqb_spec (lget l (run_others gs (shared c))) e) as [Heq|Hne]; simpl.
  - rewrite Heq, Z.eqb_refl. by apply Ht.
  - rewrite (proj2 (Z.eqb_neq _ _) Hne). by apply Hf.
Qed.

Lemma runs_add_fetch (l : lens S Z) n c Q :
  (forall gs rest, one_move (others c) gs rest ->
     let v := u64 (lget l (run_others gs (shared c)) + n) in
     Q v (Conc (lset l v (run_others gs (shared c))) rest)) ->
  runs (add_fetch l n) c Q.
Proof. intros H. apply runs_atomic. intros. by apply H. Qed.

Lemma one_move_nil gs rest : one_move [] gs rest -> gs = [] /\ rest = [].
Proof. intros (H & _ & _). symmetry in H. by apply app_eq_nil in H. Qed.

(** An access after which the state differs used an action up. *)
Lemma one_move_shorter l gs rest (s : S) :
  one_move l gs rest -> run_others gs s <> s -> (length rest < length l)%nat.
Proof.
  intros (-> & _ & _) Hne. destruct gs as [|g gs]; [done|].
  simpl. rewrite length_app. lia.
Qed.

Lemma run_others_inv (P : S -> Prop) gs s :
  Forall (fun g => forall s, P s -> P (g s)) gs -> P s -> P (run_others gs s).
Proof. intros H. revert s. induction H as [|g gs Hg _ IH]; intros s Hs; simpl; eauto. Qed.

Lemma after_trans (c c1 c' : conc S) (P : S -> S -> Prop) gs :
  others c = gs ++ others c1 -> shared c1 = run_others gs (shared c) ->
  after c1 c' P -> after c c' P.
Proof.
  intros Ho Hs (hs & Ho' & HP). exists (gs ++ hs). rewrite Ho, Ho', <- app_assoc.
  split; [done|]. by rewrite run_others_app, <- Hs.
Qed.

(** A retry loop returns when every failed round uses an action up. *)
Lemma runs_retries {A B} (I : A -> conc S -> Prop) (body : A -> M (conc S) (A + B)) a c
    (Q : B -> conc S -> Prop) :
  I a c ->
  (forall a c1, I a c1 -> runs (body a) c1 (fun r c2 =>
     match r with
     | inl a' => I a' c2 /\ (length (others c2) < length (others c1))%nat
     | inr b => Q b c2
     end)) ->
  runs (k ← retries; loopM k body a) c Q.
Proof.
  intros HI Hb. apply runs_bind, runs_gets.
  apply (runs_loop (fun k a c1 => I a c1 /\ k = length (others c1)))
    with (n := length (others c)); [|done|lia].
  intros k a1 c1 (HI1 & ->). eapply runs_mono; [by apply Hb|].
  intros [a'|b] c2; [|done]. intros (? & ?). eauto.
Qed.

End access_rules.

(** Without interference. *)
Ltac alone := match goal with
  | H : one_move _ ?gs ?rest |- _ => apply one_move_nil in H as [-> ->]
  end; simpl in *.

Lemma after_alone {S} (s : S) c' (P : S -> S -> Prop) :
  after (Conc s []) c' P -> exists s', c' = Conc s' [] /\ P s s'.
Proof.
  intros (gs & Ho & HP). simpl in Ho. symmetry in Ho. apply app_eq_nil in Ho as [-> Ho].
  destruct c' as [s' o]. simpl in *; subst. eauto.
Qed.

(** ** Partial correctness: what holds if the computation returns *)

Definition holds {S A} (m : M S A) (s : S) (Q : A -> S -> Prop) : Prop :=
  forall a s', m s = Some (a, s') -> Q a s'.

Section holds.
Context {S : Type}.

Lemma holds_of_runs {A} (m : M S A) s Q : runs m s Q -> holds m s Q.
Proof. intros (a & s' & Hm & HQ) b s'' Hb. congruence. Qed.

Lemma holds_ret {A} (a : A) (s : S) (Q : A -> S -> Prop) : Q a s -> holds (mret a) s Q.
Proof. intros HQ b s' [= -> ->]. done. Qed.

Lemma holds_bind {A B} (m : M S A) (f : A -> M S B) s Q :
  holds m s (fun a s' => holds (f a) s' Q) -> holds (m ≫= f) s Q.
Proof.
  intros H b s'. unfold mbind, M_bind. destruct (m s) as [[a s1]|] eqn:E; [|done].
  intros Hf. eapply H; eauto.
Qed.

Lemma holds_mono {A} (m : M S A) s (P Q : A -> S -> Prop) :
  holds m s P -> (forall a s', P a s' -> Q a s') -> holds m s Q.
Proof. intros H HPQ a s' Hm. auto. Qed.

Lemma holds_stuck {A} (s : S) (Q : A -> S -> Prop) : holds stuck s Q.
Proof. done. Qed.

Lemma holds_assert (b : bool) (s : S) (Q : unit -> S -> Prop) :
  (b = true -> Q tt s) -> holds (c_assert b) s Q.
Proof. destruct b; [intros H; by apply holds_ret, H|done]. Qed.

Lemma holds_gets {A} (f : S -> A) s (Q : A -> S -> Prop) : Q (f s) s -> holds (gets f) s Q.
Proof. intros HQ b s' [= <- <-]. done. Qed.

Lemma holds_modify (f : S -> S) s (Q : unit -> S -> Prop) : Q tt (f s) -> holds (modify f) s Q.
Proof. intros HQ b s' [= <- <-]. done. Qed.

Lemma holds_lift_opt {A} (o : option A) (s : S) (Q : A -> S -> Prop) :
  (forall a, o = Some a -> Q a s) -> holds (lift_opt o) s Q.
Proof. intros HQ a s'. unfold lift_opt. destruct o; simpl; [|done]. intros [= -> ->]. auto. Qed.
End holds.

Lemma holds_atomic_alone {S A} (f : S -> A * S) s (Q : A -> conc S -> Prop) :
  Q (fst (f s)) (Conc (snd (f s)) []) -> holds (atomic f) (Conc s []) Q.
Proof. intros. by apply holds_of_runs, runs_atomic_alone. Qed.

(** One step of a computation followed without interference. *)
Ltac hstep := match goal with
  | |- holds (mret _) _ _ => apply holds_ret
  | |- holds (_ ≫= _) _ _ => apply holds_bind
  | |- holds stuck _ _ => apply holds_stuck
  | |- holds (c_assert _) _ _ => apply holds_assert; intros ?
  | |- holds (gets _) _ _ => apply holds_gets
  | |- holds (modify _) _ _ => apply holds_modify
  | |- holds (lift_opt _) _ _ => apply holds_lift_opt; intros ? ?
  | |- holds (atomic _) _ _ => apply holds_atomic_alone
  | |- holds (load _) _ _ => apply holds_atomic_alone
  | |- holds (store _ _) _ _ => apply holds_atomic_alone
  | |- holds (add_fetch _ _) _ _ => apply holds_atomic_alone
  | |- holds (let '(_, _) := ?x in _) _ _ => destruct x
  end.
