(* ===== verification/Ref.v ===== *)
(** * Reference counts: lib/src/ovis_ref/ref.h

    The counter that the scheduler, the transports and the configuration
    objects of the daemon use, in its two builds: the plain one, and the one
    that tracks the references by name ([_REF_TRACK_]).  The header asks its
    users to protect the last [ref_put] and recommends a collection with a
    lock; that protocol is modelled as a transition system. *)

From stdpp Require Import prelude strings.
From S2P Require Import Prelude.

Open Scope Z_scope.

(** ** The counter *)

Record ref_inst_s := RefInst {
  inst_name : string;
  inst_count : Z;
  get_func : string;
  get_line : Z;
  put_func : option string;
  put_line : Z
}.

(** [free_fn] and its argument are the user's; [r_head] is the list of the
    tracking build. *)
Record ref_s := Ref { r_count : Z; r_head : list ref_inst_s }.

(** The result of [_ref_put]: the count, and whether [free_fn] was called. *)
Definition ref_put_plain (name func : string) (line : Z) : M ref_s (Z * bool) :=
  r ← get;
  let count := s32 (r_count r - 1) in
  put (Ref count (r_head r));;
  mret (count, count =? 0).

Definition ref_get_plain (name func : string) (line : Z) : M ref_s unit :=
  r ← get;
  put (Ref (s32 (r_count r + 1)) (r_head r)).

Definition ref_init_plain (name func : string) (line : Z) : ref_s := Ref 1 [].

(** ** The build that tracks references *)

(** The instance with the name, changed by [f]; [None] when there is none or
    an assertion fails. *)
Fixpoint inst_update (name : string) (f : ref_inst_s -> option ref_inst_s) (l : list ref_inst_s) : option (list ref_inst_s) :=
  match l with
  | [] => None
  | i :: l => if bool_decide (inst_name i = name) then (.:: l) <$> f i else (i ::.) <$> inst_update name f l
  end.

Definition has_inst (name : string) (l : list ref_inst_s) : bool := existsb (fun i => bool_decide (inst_name i = name)) l.

(** The operations hold the lock, so each is one step.  The put that reaches
    zero calls the release function and leaves the lock taken; an operation
    after it, which would block, fails here: a get on the count, a put on the
    count of its name. *)
Definition ref_put_track (name func : string) (line : Z) : M ref_s (Z * bool) :=
  r ← get;
  l ← lift_opt (inst_update name (fun i =>
        if inst_count i =? 0 then None
        else Some (RefInst (inst_name i) (s32 (inst_count i - 1)) (get_func i) (get_line i) (Some func) line)) (r_head r));
  let count := s32 (r_count r - 1) in
  put (Ref count l);;
  mret (count, count =? 0).

Definition ref_get_track (name func : string) (line : Z) : M ref_s unit :=
  r ← get;
  c_assert (negb (r_count r =? 0));;
  if has_inst name (r_head r) then
    l ← lift_opt (inst_update name (fun i =>
          Some (RefInst (inst_name i) (s32 (inst_count i + 1)) func line (put_func i) (put_line i))) (r_head r));
    put (Ref (s32 (r_count r + 1)) l)
  else
    put (Ref (s32 (r_count r + 1)) (RefInst name 1 func line None 0 :: r_head r)).

Definition ref_init_track (name func : string) (line : Z) : ref_s := Ref 1 [RefInst name 1 func line None 0].

(** ** The two builds agree *)

Inductive ref_op := RGet (name func : string) (line : Z) | RPut (name func : string) (line : Z).

(** What the caller sees of an operation. *)
Definition do_plain (op : ref_op) : M ref_s (option (Z * bool)) :=
  match op with
  | RGet n f l => ref_get_plain n f l;; mret None
  | RPut n f l => r ← ref_put_plain n f l; mret (Some r)
  end.

Definition do_track (op : ref_op) : M ref_s (option (Z * bool)) :=
  match op with
  | RGet n f l => ref_get_track n f l;; mret None
  | RPut n f l => r ← ref_put_track n f l; mret (Some r)
  end.

Fixpoint do_ops (f : ref_op -> M ref_s (option (Z * bool))) (ops : list ref_op) : M ref_s (list (option (Z * bool))) :=
  match ops with
  | [] => mret []
  | op :: ops => r ← f op; rs ← do_ops f ops; mret (r :: rs)
  end.

Definition inst_sum (l : list ref_inst_s) : Z := foldr (fun i n => inst_count i + n) 0 l.

(** The names are distinct, the counts are in range and add up to the total. *)
Definition track_ok (r : ref_s) : Prop :=
  NoDup (inst_name <$> r_head r) /\ Forall (fun i => 0 <= inst_count i) (r_head r) /\ inst_sum (r_head r) = r_count r /\
  r_count r < 2 ^ 31.

(** The references with a name. *)
Definition named (name : string) (r : ref_s) : Z :=
  foldr (fun i n => (if bool_decide (inst_name i = name) then inst_count i else 0) + n) 0 (r_head r).

(** Gets stay below the width of the counter. *)
Definition bounded (r : ref_s) (ops : list ref_op) : Prop := r_count r + Z.of_nat (length ops) < 2 ^ 31.

(** The operations are paired: a put finds a reference with its name, and a
    get a counter that is not zero. *)
Fixpoint paired (r : string -> Z) (total : Z) (ops : list ref_op) : bool :=
  match ops with
  | [] => true
  | RGet n _ _ :: ops => (0 <? total) && paired (fun m => if bool_decide (m = n) then r m + 1 else r m) (total + 1) ops
  | RPut n _ _ :: ops => (0 <? r n) && paired (fun m => if bool_decide (m = n) then r m - 1 else r m) (total - 1) ops
  end.

(** ** Tracking *)

Lemma update_inst name f l l' :
  inst_update name f l = Some l' ->
  exists l1 i i' l2, l = l1 ++ i :: l2 /\ l' = l1 ++ i' :: l2 /\ f i = Some i' /\ inst_name i = name /\
    Forall (fun j => inst_name j <> name) l1.
Proof.
  revert l'. induction l as [|j l IH]; intros l'; cbn; [done|]. case_bool_decide as Hj.
  - intros (i' & Hi & ->)%fmap_Some. exists [], j, i', l. by rewrite Forall_nil.
  - intros (l1 & (l0 & i & i' & l2 & -> & -> & ? & ? & ?)%IH & ->)%fmap_Some.
    exists (j :: l0), i, i', l2. split_and!; try done. by constructor.
Qed.

Lemma inst_update_is_Some name f l :
  has_inst name l = true -> (forall i, i ∈ l -> inst_name i = name -> is_Some (f i)) -> is_Some (inst_update name f l).
Proof.
  induction l as [|j l IH]; cbn; [done|]. case_bool_decide as Hj; cbn; intros Hn Hf.
  - destruct (Hf j) as [i ->]; [left|done|]. by eexists.
  - destruct IH as [l' ->]; [done|intros; apply Hf; [by right|done]|]. by eexists.
Qed.

Lemma update_refused name f l :
  has_inst name l = true -> inst_update name f l = None ->
  exists l1 i l2, l = l1 ++ i :: l2 /\ inst_name i = name /\ f i = None.
Proof.
  induction l as [|j l IH]; cbn; [done|]. case_bool_decide as Hj; cbn; intros Hn Hf.
  - exists [], j, l. split_and!; try done. by apply fmap_None in Hf.
  - apply fmap_None in Hf. destruct (IH Hn Hf) as (l1 & i & l2 & -> & ? & ?). by exists (j :: l1), i, l2.
Qed.

Lemma inst_sum_app l1 l2 : inst_sum (l1 ++ l2) = inst_sum l1 + inst_sum l2.
Proof. induction l1 as [|i l IH]; cbn; [done|]. unfold inst_sum in *. lia. Qed.

Lemma named_le name l : Forall (fun i => 0 <= inst_count i) l ->
  0 <= foldr (fun i n => (if bool_decide (inst_name i = name) then inst_count i else 0) + n) 0 l <= inst_sum l.
Proof. induction 1 as [|i l Hi _ IH]; cbn; [done|]. case_bool_decide; unfold inst_sum in *; lia. Qed.

Definition count_named (name : string) (l : list ref_inst_s) : Z :=
  foldr (fun i n => (if bool_decide (inst_name i = name) then inst_count i else 0) + n) 0 l.

Lemma count_named_app name l1 l2 : count_named name (l1 ++ l2) = count_named name l1 + count_named name l2.
Proof. induction l1 as [|i l IH]; cbn; [done|]. unfold count_named in *. lia. Qed.

Lemma count_named_absent name l : name ∉ (inst_name <$> l) -> count_named name l = 0.
Proof.
  induction l as [|i l IH]; cbn; [done|]. rewrite not_elem_of_cons. intros [Hi Hl]. rewrite bool_decide_false by congruence.
  unfold count_named in IH. rewrite IH by done. done.
Qed.

(** One instance of a tracked counter changes by [d]. *)
Lemma track_update name r l1 i i' l2 d :
  track_ok r -> r_head r = l1 ++ i :: l2 -> inst_name i = name -> inst_name i' = name -> inst_count i' = inst_count i + d ->
  0 <= inst_count i' -> r_count r + d < 2 ^ 31 ->
  track_ok (Ref (r_count r + d) (l1 ++ i' :: l2)) /\ count_named name (r_head r) = inst_count i /\
  forall m, count_named m (l1 ++ i' :: l2) = if bool_decide (m = name) then count_named m (r_head r) + d else count_named m (r_head r).
Proof.
  intros (Hnd & Hpos & Hsum & _) Hh Hi Hi' Hd H0 Hlt. rewrite Hh in *. rewrite fmap_app, fmap_cons in Hnd.
  rewrite Forall_app, Forall_cons in Hpos. destruct Hpos as (Hp1 & Hp2 & Hp3). rewrite inst_sum_app in Hsum. cbn in Hsum.
  apply NoDup_app in Hnd as (Hn1 & Hdis & Hn2). apply NoDup_cons in Hn2 as [Hni Hn2].
  assert (name ∉ (inst_name <$> l1)) as Hnot1.
  { intros Hin. apply (Hdis name Hin). rewrite Hi. left. }
  rewrite Hi in Hni. assert (count_named name (l1 ++ i :: l2) = inst_count i) as Hc.
  { rewrite count_named_app, (count_named_absent name l1) by done. cbn. rewrite bool_decide_true by done.
    fold (count_named name l2). rewrite count_named_absent by done. lia. }
  unfold track_ok. split_and!; [| | |cbn; lia|done|].
  - cbn. rewrite fmap_app, fmap_cons. apply NoDup_app. split_and!; [done| |].
    + intros x Hx. rewrite Hi'. rewrite not_elem_of_cons. specialize (Hdis x Hx). rewrite not_elem_of_cons, Hi in Hdis. done.
    + apply NoDup_cons. by rewrite Hi'.
  - cbn. rewrite Forall_app, Forall_cons. done.
  - cbn. rewrite inst_sum_app. cbn. unfold inst_sum in *. lia.
  - intros m. rewrite !count_named_app. cbn. rewrite Hi, Hi'. fold (count_named m l2).
    destruct (decide (m = name)) as [->|]; [rewrite !bool_decide_true by done|rewrite !bool_decide_false by congruence]; lia.
Qed.

(** ** Each operation on both counters *)

Section agree.
Context (r p : ref_s) (Hr : track_ok r) (Hp : r_count p = r_count r) (Hlt : r_count r + 1 < 2 ^ 31).

Lemma count_nonneg : 0 <= r_count r.
Proof. destruct Hr as (_ & Hpos & <- & _). induction Hpos; cbn; [done|]. unfold inst_sum in *. lia. Qed.

(** Both did the same, and [name] changed by [d]. *)
Definition both (name : string) (d : Z) (res : option (Z * bool)) (r1 p1 : ref_s) : Prop :=
  track_ok r1 /\ r_count p1 = r_count r1 /\ r_count r1 = r_count r + d /\
  (forall m, count_named m (r_head r1) = if bool_decide (m = name) then count_named m (r_head r) + d else count_named m (r_head r)) /\
  match res with None => d = 1 | Some (c, fr) => d = -1 /\ c = r_count r1 /\ fr = (c =? 0) end.

Lemma has_inst_named name : has_inst name (r_head r) = false -> name ∉ (inst_name <$> r_head r).
Proof.
  generalize (r_head r). induction l as [|i l IH]; cbn; [intros _ Hin; by apply elem_of_nil in Hin|].
  case_bool_decide; cbn; [done|]. intros Hl. rewrite not_elem_of_cons. split; [congruence|by apply IH].
Qed.

Lemma get_agrees n f l :
  if 0 <? r_count r then exists r1 p1, do_track (RGet n f l) r = Some (None, r1) /\ do_plain (RGet n f l) p = Some (None, p1) /\
    both n 1 None r1 p1
  else do_track (RGet n f l) r = None.
Proof.
  pose proof count_nonneg as Hc0. unfold do_track, do_plain, ref_get_track, ref_get_plain, get, put, mbind, M_bind, mret, M_ret, c_assert. cbn.
  destruct (Z.ltb_spec 0 (r_count r)) as [Hc|Hc]; [|by replace (r_count r) with 0 by lia].
  rewrite (proj2 (Z.eqb_neq _ _)) by lia. cbn. rewrite Hp, s32_small by lia.
  destruct (has_inst n (r_head r)) eqn:Hh.
  - destruct (inst_update_is_Some n (fun i => Some (RefInst (inst_name i) (s32 (inst_count i + 1)) f l (put_func i) (put_line i)))
      (r_head r)) as [l' Hl']; [done|by eexists|]. rewrite Hl'. cbn. eexists _, _. split; [done|]. split; [done|].
    apply update_inst in Hl' as (l1 & i & i' & l2 & Hl1 & -> & [= <-] & Hn & _).
    assert (inst_count i <= r_count r /\ 0 <= inst_count i) as Hi.
    { destruct Hr as (_ & Hpos & Hs & _). rewrite Hl1 in Hpos, Hs. rewrite inst_sum_app in Hs. cbn in Hs.
      rewrite Forall_app, Forall_cons in Hpos. destruct Hpos as (H1 & H2 & H3).
      pose proof (named_le n l1 H1). pose proof (named_le n l2 H3). unfold inst_sum in *. lia. }
    destruct (track_update n r l1 i (RefInst (inst_name i) (s32 (inst_count i + 1)) f l (put_func i) (put_line i)) l2 1) as (Hok & _ & Hm);
      cbn; try done; rewrite s32_small; lia.
  - eexists _, _. split; [done|]. split; [done|]. apply has_inst_named in Hh. destruct Hr as (Hnd & Hpos & Hs & _).
    unfold both, track_ok. cbn. split_and!; try done; try lia.
    + apply NoDup_cons. done.
    + constructor; [done|done].
    + unfold inst_sum in *. lia.
    + intros m. destruct (decide (m = n)) as [->|]; [rewrite !bool_decide_true by done|rewrite !bool_decide_false by congruence];
        unfold count_named; lia.
Qed.

Lemma put_agrees n f l :
  if 0 <? count_named n (r_head r) then exists r1 p1 c, do_track (RPut n f l) r = Some (Some c, r1) /\ do_plain (RPut n f l) p = Some (Some c, p1) /\
    both n (-1) (Some c) r1 p1
  else do_track (RPut n f l) r = None.
Proof.
  pose proof count_nonneg as Hc0. unfold do_track, do_plain, ref_put_track, ref_put_plain, get, put, mbind, M_bind, mret, M_ret. cbn.
  destruct (inst_update n _ (r_head r)) as [l'|] eqn:Hl'; cbn.
  - apply update_inst in Hl' as (l1 & i & i' & l2 & Hl1 & -> & Hf & Hn & _).
    destruct (Z.eqb_spec (inst_count i) 0) as [|Hne]; [done|]. injection Hf as <-.
    assert (0 < inst_count i <= r_count r) as Hi.
    { destruct Hr as (_ & Hpos & Hs & _). rewrite Hl1 in Hpos, Hs. rewrite inst_sum_app in Hs. cbn in Hs.
      rewrite Forall_app, Forall_cons in Hpos. destruct Hpos as (H1 & H2 & H3).
      pose proof (named_le n l1 H1). pose proof (named_le n l2 H3). unfold inst_sum in *. lia. }
    destruct (track_update n r l1 i (RefInst (inst_name i) (s32 (inst_count i - 1)) (get_func i) (get_line i) (Some f) l) l2 (-1)) as (Hok & Hcn & Hm);
      cbn; try done; try (rewrite s32_small; lia); try lia.
    rewrite Hcn, (proj2 (Z.ltb_lt _ _)) by lia. rewrite Hp, s32_small by lia. eexists _, _, _. split; [done|]. split; [done|].
    replace (r_count r - 1) with (r_count r + -1) by lia. by split_and!.
  - destruct (Z.ltb_spec 0 (count_named n (r_head r))) as [Hlt'|]; [|done]. exfalso.
    destruct (has_inst n (r_head r)) eqn:Hh; [|rewrite count_named_absent in Hlt' by (by apply has_inst_named); lia].
    destruct (update_refused _ _ _ Hh Hl') as (l1 & i & l2 & Hl1 & Hn & Hf). destruct (Z.eqb_spec (inst_count i) 0) as [H0|]; [|done].
    destruct Hr as (Hnd & _). rewrite Hl1, fmap_app, fmap_cons in Hnd. apply NoDup_app in Hnd as (_ & Hdis & [Hni _]%NoDup_cons).
    rewrite Hl1, count_named_app, count_named_absent in Hlt'.
    + cbn in Hlt'. rewrite bool_decide_true, H0 in Hlt' by done. fold (count_named n l2) in Hlt'.
      rewrite count_named_absent in Hlt' by (by rewrite Hn in Hni). lia.
    + intros Hin. apply (Hdis n Hin). rewrite Hn. left.
Qed.
End agree.

(** C29: the build that tracks references and the plain one agree.  On counters
    with the same count, every sequence of gets and puts in which each get finds
    a live counter and each put a reference with its name gives the same
    results and the same calls of [free_fn] in both builds; in every other
    sequence the tracking build stops at an assertion. *)
Theorem ref_track_agrees r p ops :
  track_ok r -> r_count p = r_count r -> bounded r ops ->
  match do_ops do_track ops r with
  | Some (rs, r1) =>
      paired (fun n => count_named n (r_head r)) (r_count r) ops = true /\ track_ok r1 /\
      exists p1, do_ops do_plain ops p = Some (rs, p1) /\ r_count p1 = r_count r1
  | None => paired (fun n => count_named n (r_head r)) (r_count r) ops = false
  end.
Proof.
  assert (forall ops r p f, track_ok r -> r_count p = r_count r -> bounded r ops -> (forall n, f n = count_named n (r_head r)) ->
    match do_ops do_track ops r with
    | Some (rs, r1) => paired f (r_count r) ops = true /\ track_ok r1 /\
        exists p1, do_ops do_plain ops p = Some (rs, p1) /\ r_count p1 = r_count r1
    | None => paired f (r_count r) ops = false
    end) as Hall; [|by intros; apply Hall].
  clear r p ops. induction ops as [|op ops IH]; intros r p f Hok Hp Hb Hf; cbn [do_ops].
  { cbn. split_and!; try done. by eexists. }
  unfold bounded in Hb. cbn in Hb.
  assert (r_count r + 1 < 2 ^ 31) as Hlt by lia.
  destruct op as [n fn l|n fn l].
  - pose proof (get_agrees r p Hok Hp Hlt n fn l) as Hg. cbn [paired]. destruct (Z.ltb_spec 0 (r_count r)) as [Hc|Hc]; [|unfold mbind, M_bind; by rewrite Hg].
    destruct Hg as (r1 & p1 & Hg1 & Hg2 & Hok1 & Hp1 & Hc1 & Hm & _). unfold mbind, M_bind. rewrite Hg1, Hg2. cbn [andb].
    specialize (IH r1 p1 (fun m => if bool_decide (m = n) then f m + 1 else f m) Hok1 Hp1 ltac:(unfold bounded; lia)).
    rewrite Hc1 in IH. destruct (do_ops do_track ops r1) as [[rs r2]|].
    + destruct IH as (? & ? & p2 & -> & ?); [intros m; rewrite Hm, Hf; done|]. split_and!; try done. by eexists.
    + apply IH. intros m. by rewrite Hm, Hf.
  - pose proof (put_agrees r p Hok Hp Hlt n fn l) as Hg. cbn [paired]. rewrite Hf.
    destruct (Z.ltb_spec 0 (count_named n (r_head r))) as [Hc|Hc]; [|unfold mbind, M_bind; by rewrite Hg].
    destruct Hg as (r1 & p1 & c & Hg1 & Hg2 & Hok1 & Hp1 & Hc1 & Hm & _). unfold mbind, M_bind. rewrite Hg1, Hg2. cbn [andb].
    specialize (IH r1 p1 (fun m => if bool_decide (m = n) then f m - 1 else f m) Hok1 Hp1 ltac:(unfold bounded; lia)).
    replace (r_count r - 1) with (r_count r1) by lia. destruct (do_ops do_track ops r1) as [[rs r2]|].
    + destruct IH as (? & ? & p2 & -> & ?); [intros m; rewrite Hm, Hf; case_bool_decide; lia|]. split_and!; try done. by eexists.
    + apply IH. intros m. rewrite Hm, Hf. case_bool_decide; lia.
Qed.

Definition ex_ops : list ref_op :=
  [RGet "list" "insert" 10; RGet "list" "insert" 11; RPut "init" "destroy" 20; RPut "list" "remove" 30; RPut "list" "remove" 31].

Lemma ex_track_ok : track_ok (ref_init_track "init" "create" 5).
Proof. unfold track_ok. cbn. split_and!; [apply NoDup_singleton|by repeat constructor|done|done]. Qed.

Lemma ref_track_agrees_witness :
  do_ops do_track ex_ops (ref_init_track "init" "create" 5) <> None /\
  match do_ops do_track ex_ops (ref_init_track "init" "create" 5) with
  | Some (rs, r1) =>
      paired (fun n => count_named n (r_head (ref_init_track "init" "create" 5))) 1 ex_ops = true /\ track_ok r1 /\
      exists p1, do_ops do_plain ex_ops (ref_init_plain "init" "create" 5) = Some (rs, p1) /\ r_count p1 = r_count r1
  | None => paired (fun n => count_named n (r_head (ref_init_track "init" "create" 5))) 1 ex_ops = false
  end.
Proof.
  split; [by vm_compute|].
  exact (ref_track_agrees (ref_init_track "init" "create" 5) (ref_init_plain "init" "create" 5) ex_ops ex_track_ok eq_refl eq_refl).
Defined.

(** ** The protocol of the header

    An object in a collection that a lock protects: its owner has a reference
    while it is in the collection; others take one when they find the object
    there, and pass references on.  A thread that has brought the count to
    zero calls [free_fn] afterwards, in a step of its own. *)

Record shared_obj := Obj {
  o_ref : ref_s;
  o_listed : bool;      (** in the collection *)
  o_users : nat;        (** references of users *)
  o_removing : bool;    (** the owner has removed it and not put its reference yet *)
  o_freeing : nat;      (** calls of [free_fn] that are due *)
  o_freed : nat         (** calls of [free_fn] made *)
}.

Definition new_obj : shared_obj := Obj (ref_init_plain "owner" "new" 0) true 0 false 0 0.

(** The references the threads have. *)
Definition refs_out (o : shared_obj) : Z :=
  Z.of_nat (o_users o) + (if o_listed o || o_removing o then 1 else 0).

Inductive obj_step (o : shared_obj) : shared_obj -> Prop :=
  | obj_lookup n r :
      o_listed o = true -> refs_out o + 1 < 2 ^ 31 -> ref_get_plain n "lookup" 0 (o_ref o) = Some (tt, r) ->
      obj_step o (Obj r true (S (o_users o)) (o_removing o) (o_freeing o) (o_freed o))
  | obj_pass n r u :
      o_users o = S u -> refs_out o + 1 < 2 ^ 31 -> ref_get_plain n "pass" 0 (o_ref o) = Some (tt, r) ->
      obj_step o (Obj r (o_listed o) (S (S u)) (o_removing o) (o_freeing o) (o_freed o))
  | obj_release n r u c (fr : bool) :
      o_users o = S u -> ref_put_plain n "release" 0 (o_ref o) = Some ((c, fr), r) ->
      obj_step o (Obj r (o_listed o) u (o_removing o) (if fr then S (o_freeing o) else o_freeing o) (o_freed o))
  | obj_remove :
      o_listed o = true -> obj_step o (Obj (o_ref o) false (o_users o) true (o_freeing o) (o_freed o))
  | obj_drop n r c (fr : bool) :
      o_removing o = true -> ref_put_plain n "drop" 0 (o_ref o) = Some ((c, fr), r) ->
      obj_step o (Obj r (o_listed o) (o_users o) false (if fr then S (o_freeing o) else o_freeing o) (o_freed o))
  | obj_free f :
      o_freeing o = S f -> obj_step o (Obj (o_ref o) (o_listed o) (o_users o) (o_removing o) f (S (o_freed o))).

Definition obj_inv (o : shared_obj) : Prop :=
  r_count (o_ref o) = refs_out o /\ 0 <= refs_out o < 2 ^ 31 /\ (o_listed o && o_removing o = false) /\
  Z.of_nat (o_freeing o + o_freed o) = if refs_out o =? 0 then 1 else 0.

Lemma obj_inv_step o o' : obj_inv o -> obj_step o o' -> obj_inv o'.
Proof.
  intros (Hc & Hr & Hlr & Hf) Hst. unfold obj_inv, refs_out in *.
  destruct Hst; cbn in *; unfold refs_out, ref_get_plain, ref_put_plain, get, put, mbind, M_bind, mret, M_ret in *; cbn in *; simplify_eq; cbn;
    repeat match goal with H : o_listed _ = _ |- _ => rewrite H in * | H : o_removing _ = _ |- _ => rewrite H in * | H : o_users _ = _ |- _ => rewrite H in * end;
    cbn in *; rewrite ?Hc, ?s32_small by (destruct (o_listed o), (o_removing o); cbn in *; lia);
    destruct (o_listed o), (o_removing o); cbn in *;
    repeat match goal with H : context [?a =? ?b] |- _ => destruct (Z.eqb_spec a b) | |- context [?a =? ?b] => destruct (Z.eqb_spec a b) end;
    cbn; split_and!; try done; lia.
Qed.

(** C27: the recommended protocol is safe.  In every interleaving of look-ups,
    hand-overs, releases and removal, [free_fn] is called at most once, only
    after the object left the collection and the last user released it, and
    from then on nobody has a reference to it. *)
Theorem ref_protocol_frees_once o :
  rtc obj_step new_obj o ->
  (o_freeing o + o_freed o <= 1)%nat /\
  ((0 < o_freeing o + o_freed o)%nat <-> o_listed o = false /\ o_removing o = false /\ o_users o = O) /\
  r_count (o_ref o) = refs_out o.
Proof.
  intros Hr. assert (obj_inv o) as (Hc & Hb & _ & Hf).
  { assert (obj_inv new_obj) as H0 by (by unfold obj_inv).
    revert H0. induction Hr as [|o1 o2 o3 Hst _ IH]; [done|]. intros H1. apply IH. by eapply obj_inv_step. }
  unfold refs_out in *. split_and!; [case_match; lia| |done].
  destruct (Z.eqb_spec (Z.of_nat (o_users o) + (if o_listed o || o_removing o then 1 else 0)) 0) as [H0|H0];
    destruct (o_listed o), (o_removing o); cbn in H0; split;
    first [intros (? & ? & ?); done || lia | intros ?; split_and!; done || lia | intros ?; lia].
Qed.

(** A user finds the object, the owner removes it, and the user is the last. *)
Definition freed_obj : shared_obj := Obj (Ref 0 []) false 0 false 0 1.

Lemma freed_reached : rtc obj_step new_obj freed_obj.
Proof.
  eapply rtc_l; [by apply (obj_lookup _ "user" (Ref 2 []))|]. eapply rtc_l; [by apply obj_remove|].
  eapply rtc_l; [by apply (obj_drop _ "owner" (Ref 1 []) 1 false)|].
  eapply rtc_l; [by apply (obj_release _ "user" (Ref 0 []) 0 0 true)|].
  eapply rtc_l; [by apply (obj_free _ 0)|]. apply rtc_refl.
Qed.

Lemma ref_protocol_frees_once_witness :
  (0 < o_freeing freed_obj + o_freed freed_obj <= 1)%nat /\ o_users freed_obj = O.
Proof.
  destruct (ref_protocol_frees_once freed_obj freed_reached) as (H1 & [H2 _] & _).
  assert (0 < o_freeing freed_obj + o_freed freed_obj)%nat as H0 by (cbn; lia).
  destruct (H2 H0) as (_ & _ & H3). split; [lia|exact H3].
Defined.
