(* ===== verification/Rbt.v ===== *)
(** * Red-black trees: the operations of lib/src/coll/rbt.c

    The intrusive red-black tree that the allocators, the row cache and the
    set directory are built on.  The model keeps the pointer structure of the
    source: a store of nodes with [left], [right], [parent], [color] and
    [key] fields, the root pointer and the cardinality.  Every operation is
    the sequence of loads and stores of the C function. *)

From stdpp Require Import prelude gmap.
From S2P Require Import Prelude.

Abbreviation loc := positive.
Abbreviation ptr := (option loc).

Inductive rbcolor := RBN_RED | RBN_BLACK.

#[global] Instance rbcolor_eq_dec : EqDecision rbcolor.
Proof. solve_decision. Defined.

Record rbn (K : Type) := Rbn {
  left : ptr;
  right : ptr;
  parent : ptr;
  color : rbcolor;
  key : K;
}.
Arguments Rbn {K}.
Arguments left {K}.
Arguments right {K}.
Arguments parent {K}.
Arguments color {K}.
Arguments key {K}.

(** The tree header together with the memory its nodes live in. *)
Record rbt (K : Type) := Rbt {
  nodes : gmap loc (rbn K);
  root : ptr;
  card : Z;
}.
Arguments Rbt {K}.
Arguments nodes {K}.
Arguments root {K}.
Arguments card {K}.

Section rbt.
Context {K : Type}.
Implicit Types (p q n x y t : ptr).

(** ** Loads and stores; a NULL or dangling pointer is stuck *)

Definition ld p : M (rbt K) (rbn K) := fun s =>
  l ← p; nd ← nodes s !! l; Some (nd, s).

Definition st p (f : rbn K -> rbn K) : M (rbt K) unit := fun s =>
  l ← p; nd ← nodes s !! l;
  Some (tt, Rbt (<[l := f nd]> (nodes s)) (root s) (card s)).

Definition left_of p : M (rbt K) ptr := nd ← ld p; mret (left nd).
Definition right_of p : M (rbt K) ptr := nd ← ld p; mret (right nd).
Definition parent_of p : M (rbt K) ptr := nd ← ld p; mret (parent nd).
Definition color_of p : M (rbt K) rbcolor := nd ← ld p; mret (color nd).
Definition key_of p : M (rbt K) K := nd ← ld p; mret (key nd).

Definition set_left p v := st p (fun nd => Rbn v (right nd) (parent nd) (color nd) (key nd)).
Definition set_right p v := st p (fun nd => Rbn (left nd) v (parent nd) (color nd) (key nd)).
Definition set_parent p v := st p (fun nd => Rbn (left nd) (right nd) v (color nd) (key nd)).
Definition set_color p v := st p (fun nd => Rbn (left nd) (right nd) (parent nd) v (key nd)).
Definition set_key p v := st p (fun nd => Rbn (left nd) (right nd) (parent nd) (color nd) v).

Definition get_root : M (rbt K) ptr := gets root.
Definition set_root p : M (rbt K) unit :=
  modify (fun s => Rbt (nodes s) p (card s)).
Definition get_card : M (rbt K) Z := gets card.
Definition set_card (c : Z) : M (rbt K) unit :=
  modify (fun s => Rbt (nodes s) (root s) c).

(** A walk along tree pointers visits at most every node once. *)
Definition fuel : M (rbt K) nat := gets (fun s => S (size (nodes s))).

Definition same p q : bool := bool_decide (p = q).
Definition is_null p : bool := same p None.

(** ** Rotations *)

Definition is_red x : M (rbt K) bool :=
  if is_null x then mret false
  else c ← color_of x; mret (bool_decide (c = RBN_RED)).

Definition rotate_left x : M (rbt K) unit :=
  y ← right_of x;
  par ← parent_of x;
  yl ← left_of y;
  set_right x yl;;
  (if is_null yl then mret tt else set_parent yl x);;
  xp ← parent_of x;
  set_parent y xp;;
  r ← get_root;
  (if same r x then
     c_assert (is_null xp);;
     set_root y;;
     set_parent y None
   else
     c_assert (negb (is_null xp));;
     pl ← left_of par;
     if same pl x then set_left par y else set_right par y);;
  set_left y x;;
  set_parent x y.

Definition rotate_right x : M (rbt K) unit :=
  y ← left_of x;
  par ← parent_of x;
  yr ← right_of y;
  set_left x yr;;
  (if is_null yr then mret tt else set_parent yr x);;
  r ← get_root;
  (if same r x then
     set_root y;;
     set_parent y None
   else
     set_parent y par;;
     pr ← right_of par;
     if same pr x then set_right par y else set_left par y);;
  set_right y x;;
  set_parent x y.

(** ** Initialisation and queries *)

Definition rbt_init (m : gmap loc (rbn K)) : rbt K := Rbt m None 0.
Definition rbt_empty : M (rbt K) bool := r ← get_root; mret (is_null r).
Definition rbt_card : M (rbt K) Z := get_card.
Definition rbn_init n (k : K) : M (rbt K) unit := set_key n k.

Definition find_pred n : M (rbt K) ptr :=
  x ← left_of n;
  f ← fuel;
  loopM f (fun x =>
    xr ← right_of x;
    mret (if is_null xr then inr x else inl xr)) x.

Definition find_succ n : M (rbt K) ptr :=
  x ← right_of n;
  f ← fuel;
  loopM f (fun x =>
    xl ← left_of x;
    mret (if is_null xl then inr x else inl xl)) x.

Definition rbt_greatest_lt_or_eq n : M (rbt K) ptr :=
  nl ← left_of n;
  if negb (is_null nl) then mret nl else
  np ← parent_of n;
  if is_null np then mret None else
  npl ← left_of np;
  mret (if same npl n then np else None).

Definition rbt_least_gt_or_eq n : M (rbt K) ptr :=
  nr ← right_of n;
  if negb (is_null nr) then mret nr else
  np ← parent_of n;
  if is_null np then mret None else
  npr ← right_of np;
  mret (if same npr n then np else None).

Definition rbn_min n : M (rbt K) ptr :=
  f ← fuel;
  loopM f (fun n =>
    if is_null n then mret (inr n) else
    nl ← left_of n;
    mret (if is_null nl then inr n else inl nl)) n.

Definition rbn_max n : M (rbt K) ptr :=
  f ← fuel;
  loopM f (fun n =>
    if is_null n then mret (inr n) else
    nr ← right_of n;
    mret (if is_null nr then inr n else inl nr)) n.

Definition rbt_min : M (rbt K) ptr := r ← get_root; rbn_min r.
Definition rbt_max : M (rbt K) ptr := r ← get_root; rbn_max r.

Definition rbn_succ n : M (rbt K) ptr :=
  nr ← right_of n;
  if negb (is_null nr) then rbn_min nr else
  np ← parent_of n;
  if is_null np then mret None else
  f ← fuel;
  loopM f (fun n =>
    np ← parent_of n;
    if is_null np then mret (inr np) else
    npr ← right_of np;
    mret (if same n npr then inl np else inr np)) n.

Definition rbn_pred n : M (rbt K) ptr :=
  nl ← left_of n;
  if negb (is_null nl) then rbn_max nl else
  np ← parent_of n;
  if is_null np then mret None else
  f ← fuel;
  loopM f (fun n =>
    np ← parent_of n;
    if is_null np then mret (inr np) else
    npl ← left_of np;
    mret (if same n npl then inl np else inr np)) n.

(** The callback of a traversal takes the node and its level, updates its
    own data and returns a code that stops the traversal when non-zero. *)
Fixpoint rbt_traverse_subtree {D} (fuel : nat) (f : ptr -> Z -> D -> Z * D)
    n (d : D) (level : Z) : M (rbt K) (Z * D) :=
  match fuel with
  | O => stuck
  | S fuel =>
      if is_null n then mret (0, d) else
      nl ← left_of n;
      '(rc, d) ← rbt_traverse_subtree fuel f nl d (level + 1);
      if negb (rc =? 0) then mret (rc, d) else
      let '(rc, d) := f n level d in
      if negb (rc =? 0) then mret (rc, d) else
      nr ← right_of n;
      '(rc, d) ← rbt_traverse_subtree fuel f nr d (level + 1);
      if negb (rc =? 0) then mret (rc, d) else
      mret (0, d)
  end.

Definition rbt_traverse {D} (f : ptr -> Z -> D -> Z * D) (d : D) : M (rbt K) (Z * D) :=
  r ← get_root;
  if is_null r then mret (0, d) else
  k ← fuel;
  rbt_traverse_subtree k f r d 0.

(** ** Verification of the tree properties (the asserting checker) *)

Definition node_color n : M (rbt K) rbcolor :=
  if is_null n then mret RBN_BLACK else color_of n.

Definition is_color (c d : rbcolor) : bool := bool_decide (c = d).

Fixpoint verify_property_1 (fuel : nat) n : M (rbt K) unit :=
  match fuel with
  | O => stuck
  | S fuel =>
      c ← node_color n;
      c_assert (is_color c RBN_RED || is_color c RBN_BLACK);;
      if is_null n then mret tt else
      nl ← left_of n; verify_property_1 fuel nl;;
      nr ← right_of n; verify_property_1 fuel nr
  end.

Definition verify_property_2 (rt : ptr) : M (rbt K) unit :=
  c ← node_color rt;
  c_assert (is_color c RBN_BLACK).

Fixpoint verify_property_4 (fuel : nat) n : M (rbt K) unit :=
  match fuel with
  | O => stuck
  | S fuel =>
      c ← node_color n;
      (if is_color c RBN_RED then
         nl ← left_of n; cl ← node_color nl;
         c_assert (is_color cl RBN_BLACK);;
         nr ← right_of n; cr ← node_color nr;
         c_assert (is_color cr RBN_BLACK);;
         np ← parent_of n; cp ← node_color np;
         c_assert (is_color cp RBN_BLACK)
       else mret tt);;
      if is_null n then mret tt else
      nl ← left_of n; verify_property_4 fuel nl;;
      nr ← right_of n; verify_property_4 fuel nr
  end.

(** [path_black_count] is an in-out parameter of the source. *)
Fixpoint verify_property_5_helper (fuel : nat) n (black_count path_black_count : Z)
    : M (rbt K) Z :=
  match fuel with
  | O => stuck
  | S fuel =>
      c ← node_color n;
      let black_count :=
        if is_color c RBN_BLACK then black_count + 1 else black_count in
      if is_null n then
        if path_black_count =? -1 then mret black_count
        else c_assert (black_count =? path_black_count);; mret path_black_count
      else
      nl ← left_of n;
      path_black_count ← verify_property_5_helper fuel nl black_count path_black_count;
      nr ← right_of n;
      verify_property_5_helper fuel nr black_count path_black_count
  end.

Definition verify_property_5 (fuel : nat) n : M (rbt K) unit :=
  _ ← verify_property_5_helper fuel n 0 (-1); mret tt.

Definition verify_tree : M (rbt K) unit :=
  r ← get_root;
  f ← fuel;
  verify_property_1 (S f) r;;
  verify_property_2 r;;
  verify_property_4 (S f) r;;
  verify_property_5 (S f) r.

Definition rbt_verify : M (rbt K) unit := verify_tree.

(** ** Deletion *)

Definition sibling n : M (rbt K) ptr :=
  c_assert (negb (is_null n));;
  np ← parent_of n;
  c_assert (negb (is_null np));;
  npl ← left_of np;
  if same n npl then right_of np else left_of np.

Definition replace_node (oldn newn : ptr) : M (rbt K) unit :=
  op ← parent_of oldn;
  (if is_null op then
     set_root newn;;
     set_parent newn None
   else
     opl ← left_of op;
     if same oldn opl then set_left op newn else set_right op newn);;
  if negb (is_null newn) then
    op ← parent_of oldn;
    set_parent newn op
  else mret tt.

Definition delete_case6 n : M (rbt K) unit :=
  s ← sibling n;
  p ← parent_of n;
  c_assert (negb (is_null s));;
  pc ← color_of p;
  set_color s pc;;
  set_color p RBN_BLACK;;
  pl ← left_of p;
  if same n pl then
    sr ← right_of s; c ← node_color sr;
    c_assert (is_color c RBN_RED);;
    set_color sr RBN_BLACK;;
    rotate_left p
  else
    sl ← left_of s; c ← node_color sl;
    c_assert (is_color c RBN_RED);;
    set_color sl RBN_BLACK;;
    rotate_right p.

(** The colours of [s], [s->left] and [s->right], read for the case
    conditions. *)
Definition sibling_colors (s : ptr) : M (rbt K) (rbcolor * rbcolor * rbcolor) :=
  cs ← node_color s;
  sl ← left_of s; csl ← node_color sl;
  sr ← right_of s; csr ← node_color sr;
  mret (cs, csl, csr).

Definition delete_case5 n : M (rbt K) unit :=
  s ← sibling n;
  p ← parent_of n;
  c_assert (negb (is_null s));;
  '(cs, csl, csr) ← sibling_colors s;
  pl ← left_of p;
  pr ← right_of p;
  (if same n pl && is_color cs RBN_BLACK
      && is_color csl RBN_RED && is_color csr RBN_BLACK then
     set_color s RBN_RED;;
     sl ← left_of s; set_color sl RBN_BLACK;;
     rotate_right s
   else if same n pr && is_color cs RBN_BLACK
      && is_color csr RBN_RED && is_color csl RBN_BLACK then
     set_color s RBN_RED;;
     sr ← right_of s; set_color sr RBN_BLACK;;
     rotate_left s
   else mret tt);;
  delete_case6 n.

Definition delete_case4 n : M (rbt K) unit :=
  s ← sibling n;
  p ← parent_of n;
  c_assert (negb (is_null s));;
  cp ← node_color p;
  '(cs, csl, csr) ← sibling_colors s;
  if is_color cp RBN_RED && is_color cs RBN_BLACK
     && is_color csl RBN_BLACK && is_color csr RBN_BLACK then
    set_color s RBN_RED;;
    set_color p RBN_BLACK
  else delete_case5 n.

(** [delete_case3] calls back into [delete_case1], which is passed in. *)
Definition delete_case3 (case1 : ptr -> M (rbt K) unit) n : M (rbt K) unit :=
  s ← sibling n;
  p ← parent_of n;
  c_assert (negb (is_null s));;
  cp ← node_color p;
  '(cs, csl, csr) ← sibling_colors s;
  if is_color cp RBN_BLACK && is_color cs RBN_BLACK
     && is_color csl RBN_BLACK && is_color csr RBN_BLACK then
    set_color s RBN_RED;;
    case1 p
  else delete_case4 n.

Definition delete_case2 (case1 : ptr -> M (rbt K) unit) n : M (rbt K) unit :=
  s ← sibling n;
  p ← parent_of n;
  cs ← node_color s;
  (if is_color cs RBN_RED then
     set_color p RBN_RED;;
     set_color s RBN_BLACK;;
     pl ← left_of p;
     if same n pl then rotate_left p else rotate_right p
   else mret tt);;
  delete_case3 case1 n.

Fixpoint delete_case1 (fuel : nat) n : M (rbt K) unit :=
  match fuel with
  | O => stuck
  | S fuel =>
      np ← parent_of n;
      if is_null np then mret tt else delete_case2 (delete_case1 fuel) n
  end.

(** The first half of [rbt_del]: a node with two children trades places
    with its in-order predecessor.  The result tells whether the C function
    returned there, because the moved node was red. *)
Definition rbt_del_swap n : M (rbt K) bool :=
  pred ← find_pred n;
  P ← ld pred;
  c_assert (is_null (right P));;
  c_assert (negb (is_null (parent P)));;
  if negb (same (parent P) n) then
    nl ← left_of n; set_left pred nl;;
    nr ← right_of n; set_right pred nr;;
    np ← parent_of n; set_parent pred np;;
    nc ← color_of n; set_color pred nc;;
    set_color n (color P);;
    nl ← left_of n; nr ← right_of n;
    set_parent nr pred;; set_parent nl pred;;
    np ← parent_of n;
    (if negb (is_null np) then
       npl ← left_of np;
       if same npl n then set_left np pred else set_right np pred
     else set_root pred);;
    nc ← node_color n;
    if is_color nc RBN_RED then
      set_right (parent P) (left P);; mret true
    else
      set_left n (left P);;
      set_right n None;;
      set_parent n (parent P);;
      (if negb (is_null (left P)) then set_parent (left P) n else mret tt);;
      ppr ← right_of (parent P);
      c_assert (same ppr pred);;
      set_right (parent P) n;; mret false
  else
    nc ← color_of n; set_color pred nc;;
    set_color n (color P);;
    np ← parent_of n; set_parent pred np;;
    nr ← right_of n; set_right pred nr;;
    nr ← right_of n; set_parent nr pred;;
    np ← parent_of n;
    (if negb (is_null np) then
       npl ← left_of np;
       (if same n npl then set_left np pred else set_right np pred);;
       np ← parent_of n; set_parent pred np
     else
       set_root pred;; set_parent pred None);;
    nc ← node_color n;
    if is_color nc RBN_RED then mret true
    else
      set_left n (left P);;
      (if negb (is_null (left P)) then set_parent (left P) n else mret tt);;
      set_left pred n;;
      set_parent n pred;;
      set_right n None;;
      set_parent n pred;; mret false.

(** The second half of [rbt_del]: unlink a node with at most one child. *)
Definition rbt_del_unlink n : M (rbt K) unit :=
  nl ← left_of n;
  nr ← right_of n;
  c_assert (is_null nl || is_null nr);;
  let child := if is_null nr then nl else nr in
  nc ← node_color n;
  if is_color nc RBN_RED then replace_node n child else
  cc ← node_color child;
  set_color n cc;;
  np ← parent_of n;
  if is_null np then
    set_root child;;
    if negb (is_null child) then
      set_color child RBN_BLACK;;
      set_parent child None
    else mret tt
  else
    f ← fuel;
    delete_case2 (delete_case1 f) n;;
    replace_node n child;;
    np ← parent_of n;
    if is_null np && negb (is_null child) then set_color child RBN_BLACK
    else mret tt.

Definition rbt_del n : M (rbt K) unit :=
  c_assert (negb (is_null n));;
  cd ← get_card;
  c_assert (negb (cd =? 0));;
  set_card (cd - 1);;
  nl ← left_of n;
  nr ← right_of n;
  returned ←
    (if negb (is_null nl) && negb (is_null nr) then rbt_del_swap n
     else mret false);
  if (returned : bool) then mret tt else rbt_del_unlink n.

(** ** Operations that use the comparator

    [comparator a b] is the C [int] the application callback returns for
    the key [a] of a tree node and the key [b] searched for. *)
Context (comparator : K -> K -> Z).

Definition rbt_ins_descend x : M (rbt K) (ptr * Z) :=
  r ← get_root;
  f ← fuel;
  loopM f (fun '(n, par, c) =>
    if is_null n then mret (inr (par, c)) else
    nk ← key_of n;
    xk ← key_of x;
    let c := comparator nk xk in
    n' ← (if 0 <? c then left_of n else right_of n);
    mret (inl (n', n, c))) (r, None, 0).

Definition rbt_ins_fixup_step x : M (rbt K) (ptr + unit) :=
  r ← get_root;
  if same x r then mret (inr tt) else
  xp ← parent_of x;
  xpred ← is_red xp;
  if negb xpred then mret (inr tt) else
  g ← parent_of xp;
  gl ← left_of g;
  if same xp gl then
    uncle ← right_of g;
    ured ← is_red uncle;
    if (ured : bool) then
      set_color xp RBN_BLACK;;
      set_color uncle RBN_BLACK;;
      set_color g RBN_RED;;
      mret (inl g)
    else
      xpr ← right_of xp;
      x ← (if same x xpr then rotate_left xp;; mret xp else mret x);
      xp ← parent_of x;
      set_color xp RBN_BLACK;;
      g ← parent_of xp;
      set_color g RBN_RED;;
      rotate_right g;;
      mret (inl x)
  else
    uncle ← left_of g;
    ured ← is_red uncle;
    if (ured : bool) then
      set_color xp RBN_BLACK;;
      set_color uncle RBN_BLACK;;
      set_color g RBN_RED;;
      mret (inl g)
    else
      xpl ← left_of xp;
      x ← (if same x xpl then rotate_right xp;; mret xp else mret x);
      xp ← parent_of x;
      set_color xp RBN_BLACK;;
      g ← parent_of xp;
      (if negb (is_null g) then
         set_color g RBN_RED;;
         rotate_left g
       else mret tt);;
      mret (inl x).

Definition rbt_ins x : M (rbt K) unit :=
  cd ← get_card;
  set_card (cd + 1);;
  set_right x None;;
  set_left x None;;
  r ← get_root;
  if is_null r then
    set_color x RBN_BLACK;;
    set_root x;;
    set_parent x None
  else
    set_color x RBN_RED;;
    '(par, c) ← rbt_ins_descend x;
    c_assert (negb (is_null par));;
    set_parent x par;;
    (if 0 <? c then set_left par x else set_right par x);;
    f ← fuel;
    loopM f rbt_ins_fixup_step x;;
    r ← get_root;
    set_color r RBN_BLACK.

(** A node is initialised with its key and inserted.  Memory that has not been
    a node before holds some node; the links of one that has are stale. *)
Definition rbt_add (p : loc) (k : K) : M (rbt K) unit :=
  modify (fun s => Rbt (<[p := default (Rbn None None None RBN_BLACK k) (nodes s !! p)]> (nodes s)) (root s) (card s));;
  rbn_init (Some p) k;;
  rbt_ins (Some p).

Definition rbt_find (k : K) : M (rbt K) ptr :=
  r ← get_root;
  f ← fuel;
  loopM f (fun x =>
    if is_null x then mret (inr None) else
    xk ← key_of x;
    let c := comparator xk k in
    if c =? 0 then mret (inr x) else
    x' ← (if 0 <? c then left_of x else right_of x);
    mret (inl x')) r.

Definition rbt_find_glb (k : K) : M (rbt K) ptr :=
  r ← get_root;
  f ← fuel;
  loopM f (fun '(x, glb) =>
    if is_null x then mret (inr glb) else
    xk ← key_of x;
    let c := comparator xk k in
    if c =? 0 then mret (inr x) else
    if 0 <? c then
      xl ← left_of x; mret (inl (xl, glb))
    else
      xr ← right_of x; mret (inl (xr, x))) (r, None).

Definition rbt_find_lub (k : K) : M (rbt K) ptr :=
  r ← get_root;
  f ← fuel;
  loopM f (fun '(x, lub) =>
    if is_null x then mret (inr lub) else
    xk ← key_of x;
    let c := comparator xk k in
    if c =? 0 then mret (inr x) else
    if c <? 0 then
      xr ← right_of x; mret (inl (xr, lub))
    else
      xl ← left_of x; mret (inl (xl, x))) (r, None).
End rbt.
