(* ===== verification/RbtRep.v ===== *)
(** * Red-black trees: representation of the pointer structure

    Functional trees whose nodes carry their address, zipper contexts for a
    position inside a tree, and the predicate [rep] that says that a memory
    holds exactly such a tree, parent pointers and root included.  The
    lemmas give the effect of each elementary step of rbt.c (loads, colour
    stores, rotations) on the represented tree. *)

From stdpp Require Import prelude gmap.
From S2P Require Import Prelude Rbt.

Section rep.
Context {K : Type}.

Inductive tree :=
| E
| T (c : rbcolor) (l : tree) (p : loc) (k : K) (r : tree).

(** A context is the path from the hole up to the root. *)
Inductive frame :=
| FL (c : rbcolor) (p : loc) (k : K) (r : tree)   (* the hole is the left child *)
| FR (c : rbcolor) (l : tree) (p : loc) (k : K).  (* the hole is the right child *)
Abbreviation ctx := (list frame).

Implicit Types (t l r : tree) (f : frame) (C : ctx).

Definition tptr t : ptr :=
  match t with E => None | T _ _ p _ _ => Some p end.

Definition floc f : loc :=
  match f with FL _ p _ _ => p | FR _ _ p _ => p end.

Definition fcolor f : rbcolor :=
  match f with FL c _ _ _ => c | FR c _ _ _ => c end.

Definition cpar C : ptr :=
  match C with [] => None | f :: _ => Some (floc f) end.

Fixpoint croot (hole : ptr) C : ptr :=
  match C with [] => hole | f :: C => croot (Some (floc f)) C end.

Fixpoint inorder t : list (loc * K) :=
  match t with
  | E => []
  | T _ l p k r => inorder l ++ (p, k) :: inorder r
  end.

Fixpoint cleft C : list (loc * K) :=
  match C with
  | [] => []
  | FL _ _ _ _ :: C => cleft C
  | FR _ l p k :: C => cleft C ++ inorder l ++ [(p, k)]
  end.

Fixpoint cright C : list (loc * K) :=
  match C with
  | [] => []
  | FL _ p k r :: C => (p, k) :: inorder r ++ cright C
  | FR _ _ _ _ :: C => cright C
  end.

Definition elems C t : list (loc * K) := cleft C ++ inorder t ++ cright C.

Definition plug f t : tree :=
  match f with
  | FL c p k r => T c t p k r
  | FR c l p k => T c l p k t
  end.

Definition zip C t : tree := foldl (fun t f => plug f t) t C.

Lemma elems_plug f C t : elems (f :: C) t = elems C (plug f t).
Proof. destruct f; unfold elems; simpl; by rewrite <- ?app_assoc. Qed.

Lemma elems_zip C t : elems C t = inorder (zip C t).
Proof.
  revert t. induction C as [|f C IH]; intros t.
  - unfold elems. simpl. by rewrite app_nil_r.
  - rewrite elems_plug, IH. done.
Qed.

(** ** The representation predicate *)

Fixpoint trep (m : gmap loc (rbn K)) (par : ptr) t : Prop :=
  match t with
  | E => True
  | T c l p k r =>
      m !! p = Some (Rbn (tptr l) (tptr r) par c k) /\
      trep m (Some p) l /\ trep m (Some p) r
  end.

Fixpoint crep (m : gmap loc (rbn K)) (hole : ptr) C : Prop :=
  match C with
  | [] => True
  | FL c p k r :: C =>
      m !! p = Some (Rbn hole (tptr r) (cpar C) c k) /\
      trep m (Some p) r /\ crep m (Some p) C
  | FR c l p k :: C =>
      m !! p = Some (Rbn (tptr l) hole (cpar C) c k) /\
      trep m (Some p) l /\ crep m (Some p) C
  end.

Definition rep C t (s : rbt K) : Prop :=
  trep (nodes s) (cpar C) t /\
  crep (nodes s) (tptr t) C /\
  root s = croot (tptr t) C /\
  NoDup (elems C t).*1.

Lemma rep_plug f C t s : rep (f :: C) t s <-> rep C (plug f t) s.
Proof. unfold rep. rewrite elems_plug. destruct f; simpl; tauto. Qed.

Lemma rep_zip C t s : rep C t s <-> rep [] (zip C t) s.
Proof.
  revert t. induction C as [|f C IH]; intros t; [done|].
  rewrite rep_plug, IH. done.
Qed.

(** ** Stores outside a tree leave it alone *)

Lemma trep_insert m par t q nd :
  q ∉ (inorder t).*1 -> trep m par t -> trep (<[q := nd]> m) par t.
Proof.
  revert par. induction t as [|c l IHl p k r IHr]; intros par Hq; simpl; [done|].
  intros (Hp & Hl & Hr). simpl in Hq. rewrite fmap_app in Hq. simpl in Hq.
  apply not_elem_of_app in Hq as [Hql Hqr].
  apply not_elem_of_cons in Hqr as [Hqp Hqr].
  rewrite lookup_insert_ne by done. auto.
Qed.

Lemma crep_insert m hole C q nd :
  q ∉ (cleft C).*1 -> q ∉ (cright C).*1 ->
  crep m hole C -> crep (<[q := nd]> m) hole C.
Proof.
  revert hole. induction C as [|[c p k r|c l p k] C IH]; intros hole; simpl; [done| |];
    rewrite ?fmap_app, ?fmap_cons; simpl;
    rewrite ?not_elem_of_app, ?not_elem_of_cons, ?not_elem_of_app; intros Hl Hr (Hp & Ht & HC);
    destruct_and?; rewrite lookup_insert_ne by done; auto using trep_insert.
Qed.

Lemma trep_reparent m par par' c l p k r :
  NoDup (inorder (T c l p k r)).*1 ->
  trep m par (T c l p k r) ->
  trep (<[p := Rbn (tptr l) (tptr r) par' c k]> m) par' (T c l p k r).
Proof.
  simpl. rewrite fmap_app, fmap_cons, NoDup_app, NoDup_cons. simpl.
  intros (_ & Hd & Hr & _) (_ & Htl & Htr). rewrite lookup_insert_eq.
  split_and!; [done| |]; apply trep_insert; auto.
  intros Hin. eapply Hd; [done|]. by left.
Qed.

(** ** Symbolic execution of loads and stores *)

#[local] Ltac run_prim H :=
  eexists _, _; split; [|eassumption];
  unfold left_of, right_of, parent_of, color_of, key_of, ld, st, mbind, M_bind, option_bind; simpl; rewrite H; reflexivity.

Lemma runs_left_of (s : rbt K) q nd Q :
  nodes s !! q = Some nd -> Q (left nd) s -> runs (left_of (Some q)) s Q.
Proof. intros H HQ. run_prim H. Qed.
Lemma runs_right_of (s : rbt K) q nd Q :
  nodes s !! q = Some nd -> Q (right nd) s -> runs (right_of (Some q)) s Q.
Proof. intros H HQ. run_prim H. Qed.
Lemma runs_parent_of (s : rbt K) q nd Q :
  nodes s !! q = Some nd -> Q (parent nd) s -> runs (parent_of (Some q)) s Q.
Proof. intros H HQ. run_prim H. Qed.
Lemma runs_color_of (s : rbt K) q nd Q :
  nodes s !! q = Some nd -> Q (color nd) s -> runs (color_of (Some q)) s Q.
Proof. intros H HQ. run_prim H. Qed.
Lemma runs_key_of (s : rbt K) q nd Q :
  nodes s !! q = Some nd -> Q (key nd) s -> runs (key_of (Some q)) s Q.
Proof. intros H HQ. run_prim H. Qed.
Lemma runs_ld (s : rbt K) q nd Q :
  nodes s !! q = Some nd -> Q nd s -> runs (ld (Some q)) s Q.
Proof. intros H HQ. run_prim H. Qed.
Lemma runs_st (s : rbt K) q nd g Q :
  nodes s !! q = Some nd ->
  Q tt (Rbt (<[q := g nd]> (nodes s)) (root s) (card s)) ->
  runs (st (Some q) g) s Q.
Proof. intros H HQ. run_prim H. Qed.

End rep.

Arguments tree : clear implicits.
Arguments frame : clear implicits.
Abbreviation ctx K := (list (frame K)).

(** ** Distinctness of addresses

    [NoDup] of an in-order address list is split into elementary facts: two
    addresses differ, or an address is not in a subtree. *)

Section nodup.
Context {A : Type}.
Implicit Types (l : list A) (x : A).

Lemma NoDup_app_disj l1 l2 : NoDup (l1 ++ l2) <-> NoDup l1 /\ l1 ## l2 /\ NoDup l2.
Proof. rewrite NoDup_app. done. Qed.
Lemma disj_app_l l1 l2 l : ((l1 ++ l2) ## l) <-> (l1 ## l) /\ (l2 ## l).
Proof. rewrite !elem_of_disjoint. setoid_rewrite elem_of_app. naive_solver. Qed.
Lemma disj_app_r l1 l2 l : (l ## (l1 ++ l2)) <-> (l ## l1) /\ (l ## l2).
Proof. rewrite !elem_of_disjoint. setoid_rewrite elem_of_app. naive_solver. Qed.
Lemma disj_cons_l x l1 l : ((x :: l1) ## l) <-> (x ∉ l) /\ (l1 ## l).
Proof. rewrite !elem_of_disjoint. setoid_rewrite elem_of_cons. naive_solver. Qed.
Lemma disj_cons_r x l1 l : (l ## (x :: l1)) <-> (x ∉ l) /\ (l ## l1).
Proof. rewrite !elem_of_disjoint. setoid_rewrite elem_of_cons. naive_solver. Qed.
Lemma disj_nil_l l : ([] ## l) <-> True.
Proof. rewrite elem_of_disjoint. setoid_rewrite elem_of_nil. naive_solver. Qed.
Lemma disj_nil_r l : (l ## []) <-> True.
Proof. rewrite elem_of_disjoint. setoid_rewrite elem_of_nil. naive_solver. Qed.
Lemma not_in_nil x : (x ∉ []) <-> True.
Proof. rewrite elem_of_nil. naive_solver. Qed.
End nodup.

Create Rewrite HintDb nodup.
#[export] Hint Rewrite @fmap_app @fmap_cons @fmap_nil : nodup.
#[export] Hint Rewrite @NoDup_app_disj @NoDup_cons : nodup.
#[export] Hint Rewrite @disj_app_l @disj_app_r @disj_cons_l @disj_cons_r : nodup.
#[export] Hint Rewrite @disj_nil_l @disj_nil_r @not_in_nil : nodup.
#[export] Hint Rewrite @not_elem_of_app @not_elem_of_cons : nodup.

Ltac nodup_split H :=
  unfold elems in H; simpl in H; autorewrite with nodup in H; simpl in H;
  destruct_and? H.

(** Closes [q ∉ l] from the facts of [nodup_split]. *)
Ltac fresh_tac :=
  autorewrite with nodup; simpl; split_and?; first [assumption | exact I | congruence].
Lemma same_true p q : p = q -> same p q = true.
Proof. apply bool_decide_true. Qed.
Lemma same_false p q : p <> q -> same p q = false.
Proof. apply bool_decide_false. Qed.

Lemma tptr_ne {K} (t : tree K) q : q ∉ (inorder t).*1 -> tptr t <> Some q.
Proof.
  destruct t; simpl; [done|]. rewrite fmap_app, fmap_cons. simpl.
  intros Hq [= ->]. autorewrite with nodup in Hq. naive_solver.
Qed.

Ltac ptr_ne_tac :=
  simpl; first [congruence | apply tptr_ne; fresh_tac | apply not_eq_sym, tptr_ne; fresh_tac].

(** Decides the pointer comparison of a branch. *)
Ltac same_tac :=
  match goal with
  | |- runs (if ?c then _ else _) _ _ =>
      match c with
      | context [same ?a ?b] =>
          first [ rewrite (same_true a b) by (simpl; congruence)
                | rewrite (same_false a b) by ptr_ne_tac ]
      | context [is_null ?a] =>
          first [ change (is_null a) with true | change (is_null a) with false ]
      | context [is_color ?a ?b] =>
          first [ change (is_color a b) with true | change (is_color a b) with false ]
      | context [bool_decide (?a = ?b)] =>
          first [ change (bool_decide (a = b)) with true
                | change (bool_decide (a = b)) with false ]
      end
  end; cbn [negb andb orb].

(** One step of symbolic execution; lookups in updated stores are solved from
    the hypotheses and the distinctness of the addresses involved. *)
Ltac lookup_tac :=
  simpl; repeat first
    [ eassumption
    | rewrite lookup_insert_eq; reflexivity
    | rewrite lookup_insert_ne by congruence ].

Ltac rb_read :=
  match goal with
  | |- runs (mbind _ _) _ _ => apply runs_bind
  | |- runs (mret _) _ _ => apply runs_ret
  | |- runs (left_of _) _ _ => eapply runs_left_of; [lookup_tac|]
  | |- runs (right_of _) _ _ => eapply runs_right_of; [lookup_tac|]
  | |- runs (parent_of _) _ _ => eapply runs_parent_of; [lookup_tac|]
  | |- runs (color_of _) _ _ => eapply runs_color_of; [lookup_tac|]
  | |- runs (key_of _) _ _ => eapply runs_key_of; [lookup_tac|]
  | |- runs (ld _) _ _ => eapply runs_ld; [lookup_tac|]
  | |- runs get_root _ _ => apply runs_gets
  | |- runs get_card _ _ => apply runs_gets
  | |- runs fuel _ _ => apply runs_gets
  | |- runs (c_assert _) _ _ => apply runs_assert; [try reflexivity|]
  | |- runs (if _ then _ else _) _ _ => same_tac
  end; cbn [left right parent color key nodes root card cpar floc tptr].
Ltac rb_reads := repeat rb_read.

Ltac rb_write :=
  match goal with
  | |- runs (set_left _ _) _ _ => eapply runs_st; [lookup_tac|]
  | |- runs (set_right _ _) _ _ => eapply runs_st; [lookup_tac|]
  | |- runs (set_parent _ _) _ _ => eapply runs_st; [lookup_tac|]
  | |- runs (set_color _ _) _ _ => eapply runs_st; [lookup_tac|]
  | |- runs (set_root _) _ _ => apply runs_modify
  | |- runs (set_card _) _ _ => apply runs_modify
  end; cbn [left right parent color key nodes root card cpar floc tptr].
Ltac rb_steps := repeat first [rb_read | rb_write].


Ltac trep_tac := repeat (apply trep_insert; [fresh_tac|]); eassumption.
Ltac crep_tac := repeat (apply crep_insert; [fresh_tac|fresh_tac|]); eassumption.
Ltac rep_tac :=
  unfold rep; simpl; split_and!;
  try first [done | trep_tac | crep_tac | by lookup_tac].
