(* ===== verification/RbtRot.v ===== *)
(** * Red-black trees: rotations and reads at a position

    The effect of [rotate_left], [rotate_right], colour reads and colour
    stores of rbt.c on a represented tree. *)

From stdpp Require Import prelude gmap.
From S2P Require Import Prelude Rbt RbtRep.

(** ** Rotations *)

Section rotate.
Context {K : Type}.
Implicit Types (s : rbt K) (C : ctx K) (t : tree K).

Lemma croot_elem hole f C q :
  croot hole (f :: C) = Some q -> q ∈ (cleft (f :: C)).*1 ++ (cright (f :: C)).*1.
Proof.
  revert hole f. induction C as [|f' C IH]; intros hole f.
  - destruct f; simpl; intros [= <-]; rewrite ?fmap_app, ?fmap_cons; set_solver.
  - intros H. change (croot (Some (floc f)) (f' :: C) = Some q) in H.
    apply IH in H. destruct f; simpl in *;
      rewrite ?fmap_app, ?fmap_cons, ?fmap_app in *; set_solver.
Qed.

Lemma rep_not_root f C c l p k r s :
  rep (f :: C) (T c l p k r) s -> root s <> Some p.
Proof.
  intros (_ & _ & Hr & Hnd) Hp. rewrite Hr in Hp. apply croot_elem in Hp.
  unfold elems in Hnd. simpl inorder in Hnd. nodup_split Hnd.
  apply elem_of_app in Hp as [Hp|Hp]; contradiction.
Qed.

Lemma elems_rotate C cx a x (kx : K) cy b y ky c cx' cy' :
  elems C (T cx a x kx (T cy b y ky c)) = elems C (T cy' (T cx' a x kx b) y ky c).
Proof. unfold elems. repeat (simpl; rewrite <- !app_assoc). done. Qed.

(** Case analysis on the parent link of a rotation. *)
#[local] Ltac link_tac Hroot Hnd HC C :=
  destruct C as [|[cf pf kf rf|cf lf pf kf] C]; simpl in *;
  [ idtac
  | destruct HC as (Hf & Hrf & HC); specialize (Hroot ltac:(done))
  | destruct HC as (Hf & Hrf & HC); specialize (Hroot ltac:(done)) ];
  nodup_split Hnd; rb_steps; (split; [|done]).

Lemma runs_rotate_left C cx a x kx cy b y ky c s :
  rep C (T cx a x kx (T cy b y ky c)) s ->
  runs (rotate_left (Some x)) s (fun _ s' =>
    rep C (T cy (T cx a x kx b) y ky c) s' /\ card s' = card s).
Proof.
  intros Hrep. assert (Hroot : C <> [] -> root s <> Some x).
  { destruct C; [done|]. intros _. by eapply rep_not_root. }
  destruct Hrep as (Ht & HC & Hr & Hnd). simpl in Ht. destruct Ht as (Hx & Ha & Hy & Hb & Hc).
  assert (Hnd' : NoDup (elems C (T cy (T cx a x kx b) y ky c)).*1).
  { by erewrite <- elems_rotate. }
  assert (x <> y). { intros ->. by nodup_split Hnd. }
  unfold rotate_left. rb_steps.
  destruct b as [|cb bl pb kb br]; simpl.
  - rb_steps. link_tac Hroot Hnd HC C; rep_tac.
  - destruct Hb as (Hpb & Hbl & Hbr).
    assert (pb <> x /\ pb <> y) as [? ?].
    { nodup_split Hnd. split; congruence. }
    rb_steps. link_tac Hroot Hnd HC C; rep_tac.
Qed.

Lemma runs_rotate_right C cx a x kx cy b y ky c s :
  rep C (T cy (T cx a x kx b) y ky c) s ->
  runs (rotate_right (Some y)) s (fun _ s' =>
    rep C (T cx a x kx (T cy b y ky c)) s' /\ card s' = card s).
Proof.
  intros Hrep. assert (Hroot : C <> [] -> root s <> Some y).
  { destruct C; [done|]. intros _. by eapply rep_not_root. }
  destruct Hrep as (Ht & HC & Hr & Hnd). simpl in Ht. destruct Ht as (Hy & (Hx & Ha & Hb) & Hc).
  assert (Hnd' : NoDup (elems C (T cx a x kx (T cy b y ky c))).*1).
  { by erewrite elems_rotate. }
  assert (x <> y). { intros ->. by nodup_split Hnd'. }
  unfold rotate_right. rb_steps.
  destruct b as [|cb bl pb kb br]; simpl.
  - rb_steps. link_tac Hroot Hnd HC C; rep_tac.
  - destruct Hb as (Hpb & Hbl & Hbr).
    assert (pb <> x /\ pb <> y) as [? ?].
    { nodup_split Hnd. split; congruence. }
    rb_steps. link_tac Hroot Hnd HC C; rep_tac.
Qed.

(** ** Reads and colour stores at a position *)

Definition tcolor t : rbcolor :=
  match t with E => RBN_BLACK | T c _ _ _ _ => c end.

Lemma rep_lookup C c l p k r s :
  rep C (T c l p k r) s ->
  nodes s !! p = Some (Rbn (tptr l) (tptr r) (cpar C) c k).
Proof. by intros ((? & _) & _). Qed.

Lemma rep_lookup_frame f C t s :
  rep (f :: C) t s ->
  nodes s !! floc f = Some
    match f with
    | FL c p k r => Rbn (tptr t) (tptr r) (cpar C) c k
    | FR c l p k => Rbn (tptr l) (tptr t) (cpar C) c k
    end.
Proof. rewrite rep_plug. destruct f; apply rep_lookup. Qed.

Lemma runs_node_color par t s Q :
  trep (nodes s) par t -> Q (tcolor t) s -> runs (node_color (tptr t)) s Q.
Proof.
  unfold node_color. destruct t as [|c l p k r]; simpl; intros Ht HQ.
  - by apply runs_ret.
  - destruct Ht as (Hp & _). rb_steps. done.
Qed.

Lemma runs_is_red par t s Q :
  trep (nodes s) par t -> Q (is_color (tcolor t) RBN_RED) s ->
  runs (is_red (tptr t)) s Q.
Proof.
  unfold is_red. destruct t as [|c l p k r]; simpl; intros Ht HQ.
  - by apply runs_ret.
  - destruct Ht as (Hp & _). rb_steps. done.
Qed.

Lemma runs_set_color C c c' l p k r s :
  rep C (T c l p k r) s ->
  runs (set_color (Some p) c') s (fun _ s' =>
    rep C (T c' l p k r) s' /\ card s' = card s).
Proof.
  intros ((Hp & Hl & Hr) & HC & Hroot & Hnd). rb_write. split; [|done].
  pose proof Hnd as Hnd'. nodup_split Hnd'. rep_tac.
Qed.
End rotate.
