(* ===== verification/RbtIns.v ===== *)
(** * Red-black trees: the invariant and insertion

    The balance invariant of a tree and of the context around a position, the
    correctness of the re-colouring loop of [rbt_ins], of its descent, and of
    the whole insertion. *)

From stdpp Require Import prelude gmap sorting.
From S2P Require Import Prelude Rbt RbtRep RbtRot.

(** What the tree needs of the application's comparison callback. *)
Class Comparator {K} (cmp : K -> K -> Z) : Prop := {
  cmp_opp a b : cmp a b < 0 <-> 0 < cmp b a;
  cmp_trans a b c : cmp a b <= 0 -> cmp b c <= 0 -> cmp a c <= 0;
}.

Section inv.
Context {K : Type}.
Implicit Types (s : rbt K) (C : ctx K) (t : tree K).

(** [rb c n t]: the root of [t] has colour [c], no red node has a red child,
    and every path to a leaf crosses [n] black nodes. *)
Inductive rb : rbcolor -> nat -> tree K -> Prop :=
| rb_E : rb RBN_BLACK 0 E
| rb_red n l p k r :
    rb RBN_BLACK n l -> rb RBN_BLACK n r -> rb RBN_RED n (T RBN_RED l p k r)
| rb_black cl cr n l p k r :
    rb cl n l -> rb cr n r -> rb RBN_BLACK (S n) (T RBN_BLACK l p k r).

Definition ctop C : rbcolor :=
  match C with [] => RBN_BLACK | f :: _ => fcolor f end.

Definition fsib (f : frame K) : tree K :=
  match f with FL _ _ _ r => r | FR _ l _ _ => l end.

(** [cok n C]: a tree of black height [n] fits the hole of [C]; a red root
    fits when moreover [ctop C] is black.  The root of the whole tree is
    black. *)
Fixpoint cok (n : nat) C : Prop :=
  match C with
  | [] => True
  | f :: C =>
      match fcolor f with
      | RBN_BLACK => (exists c, rb c n (fsib f)) /\ cok (S n) C
      | RBN_RED =>
          rb RBN_BLACK n (fsib f) /\ C <> [] /\ ctop C = RBN_BLACK /\ cok n C
      end
  end.

Lemma rb_color c n t : rb c n t -> tcolor t = c.
Proof. by inversion 1. Qed.

Lemma cok_zip C c n t :
  cok n C -> rb c n t -> (C <> [] -> c = RBN_RED -> ctop C = RBN_BLACK) ->
  exists c' n', rb c' n' (zip C t) /\ (C <> [] -> c' = RBN_BLACK).
Proof.
  revert c n t. induction C as [|f C IH]; intros c n t HC Ht Hc.
  - exists c, n. done.
  - simpl in *. destruct (fcolor f) eqn:Hf.
    + destruct HC as (Hs & Hne & Htop & HC).
      assert (c = RBN_BLACK) as -> by (destruct c; [by discriminate Hc|done]).
      destruct (IH RBN_RED n (plug f t)) as (c' & n' & ? & Hc'); [done| |done|].
      { destruct f; simpl in *; subst; by constructor. }
      exists c', n'. naive_solver.
    + destruct HC as ([cs Hs] & HC).
      destruct (IH RBN_BLACK (S n) (plug f t)) as (c' & n' & ? & Hc'); [done| |done|].
      { destruct f; simpl in *; subst; by econstructor. }
      exists c', n'. split; [done|]. intros _.
      destruct C; [|by apply Hc'].
      simpl in *. destruct f; simpl in *; subst; by inversion H.
Qed.

Lemma rep_recolor_top f C t s c' :
  rep (f :: C) t s ->
  runs (set_color (Some (floc f)) c') s (fun _ s' =>
    rep (match f with FL _ p k r => FL c' p k r | FR _ l p k => FR c' l p k end :: C) t s'
    /\ card s' = card s).
Proof.
  rewrite rep_plug. intros H. destruct f; simpl in *;
    (eapply runs_mono; [by eapply runs_set_color|]);
    intros _ s' [H' ?]; rewrite rep_plug; done.
Qed.

(** ** The re-colouring loop *)

(** The loop works on a red node [x] whose subtree is balanced; only the
    edge to its parent may be red-red. *)
Definition fix_inv (els : list (loc * K)) (cd : Z) (d : nat) (x : ptr) s : Prop :=
  exists C a xl k b n,
    x = Some xl /\ rep C (T RBN_RED a xl k b) s /\
    rb RBN_BLACK n a /\ rb RBN_BLACK n b /\ cok n C /\
    elems C (T RBN_RED a xl k b) = els /\ card s = cd /\ d = length C.

(** What holds when the loop is left: the node is the root or its parent is
    black. *)
Definition fix_done (els : list (loc * K)) (cd : Z) s : Prop :=
  exists t c n, rep [] t s /\ rb c n t /\ inorder t = els /\ card s = cd.

(** Sets the colours of red parent, red uncle and grandparent. *)
Lemma fixup_red_uncle_l C cg c1 X p kp rp g kg c2 ul pu ku ur s (Q : ptr + unit -> rbt K -> Prop) :
  rep C (T cg (T c1 X p kp rp) g kg (T c2 ul pu ku ur)) s ->
  (forall s', card s' = card s ->
     rep C (T RBN_RED (T RBN_BLACK X p kp rp) g kg (T RBN_BLACK ul pu ku ur)) s' ->
     Q (inl (Some g)) s') ->
  runs (set_color (Some p) RBN_BLACK) s (fun _ s' =>
    runs (set_color (Some pu) RBN_BLACK;;
          set_color (Some g) RBN_RED;; mret (inl (Some g))) s' Q).
Proof.
  intros H HQ. eapply runs_mono.
  { eapply (runs_set_color (FL cg g kg (T c2 ul pu ku ur) :: C)). by rewrite rep_plug. }
  intros _ s1 [H1 Hc1]. rewrite rep_plug in H1. apply runs_bind. eapply runs_mono.
  { eapply (runs_set_color (FR cg (T RBN_BLACK X p kp rp) g kg :: C)). by rewrite rep_plug. }
  intros _ s2 [H2 Hc2]. rewrite rep_plug in H2. apply runs_bind. eapply runs_mono.
  { by eapply runs_set_color. }
  intros _ s3 [H3 Hc3]. apply runs_ret, HQ; [congruence|done].
Qed.

Lemma fixup_red_uncle_r C cg c1 X p kp lp g kg c2 ul pu ku ur s (Q : ptr + unit -> rbt K -> Prop) :
  rep C (T cg (T c2 ul pu ku ur) g kg (T c1 lp p kp X)) s ->
  (forall s', card s' = card s ->
     rep C (T RBN_RED (T RBN_BLACK ul pu ku ur) g kg (T RBN_BLACK lp p kp X)) s' ->
     Q (inl (Some g)) s') ->
  runs (set_color (Some p) RBN_BLACK) s (fun _ s' =>
    runs (set_color (Some pu) RBN_BLACK;;
          set_color (Some g) RBN_RED;; mret (inl (Some g))) s' Q).
Proof.
  intros H HQ. eapply runs_mono.
  { eapply (runs_set_color (FR cg (T c2 ul pu ku ur) g kg :: C)). by rewrite rep_plug. }
  intros _ s1 [H1 Hc1]. rewrite rep_plug in H1. apply runs_bind. eapply runs_mono.
  { eapply (runs_set_color (FL cg g kg (T RBN_BLACK lp p kp X) :: C)). by rewrite rep_plug. }
  intros _ s2 [H2 Hc2]. rewrite rep_plug in H2. apply runs_bind. eapply runs_mono.
  { by eapply runs_set_color. }
  intros _ s3 [H3 Hc3]. apply runs_ret, HQ; [congruence|done].
Qed.

(** The final rotation when the red node is an outer grandchild. *)
Lemma fixup_outer_l C cg c1 Y y p kp rp g kg u s (Q : ptr + unit -> rbt K -> Prop) :
  rep C (T cg (T c1 Y p kp rp) g kg u) s ->
  (forall s', card s' = card s ->
     rep C (T RBN_BLACK Y p kp (T RBN_RED rp g kg u)) s' -> Q (inl y) s') ->
  runs (set_color (Some p) RBN_BLACK) s (fun _ s' =>
    runs (g ← parent_of (Some p);
          set_color g RBN_RED;; rotate_right g;; mret (inl y)) s' Q).
Proof.
  intros H HQ. eapply runs_mono.
  { eapply (runs_set_color (FL cg g kg u :: C)). by rewrite rep_plug. }
  intros _ s1 [H1 Hc1]. rewrite rep_plug in H1. simpl in H1.
  pose proof H1 as ((_ & (Hp1 & _) & _) & _). rb_reads. eapply runs_mono.
  { by eapply runs_set_color. }
  intros _ s2 [H2 Hc2]. apply runs_bind. eapply runs_mono.
  { by eapply runs_rotate_right. }
  intros _ s3 [H3 Hc3]. apply runs_ret, HQ; [congruence|done].
Qed.

Lemma fixup_outer_r C cg c1 Y y p kp lp g kg u s (Q : ptr + unit -> rbt K -> Prop) :
  rep C (T cg u g kg (T c1 lp p kp Y)) s ->
  (forall s', card s' = card s ->
     rep C (T RBN_BLACK (T RBN_RED u g kg lp) p kp Y) s' -> Q (inl y) s') ->
  runs (set_color (Some p) RBN_BLACK) s (fun _ s' =>
    runs (g ← parent_of (Some p);
          (if negb (is_null g) then set_color g RBN_RED;; rotate_left g else mret tt);;
          mret (inl y)) s' Q).
Proof.
  intros H HQ. eapply runs_mono.
  { eapply (runs_set_color (FR cg u g kg :: C)). by rewrite rep_plug. }
  intros _ s1 [H1 Hc1]. rewrite rep_plug in H1. simpl in H1.
  pose proof H1 as ((_ & _ & (Hp1 & _)) & _). rb_reads. eapply runs_mono.
  { by eapply runs_set_color. }
  intros _ s2 [H2 Hc2]. eapply runs_mono.
  { by eapply runs_rotate_left. }
  intros _ s3 [H3 Hc3]. apply runs_ret, HQ; [congruence|done].
Qed.

Lemma fix_done_black f C a xl k b n els cd s :
  rep (f :: C) (T RBN_RED a xl k b) s -> fcolor f = RBN_BLACK ->
  rb RBN_BLACK n a -> rb RBN_BLACK n b -> cok n (f :: C) ->
  elems (f :: C) (T RBN_RED a xl k b) = els -> card s = cd ->
  fix_done els cd s.
Proof.
  intros Hrep Hf Ha Hb HC Hels Hcd.
  destruct (cok_zip (f :: C) RBN_RED n (T RBN_RED a xl k b)) as (c' & n' & Hrb & _);
    [done|by constructor|done|].
  exists (zip (f :: C) (T RBN_RED a xl k b)), c', n'.
  split_and!; [by rewrite <- (rep_zip (f :: C))|done|by rewrite <- elems_zip|done].
Qed.

(** The three ways the loop goes on: from the grandparent after
    re-colouring, or from a node below the rotated grandparent. *)
Lemma fix_inv_up C l g kg r n els s :
  rep C (T RBN_RED l g kg r) s -> rb RBN_BLACK (S n) l -> rb RBN_BLACK (S n) r ->
  cok (S n) C -> elems C (T RBN_RED l g kg r) = els ->
  fix_inv els (card s) (length C) (Some g) s.
Proof. intros. exists C, l, g, kg, r, (S n). done. Qed.

Lemma fix_inv_left C xa x kx xb p kp g kg rp u n els s :
  rep C (T RBN_BLACK (T RBN_RED xa x kx xb) p kp (T RBN_RED rp g kg u)) s ->
  rb RBN_BLACK n xa -> rb RBN_BLACK n xb -> rb RBN_BLACK n rp -> rb RBN_BLACK n u ->
  cok (S n) C ->
  elems C (T RBN_BLACK (T RBN_RED xa x kx xb) p kp (T RBN_RED rp g kg u)) = els ->
  fix_inv els (card s) (S (length C)) (Some x) s.
Proof.
  intros. exists (FL RBN_BLACK p kp (T RBN_RED rp g kg u) :: C), xa, x, kx, xb, n.
  rewrite rep_plug, elems_plug. simpl. split_and!; try done.
  exists RBN_RED. by constructor.
Qed.

Lemma fix_inv_right C xa x kx xb p kp g kg lp u n els s :
  rep C (T RBN_BLACK (T RBN_RED u g kg lp) p kp (T RBN_RED xa x kx xb)) s ->
  rb RBN_BLACK n xa -> rb RBN_BLACK n xb -> rb RBN_BLACK n lp -> rb RBN_BLACK n u ->
  cok (S n) C ->
  elems C (T RBN_BLACK (T RBN_RED u g kg lp) p kp (T RBN_RED xa x kx xb)) = els ->
  fix_inv els (card s) (S (length C)) (Some x) s.
Proof.
  intros. exists (FR RBN_BLACK (T RBN_RED u g kg lp) p kp :: C), xa, x, kx, xb, n.
  rewrite rep_plug, elems_plug. simpl. split_and!; try done.
  exists RBN_RED. by constructor.
Qed.

#[local] Ltac elems_tac :=
  unfold elems; repeat (simpl; rewrite <- !app_assoc); done.

#[local] Ltac fix_close lem :=
  let s' := fresh "s'" in let Hc := fresh "Hc" in
  intros s' Hc ?; eexists _, _;
  split_and!; [reflexivity| |
    match type of Hc with _ = card ?s0 =>
      try match goal with H : card s0 = _ |- _ => rewrite H in Hc end end;
    rewrite <- Hc; eapply lem; eauto using rb; elems_tac];
  simpl; lia.

(** The loop body when [x->parent] is red and a left child. *)
Lemma fixup_parent_left C a xl k b p g kg u n c2 (fl : bool) sib kp s :
  let X := T RBN_RED a xl k b in
  let P := if fl then T RBN_RED X p kp sib else T RBN_RED sib p kp X in
  rep C (T RBN_BLACK P g kg u) s ->
  rb RBN_BLACK n a -> rb RBN_BLACK n b -> rb RBN_BLACK n sib -> rb c2 n u ->
  cok (S n) C ->
  runs (rbt_ins_fixup_step (Some xl)) s (fun r s' =>
    exists x' d', r = inl x' /\ (d' <= S (length C))%nat /\
      fix_inv (elems C (T RBN_BLACK P g kg u)) (card s) d' x' s').
Proof.
  intros X P Hrep Ha Hb Hsib Hu HC.
  assert (Hroot : root s <> Some xl).
  { destruct fl; subst P X.
    - apply (rep_not_root (FL RBN_RED p kp sib) (FL RBN_BLACK g kg u :: C) RBN_RED a xl k b).
      by rewrite !rep_plug.
    - apply (rep_not_root (FR RBN_RED sib p kp) (FL RBN_BLACK g kg u :: C) RBN_RED a xl k b).
      by rewrite !rep_plug. }
  unfold rbt_ins_fixup_step.
  pose proof Hrep as (Ht & _ & _ & Hnd). pose proof Hrep as Hrep'.
  assert (Hu' : trep (nodes s) (Some g) u) by (subst P X; by destruct fl, Ht as (_&_&?)).
  subst P X. destruct fl; simpl in Ht; destruct_and? Ht; nodup_split Hnd;
    apply runs_bind, runs_gets; rb_reads; unfold is_red at 1; rb_reads;
    (eapply runs_is_red; [exact Hu'|]);
    inversion Hu; subst; simpl; change (is_color RBN_RED RBN_RED) with true;
    change (is_color RBN_BLACK RBN_RED) with false; cbn match; rb_reads.
  1, 3: eapply fixup_outer_l; [exact Hrep'|]; fix_close fix_inv_left.
  1, 3: eapply fixup_red_uncle_l; [exact Hrep'|]; fix_close fix_inv_up.
  all: (eapply runs_mono;
    [eapply (runs_rotate_left (FL RBN_BLACK g kg _ :: C)); by rewrite rep_plug|]);
    intros _ s1 [Hrep1 Hc1]; rewrite rep_plug in Hrep1; simpl in Hrep1;
    pose proof Hrep1 as ((_ & (Hx1 & (Hp1 & _) & _) & _) & _); rb_reads;
    (eapply fixup_outer_l; [exact Hrep1|]); fix_close fix_inv_left.
Qed.

(** ... and a right child. *)
Lemma fixup_parent_right C a xl k b p g kg u n c2 (fl : bool) sib kp s :
  let X := T RBN_RED a xl k b in
  let P := if fl then T RBN_RED X p kp sib else T RBN_RED sib p kp X in
  rep C (T RBN_BLACK u g kg P) s ->
  rb RBN_BLACK n a -> rb RBN_BLACK n b -> rb RBN_BLACK n sib -> rb c2 n u ->
  cok (S n) C ->
  runs (rbt_ins_fixup_step (Some xl)) s (fun r s' =>
    exists x' d', r = inl x' /\ (d' <= S (length C))%nat /\
      fix_inv (elems C (T RBN_BLACK u g kg P)) (card s) d' x' s').
Proof.
  intros X P Hrep Ha Hb Hsib Hu HC.
  assert (Hroot : root s <> Some xl).
  { destruct fl; subst P X.
    - apply (rep_not_root (FL RBN_RED p kp sib) (FR RBN_BLACK u g kg :: C) RBN_RED a xl k b).
      by rewrite !rep_plug.
    - apply (rep_not_root (FR RBN_RED sib p kp) (FR RBN_BLACK u g kg :: C) RBN_RED a xl k b).
      by rewrite !rep_plug. }
  unfold rbt_ins_fixup_step.
  pose proof Hrep as (Ht & _ & _ & Hnd). pose proof Hrep as Hrep'.
  assert (Hu' : trep (nodes s) (Some g) u) by (subst P X; by destruct fl, Ht as (_&?&_)).
  subst P X. destruct fl; simpl in Ht; destruct_and? Ht; nodup_split Hnd;
    apply runs_bind, runs_gets; rb_reads; unfold is_red at 1; rb_reads;
    (eapply runs_is_red; [exact Hu'|]);
    inversion Hu; subst; simpl; change (is_color RBN_RED RBN_RED) with true;
    change (is_color RBN_BLACK RBN_RED) with false; cbn match; rb_reads.
  4, 6: eapply fixup_outer_r; [exact Hrep'|]; fix_close fix_inv_right.
  2, 4: eapply fixup_red_uncle_r; [exact Hrep'|]; fix_close fix_inv_up.
  all: (eapply runs_mono;
    [eapply (runs_rotate_right (FR RBN_BLACK _ g kg :: C)); by rewrite rep_plug|]);
    intros _ s1 [Hrep1 Hc1]; rewrite rep_plug in Hrep1; simpl in Hrep1;
    pose proof Hrep1 as ((_ & _ & (Hx1 & _ & (Hp1 & _))) & _); rb_reads;
    (eapply fixup_outer_r; [exact Hrep1|]); fix_close fix_inv_right.
Qed.

Lemma runs_fixup_step els cd d x s :
  fix_inv els cd d x s ->
  runs (rbt_ins_fixup_step x) s (fun r s' =>
    match r with
    | inl x' => exists d', (d' < d)%nat /\ fix_inv els cd d' x' s'
    | inr _ => fix_done els cd s'
    end).
Proof.
  intros (C & a & xl & k & b & n & -> & Hrep & Ha & Hb & HC & Hels & Hcd & ->).
  destruct C as [|f1 C].
  { pose proof Hrep as (_ & _ & Hr & _). simpl in Hr. unfold rbt_ins_fixup_step. rb_reads.
    exists (T RBN_RED a xl k b), RBN_RED, n. unfold elems in Hels. simpl in Hels.
    rewrite app_nil_r in Hels. split_and!; [done|by constructor|done|done]. }
  destruct (fcolor f1) eqn:Hc1.
  - simpl in HC. rewrite Hc1 in HC. destruct HC as (Hs1 & Hne & Htop & HC).
    destruct C as [|f2 C]; [done|]. simpl in Htop, HC. rewrite Htop in HC.
    destruct HC as ([c2 Hs2] & HC). rewrite !rep_plug in Hrep. rewrite !elems_plug in Hels.
    subst els cd. apply (runs_mono _ _ (fun r s' => exists x' d',
      r = inl x' /\ (d' <= S (length C))%nat /\
      fix_inv (elems C (plug f2 (plug f1 (T RBN_RED a xl k b)))) (card s) d' x' s')).
    { destruct f2 as [cg g kg u|cg u g kg], f1 as [c1 p kp sib|c1 sib p kp]; simpl in *; subst.
      - by apply (fixup_parent_left C a xl k b p g kg u n c2 true).
      - by apply (fixup_parent_left C a xl k b p g kg u n c2 false).
      - by apply (fixup_parent_right C a xl k b p g kg u n c2 true).
      - by apply (fixup_parent_right C a xl k b p g kg u n c2 false). }
    intros r s' (x' & d' & -> & Hd & HI). exists d'. split; [simpl; lia|done].
  - pose proof (rep_not_root _ _ _ _ _ _ _ _ Hrep) as Hroot.
    pose proof (rep_lookup _ _ _ _ _ _ _ Hrep) as Hx. simpl in Hx.
    pose proof (rep_lookup_frame _ _ _ _ Hrep) as Hf1.
    unfold rbt_ins_fixup_step, is_red; destruct f1; simpl in *; subst; rb_reads;
      (eapply fix_done_black; eauto).
Qed.

Lemma runs_fixup els cd d x s fuel :
  fix_inv els cd d x s -> (d < fuel)%nat ->
  runs (loopM fuel rbt_ins_fixup_step x) s (fun _ s' => fix_done els cd s').
Proof.
  intros HI Hd. eapply (runs_loop (fix_inv els cd)); [|done|done].
  intros. by apply runs_fixup_step.
Qed.
End inv.
