(* ===== verification/RbtOps.v ===== *)
(** * Red-black trees: insertion and searches

    [rbt_ok] is the invariant every operation of rbt.c keeps.  This file has
    the correctness of [rbt_ins] and of the searches against the in-order
    sequence of the tree. *)

From stdpp Require Import prelude gmap sorting.
From S2P Require Import Prelude Rbt RbtRep RbtRot RbtIns.

Section ok.
Context {K : Type}.
Implicit Types (s : rbt K) (C : ctx K) (t u : tree K).

Definition rbt_ok t s : Prop :=
  rep [] t s /\ (exists n, rb RBN_BLACK n t) /\ card s = Z.of_nat (length (inorder t)).

Lemma trep_dom m par t : trep m par t -> forall q : loc, q ∈ (inorder t).*1 -> is_Some (m !! q).
Proof.
  revert par. induction t as [|c l IHl p k r IHr]; intros par; simpl; [set_solver|].
  intros (Hp & Hl & Hr) q. rewrite fmap_app, elem_of_app, fmap_cons, elem_of_cons. simpl.
  intros [?|[->|?]]; [by eapply IHl|by rewrite Hp|by eapply IHr].
Qed.

Lemma rep_size C t s : rep C t s -> (length (elems C t) <= size (nodes s))%nat.
Proof.
  rewrite rep_zip, elems_zip. intros (Ht & _ & _ & Hnd).
  unfold elems in Hnd. simpl in Hnd. rewrite app_nil_r in Hnd.
  rewrite <- (length_fmap fst), <- (size_list_to_set (C := gset loc)) by done.
  rewrite <- (size_dom (D := gset loc)). apply subseteq_size. intros q.
  rewrite elem_of_list_to_set, elem_of_dom. by apply (trep_dom _ _ _ Ht).
Qed.

Lemma rep_size_tree C t s : rep C t s -> (length (inorder t) <= size (nodes s))%nat.
Proof.
  intros H%rep_size. unfold elems in H. rewrite !length_app in H. lia.
Qed.

Lemma rep_size_ctx C t s : rep C t s -> (length C + length (inorder t) <= size (nodes s))%nat.
Proof.
  intros H%rep_size. etrans; [|exact H]. clear H. unfold elems. rewrite !length_app.
  induction C as [|[] C IH]; simpl; rewrite ?length_app; simpl; lia.
Qed.

(** Nodes that are not part of the tree can be written freely. *)
Lemma rep_outside C t m r0 cd cd' q nd :
  q ∉ (elems C t).*1 -> rep C t (Rbt m r0 cd) -> rep C t (Rbt (<[q := nd]> m) r0 cd').
Proof.
  intros Hq (Ht & HC & Hr & Hnd). unfold elems in Hq. rewrite !fmap_app in Hq.
  apply not_elem_of_app in Hq as [Hq1 Hq2]. apply not_elem_of_app in Hq2 as [Hq2 Hq3].
  split_and!; simpl in *; [by apply trep_insert|by apply crep_insert|done|done].
Qed.

Lemma zip_cok C t n0 :
  rb RBN_BLACK n0 (zip C t) ->
  exists c n, rb c n t /\ cok n C /\ (c = RBN_RED -> C <> [] /\ ctop C = RBN_BLACK).
Proof.
  revert t. induction C as [|f C IH]; intros t H.
  { by exists RBN_BLACK, n0. }
  destruct (IH (plug f t) H) as (c & n & Hp & HC & Hc).
  destruct f; simpl in Hp; inversion Hp; subst; simpl;
    destruct_and?; eexists _, _; split_and!; try done; eauto; by destruct Hc.
Qed.

Lemma rb_blacken c n t : rb c n t -> t <> E ->
  exists l p k r cl cr m, t = T c l p k r /\ rb cl m l /\ rb cr m r.
Proof. destruct 1; [done|..]; intros _; eauto 11. Qed.
End ok.

Section search.
Context {K : Type} (cmp : K -> K -> Z) {Hcmp : Comparator cmp}.
Implicit Types (s : rbt K) (C : ctx K) (t u : tree K) (e : loc * K).

Definition key_le e1 e2 : Prop := cmp e1.2 e2.2 <= 0.
Definition sorted (l : list (loc * K)) : Prop := StronglySorted key_le l.

Lemma cmp_refl a : cmp a a = 0.
Proof. destruct (Z.lt_trichotomy (cmp a a) 0) as [H|[H|H]]; [|done|];
  pose proof (proj1 (cmp_opp a a)); pose proof (proj2 (cmp_opp a a)); lia. Qed.

Lemma cmp_flip a b : cmp a b <= 0 <-> 0 <= cmp b a.
Proof. pose proof (cmp_opp a b). pose proof (cmp_opp b a). lia. Qed.

Lemma cmp_lt_le a b c : 0 < cmp a c -> cmp a b <= 0 -> 0 < cmp b c.
Proof.
  intros Hac Hab. destruct (Z.lt_ge_cases 0 (cmp b c)) as [|Hbc]; [done|].
  pose proof (cmp_trans a b c Hab Hbc). lia.
Qed.

Lemma cmp_le_lt a b c : cmp a c < 0 -> cmp b a <= 0 -> cmp b c < 0.
Proof.
  intros Hac Hba. apply cmp_opp. apply cmp_opp in Hac.
  destruct (Z.lt_ge_cases 0 (cmp c b)) as [|Hcb]; [done|].
  pose proof (cmp_trans c b a Hcb Hba). lia.
Qed.

(** The elements left of a position are at most [k], those right of it are
    larger: where a descent for [k] leads. *)
Definition around (k : K) C : Prop :=
  Forall (fun e => cmp e.2 k <= 0) (cleft C) /\
  Forall (fun e => 0 < cmp e.2 k) (cright C).

Lemma around_left k C c l p kp r :
  sorted (elems C (T c l p kp r)) -> around k C -> 0 < cmp kp k ->
  around k (FL c p kp r :: C).
Proof.
  unfold elems. simpl. intros Hs [HL HR] Hlt. split; [done|]. simpl.
  apply Forall_cons. split; [done|]. apply Forall_app. split; [|done].
  apply StronglySorted_app_1_r, StronglySorted_app_1_l, StronglySorted_app_1_r in Hs.
  apply StronglySorted_cons in Hs as [Hs _]. eapply Forall_impl; [exact Hs|].
  intros e He. by apply (cmp_lt_le kp).
Qed.

Lemma around_right k C c l p kp r :
  sorted (elems C (T c l p kp r)) -> around k C -> cmp kp k <= 0 ->
  around k (FR c l p kp :: C).
Proof.
  unfold elems. simpl. intros Hs [HL HR] Hle. split; [|done]. simpl.
  apply Forall_app. split; [done|]. apply Forall_app. split; [|by apply Forall_singleton].
  apply StronglySorted_app_1_r, StronglySorted_app_1_l in Hs.
  apply Forall_forall. intros e He.
  apply (cmp_trans _ kp); [|done].
  apply (StronglySorted_app_1_elem_of _ _ _ e (p, kp) Hs); [done|by left].
Qed.

(** ** Insertion *)

(** The sign of the last comparison tells which child the hole is. *)
Definition hole_side (c : Z) C : Prop :=
  match C with [] => True | FL _ _ _ _ :: _ => 0 < c | FR _ _ _ _ :: _ => c <= 0 end.

(** Where a descent for [k] is: at subtree [u], in context [C]. *)
Definition descent (k : K) t s C u : Prop :=
  zip C u = t /\ rep C u s /\ (sorted (inorder t) -> around k C).

Lemma descent_left k t s C c l p kp r :
  descent k t s C (T c l p kp r) -> 0 < cmp kp k -> descent k t s (FL c p kp r :: C) l.
Proof.
  intros (Hz & Hrep & Har) Hlt. split_and!; [done|by apply rep_plug|].
  intros Hs. eapply around_left; [|by auto|done]. rewrite elems_zip, Hz. exact Hs.
Qed.

Lemma descent_right k t s C c l p kp r :
  descent k t s C (T c l p kp r) -> cmp kp k <= 0 -> descent k t s (FR c l p kp :: C) r.
Proof.
  intros (Hz & Hrep & Har) Hle. split_and!; [done|by apply rep_plug|].
  intros Hs. eapply around_right; [|by auto|done]. rewrite elems_zip, Hz. exact Hs.
Qed.

Lemma descent_start k t s : rep [] t s -> descent k t s [] t.
Proof. intros H. split_and!; [done|done|]. intros _. split; by apply Forall_nil. Qed.

Lemma descent_node k t s C c l p kp r :
  descent k t s C (T c l p kp r) ->
  nodes s !! p = Some (Rbn (tptr l) (tptr r) (cpar C) c kp).
Proof. intros (_ & Hrep & _). apply Hrep. Qed.

Lemma runs_ins_descend t s x nd :
  rep [] t s -> nodes s !! x = Some nd ->
  runs (rbt_ins_descend cmp (Some x)) s (fun '(par, c) s' =>
    s' = s /\ exists C, descent (key nd) t s C E /\ par = cpar C /\ hole_side c C).
Proof.
  intros Hrep Hx. unfold rbt_ins_descend. rb_reads.
  eapply (runs_loop (fun d '(n, par, c) s' => s' = s /\ exists C u,
    descent (key nd) t s C u /\ n = tptr u /\ par = cpar C /\ hole_side c C /\
    d = length (inorder u))).
  - intros d [[n par] c] s' (-> & C & u & Hd & -> & -> & Hc & ->).
    destruct u as [|cu l p kp r]; simpl.
    { rb_reads. eauto 6. }
    pose proof (descent_node _ _ _ _ _ _ _ _ _ Hd) as Hp. rb_reads.
    destruct (Z.ltb_spec 0 (cmp kp (key nd))) as [Hlt|Hle]; rb_reads;
      (eexists; split; [|split; [done|eexists _, _; split;
         [first [by eapply descent_left|by eapply descent_right]|done]]]);
      rewrite length_app; simpl; lia.
  - split; [done|]. exists [], t. split; [by apply descent_start|].
    destruct Hrep as (_ & _ & Hr & _). by rewrite Hr.
  - apply rep_size_tree in Hrep. simpl. lia.
Qed.

(** Linking a fresh red node into the hole that the descent found. *)
Lemma runs_link {B} (rest : M (rbt K) B) C c x k pp s Q :
  rep C E s -> hole_side c C -> C <> [] -> x ∉ (elems C E).*1 ->
  nodes s !! x = Some (Rbn None None pp RBN_RED k) ->
  (forall s', rep C (T RBN_RED E x k E) s' -> card s' = card s -> runs rest s' Q) ->
  runs (set_parent (Some x) (cpar C);;
        (if 0 <? c then set_left (cpar C) (Some x) else set_right (cpar C) (Some x));;
        rest) s Q.
Proof.
  intros (Ht & HC & Hr & Hnd) Hside Hne Hx Hlx HQ.
  destruct C as [|[cf p kp r|cf l p kp] C]; [done| |];
    simpl in *; destruct HC as (Hp & Hsib & HC); unfold elems in Hx; simpl in Hx;
    autorewrite with nodup in Hx; simpl in Hx; destruct_and? Hx; nodup_split Hnd;
    rb_read; rb_write; (destruct (Z.ltb_spec 0 c); [|try lia]); try lia;
    rb_read; rb_write; apply HQ; try done;
    rep_tac; unfold elems; simpl; autorewrite with nodup; simpl; split_and?; done.
Qed.

Lemma runs_fix_root els cd s :
  fix_done els cd s -> els <> [] -> cd = Z.of_nat (length els) ->
  runs (r ← get_root; set_color r RBN_BLACK) s (fun _ s' =>
    exists t, rbt_ok t s' /\ inorder t = els).
Proof.
  intros (t & c & n & Hrep & Hrb & <- & <-) Hne Hcd.
  destruct (rb_blacken _ _ _ Hrb) as (l & p & k & r & cl & cr & m & -> & Hl & Hr); [by intros ->|].
  apply runs_bind. pose proof Hrep as (_ & _ & Hroot & _). rb_reads. rewrite Hroot.
  eapply runs_mono; [by eapply runs_set_color|]. simpl. intros _ s' [Hrep' Hcd'].
  exists (T RBN_BLACK l p k r). split; [|done]. split; [done|]. split; [|simpl in *; congruence].
  eexists. by econstructor.
Qed.

(** The part of [rbt_ins] after the node is prepared, for a non-empty tree. *)
Lemma runs_ins_nonempty t x k pp s :
  rep [] t s -> (exists n, rb RBN_BLACK n t) -> t <> E ->
  card s = Z.of_nat (length (inorder t)) + 1 ->
  x ∉ (inorder t).*1 -> nodes s !! x = Some (Rbn None None pp RBN_RED k) ->
  runs ('(par, c) ← rbt_ins_descend cmp (Some x);
        c_assert (negb (is_null par));;
        set_parent (Some x) par;;
        (if 0 <? c then set_left par (Some x) else set_right par (Some x));;
        f ← fuel;
        loopM f rbt_ins_fixup_step (Some x);;
        r ← get_root;
        set_color r RBN_BLACK) s (fun _ s' =>
    exists t' l1 l2, rbt_ok t' s' /\ inorder t = l1 ++ l2 /\
      inorder t' = l1 ++ (x, k) :: l2 /\
      (sorted (inorder t) ->
         Forall (fun e => cmp e.2 k <= 0) l1 /\ Forall (fun e => 0 < cmp e.2 k) l2)).
Proof.
  intros Hrep [n Hrb] Hne Hcd Hx Hlx. apply runs_bind.
  eapply runs_mono; [by eapply runs_ins_descend|]. simpl.
  intros [par c] s' (-> & C & (Hz & HrepC & Har) & -> & Hside). subst t.
  rewrite <- elems_zip in *. unfold elems in Hcd, Hx, Har |- *; simpl in Hcd, Hx, Har |- *.
  assert (C <> []) as HC by (by intros ->).
  rb_read. rb_read. { by destruct C. }
  eapply (runs_link _ C c x k pp); try done. intros s' Hrep' Hcd'. rb_reads.
  destruct (zip_cok _ _ _ Hrb) as (c0 & n0 & HE & Hcok & _). inversion HE; subst.
  eapply runs_mono.
  { eapply (runs_fixup _ (card s') (length C)); [|apply rep_size_ctx in Hrep'; simpl in *; lia].
    exists C, E, x, k, E, 0%nat. split_and!; try done; constructor. }
  simpl. intros _ s2 Hdone. eapply runs_mono; [eapply (runs_fix_root _ _ _ Hdone)|].
  - unfold elems. by destruct (cleft C).
  - rewrite Hcd', Hcd. unfold elems. rewrite !length_app. simpl. lia.
  - simpl. intros _ s3 (t' & Hok & Hin). exists t', (cleft C), (cright C). done.
Qed.

Lemma runs_rbt_ins t x nd s :
  rbt_ok t s -> x ∉ (inorder t).*1 -> nodes s !! x = Some nd ->
  runs (rbt_ins cmp (Some x)) s (fun _ s' =>
    exists t' l1 l2, rbt_ok t' s' /\ inorder t = l1 ++ l2 /\
      inorder t' = l1 ++ (x, key nd) :: l2 /\
      (sorted (inorder t) ->
         Forall (fun e => cmp e.2 (key nd) <= 0) l1 /\ Forall (fun e => 0 < cmp e.2 (key nd)) l2)).
Proof.
  intros (Hrep & Hrb & Hcd) Hx Hlx. unfold rbt_ins. destruct s as [m r0 cd]. simpl in *.
  do 2 rb_read. do 6 (first [rb_write|rb_read]). rb_reads.
  pose proof Hrep as (_ & _ & Hroot & _). simpl in Hroot. subst r0.
  destruct t as [|c l p k r] eqn:Et; simpl.
  - rb_steps. exists (T RBN_BLACK E x (key nd) E), [], [].
    split_and!; [|done|done|by split].
    split_and!; [|by exists 1%nat; econstructor; constructor|simpl in *; lia].
    rep_tac. simpl. by apply NoDup_singleton.
  - rewrite <- Et in *. rb_read. rb_write.
    change (inorder l ++ (p, k) :: inorder r) with (inorder (T c l p k r)).
    change (Some p) with (tptr (T c l p k r)). rewrite <- Et.
    eapply (runs_ins_nonempty t x (key nd) (parent nd)); [|done|by rewrite Et| |done|].
    + repeat (apply (rep_outside _ _ _ _ cd); [by unfold elems; simpl; rewrite app_nil_r|]). done.
    + simpl. by rewrite Hcd.
    + by lookup_tac.
Qed.

Lemma sorted_insert x l1 l2 :
  sorted (l1 ++ l2) ->
  Forall (fun e => cmp e.2 x.2 <= 0) l1 -> Forall (fun e => 0 < cmp e.2 x.2) l2 ->
  sorted (l1 ++ x :: l2).
Proof.
  unfold sorted. rewrite !StronglySorted_app, StronglySorted_cons, !Forall_forall.
  intros (H12 & H1 & H2) Hl1 Hl2. split_and!; [|done|..|done].
  - intros e1 e2 He1. rewrite elem_of_cons. intros [->|He2]; [by apply Hl1|by apply H12].
  - intros e He. unfold key_le.
    pose proof (Hl2 _ He). pose proof (cmp_opp x.2 e.2). lia.
Qed.
End search.
