(* ===== verification/RbtSearch.v ===== *)
(** * Red-black trees: the searches

    [rbt_find], [rbt_find_glb], [rbt_find_lub], [rbt_min], [rbt_max],
    [rbn_succ] and [rbn_pred] against the in-order sequence.  None of them
    writes: every statement says that the store is unchanged. *)

From stdpp Require Import prelude gmap sorting.
From S2P Require Import Prelude Rbt RbtRep RbtRot RbtIns RbtOps.

Section search.
Context {K : Type} (cmp : K -> K -> Z) {Hcmp : Comparator cmp}.
Implicit Types (s : rbt K) (C : ctx K) (t u : tree K) (e : loc * K).

(** A search for [k] has left the smaller keys to the left and the larger
    ones to the right. *)
Definition narrowed (k : K) t s C u : Prop :=
  zip C u = t /\ rep C u s /\ sorted cmp (inorder t) /\
  Forall (fun e => cmp e.2 k < 0) (cleft C) /\
  Forall (fun e => 0 < cmp e.2 k) (cright C).

Lemma narrowed_start k t s : rep [] t s -> sorted cmp (inorder t) -> narrowed k t s [] t.
Proof. intros. split_and!; try done; by apply Forall_nil. Qed.

Lemma narrowed_node k t s C c l p kp r :
  narrowed k t s C (T c l p kp r) ->
  nodes s !! p = Some (Rbn (tptr l) (tptr r) (cpar C) c kp) /\ (p, kp) ∈ inorder t.
Proof.
  intros (<- & Hrep & _). split; [apply Hrep|]. rewrite <- elems_zip. unfold elems. simpl.
  set_solver.
Qed.

Lemma narrowed_sorted k t s C c l p kp r :
  narrowed k t s C (T c l p kp r) ->
  (forall e, e ∈ inorder l -> cmp e.2 kp <= 0) /\ (forall e, e ∈ inorder r -> cmp kp e.2 <= 0).
Proof.
  intros (<- & _ & Hs & _). rewrite <- elems_zip in Hs. unfold elems in Hs. simpl in Hs.
  apply StronglySorted_app_1_r, StronglySorted_app_1_l, StronglySorted_app in Hs as (Hlr & _ & Hr).
  apply StronglySorted_cons in Hr as [Hr _]. rewrite Forall_forall in Hr.
  split; [|exact Hr]. intros e He. apply (Hlr e (p, kp)); [done|by left].
Qed.

Lemma narrowed_left k t s C c l p kp r :
  narrowed k t s C (T c l p kp r) -> 0 < cmp kp k -> narrowed k t s (FL c p kp r :: C) l.
Proof.
  intros Hn Hlt. pose proof (narrowed_sorted _ _ _ _ _ _ _ _ _ Hn) as [_ Hr].
  destruct Hn as (? & ? & ? & ? & ?). split_and!; try done; [by apply rep_plug|].
  simpl. apply Forall_cons. split; [done|]. apply Forall_app. split; [|done].
  apply Forall_forall. intros e He. eapply cmp_lt_le; eauto.
Qed.

Lemma narrowed_right k t s C c l p kp r :
  narrowed k t s C (T c l p kp r) -> cmp kp k < 0 -> narrowed k t s (FR c l p kp :: C) r.
Proof.
  intros Hn Hlt. pose proof (narrowed_sorted _ _ _ _ _ _ _ _ _ Hn) as [Hl _].
  destruct Hn as (? & ? & ? & ? & ?). split_and!; try done; [by apply rep_plug|].
  simpl. apply Forall_app. split; [done|]. apply Forall_app.
  split; [|by apply Forall_singleton].
  apply Forall_forall. intros e He. eapply cmp_le_lt; eauto.
Qed.

Lemma narrowed_end k t s C e :
  narrowed k t s C E -> e ∈ inorder t ->
  e ∈ cleft C /\ cmp e.2 k < 0 \/ e ∈ cright C /\ 0 < cmp e.2 k.
Proof.
  intros (<- & _ & _ & Hl & Hr). rewrite <- elems_zip. unfold elems. simpl.
  rewrite elem_of_app, !Forall_forall in *. naive_solver.
Qed.

Definition is_find (k : K) t (r : ptr) : Prop :=
  match r with
  | Some p => exists kp, (p, kp) ∈ inorder t /\ cmp kp k = 0
  | None => forall e, e ∈ inorder t -> cmp e.2 k <> 0
  end.

(** A descent by the sign of the comparison takes less than the fuel: the
    subtree shrinks. *)
Ltac narrow_step Hn :=
  eexists; split;
    [|split; [reflexivity|eexists _, _; split;
        [first [by eapply narrowed_left; [exact Hn|lia]
               |by eapply narrowed_right; [exact Hn|lia]]|split; [reflexivity|]]]];
    [rewrite length_app; simpl; lia|].

Lemma runs_rbt_find k t s :
  rep [] t s -> sorted cmp (inorder t) ->
  runs (rbt_find cmp k) s (fun r s' => s' = s /\ is_find k t r).
Proof.
  intros Hrep Hs. unfold rbt_find. rb_reads.
  eapply (runs_loop (fun d x s' => s' = s /\ exists C u,
    narrowed k t s C u /\ d = length (inorder u) /\ x = tptr u)).
  - intros d x s' (-> & C & u & Hn & -> & ->). destruct u as [|c l p kp r]; simpl.
    + rb_reads. split; [done|]. intros e He. destruct (narrowed_end _ _ _ _ _ Hn He); lia.
    + destruct (narrowed_node _ _ _ _ _ _ _ _ _ Hn) as [Hp Hin]. rb_reads.
      destruct (Z.eqb_spec (cmp kp k) 0). { rb_reads. simpl. eauto. }
      destruct (Z.ltb_spec 0 (cmp kp k)); rb_reads; narrow_step Hn; done.
  - split; [done|]. exists [], t. split; [by apply narrowed_start|].
    destruct Hrep as (_ & _ & Hr & _). by rewrite Hr.
  - apply rep_size_tree in Hrep. simpl. lia.
Qed.

(** The greatest element at most [k], and the least element at least [k]. *)
Definition is_glb (k : K) t (r : ptr) : Prop :=
  match r with
  | Some p => exists kp, (p, kp) ∈ inorder t /\ cmp kp k <= 0 /\
      forall e, e ∈ inorder t -> cmp e.2 k <= 0 -> cmp e.2 kp <= 0
  | None => forall e, e ∈ inorder t -> 0 < cmp e.2 k
  end.

Definition is_lub (k : K) t (r : ptr) : Prop :=
  match r with
  | Some p => exists kp, (p, kp) ∈ inorder t /\ 0 <= cmp kp k /\
      forall e, e ∈ inorder t -> 0 <= cmp e.2 k -> cmp kp e.2 <= 0
  | None => forall e, e ∈ inorder t -> cmp e.2 k < 0
  end.

Lemma is_glb_eq k t p kp : (p, kp) ∈ inorder t -> cmp kp k = 0 -> is_glb k t (Some p).
Proof.
  intros Hin Heq. exists kp. split_and!; [done|lia|]. intros e _ He.
  apply (cmp_trans _ k); [done|]. pose proof (cmp_opp kp k). lia.
Qed.

Lemma is_lub_eq k t p kp : (p, kp) ∈ inorder t -> cmp kp k = 0 -> is_lub k t (Some p).
Proof.
  intros Hin Heq. exists kp. split_and!; [done|lia|]. intros e _ He.
  apply (cmp_trans _ k); [lia|]. by apply cmp_flip.
Qed.

Lemma narrowed_glb k t s C :
  narrowed k t s C E -> is_glb k t (fst <$> last (cleft C)).
Proof.
  intros Hn. destruct (last (cleft C)) as [[p kp]|] eqn:Hl; simpl.
  - apply last_Some in Hl as [l' Hl]. pose proof Hn as (Hz & Hrep & Hs & HL & HR).
    exists kp. rewrite Hl in HL. apply Forall_app in HL as [_ HL]; rewrite Forall_singleton in HL.
    split_and!; [|simpl in *; lia|].
    + rewrite <- Hz, <- elems_zip. unfold elems. rewrite Hl. set_solver.
    + intros e He Hle. destruct (narrowed_end _ _ _ _ _ Hn He) as [[Hec _]|]; [|lia].
      rewrite Hl, elem_of_app, list_elem_of_singleton in Hec.
      destruct Hec as [Hec| ->]; [|by rewrite cmp_refl].
      rewrite <- Hz, <- elems_zip in Hs. unfold elems in Hs. rewrite Hl in Hs.
      apply StronglySorted_app_1_l, StronglySorted_app in Hs as (Hs & _).
      apply (Hs e (p, kp)); [done|by left].
  - apply last_None in Hl. intros e He.
    destruct (narrowed_end _ _ _ _ _ Hn He) as [[Hec _]|[]]; [|done].
    rewrite Hl in Hec. by apply elem_of_nil in Hec.
Qed.

Lemma narrowed_lub k t s C :
  narrowed k t s C E -> is_lub k t (fst <$> head (cright C)).
Proof.
  intros Hn. destruct (cright C) as [|[p kp] l'] eqn:Hl; simpl.
  - intros e He. destruct (narrowed_end _ _ _ _ _ Hn He) as [[]|[Hec _]]; [done|].
    rewrite Hl in Hec. by apply elem_of_nil in Hec.
  - pose proof Hn as (Hz & Hrep & Hs & HL & HR).
    exists kp. rewrite Hl in HR. apply Forall_cons in HR as [HR _].
    split_and!; [|simpl in *; lia|].
    + rewrite <- Hz, <- elems_zip. unfold elems. rewrite Hl. set_solver.
    + intros e He Hle. destruct (narrowed_end _ _ _ _ _ Hn He) as [|[Hec _]]; [lia|].
      rewrite Hl, elem_of_cons in Hec.
      destruct Hec as [->|Hec]; [by rewrite cmp_refl|].
      rewrite <- Hz, <- elems_zip in Hs. unfold elems in Hs. rewrite Hl in Hs.
      apply StronglySorted_app_1_r, StronglySorted_app_1_r, StronglySorted_cons in Hs as [Hs _].
      rewrite Forall_forall in Hs. by apply (Hs e).
Qed.

Lemma runs_rbt_find_glb k t s :
  rep [] t s -> sorted cmp (inorder t) ->
  runs (rbt_find_glb cmp k) s (fun r s' => s' = s /\ is_glb k t r).
Proof.
  intros Hrep Hs. unfold rbt_find_glb. rb_reads.
  eapply (runs_loop (fun d '(x, glb) s' => s' = s /\ exists C u,
    narrowed k t s C u /\ d = length (inorder u) /\ x = tptr u /\
    glb = fst <$> last (cleft C))).
  - intros d [x g] s' (-> & C & u & Hn & -> & -> & ->). destruct u as [|c l p kp r]; simpl.
    + rb_reads. split; [done|]. by eapply narrowed_glb.
    + destruct (narrowed_node _ _ _ _ _ _ _ _ _ Hn) as [Hp Hin]. rb_reads.
      destruct (Z.eqb_spec (cmp kp k) 0). { rb_reads. split; [done|]. by eapply is_glb_eq. }
      destruct (Z.ltb_spec 0 (cmp kp k)); rb_reads; narrow_step Hn; simpl; [done|].
      by rewrite app_assoc, last_snoc.
  - split; [done|]. exists [], t. split; [by apply narrowed_start|].
    destruct Hrep as (_ & _ & Hr & _). by rewrite Hr.
  - apply rep_size_tree in Hrep. simpl. lia.
Qed.

Lemma runs_rbt_find_lub k t s :
  rep [] t s -> sorted cmp (inorder t) ->
  runs (rbt_find_lub cmp k) s (fun r s' => s' = s /\ is_lub k t r).
Proof.
  intros Hrep Hs. unfold rbt_find_lub. rb_reads.
  eapply (runs_loop (fun d '(x, lub) s' => s' = s /\ exists C u,
    narrowed k t s C u /\ d = length (inorder u) /\ x = tptr u /\
    lub = fst <$> head (cright C))).
  - intros d [x g] s' (-> & C & u & Hn & -> & -> & ->). destruct u as [|c l p kp r]; simpl.
    + rb_reads. split; [done|]. by eapply narrowed_lub.
    + destruct (narrowed_node _ _ _ _ _ _ _ _ _ Hn) as [Hp Hin]. rb_reads.
      destruct (Z.eqb_spec (cmp kp k) 0). { rb_reads. split; [done|]. by eapply is_lub_eq. }
      destruct (Z.ltb_spec (cmp kp k) 0); rb_reads; narrow_step Hn; done.
  - split; [done|]. exists [], t. split; [by apply narrowed_start|].
    destruct Hrep as (_ & _ & Hr & _). by rewrite Hr.
  - apply rep_size_tree in Hrep. simpl. lia.
Qed.
End search.

(** ** First, last, next and previous element *)

Section iterate.
Context {K : Type}.
Implicit Types (s : rbt K) (C : ctx K) (t u : tree K) (e : loc * K).

Lemma tree_E_dec t : t = E \/ t <> E.
Proof. destruct t; [by left|by right]. Qed.

Lemma inorder_nonempty c l p k r : inorder (T c l p k r) <> ([] : list (loc * K)).
Proof. simpl. by destruct (inorder l). Qed.

Lemma last_inorder_node c l p k r :
  r <> E -> last (inorder (T c l p k r)) = last (A := loc * K) (inorder r).
Proof.
  intros Hr. simpl. rewrite last_app_cons, last_cons.
  destruct (last (inorder r)) eqn:Hl; [done|]. apply last_None in Hl.
  destruct r; [done|]. by apply inorder_nonempty in Hl.
Qed.

Lemma head_inorder_node c l p k r :
  l <> E -> head (inorder (T c l p k r)) = head (A := loc * K) (inorder l).
Proof.
  intros Hl. simpl. destruct (inorder l) eqn:Hi; [|done].
  destruct l; [done|]. by apply inorder_nonempty in Hi.
Qed.

Lemma head_inorder_app t l : t <> E -> head (inorder t ++ l) = head (A := loc * K) (inorder t).
Proof.
  intros Ht. destruct (inorder t) eqn:Hi; [|done].
  destruct t; [done|]. by apply inorder_nonempty in Hi.
Qed.

Lemma last_app_inorder t l : t <> E -> last (l ++ inorder t) = last (A := loc * K) (inorder t).
Proof.
  intros Ht. rewrite last_app. destruct (last (inorder t)) eqn:Hl; [done|].
  apply last_None in Hl. destruct t; [done|]. by apply inorder_nonempty in Hl.
Qed.

(** The left spine of a tree ends at its first element. *)
Lemma runs_rbn_min C u s :
  rep C u s ->
  runs (rbn_min (tptr u)) s (fun r s' => s' = s /\ r = fst <$> head (inorder u)).
Proof.
  intros Hrep. unfold rbn_min. rb_reads.
  eapply (runs_loop (fun d x s' => s' = s /\ exists C' u', rep C' u' s /\ x = tptr u' /\
    (fst <$> head (inorder u')) = (fst <$> head (inorder u)) /\ d = length (inorder u'))).
  - intros d x s' (-> & C' & [|c l p k r] & Hr & -> & Hh & ->); simpl.
    { rb_reads. done. }
    pose proof Hr as ((Hp & _) & _). rb_reads. destruct l as [|cl ll pl kl rl] eqn:El; simpl.
    { rb_reads. done. }
    rewrite <- El in *. rb_reads. exists (length (inorder l)).
    split; [subst l; simpl; rewrite !length_app; simpl; lia|]. split; [done|]. exists (FL c p k r :: C'), l. split_and!; [by apply rep_plug|by subst| |done].
    rewrite <- Hh. rewrite head_inorder_node by by subst. done.
  - split; [done|]. by exists C, u.
  - apply rep_size_tree in Hrep. simpl. lia.
Qed.

Lemma runs_rbn_max C u s :
  rep C u s ->
  runs (rbn_max (tptr u)) s (fun r s' => s' = s /\ r = fst <$> last (inorder u)).
Proof.
  intros Hrep. unfold rbn_max. rb_reads.
  eapply (runs_loop (fun d x s' => s' = s /\ exists C' u', rep C' u' s /\ x = tptr u' /\
    (fst <$> last (inorder u')) = (fst <$> last (inorder u)) /\ d = length (inorder u'))).
  - intros d x s' (-> & C' & [|c l p k r] & Hr & -> & Hh & ->); simpl.
    { rb_reads. done. }
    pose proof Hr as ((Hp & _) & _). rb_reads. destruct r as [|cr lr pr kr rr] eqn:Er; simpl.
    { rb_reads. split; [done|]. rewrite <- Hh. simpl. by rewrite last_snoc. }
    rewrite <- Er in *. rb_reads. exists (length (inorder r)).
    split; [subst r; simpl; rewrite !length_app; simpl; rewrite ?length_app; simpl; lia|]. split; [done|]. exists (FR c l p k :: C'), r. split_and!; [by apply rep_plug|by subst| |done].
    rewrite <- Hh. rewrite last_inorder_node by by subst. done.
  - split; [done|]. by exists C, u.
  - apply rep_size_tree in Hrep. simpl. lia.
Qed.

Lemma runs_rbn_succ C c l p k r s :
  rep C (T c l p k r) s ->
  runs (rbn_succ (Some p)) s (fun q s' =>
    s' = s /\ q = fst <$> head (inorder r ++ cright C)).
Proof.
  intros Hrep. unfold rbn_succ. pose proof Hrep as ((Hp & _) & _). rb_reads.
  destruct (tree_E_dec r) as [->|Hne].
  2: { replace (is_null (tptr r)) with false by by destruct r. simpl.
       assert (Hr : rep (FR c l p k :: C) r s) by by apply rep_plug.
       rewrite head_inorder_app by done. by eapply runs_rbn_min. }
  simpl. rb_reads. destruct C as [|f C]. { simpl. rb_reads. done. }
  simpl. rb_reads.
  eapply (runs_loop (fun d x s' => s' = s /\ exists C' c' l' p' k' r', rep C' (T c' l' p' k' r') s /\
    x = Some p' /\ cright C' = cright (f :: C) /\ d = length C')).
  - intros d x s' (-> & C' & c' & l' & p' & k' & r' & Hr & -> & Hc & ->). simpl in Hc.
    rewrite <- Hc. pose proof Hr as ((Hp' & _) & HC & _ & Hnd). rb_reads.
    destruct C' as [|[cf pf kf rf|cf lf pf kf] C']; simpl; [by rb_reads| |];
      simpl in HC; destruct HC as (Hpf & Ht & HC); nodup_split Hnd; rb_reads.
    + rewrite same_false by ptr_ne_tac. rb_reads. done.
    + rewrite same_true by done. rb_reads. exists (length C'). split; [lia|]. split; [done|].
      rewrite rep_plug in Hr. naive_solver.
  - split; [done|]. eauto 12.
  - apply rep_size_ctx in Hrep. simpl in *. lia.
Qed.

Lemma runs_rbn_pred C c l p k r s :
  rep C (T c l p k r) s ->
  runs (rbn_pred (Some p)) s (fun q s' =>
    s' = s /\ q = fst <$> last (cleft C ++ inorder l)).
Proof.
  intros Hrep. unfold rbn_pred. pose proof Hrep as ((Hp & _) & _). rb_reads.
  destruct (tree_E_dec l) as [->|Hne].
  2: { replace (is_null (tptr l)) with false by by destruct l. simpl.
       assert (Hr : rep (FL c p k r :: C) l s) by by apply rep_plug.
       rewrite last_app_inorder by done. by eapply runs_rbn_max. }
  simpl. rewrite app_nil_r. rb_reads. destruct C as [|f C]. { simpl. rb_reads. done. }
  simpl. rb_reads.
  eapply (runs_loop (fun d x s' => s' = s /\ exists C' c' l' p' k' r', rep C' (T c' l' p' k' r') s /\
    x = Some p' /\ cleft C' = cleft (f :: C) /\ d = length C')).
  - intros d x s' (-> & C' & c' & l' & p' & k' & r' & Hr & -> & Hc & ->). simpl in Hc.
    rewrite <- Hc. pose proof Hr as ((Hp' & _) & HC & _ & Hnd). rb_reads.
    destruct C' as [|[cf pf kf rf|cf lf pf kf] C']; simpl; [by rb_reads| |];
      simpl in HC; destruct HC as (Hpf & Ht & HC); nodup_split Hnd; rb_reads.
    + rewrite same_true by done. rb_reads. exists (length C'). split; [lia|]. split; [done|].
      rewrite rep_plug in Hr. naive_solver.
    + rewrite same_false by ptr_ne_tac. rb_reads. by rewrite app_assoc, last_snoc.
  - split; [done|]. eauto 12.
  - apply rep_size_ctx in Hrep. simpl in *. lia.
Qed.

(** The in-order visit with the level of each node. *)
Fixpoint levels t (level : Z) : list (loc * Z) :=
  match t with
  | E => []
  | T _ l p _ r => levels l (level + 1) ++ (p, level) :: levels r (level + 1)
  end.

(** Calls [f] on each node until it returns non-zero. *)
Fixpoint visit {D} (f : ptr -> Z -> D -> Z * D) (l : list (loc * Z)) (d : D) : Z * D :=
  match l with
  | [] => (0, d)
  | (p, level) :: l =>
      let '(rc, d) := f (Some p) level d in
      if negb (rc =? 0) then (rc, d) else visit f l d
  end.

Lemma visit_app {D} (f : ptr -> Z -> D -> Z * D) l1 l2 d :
  visit f (l1 ++ l2) d =
  let '(rc, d) := visit f l1 d in if negb (rc =? 0) then (rc, d) else visit f l2 d.
Proof.
  revert d. induction l1 as [|[p lv] l1 IH]; intros d; simpl; [done|].
  destruct (f (Some p) lv d) as [rc d']. by destruct (rc =? 0) eqn:Hrc; simpl; rewrite ?Hrc.
Qed.

Lemma visit_rc0 {D} (f : ptr -> Z -> D -> Z * D) l d rc d' :
  visit f l d = (rc, d') -> negb (rc =? 0) = false -> rc = 0.
Proof. intros _ H. destruct (Z.eqb_spec rc 0); [done|by simpl in H]. Qed.

Lemma runs_traverse_subtree {D} (f : ptr -> Z -> D -> Z * D) u C s n d level :
  rep C u s -> (length (inorder u) < n)%nat ->
  runs (rbt_traverse_subtree n f (tptr u) d level) s (fun r s' =>
    s' = s /\ r = visit f (levels u level) d).
Proof.
  revert u C d level. induction n as [|n IH]; intros u C d level Hrep Hn; [lia|].
  destruct u as [|c l p k r]; simpl; [by rb_reads|].
  pose proof Hrep as ((Hp & _) & _).
  assert (rep (FL c p k r :: C) l s) by by apply rep_plug.
  assert (rep (FR c l p k :: C) r s) by by apply rep_plug.
  simpl in Hn. rewrite length_app in Hn. simpl in Hn.
  rb_reads. eapply runs_mono; [eapply IH; [done|lia]|]. simpl. intros ? s' [-> ->].
  rewrite visit_app. destruct (visit f (levels l (level + 1)) d) as [rc d1] eqn:Hl.
  destruct (negb (rc =? 0)) eqn:Hrc; [by rb_reads|]. simpl.
  destruct (f (Some p) level d1) as [rc2 d2].
  destruct (negb (rc2 =? 0)) eqn:Hrc2; [by rb_reads|].
  rb_reads. eapply runs_mono; [eapply IH; [done|lia]|]. simpl. intros ? s' [-> ->].
  destruct (visit f (levels r (level + 1)) d2) as [rc3 d3] eqn:Hr.
  destruct (negb (rc3 =? 0)) eqn:Hrc3; rb_reads; [done|].
  by rewrite (visit_rc0 _ _ _ _ _ Hr Hrc3).
Qed.

Lemma runs_rbt_traverse {D} (f : ptr -> Z -> D -> Z * D) t s d :
  rep [] t s ->
  runs (rbt_traverse f d) s (fun r s' => s' = s /\ r = visit f (levels t 0) d).
Proof.
  intros Hrep. unfold rbt_traverse. rb_read. rb_read.
  pose proof Hrep as (_ & _ & Hroot & _). simpl in Hroot. rewrite Hroot.
  destruct (tree_E_dec t) as [->|Hne]; simpl; [by rb_reads|].
  replace (is_null (tptr t)) with false by by destruct t. rb_reads.
  eapply runs_traverse_subtree; [done|]. apply rep_size_tree in Hrep. lia.
Qed.
End iterate.
