(* ===== verification/RbtDel.v ===== *)
(** * Red-black trees: deletion

    The rebalancing cases of rbt.c ([delete_case1] to [delete_case6]), the
    exchange of a node with its in-order predecessor, and [rbt_del]. *)

From stdpp Require Import prelude gmap sorting.
From S2P Require Import Prelude Rbt RbtRep RbtRot RbtIns RbtOps RbtSearch.

(** Distinctness facts of a represented tree, and its loads. *)
Ltac rep_distinct H :=
  let Hnd := fresh "Hnd" in pose proof H as (_ & _ & _ & Hnd); nodup_split Hnd.
Ltac rep_loads H :=
  let Ht := fresh "Ht" in let HC := fresh "HC" in
  pose proof H as (Ht & HC & _ & _); simpl in Ht; simpl in HC; destruct_and? Ht;
  destruct_and? HC.

(** Equality of in-order sequences. *)
Ltac app_tac := simpl; repeat (rewrite <- ?app_assoc; simpl); done.

Section focus.
Context {K : Type}.
Implicit Types (s : rbt K) (C D : ctx K) (t u : tree K).

Lemma rep_zip_app D C t s : rep C (zip D t) s <-> rep (D ++ C) t s.
Proof.
  revert t. induction D as [|f D IH]; intros t; [done|].
  simpl. rewrite rep_plug. apply IH.
Qed.

Lemma runs_set_color_at D C c c' l p k r s Q :
  rep C (zip D (T c l p k r)) s ->
  (forall s', rep C (zip D (T c' l p k r)) s' -> card s' = card s -> Q tt s') ->
  runs (set_color (Some p) c') s Q.
Proof.
  rewrite rep_zip_app. intros H HQ. eapply runs_mono; [by eapply runs_set_color|].
  simpl. intros [] s' [H' ?]. apply HQ; [by apply rep_zip_app|done].
Qed.

Lemma runs_rotate_left_at D C cx a x kx cy b y ky c s Q :
  rep C (zip D (T cx a x kx (T cy b y ky c))) s ->
  (forall s', rep C (zip D (T cy (T cx a x kx b) y ky c)) s' -> card s' = card s -> Q tt s') ->
  runs (rotate_left (Some x)) s Q.
Proof.
  rewrite rep_zip_app. intros H HQ. eapply runs_mono; [by eapply runs_rotate_left|].
  simpl. intros [] s' [H' ?]. apply HQ; [by apply rep_zip_app|done].
Qed.

Lemma runs_rotate_right_at D C cx a x kx cy b y ky c s Q :
  rep C (zip D (T cy (T cx a x kx b) y ky c)) s ->
  (forall s', rep C (zip D (T cx a x kx (T cy b y ky c))) s' -> card s' = card s -> Q tt s') ->
  runs (rotate_right (Some y)) s Q.
Proof.
  rewrite rep_zip_app. intros H HQ. eapply runs_mono; [by eapply runs_rotate_right|].
  simpl. intros [] s' [H' ?]. apply HQ; [by apply rep_zip_app|done].
Qed.
End focus.

(** Steps that change the tree at the node reached through [D]. *)
Ltac paint D H :=
  eapply (runs_set_color_at D); [simpl; exact H|clear H; simpl; intros ? H ?].
Ltac rotl D H :=
  eapply (runs_rotate_left_at D); [simpl; exact H|clear H; simpl; intros ? H ?].
Ltac rotr D H :=
  eapply (runs_rotate_right_at D); [simpl; exact H|clear H; simpl; intros ? H ?].
(** Reads, from the facts of the tree represented by [H]. *)
Ltac reads H := rep_loads H; rb_reads.

Section cases.
Context {K : Type}.
Implicit Types (s : rbt K) (C D : ctx K) (t u : tree K).

Lemma runs_case6_l C cp cu ul n ku ur p kp cs sl ps ks a pr kr b s :
  let X := T cu ul n ku ur in
  rep C (T cp X p kp (T cs sl ps ks (T RBN_RED a pr kr b))) s ->
  runs (delete_case6 (Some n)) s (fun _ s' =>
    rep C (T cp (T RBN_BLACK X p kp sl) ps ks (T RBN_BLACK a pr kr b)) s' /\ card s' = card s).
Proof.
  intros X H. unfold X in *. rep_distinct H. unfold delete_case6, sibling. reads H.
  paint [FR cp X p kp] H. rb_reads. paint (@nil (frame K)) H. reads H.
  eapply (runs_node_color _ (T RBN_RED a pr kr b)); [by simpl|]. rb_reads.
  paint [FR cp sl ps ks; FR RBN_BLACK X p kp] H. rotl (@nil (frame K)) H.
  split; [done|congruence].
Qed.

Lemma runs_case6_r C cp cu ul n ku ur p kp cs sr ps ks a pl kl b s :
  let X := T cu ul n ku ur in
  rep C (T cp (T cs (T RBN_RED a pl kl b) ps ks sr) p kp X) s ->
  runs (delete_case6 (Some n)) s (fun _ s' =>
    rep C (T cp (T RBN_BLACK a pl kl b) ps ks (T RBN_BLACK sr p kp X)) s' /\ card s' = card s).
Proof.
  intros X H. unfold X in *. rep_distinct H. unfold delete_case6, sibling. reads H.
  paint [FL cp p kp X] H. rb_reads. paint (@nil (frame K)) H. reads H.
  eapply (runs_node_color _ (T RBN_RED a pl kl b)); [by simpl|]. rb_reads.
  paint [FL cp ps ks sr; FL RBN_BLACK p kp X] H. rotr (@nil (frame K)) H.
  split; [done|congruence].
Qed.

Lemma runs_sibling_colors par cs sl ps ks sr s Q :
  trep (nodes s) par (T cs sl ps ks sr) -> Q (cs, tcolor sl, tcolor sr) s ->
  runs (sibling_colors (Some ps)) s Q.
Proof.
  intros Ht HQ. unfold sibling_colors. pose proof Ht as (Hp & Hl & Hr). rb_read.
  eapply (runs_node_color _ (T cs sl ps ks sr)); [done|]. rb_reads.
  eapply runs_node_color; [done|]. rb_reads. eapply runs_node_color; [done|]. by rb_reads.
Qed.

(** The rebalancing of a hole whose subtree is one black node short: the
    hole's context becomes one where a tree of black height [m] of any
    colour fits, with the same elements around it. *)
Definition rebalanced C (X : tree K) (m : nat) (cd : Z) s : Prop :=
  exists C', rep C' X s /\ cok m C' /\ ctop C' = RBN_BLACK /\
    cleft C' = cleft C /\ cright C' = cright C /\ card s = cd /\ (C <> [] -> C' <> []).

(** What [cok] says of a frame depends on its colour and its sibling. *)
Lemma cok_sib n f C : cok n (f :: C) -> exists c, rb c n (fsib f) (K := K).
Proof. simpl. destruct (fcolor f); naive_solver. Qed.

Lemma cok_frame n f g C :
  cok n (f :: C) -> fcolor g = fcolor f -> rb RBN_BLACK n (fsib g) (K := K) ->
  cok n (g :: C).
Proof. simpl. intros H -> Hg. destruct (fcolor f); naive_solver. Qed.

Lemma cok_black n f C c :
  fcolor f = RBN_BLACK -> rb c n (fsib f) (K := K) -> cok (S n) C -> cok n (f :: C).
Proof. simpl. intros -> ??. naive_solver. Qed.

Lemma rb_black_inv n t : rb RBN_BLACK (S n) t ->
  exists l p k r cl cr, t = T RBN_BLACK l p (k : K) r /\ rb cl n l /\ rb cr n r.
Proof. inversion 1; subst; eauto 10. Qed.

Lemma rb_red_inv n t : rb RBN_RED n t ->
  exists l p k r, t = T RBN_RED l p (k : K) r /\ rb RBN_BLACK n l /\ rb RBN_BLACK n r.
Proof. inversion 1; subst; eauto 10. Qed.

Lemma runs_case5_l C cp cu ul n ku ur p kp sl ps ks sr csl csr m s :
  let X := T cu ul n ku ur in
  let f := FL cp p kp (T RBN_BLACK sl ps ks sr) in
  rep C (T cp X p kp (T RBN_BLACK sl ps ks sr)) s ->
  rb csl m sl -> rb csr m sr -> csl = RBN_RED \/ csr = RBN_RED ->
  cok (S m) (f :: C) ->
  runs (delete_case5 (Some n)) s (fun _ => rebalanced (f :: C) X m (card s)).
Proof.
  intros X f H Hl Hr Hred HC. unfold f, X in *. rep_distinct H.
  unfold delete_case5, sibling. reads H.
  eapply runs_sibling_colors; [simpl; eauto|]. rb_reads.
  rewrite (rb_color _ _ _ Hl), (rb_color _ _ _ Hr).
  destruct csr.
  - apply rb_red_inv in Hr as (a & pr & kr & b & -> & Ha & Hb).
    replace (is_color csl RBN_RED && is_color RBN_RED RBN_BLACK) with false by by destruct csl.
    rb_reads. eapply runs_mono; [by eapply runs_case6_l|]. simpl. intros _ sf [H' Hcd].
    exists (FL RBN_BLACK p kp sl :: FL cp ps ks (T RBN_BLACK a pr kr b) :: C).
    split_and!; try done; [by rewrite !rep_plug| |app_tac].
    eapply cok_black; [done..|]. eapply cok_frame; [done..|]. by econstructor.
  - destruct csl; [|naive_solver].
    apply rb_red_inv in Hl as (a & pl & kl & b & -> & Ha & Hb). rb_reads.
    paint [FR cp X p kp] H. reads H. paint [FL RBN_RED ps ks sr; FR cp X p kp] H.
    rotr [FR cp X p kp] H.
    eapply runs_mono; [by eapply runs_case6_l|]. simpl. intros _ sf [H' Hcd].
    exists (FL RBN_BLACK p kp a :: FL cp pl kl (T RBN_BLACK b ps ks sr) :: C).
    split_and!; try done; [by rewrite !rep_plug| | |congruence].
    + eapply cok_black; [done..|]. eapply cok_frame; [done..|]. by econstructor.
    + app_tac.
Qed.

Lemma runs_case5_r C cp cu ul n ku ur p kp sl ps ks sr csl csr m s :
  let X := T cu ul n ku ur in
  let f := FR cp (T RBN_BLACK sl ps ks sr) p kp in
  rep C (T cp (T RBN_BLACK sl ps ks sr) p kp X) s ->
  rb csl m sl -> rb csr m sr -> csl = RBN_RED \/ csr = RBN_RED ->
  cok (S m) (f :: C) ->
  runs (delete_case5 (Some n)) s (fun _ => rebalanced (f :: C) X m (card s)).
Proof.
  intros X f H Hl Hr Hred HC. unfold f, X in *. rep_distinct H.
  unfold delete_case5, sibling. reads H.
  eapply runs_sibling_colors; [simpl; eauto|]. rb_reads.
  rewrite (rb_color _ _ _ Hl), (rb_color _ _ _ Hr).
  destruct csl.
  - apply rb_red_inv in Hl as (a & pl & kl & b & -> & Ha & Hb).
    replace (is_color csr RBN_RED && is_color RBN_RED RBN_BLACK) with false by by destruct csr.
    rb_reads. eapply runs_mono; [by eapply runs_case6_r|]. simpl. intros _ sf [H' Hcd].
    exists (FR RBN_BLACK sr p kp :: FR cp (T RBN_BLACK a pl kl b) ps ks :: C).
    split_and!; try done; [by rewrite !rep_plug| |app_tac].
    eapply cok_black; [done..|]. eapply cok_frame; [done..|]. by econstructor.
  - destruct csr; [|naive_solver].
    apply rb_red_inv in Hr as (a & pr & kr & b & -> & Ha & Hb). rb_reads.
    paint [FL cp p kp X] H. reads H. paint [FR RBN_RED sl ps ks; FL cp p kp X] H.
    rotl [FL cp p kp X] H.
    eapply runs_mono; [by eapply runs_case6_r|]. simpl. intros _ sf [H' Hcd].
    exists (FR RBN_BLACK b p kp :: FR cp (T RBN_BLACK sl ps ks a) pr kr :: C).
    split_and!; try done; [by rewrite !rep_plug| | |congruence].
    + eapply cok_black; [done..|]. eapply cok_frame; [done..|]. by econstructor.
    + app_tac.
Qed.

(** The nephews' colours decide between cases 4 and 5. *)
Lemma runs_case4_l C cp cu ul n ku ur p kp sl ps ks sr csl csr m s :
  let X := T cu ul n ku ur in
  let f := FL cp p kp (T RBN_BLACK sl ps ks sr) in
  rep C (T cp X p kp (T RBN_BLACK sl ps ks sr)) s ->
  rb csl m sl -> rb csr m sr -> csl = RBN_RED \/ csr = RBN_RED \/ cp = RBN_RED ->
  cok (S m) (f :: C) ->
  runs (delete_case4 (Some n)) s (fun _ => rebalanced (f :: C) X m (card s)).
Proof.
  intros X f H Hl Hr Hred HC. unfold f, X in *. rep_distinct H.
  unfold delete_case4, sibling. reads H.
  eapply (runs_node_color _ (T cp _ p kp _)); [exact (proj1 H)|]. rb_read.
  eapply runs_sibling_colors; [simpl; eauto|]. rewrite (rb_color _ _ _ Hl), (rb_color _ _ _ Hr).
  simpl tcolor. destruct (decide (csl = RBN_RED \/ csr = RBN_RED)) as [Hn|Hn].
  - replace (is_color cp RBN_RED && is_color RBN_BLACK RBN_BLACK && is_color csl RBN_BLACK
             && is_color csr RBN_BLACK) with false by by destruct cp, csl, csr; naive_solver.
    by eapply runs_case5_l.
  - assert (csl = RBN_BLACK /\ csr = RBN_BLACK /\ cp = RBN_RED) as (-> & -> & ->)
      by by destruct cp, csl, csr; naive_solver.
    rb_reads. paint [FR RBN_RED X p kp] H. paint (@nil (frame K)) H.
    exists (FL RBN_BLACK p kp (T RBN_RED sl ps ks sr) :: C).
    destruct HC as (_ & _ & _ & HC).
    split_and!; try done; [by rewrite !rep_plug| |congruence].
    eapply cok_black; [done|by constructor|done].
Qed.

Lemma runs_case4_r C cp cu ul n ku ur p kp sl ps ks sr csl csr m s :
  let X := T cu ul n ku ur in
  let f := FR cp (T RBN_BLACK sl ps ks sr) p kp in
  rep C (T cp (T RBN_BLACK sl ps ks sr) p kp X) s ->
  rb csl m sl -> rb csr m sr -> csl = RBN_RED \/ csr = RBN_RED \/ cp = RBN_RED ->
  cok (S m) (f :: C) ->
  runs (delete_case4 (Some n)) s (fun _ => rebalanced (f :: C) X m (card s)).
Proof.
  intros X f H Hl Hr Hred HC. unfold f, X in *. rep_distinct H.
  unfold delete_case4, sibling. reads H.
  eapply (runs_node_color _ (T cp _ p kp _)); [exact (proj1 H)|]. rb_read.
  eapply runs_sibling_colors; [simpl; eauto|]. rewrite (rb_color _ _ _ Hl), (rb_color _ _ _ Hr).
  simpl tcolor. destruct (decide (csl = RBN_RED \/ csr = RBN_RED)) as [Hn|Hn].
  - replace (is_color cp RBN_RED && is_color RBN_BLACK RBN_BLACK && is_color csl RBN_BLACK
             && is_color csr RBN_BLACK) with false by by destruct cp, csl, csr; naive_solver.
    by eapply runs_case5_r.
  - assert (csl = RBN_BLACK /\ csr = RBN_BLACK /\ cp = RBN_RED) as (-> & -> & ->)
      by by destruct cp, csl, csr; naive_solver.
    rb_reads. paint [FL RBN_RED p kp X] H. paint (@nil (frame K)) H.
    exists (FR RBN_BLACK (T RBN_RED sl ps ks sr) p kp :: C).
    destruct HC as (_ & _ & _ & HC).
    split_and!; try done; [by rewrite !rep_plug| |congruence].
    eapply cok_black; [done|by constructor|done].
Qed.

(** What the cases rely on when they recur towards the root. *)
Definition case1_spec (N : nat) (case1 : ptr -> M (rbt K) unit) : Prop :=
  forall C cu ul n ku ur m s,
    rep C (T cu ul n ku ur) s -> cok (S m) C -> (length C < N)%nat ->
    runs (case1 (Some n)) s (fun _ => rebalanced C (T cu ul n ku ur) m (card s)).

(** The parent's subtree was rebalanced as a whole: its frame, with the
    sibling red, closes the gap. *)
Lemma rebalanced_up f C X m cd s :
  fcolor f = RBN_BLACK -> rb RBN_RED m (fsib f) ->
  rebalanced C (plug f X) (S m) cd s -> rebalanced (f :: C) X m cd s.
Proof.
  intros Hf Hs (C' & Hrep & HC & Htop & Hl & Hr & Hcd & _). exists (f :: C').
  split_and!; try done; [by apply rep_plug|by eapply cok_black| |];
    destruct f; simpl; congruence.
Qed.

Lemma rebalanced_same C D X m cd s :
  cleft C = cleft D -> cright C = cright D -> (D <> [] -> C <> []) ->
  rebalanced C X m cd s -> rebalanced D X m cd s.
Proof. intros Hl Hr Hne (C' & ? & ? & ? & ? & ? & ? & ?). exists C'. split_and!; [done|done|done|congruence|congruence|done|auto]. Qed.

Lemma runs_case3_l N case1 C cp cu ul n ku ur p kp sl ps ks sr m s :
  let X := T cu ul n ku ur in
  let f := FL cp p kp (T RBN_BLACK sl ps ks sr) in
  case1_spec N case1 -> (cp = RBN_BLACK -> length C < N)%nat ->
  rep C (T cp X p kp (T RBN_BLACK sl ps ks sr)) s -> cok (S m) (f :: C) ->
  runs (delete_case3 case1 (Some n)) s (fun _ => rebalanced (f :: C) X m (card s)).
Proof.
  intros X f H1 HN H HC. unfold f, X in *. rep_distinct H.
  destruct (cok_sib _ _ _ HC) as [c Hsib]. simpl in Hsib.
  assert (c = RBN_BLACK) as -> by by inversion Hsib.
  apply rb_black_inv in Hsib as (sl' & ? & ? & sr' & csl & csr & [= <- <- <- <-] & Hl & Hr).
  unfold delete_case3, sibling. reads H.
  eapply (runs_node_color _ (T cp _ p kp _)); [exact (proj1 H)|]. rb_read.
  eapply runs_sibling_colors; [simpl; eauto|]. rewrite (rb_color _ _ _ Hl), (rb_color _ _ _ Hr).
  simpl tcolor.
  destruct (decide (csl = RBN_RED \/ csr = RBN_RED \/ cp = RBN_RED)) as [Hn|Hn].
  - replace (is_color cp RBN_BLACK && is_color RBN_BLACK RBN_BLACK && is_color csl RBN_BLACK
             && is_color csr RBN_BLACK) with false by by destruct cp, csl, csr; naive_solver.
    by eapply runs_case4_l.
  - assert (csl = RBN_BLACK /\ csr = RBN_BLACK /\ cp = RBN_BLACK) as (-> & -> & ->)
      by by destruct cp, csl, csr; naive_solver.
    rb_reads. paint [FR RBN_BLACK X p kp] H. destruct HC as (_ & HC).
    eapply runs_mono; [by eapply H1; [exact H|exact HC|by apply HN]|]. cbv beta. intros _ sf Hreb.
    eapply (rebalanced_same (FL RBN_BLACK p kp (T RBN_RED sl ps ks sr) :: C)); try done.
    eapply rebalanced_up; [done|by constructor|].
    match goal with E : card _ = card s |- _ => rewrite <- E end. exact Hreb.
Qed.

Lemma runs_case3_r N case1 C cp cu ul n ku ur p kp sl ps ks sr m s :
  let X := T cu ul n ku ur in
  let f := FR cp (T RBN_BLACK sl ps ks sr) p kp in
  case1_spec N case1 -> (cp = RBN_BLACK -> length C < N)%nat ->
  rep C (T cp (T RBN_BLACK sl ps ks sr) p kp X) s -> cok (S m) (f :: C) ->
  runs (delete_case3 case1 (Some n)) s (fun _ => rebalanced (f :: C) X m (card s)).
Proof.
  intros X f H1 HN H HC. unfold f, X in *. rep_distinct H.
  destruct (cok_sib _ _ _ HC) as [c Hsib]. simpl in Hsib.
  assert (c = RBN_BLACK) as -> by by inversion Hsib.
  apply rb_black_inv in Hsib as (sl' & ? & ? & sr' & csl & csr & [= <- <- <- <-] & Hl & Hr).
  unfold delete_case3, sibling. reads H.
  eapply (runs_node_color _ (T cp _ p kp _)); [exact (proj1 H)|]. rb_read.
  eapply runs_sibling_colors; [simpl; eauto|]. rewrite (rb_color _ _ _ Hl), (rb_color _ _ _ Hr).
  simpl tcolor.
  destruct (decide (csl = RBN_RED \/ csr = RBN_RED \/ cp = RBN_RED)) as [Hn|Hn].
  - replace (is_color cp RBN_BLACK && is_color RBN_BLACK RBN_BLACK && is_color csl RBN_BLACK
             && is_color csr RBN_BLACK) with false by by destruct cp, csl, csr; naive_solver.
    by eapply runs_case4_r.
  - assert (csl = RBN_BLACK /\ csr = RBN_BLACK /\ cp = RBN_BLACK) as (-> & -> & ->)
      by by destruct cp, csl, csr; naive_solver.
    rb_reads. paint [FL RBN_BLACK p kp X] H. destruct HC as (_ & HC).
    eapply runs_mono; [by eapply H1; [exact H|exact HC|by apply HN]|]. cbv beta. intros _ sf Hreb.
    eapply (rebalanced_same (FR RBN_BLACK (T RBN_RED sl ps ks sr) p kp :: C)); try done.
    eapply rebalanced_up; [done|by constructor|].
    match goal with E : card _ = card s |- _ => rewrite <- E end. exact Hreb.
Qed.
End cases.
