(* ===== verification/RbtDelete.v ===== *)
(** * Red-black trees: [delete_case2], [delete_case1] and [rbt_del]

    The recursion of the deletion cases is closed here, and [rbt_del] is
    proved to remove exactly its node and to keep the tree balanced. *)

From stdpp Require Import prelude gmap sorting.
From S2P Require Import Prelude Rbt RbtRep RbtRot RbtIns RbtOps RbtSearch RbtDel.

Section delete.
Context {K : Type}.
Implicit Types (s : rbt K) (C D : ctx K) (t u : tree K).

Lemma runs_case2_l N case1 C cp cu ul n ku ur p kp sib m s :
  let X := T cu ul n ku ur in
  case1_spec N case1 -> (length C < N)%nat ->
  rep C (T cp X p kp sib) s -> cok (S m) (FL cp p kp sib :: C) ->
  runs (delete_case2 case1 (Some n)) s
    (fun _ => rebalanced (FL cp p kp sib :: C) X m (card s)).
Proof.
  intros X H1 HN H HC. unfold X in *. rep_distinct H.
  destruct (cok_sib _ _ _ HC) as [c Hsib]. simpl in Hsib.
  unfold delete_case2, sibling. reads H.
  eapply runs_node_color; [eassumption|]. rewrite (rb_color _ _ _ Hsib). destruct c.
  - assert (cp = RBN_BLACK) as -> by (destruct cp; [|done]; destruct HC as [HC _];
      pose proof (rb_color _ _ _ HC); pose proof (rb_color _ _ _ Hsib); simpl in *; congruence).
    destruct HC as [_ HC]. apply rb_red_inv in Hsib as (sl & ps & ks & sr & -> & Hl & Hr).
    rb_reads. paint (@nil (frame K)) H. rb_read. paint [FR RBN_RED X p kp] H. reads H.
    rotl (@nil (frame K)) H.
    pose proof (rb_black_inv _ _ Hl) as (a & psl & ksl & b & ? & ? & -> & ? & ?).
    eapply runs_mono.
    { eapply (runs_case3_l _ _ (FL RBN_BLACK ps ks sr :: C) RBN_RED); [exact H1|done|by rewrite rep_plug|].
      simpl. eauto 10. }
    cbv beta. intros _ sf Hreb. eapply rebalanced_same; [..|].
    4: { match type of Hreb with rebalanced _ _ _ ?cd _ => replace (card s) with cd by congruence end.
         exact Hreb. }
    all: try done. app_tac.
  - rb_reads. pose proof (rb_black_inv _ _ Hsib) as (a & ps & ks & b & ? & ? & -> & ? & ?).
    by eapply runs_case3_l.
Qed.

Lemma runs_case2_r N case1 C cp cu ul n ku ur p kp sib m s :
  let X := T cu ul n ku ur in
  case1_spec N case1 -> (length C < N)%nat ->
  rep C (T cp sib p kp X) s -> cok (S m) (FR cp sib p kp :: C) ->
  runs (delete_case2 case1 (Some n)) s
    (fun _ => rebalanced (FR cp sib p kp :: C) X m (card s)).
Proof.
  intros X H1 HN H HC. unfold X in *. rep_distinct H.
  destruct (cok_sib _ _ _ HC) as [c Hsib]. simpl in Hsib.
  unfold delete_case2, sibling. reads H.
  eapply runs_node_color; [eassumption|]. rewrite (rb_color _ _ _ Hsib). destruct c.
  - assert (cp = RBN_BLACK) as -> by (destruct cp; [|done]; destruct HC as [HC _];
      pose proof (rb_color _ _ _ HC); pose proof (rb_color _ _ _ Hsib); simpl in *; congruence).
    destruct HC as [_ HC]. apply rb_red_inv in Hsib as (sl & ps & ks & sr & -> & Hl & Hr).
    rep_distinct H. rb_reads.
    paint (@nil (frame K)) H. rb_read. paint [FL RBN_RED p kp X] H. reads H.
    rotr (@nil (frame K)) H.
    pose proof (rb_black_inv _ _ Hr) as (a & psl & ksl & b & ? & ? & -> & ? & ?).
    eapply runs_mono.
    { eapply (runs_case3_r _ _ (FR RBN_BLACK sl ps ks :: C) RBN_RED); [exact H1|done|by rewrite rep_plug|].
      simpl. eauto 10. }
    cbv beta. intros _ sf Hreb. eapply rebalanced_same; [..|].
    4: { match type of Hreb with rebalanced _ _ _ ?cd _ => replace (card s) with cd by congruence end.
         exact Hreb. }
    all: try done. app_tac.
  - rb_reads. pose proof (rb_black_inv _ _ Hsib) as (a & ps & ks & b & ? & ? & -> & ? & ?).
    by eapply runs_case3_r.
Qed.

Lemma runs_case2 N case1 f C cu ul n ku ur m s :
  case1_spec N case1 -> (length C < N)%nat ->
  rep (f :: C) (T cu ul n ku ur) s -> cok (S m) (f :: C) ->
  runs (delete_case2 case1 (Some n)) s (fun _ => rebalanced (f :: C) (T cu ul n ku ur) m (card s)).
Proof.
  intros H1 HN H HC. rewrite rep_plug in H.
  destruct f; [by eapply runs_case2_l|by eapply runs_case2_r].
Qed.

Lemma delete_case1_spec N : case1_spec (K := K) N (delete_case1 N).
Proof.
  induction N as [|N IH]; intros C cu ul n ku ur m s H HC HN; [lia|]. simpl.
  pose proof (rep_lookup _ _ _ _ _ _ _ H) as Hn. rb_read. rb_read.
  destruct C as [|f C]; simpl.
  - rb_reads. by exists [].
  - eapply runs_case2; [exact IH|simpl in HN; lia|done|done].
Qed.

(** A node with one subtree is replaced by it. *)
Lemma runs_replace_node C c l n k r child s :
  rep C (T c l n k r) s -> (child = l /\ r = E \/ child = r /\ l = E) -> C <> [] ->
  runs (replace_node (Some n) (tptr child)) s (fun _ s' =>
    rep C child s' /\ card s' = card s /\
    nodes s' !! n = Some (Rbn (tptr l) (tptr r) (cpar C) c k)).
Proof.
  intros H Hch Hne. unfold replace_node.
  assert (Hnd' : NoDup (elems C child).*1).
  { destruct H as (_ & _ & _ & Hnd). destruct Hch as [[-> ->]|[-> ->]]; nodup_split Hnd;
      unfold elems; simpl; autorewrite with nodup; split_and?; done. }
  destruct C as [|[cf pf kf rf|cf lf pf kf] C]; [done| |];
    (destruct Hch as [[-> ->]|[-> ->]]; [destruct l as [|cc cl pc kc cr]|destruct r as [|cc cl pc kc cr]]);
    rep_distinct H; pose proof H as (Ht & HC & Hr & _); simpl in Ht, HC, Hr;
    destruct_and? Ht; destruct_and? HC; rb_reads; rb_write; rb_reads; try rb_write.
  all: split; [|split; [done|by lookup_tac]].
  all: rep_tac.
Qed.

(** The tree without the hole's node. *)
Definition deleted (els : list (loc * K)) (cd : Z) s : Prop :=
  exists t, rep [] t s /\ (exists n, rb RBN_BLACK n t) /\ inorder t = els /\ card s = cd.

Lemma deleted_zip C child c m els cd s :
  rep C child s -> rb c m child -> cok m C -> C <> [] -> ctop C = RBN_BLACK \/ c = RBN_BLACK ->
  elems C child = els -> card s = cd -> deleted els cd s.
Proof.
  intros Hrep Hrb HC Hne Hc Hels Hcd.
  destruct (cok_zip C c m child) as (c' & n' & Hz & Hb); [done..| |].
  { intros _ ->. by destruct Hc. }
  exists (zip C child). rewrite Hb in Hz by done. split_and!; [by rewrite <- (rep_zip C)|by eexists| |done].
  by rewrite <- elems_zip.
Qed.

Lemma is_null_tptr t : is_null (tptr t) = bool_decide (tptr t = None).
Proof. by destruct t. Qed.

Lemma one_child l r : l = E \/ r = E ->
  exists child, (if is_null (tptr r) then tptr l else tptr r) = tptr child /\
    (child = l /\ r = E \/ child = r /\ l = E) /\
    (forall c m c' , rb c m l -> rb c' m r -> exists cc, rb cc m child) /\
    inorder child = inorder (K := K) l ++ inorder r.
Proof.
  intros [-> | ->].
  - exists r. split_and!; [by destruct r|by right|by eauto|done].
  - exists l. split_and!; [done|by left|by eauto|by rewrite app_nil_r].
Qed.

(** Unlinking the root. *)
Lemma runs_unlink_root c l n k r child cc m s :
  rep [] (T c l n k r) s -> (child = l /\ r = E \/ child = r /\ l = E) -> rb cc m child ->
  runs (set_root (tptr child);;
    if negb (is_null (tptr child)) then
      set_color (tptr child) RBN_BLACK;; set_parent (tptr child) None
    else mret tt) s (fun _ => deleted (inorder child) (card s)).
Proof.
  intros H Hch Hrb. destruct child as [|cc' cl pc kc cr].
  - rb_steps. exists E. split_and!; try done; [|by exists 0%nat; constructor].
    rep_tac. constructor.
  - destruct Hch as [[<- ->]|[<- ->]]; rep_distinct H; rep_loads H; rb_steps;
      exists (T RBN_BLACK cl pc kc cr); (split_and!; try done;
      [|destruct (rb_blacken _ _ _ Hrb) as (? & ? & ? & ? & ? & ? & ? & [= -> -> -> -> ->] & ? & ?);
        [done|]; eexists; by econstructor]).
    all: rep_tac; unfold elems; simpl; autorewrite with nodup; simpl; split_and?; done.
Qed.

(** Unlinking a black node below the root: rebalance, then replace. *)
Lemma runs_unlink_black f C cc l n k r child m s :
  rep (f :: C) (T cc l n k r) s -> (child = l /\ r = E \/ child = r /\ l = E) ->
  rb cc m child -> cok (S m) (f :: C) ->
  runs (N ← fuel;
    delete_case2 (delete_case1 N) (Some n);;
    replace_node (Some n) (tptr child);;
    np ← parent_of (Some n);
    if is_null np && negb (is_null (tptr child)) then set_color (tptr child) RBN_BLACK
    else mret tt) s
    (fun _ => deleted (elems (f :: C) child) (card s)).
Proof.
  intros H Hch Hrb HC. rb_reads. eapply runs_mono.
  { eapply runs_case2; [apply delete_case1_spec| |done|done].
    apply rep_size_ctx in H. simpl in H. lia. }
  simpl. intros _ s1 (C' & H1 & HC' & Htop & Hl & Hr & Hcd & Hne). specialize (Hne ltac:(done)).
  rb_reads. eapply runs_mono; [by eapply runs_replace_node|].
  simpl. intros _ s2 (H2 & Hcd2 & Hn). rb_reads. destruct C' as [|f' C']; [done|]. simpl.
  rb_reads. eapply deleted_zip; [done|done|done|done|by left| |congruence].
  unfold elems. by rewrite Hl, Hr.
Qed.

Lemma runs_del_unlink C c l n k r m s :
  rep C (T c l n k r) s -> l = E \/ r = E -> rb c m (T c l n k r) -> cok m C ->
  (c = RBN_RED -> C <> [] /\ ctop C = RBN_BLACK) ->
  runs (rbt_del_unlink (Some n)) s
    (fun _ => deleted (cleft C ++ (inorder l ++ inorder r) ++ cright C) (card s)).
Proof.
  intros H Hone Hrb HC Hc. destruct (one_child l r Hone) as (child & Hchild & Hch & Hrbc & <-).
  rep_distinct H. unfold rbt_del_unlink. rep_loads H. do 5 rb_read. rb_read.
  { by destruct Hone as [-> | ->]; simpl; rewrite ?orb_true_r. }
  rewrite Hchild. rb_read. eapply (runs_node_color _ (T c _ n k _)); [exact (proj1 H)|]. simpl tcolor.
  inversion Hrb; subst.
  - destruct (Hc eq_refl) as [Hne Htop].
    edestruct Hrbc as [cc Hcc]; [eassumption..|].
    rb_reads. eapply runs_mono; [by eapply runs_replace_node|]. simpl.
    intros _ s' (H' & Hcd & _). eapply deleted_zip; [done|done|done|done|by left|done|done].
  - edestruct Hrbc as [cc Hcc]; [eassumption..|].
    rb_reads. eapply (runs_node_color (Some n)).
    { destruct Hch as [[-> ->]|[-> ->]]; eassumption. }
    rewrite (rb_color _ _ _ Hcc). rb_read.
    paint (@nil (frame K)) H. rep_loads H. rb_read. rb_read.
    match goal with E : card _ = card s |- _ => rewrite <- E end.
    destruct C as [|f C]; simpl.
    + rewrite app_nil_r. by eapply runs_unlink_root.
    + by eapply runs_unlink_black.
Qed.
End delete.
