(* ===== verification/RbtSwap.v ===== *)
(** * Red-black trees: a node trades places with its predecessor

    The first half of [rbt_del]: a node with two children is moved to the
    place of its in-order predecessor, which takes its place. *)

From stdpp Require Import prelude gmap sorting.
From S2P Require Import Prelude Rbt RbtRep RbtRot RbtIns RbtOps RbtSearch RbtDel RbtDelete.

Section swap.
Context {K : Type}.
Implicit Types (s : rbt K) (C D : ctx K) (t u : tree K) (m : gmap loc (rbn K)).

Lemma disj_elem_l (x : loc) (l1 l2 : list loc) : x ∈ l1 -> l1 ## l2 -> x ∉ l2.
Proof. rewrite elem_of_disjoint. eauto. Qed.
Lemma disj_elem_r (x : loc) (l1 l2 : list loc) : x ∈ l1 -> l2 ## l1 -> x ∉ l2.
Proof. rewrite elem_of_disjoint. eauto. Qed.

(** A part [D] of a path, whose outermost node has the parent [par]. *)
Definition cparb D (par : ptr) : ptr :=
  match D with [] => par | f :: _ => Some (floc f) end.

Fixpoint crepb m (hole : ptr) D (par : ptr) : Prop :=
  match D with
  | [] => True
  | FL c p k r :: D =>
      m !! p = Some (Rbn hole (tptr r) (cparb D par) c k) /\
      trep m (Some p) r /\ crepb m (Some p) D par
  | FR c l p k :: D =>
      m !! p = Some (Rbn (tptr l) hole (cparb D par) c k) /\
      trep m (Some p) l /\ crepb m (Some p) D par
  end.

Lemma cpar_app D C : cpar (D ++ C) = cparb D (cpar C).
Proof. by destruct D. Qed.

Lemma croot_app hole D C : croot hole (D ++ C) = croot (croot hole D) C.
Proof. revert hole. induction D as [|f D IH]; intros hole; simpl; [done|apply IH]. Qed.

Lemma crep_app m hole D C :
  crep m hole (D ++ C) <-> crepb m hole D (cpar C) /\ crep m (croot hole D) C.
Proof.
  revert hole. induction D as [|[] D IH]; intros hole; simpl; rewrite ?IH, ?cpar_app; tauto.
Qed.

Lemma cleft_app D C : cleft (D ++ C) = cleft C ++ cleft D.
Proof.
  induction D as [|[] D IH]; simpl; rewrite ?IH, ?app_nil_r; [done|done|by rewrite <- !app_assoc].
Qed.

Lemma cright_app D C : cright (D ++ C) = cright D ++ cright C.
Proof.
  induction D as [|[] D IH]; simpl; rewrite ?IH; [done| |done]. by rewrite <- !app_assoc.
Qed.

Lemma crepb_insert m hole D par q nd :
  q ∉ (cleft D).*1 -> q ∉ (cright D).*1 ->
  crepb m hole D par -> crepb (<[q := nd]> m) hole D par.
Proof.
  revert hole. induction D as [|[c p k r|c l p k] D IH]; intros hole; simpl; [done| |];
    rewrite ?fmap_app, ?fmap_cons; simpl;
    rewrite ?not_elem_of_app, ?not_elem_of_cons, ?not_elem_of_app; intros Hl Hr (Hp & Ht & HC);
    destruct_and?; rewrite lookup_insert_ne by done; auto using trep_insert.
Qed.

(** The outermost node of a path, and a new parent for it. *)
Lemma crepb_bottom m hole D par :
  D <> [] -> crepb m hole D par ->
  exists b nd, croot hole D = Some b /\ m !! b = Some nd /\ b ∈ (cleft D).*1 ++ (cright D).*1.
Proof.
  revert hole. induction D as [|f D IH]; intros hole Hne HD; [done|].
  destruct D as [|f' D].
  - destruct f; simpl in *; destruct_and? HD; eexists _, _; split_and!; try done;
      rewrite ?fmap_app; simpl; set_solver.
  - destruct (IH (Some (floc f))) as (b & nd & Hb & Hm & Hin); [done|by destruct f; apply HD|].
    exists b, nd. split_and!; [done|done|].
    destruct f; simpl in *; rewrite ?fmap_app, ?fmap_cons, ?fmap_app in *; set_solver.
Qed.

Lemma croot_hole hole hole' D : D <> [] -> croot hole D = croot hole' D.
Proof. by destruct D. Qed.

Lemma crepb_reparent m hole D par par' b nd :
  D <> [] -> crepb m hole D par -> NoDup ((cleft D).*1 ++ (cright D).*1) ->
  croot hole D = Some b -> m !! b = Some nd ->
  crepb (<[b := Rbn (left nd) (right nd) par' (color nd) (key nd)]> m) hole D par'.
Proof.
  revert hole. induction D as [|f D IH]; intros hole Hne HD Hnd Hb Hm; [done|].
  destruct D as [|f' D].
  - simpl in Hb. injection Hb as <-. destruct f; simpl in *; rewrite ?fmap_app in Hnd; simpl in Hnd;
      autorewrite with nodup in Hnd; destruct_and?; simplify_eq; simpl;
      rewrite lookup_insert_eq; (split_and!; [done|trep_tac|done]).
  - assert (HD' : crepb m (Some (floc f)) (f' :: D) par) by (destruct f; apply HD).
    assert (Hnd' : NoDup ((cleft (f' :: D)).*1 ++ (cright (f' :: D)).*1)).
    { remember (f' :: D) as D'. clear -Hnd. destruct f; simpl in *; autorewrite with nodup in *; tauto. }
    destruct (crepb_bottom m (Some (floc f)) (f' :: D) par) as (b' & nd' & Hb' & _ & Hin); [done|done|]. 
    change (croot (Some (floc f)) (f' :: D) = Some b) in Hb.
    rewrite Hb in Hb'. injection Hb' as <-.
    specialize (IH (Some (floc f)) ltac:(done) HD' Hnd' Hb Hm).
    remember (f' :: D) as D' eqn:ED.
    destruct f; simpl in HD, Hnd |- *; autorewrite with nodup in Hnd; simpl in Hnd;
      apply elem_of_app in Hin; (rewrite lookup_insert_ne by (intros ->; destruct_and?; naive_solver));
      destruct HD as (Hp & Ht & _); (split_and!; [by subst D'|apply trep_insert; [|done]|done]);
      destruct_and?; set_solver.
Qed.

(** A new child in the hole of a path. *)
Lemma crepb_rehole m hole hole' c l p k D par :
  crepb m hole (FR c l p k :: D) par ->
  NoDup ((cleft (FR c l p k :: D)).*1 ++ (cright (FR c l p k :: D)).*1) ->
  crepb (<[p := Rbn (tptr l) hole' (cparb D par) c k]> m) hole' (FR c l p k :: D) par.
Proof.
  simpl. rewrite lookup_insert_eq. intros (Hp & Ht & HD) Hnd. autorewrite with nodup in Hnd.
  destruct_and? Hnd. split_and!; [done|trep_tac|]. apply crepb_insert; [fresh_tac|fresh_tac|done].
Qed.

(** The predecessor: the end of the right spine of the left subtree. *)
Lemma runs_find_pred C c l n k r s :
  rep C (T c l n k r) s -> l <> E ->
  runs (find_pred (Some n)) s (fun q s' => s' = s /\ exists D cq ql q' kq,
    q = Some q' /\ l = zip D (T cq ql q' kq E) /\ cright D = []).
Proof.
  intros H Hne. unfold find_pred. pose proof (rep_lookup _ _ _ _ _ _ _ H) as Hn.
  assert (Hl : rep (FL c n k r :: C) l s) by by apply rep_plug.
  destruct l as [|c0 l0 q0 k0 r0] eqn:E0; [done|]. rb_reads. rewrite <- E0 in *.
  eapply (runs_loop (fun d x s' => s' = s /\ exists D c' l' q k' r',
    x = Some q /\ l = zip D (T c' l' q k' r') /\ cright D = [] /\ d = length (inorder r'))).
  - intros d x s' (-> & D & c' & l' & q & k' & r' & -> & El & HD & ->).
    assert (Hq : rep (D ++ FL c n k r :: C) (T c' l' q k' r') s)
      by (apply rep_zip_app; by rewrite <- El).
    apply rep_lookup in Hq. rb_reads. destruct r' as [|cr lr pr kr rr]; simpl.
    + split; [done|]. eauto 10.
    + eexists. split; [|split; [done|]]. 2: { exists (FR c' l' q k' :: D), cr, lr, pr, kr, rr. done. }
      rewrite length_app. simpl. lia.
  - split; [done|]. exists [], c0, l0, q0, k0, r0. done.
  - apply rep_size_tree in H. subst l.
    simpl in *. rewrite !length_app in H. simpl in *. lia.
Qed.

(** The nodes of the exchange: [x] is the child that [C] points to. *)
Definition exchanged C D c n (k : K) r q kq cq ql (x : loc) s : Prop :=
  (exists nl nr, nodes s !! n = Some (Rbn nl nr (cpar C) cq k)) /\
  nodes s !! q = Some (Rbn (croot None D) (tptr r) (cpar C) c kq) /\
  trep (nodes s) (Some q) ql /\ trep (nodes s) (Some q) r /\
  crepb (nodes s) (Some q) D (Some q) /\ crep (nodes s) (Some x) C /\
  root s = croot (Some x) C.

Lemma runs_swap_top {B} (rest : M (rbt K) B) C D c r n k q kq cq ql s Q :
  rep (D ++ FL c n k r :: C) (T cq ql q kq E) s -> D <> [] -> r <> E -> 
  (forall s', exchanged C D c n k r q kq cq ql n s' -> card s' = card s -> runs rest s' Q) ->
  runs (nl ← left_of (Some n); set_left (Some q) nl;;
    nr ← right_of (Some n); set_right (Some q) nr;;
    np ← parent_of (Some n); set_parent (Some q) np;;
    nc ← color_of (Some n); set_color (Some q) nc;;
    set_color (Some n) cq;;
    nl ← left_of (Some n); nr ← right_of (Some n);
    set_parent nr (Some q);; set_parent nl (Some q);; rest) s Q.
Proof.
  intros (Ht & HC & Hroot & Hnd) HD Hr HQ.
  rewrite crep_app in HC. rewrite croot_app in Hroot. unfold elems in Hnd. rewrite cleft_app, cright_app in Hnd.
  simpl in Ht, HC, Hroot, Hnd. autorewrite with nodup in Hnd. simpl in Hnd. destruct_and? Hnd.
  destruct Ht as (Hq & Hql & _). destruct HC as (HcD & Hn & Htr & HC).
  destruct (crepb_bottom _ _ _ _ HD HcD) as (b & nd & Hb & Hnb & Hin).
  destruct r as [|cr rl pr kr rr]; [done|]. simpl in Htr, Hn. destruct Htr as (Hpr & Hrl & Hrr).
  assert (b <> n /\ b <> q /\ b <> pr) as (? & ? & ?).
  { simpl in *. autorewrite with nodup in *. destruct_and?.
    apply elem_of_app in Hin as [Hin|Hin]; split_and!; intros ->; done. }
  assert (Hlocs : b ∉ (cleft C).*1 /\ b ∉ (cright C).*1 /\ b ∉ (inorder ql).*1
    /\ b ∉ (inorder rl).*1 /\ b ∉ (inorder rr).*1).
  { simpl in *. autorewrite with nodup in *. destruct_and?.
    apply elem_of_app in Hin as [Hin|Hin]; split_and!; eauto using disj_elem_l, disj_elem_r. }
  simpl in *. autorewrite with nodup in *. simpl in *. destruct_and?.
  rewrite Hb in Hn. rb_steps. apply HQ; [|done].
  split_and!; simpl.
  - eexists _, _. by lookup_tac.
  - rewrite (croot_hole _ (Some q)), Hb by done. by lookup_tac.
  - trep_tac.
  - split_and!; [by lookup_tac|trep_tac|trep_tac].
  - apply (crepb_reparent _ _ _ (Some n)); [done| |autorewrite with nodup; done|done|by lookup_tac].
    repeat (apply crepb_insert; [fresh_tac|fresh_tac|]). done.
  - crep_tac.
  - rewrite Hroot. done.
Qed.

(** The parent's link is moved from [n] to [q]. *)
Lemma runs_swap_link {B} (rest : M (rbt K) B) C D c r n k q kq cq ql s Q :
  exchanged C D c n k r q kq cq ql n s ->
  NoDup (elems (D ++ FL c n k r :: C) (T cq ql q kq E)).*1 ->
  (forall s', exchanged C D c n k r q kq cq ql q s' -> card s' = card s -> runs rest s' Q) ->
  runs (np ← parent_of (Some n);
    (if negb (is_null np) then
       npl ← left_of np;
       if same npl (Some n) then set_left np (Some q) else set_right np (Some q)
     else set_root (Some q));; rest) s Q.
Proof.
  intros ((nl & nr & Hn) & Hq & Hql & Hr & HD & HC & Hroot) Hnd HQ.
  unfold elems in Hnd. rewrite cleft_app, cright_app in Hnd.
  simpl in Hnd. autorewrite with nodup in Hnd. simpl in Hnd. destruct_and? Hnd.
  destruct C as [|[cf pf kf rf|cf lf pf kf] C]; simpl in *; autorewrite with nodup in *; simpl in *;
    destruct_and?; rb_steps; apply HQ; try done.
  all: split_and!; simpl.
  all: try first [done | by eauto | trep_tac | by lookup_tac
                 | by apply crepb_insert; [fresh_tac|fresh_tac|]
                 | by eexists _, _; lookup_tac
                 | by split_and!; [lookup_tac|trep_tac|crep_tac] ].
Qed.

Lemma rep_exchanged_elems C D c r n k q kq cq ql t :
  NoDup (elems (D ++ FL c n k r :: C) (T cq ql q kq E)).*1 ->
  t = T cq ql n k E \/ t = ql ->
  NoDup (elems (D ++ FL c q kq r :: C) t).*1.
Proof.
  intros Hnd Ht. unfold elems in *. rewrite cleft_app, cright_app in *. simpl in *.
  autorewrite with nodup in Hnd. simpl in Hnd. destruct_and? Hnd.
  destruct Ht as [-> | ->]; simpl; autorewrite with nodup; simpl; split_and?; done.
Qed.

(** The moved node was red: it has no children and is dropped. *)
Lemma runs_swap_red C D cf lf pf kf c r n k q kq cq s :
  let D' := FR cf lf pf kf :: D in
  exchanged C D' c n k r q kq cq E q s ->
  NoDup (elems (D' ++ FL c n k r :: C) (T cq E q kq E)).*1 ->
  runs (set_right (Some pf) None) s (fun _ s' =>
    rep (D' ++ FL c q kq r :: C) E s' /\ card s' = card s).
Proof.
  intros D' (_ & Hq & _ & Hr & HD & HC & Hroot) Hnd. unfold D' in *.
  pose proof (rep_exchanged_elems _ _ _ _ _ _ _ _ _ _ E Hnd (or_intror eq_refl)) as Hnd'.
  unfold elems in Hnd. rewrite cleft_app, cright_app in Hnd.
  simpl in Hnd. autorewrite with nodup in Hnd. simpl in Hnd. destruct_and? Hnd.
  pose proof HD as (Hpf & _ & _). rb_write. split; [|done].
  split_and!; [done| | |done].
  - rewrite crep_app. split.
    + simpl tptr. eapply crepb_rehole; [done|]. simpl. autorewrite with nodup. simpl. done.
    + simpl in *. split_and!; [by lookup_tac|trep_tac|crep_tac].
  - rewrite croot_app. done.
Qed.

(** The moved node was black: it takes the predecessor's place. *)
Lemma runs_swap_black C D cf lf pf kf c r n k q kq cq ql s :
  let D' := FR cf lf pf kf :: D in
  exchanged C D' c n k r q kq cq ql q s ->
  NoDup (elems (D' ++ FL c n k r :: C) (T cq ql q kq E)).*1 ->
  runs (set_left (Some n) (tptr ql);;
        set_right (Some n) None;;
        set_parent (Some n) (Some pf);;
        (if negb (is_null (tptr ql)) then set_parent (tptr ql) (Some n) else mret tt);;
        ppr ← right_of (Some pf);
        c_assert (same ppr (Some q));;
        set_right (Some pf) (Some n);; mret false) s (fun b s' =>
    b = false /\ rep (D' ++ FL c q kq r :: C) (T cq ql n k E) s' /\ card s' = card s).
Proof.
  intros D' ((nl & nr & Hn) & Hq & Hql & Hr & HD & HC & Hroot) Hnd. unfold D' in *.
  pose proof (rep_exchanged_elems _ _ _ _ _ _ _ _ _ _ _ Hnd (or_introl eq_refl)) as Hnd'.
  unfold elems in Hnd. rewrite cleft_app, cright_app in Hnd.
  simpl in Hnd. autorewrite with nodup in Hnd. simpl in Hnd. destruct_and? Hnd.
  pose proof HD as (Hpf & _ & _). revert HD.
  destruct ql as [|cl ll pl kl rl]; simpl in *; autorewrite with nodup in *; simpl in *; destruct_and?;
    intros HD.
  all: rb_steps; [by rewrite same_true|].
  all: rb_steps; split; [done|]; split; [|done].
  all: split_and!; [| | |done].
  all: try by rewrite app_comm_cons, croot_app.
  all: try (rewrite app_comm_cons, crep_app; split;
    [simpl tptr; eapply crepb_rehole;
      [repeat (apply crepb_insert; [simpl; fresh_tac|simpl; fresh_tac|]); done
      |simpl; autorewrite with nodup; simpl; done]
    |simpl; split_and!; [by lookup_tac|trep_tac|crep_tac]]).
  all: simpl; split_and?; try first [by lookup_tac | trep_tac | done].
Qed.
End swap.
