(* ===== verification/RbtDelTop.v ===== *)
(** * Red-black trees: [rbt_del]

    Deletion removes exactly the given node from the in-order sequence and
    keeps the tree balanced and the cardinality exact. *)

From stdpp Require Import prelude gmap sorting.
From S2P Require Import Prelude Rbt RbtRep RbtRot RbtIns RbtOps RbtSearch RbtDel RbtDelete RbtSwap.

Section del.
Context {K : Type}.
Implicit Types (s : rbt K) (C D : ctx K) (t u : tree K).

Lemma zip_app D C t : zip (D ++ C) t = zip C (zip D t).
Proof. apply foldl_app. Qed.

Lemma cok_relabel D c n k q kq r C m :
  cok m (D ++ FL c n (k : K) r :: C) -> cok m (D ++ FL c q kq r :: C).
Proof.
  revert m. induction D as [|f D IH]; intros m; [done|]. simpl.
  destruct (fcolor f); [|naive_solver]. intros (? & _ & Htop & ?).
  split_and!; [done|by destruct D|by destruct D|by apply IH].
Qed.

Lemma ctop_relabel D c n k q kq r C :
  ctop (D ++ FL c n (k : K) r :: C) = ctop (D ++ FL c q kq r :: C).
Proof. by destruct D. Qed.

Lemma rb_relabel c m c' l q kq r n k : rb c m (T c' l q (kq : K) r) -> rb c m (T c' l n k r).
Proof. inversion 1; subst; econstructor; eauto. Qed.

Lemma rb_red_leaf m l q (kq : K) : rb RBN_RED m (T RBN_RED l q kq E) -> l = E /\ m = 0%nat.
Proof. intros H. inversion H as [|????? Hl Hr|]; subst. inversion Hr; subst. by inversion Hl. Qed.

(** What the exchange leaves to do: nothing when the node was red, else to
    unlink the node from its new place. *)
Definition swapped (els : list (loc * K)) (cd : Z) n (k : K) (b : bool) s : Prop :=
  if b then deleted els cd s else
  exists C c l m, rep C (T c l n k E) s /\ rb c m (T c l n k E) /\ cok m C /\
    (c = RBN_RED -> C <> [] /\ ctop C = RBN_BLACK) /\
    elems C l = els /\ card s = cd.

Lemma swapped_elems C D c cq ql q (kq : K) r :
  cright D = [] ->
  elems (D ++ FL c q kq r :: C) ql =
  cleft C ++ (inorder (zip D (T cq ql q kq E)) ++ inorder r) ++ cright C.
Proof.
  intros HD. rewrite <- elems_zip. unfold elems. rewrite cleft_app, cright_app, HD. simpl.
  repeat (rewrite <- app_assoc; simpl). done.
Qed.

Lemma runs_swap_far C D cf lf pf kf c n k r cq ql q kq m0 s :
  let D' := FR cf lf pf kf :: D in
  let l := zip D' (T cq ql q kq E) in
  rep C (T c l n k r) s -> r <> E -> cright D' = [] ->
  rb RBN_BLACK m0 (zip C (T c l n k r)) ->
  runs (
    nl ← left_of (Some n); set_left (Some q) nl;;
    nr ← right_of (Some n); set_right (Some q) nr;;
    np ← parent_of (Some n); set_parent (Some q) np;;
    nc ← color_of (Some n); set_color (Some q) nc;;
    set_color (Some n) cq;;
    nl ← left_of (Some n); nr ← right_of (Some n);
    set_parent nr (Some q);; set_parent nl (Some q);;
    np ← parent_of (Some n);
    (if negb (is_null np) then
       npl ← left_of np;
       if same npl (Some n) then set_left np (Some q) else set_right np (Some q)
     else set_root (Some q));;
    nc ← node_color (Some n);
    if is_color nc RBN_RED then
      set_right (Some pf) (tptr ql);; mret true
    else
      set_left (Some n) (tptr ql);;
      set_right (Some n) None;;
      set_parent (Some n) (Some pf);;
      (if negb (is_null (tptr ql)) then set_parent (tptr ql) (Some n) else mret tt);;
      ppr ← right_of (Some pf);
      c_assert (same ppr (Some q));;
      set_right (Some pf) (Some n);; mret false) s
    (swapped (cleft C ++ (inorder l ++ inorder r) ++ cright C) (card s) n k).
Proof.
  intros D' l H Hr HD Hrb.
  assert (HrepD : rep (D' ++ FL c n k r :: C) (T cq ql q kq E) s)
    by (apply rep_zip_app; by rewrite rep_plug).
  destruct (zip_cok (D' ++ FL c n k r :: C) (T cq ql q kq E) m0) as (c' & m & Hm & Hcok & Htop).
  { by rewrite zip_app. }
  assert (c' = cq) as -> by by apply rb_color in Hm.
  pose proof HrepD as (_ & _ & _ & Hnd).
  eapply runs_swap_top; [exact HrepD|done|done|]. intros s1 Hx1 Hc1.
  eapply runs_swap_link; [exact Hx1|exact Hnd|]. intros s2 Hx2 Hc2.
  destruct (proj1 Hx2) as (nl & nr & Hn).
  unfold node_color. rb_reads. unfold l. rewrite <- (swapped_elems C D' c cq ql q kq r) by done. destruct cq.
  - destruct (rb_red_leaf _ _ _ _ Hm) as [-> ->]. rb_reads.
    eapply runs_mono; [by eapply runs_swap_red|]. simpl. intros _ s3 [H3 Hc3]. rb_reads.
    eapply deleted_zip; [exact H3|constructor| |done|by right|done|congruence].
    by eapply (cok_relabel D').
  - rb_read. eapply runs_mono; [by eapply runs_swap_black|].
    simpl. intros b s3 (-> & H3 & Hc3).
    eexists _, _, _, _. split_and!; [exact H3|by eapply rb_relabel| |done|done|congruence].
    by eapply (cok_relabel D').
Qed.

(** The predecessor is the left child. *)
Lemma runs_swap_near C c n k r cq ql q kq s :
  rep C (T c (T cq ql q kq E) n k r) s -> r <> E -> (cq = RBN_RED -> ql = E) ->
  runs (
    nc ← color_of (Some n); set_color (Some q) nc;;
    set_color (Some n) cq;;
    np ← parent_of (Some n); set_parent (Some q) np;;
    nr ← right_of (Some n); set_right (Some q) nr;;
    nr ← right_of (Some n); set_parent nr (Some q);;
    np ← parent_of (Some n);
    (if negb (is_null np) then
       npl ← left_of np;
       (if same (Some n) npl then set_left np (Some q) else set_right np (Some q));;
       np ← parent_of (Some n); set_parent (Some q) np
     else
       set_root (Some q);; set_parent (Some q) None);;
    nc ← node_color (Some n);
    if is_color nc RBN_RED then mret true
    else
      set_left (Some n) (tptr ql);;
      (if negb (is_null (tptr ql)) then set_parent (tptr ql) (Some n) else mret tt);;
      set_left (Some q) (Some n);;
      set_parent (Some n) (Some q);;
      set_right (Some n) None;;
      set_parent (Some n) (Some q);; mret false) s (fun b s' =>
    card s' = card s /\
    if b then cq = RBN_RED /\ rep (FL c q kq r :: C) E s'
    else cq = RBN_BLACK /\ rep (FL c q kq r :: C) (T cq ql n k E) s').
Proof.
  intros H Hr Hq.
  assert (Hnd1 : NoDup (elems (FL c q kq r :: C) E).*1 /\ NoDup (elems (FL c q kq r :: C) (T cq ql n k E)).*1).
  { rep_distinct H. unfold elems. simpl. autorewrite with nodup. simpl. split_and?; done. }
  destruct Hnd1 as [Hnd1 Hnd2].
  destruct r as [|cr rl pr kr rr]; [done|]. unfold node_color.
  assert (cq = RBN_RED /\ ql = E \/ cq = RBN_BLACK /\ (ql = E \/ exists cl ll pl kl rl, ql = T cl ll pl kl rl))
    as Hcase by (destruct cq; [left; auto|right; destruct ql; eauto 10]).
  clear Hq. 
  destruct Hcase as [[-> ->]|[-> [->|(cl & ll & pl & kl & lr & ->)]]];
    (destruct C as [|[cf pf kf rf|cf lf pf kf] C]); rep_distinct H;
    pose proof H as (Ht & HC & Hroot & _); simpl in Ht, HC, Hroot; destruct_and? Ht; destruct_and? HC;
    clear H; rb_steps; (split; [done|]); (split; [done|]).
  all: (split_and!; [| | |assumption]).
  all: simpl; split_and?.
  all: try first [done | trep_tac | crep_tac | by lookup_tac].
Qed.

Lemma runs_del_swap C c l n k r m0 s :
  rep C (T c l n k r) s -> l <> E -> r <> E -> rb RBN_BLACK m0 (zip C (T c l n k r)) ->
  runs (rbt_del_swap (Some n)) s
    (swapped (cleft C ++ (inorder l ++ inorder r) ++ cright C) (card s) n k).
Proof.
  intros H Hl Hr Hrb. unfold rbt_del_swap. rb_read.
  eapply runs_mono; [by eapply runs_find_pred|]. simpl.
  intros ? s' (-> & D & cq & ql & q & kq & -> & -> & HD).
  assert (HrepD : rep (D ++ FL c n k r :: C) (T cq ql q kq E) s)
    by (apply rep_zip_app; by rewrite rep_plug).
  pose proof (rep_lookup _ _ _ _ _ _ _ HrepD) as Hq. rewrite cpar_app in Hq.
  rb_read. rb_read. rb_read. rb_read. rb_read. rb_read. { by destruct D. }
  destruct D as [|[|cf lf pf kf] D]; [|done|].
  - cbn [cparb]. rewrite same_true by done. cbn [negb].
    destruct (zip_cok (FL c n k r :: C) (T cq ql q kq E) m0) as (c' & m & Hm & Hcok & Htop); [done|].
    assert (c' = cq) as -> by by apply rb_color in Hm.
    eapply runs_mono; [eapply runs_swap_near; [exact H|done|]|].
    { intros ->. by destruct (rb_red_leaf _ _ _ _ Hm). }
    rewrite <- (swapped_elems C [] c cq ql q kq r) by done.
    intros [] s1 [Hc1 [-> H1]].
    + destruct (rb_red_leaf _ _ _ _ Hm) as [-> ->].
      eapply deleted_zip; [exact H1|constructor| |done|by right|done|congruence].
      by eapply (cok_relabel []).
    + eexists _, _, _, _. split_and!; [exact H1|by eapply rb_relabel| |done|done|congruence].
      by eapply (cok_relabel []).
  - cbn [cparb floc]. rewrite same_false. 2: {
      destruct HrepD as (_ & _ & _ & Hnd). unfold elems in Hnd. rewrite cleft_app, cright_app in Hnd.
      simpl in Hnd. autorewrite with nodup in Hnd. simpl in Hnd. destruct_and? Hnd. congruence. }
    cbn [negb]. by eapply runs_swap_far.
Qed.

Lemma rep_focus t s p : rep [] t s -> p ∈ (inorder t).*1 ->
  exists C c l k r, zip C (T c l p k r) = t /\ rep C (T c l p k r) s.
Proof.
  intros Hrep Hp.
  enough (exists C c l k r, zip C (T c l p k r) = t) as (C & c & l & k & r & Hz).
  { exists C, c, l, k, r. split; [done|]. apply rep_zip. by rewrite Hz. }
  clear Hrep. induction t as [|c l IHl q k r IHr]; simpl in Hp.
  { by apply elem_of_nil in Hp. }
  rewrite fmap_app, elem_of_app, fmap_cons, elem_of_cons in Hp. simpl in Hp.
  destruct Hp as [Hp|[->|Hp]].
  - destruct (IHl Hp) as (C & c' & l' & k' & r' & Hz). exists (C ++ [FL c q k r]), c', l', k', r'.
    rewrite zip_app, Hz. done.
  - by exists [], c, l, k, r.
  - destruct (IHr Hp) as (C & c' & l' & k' & r' & Hz). exists (C ++ [FR c l q k]), c', l', k', r'.
    rewrite zip_app, Hz. done.
Qed.

Lemma runs_rbt_del t s p :
  rbt_ok t s -> p ∈ (inorder t).*1 ->
  runs (rbt_del (Some p)) s (fun _ s' => exists t' l1 l2 k,
    rbt_ok t' s' /\ inorder t = l1 ++ (p, k) :: l2 /\ inorder t' = l1 ++ l2).
Proof.
  intros (Hrep & [m0 Hrb] & Hcd) Hp.
  destruct (rep_focus _ _ _ Hrep Hp) as (C & c & l & k & r & <- & H).
  rewrite <- elems_zip in *.
  assert (Hfin : forall s', deleted (cleft C ++ (inorder l ++ inorder r) ++ cright C) (card s - 1) s' ->
    exists t' l1 l2 k', rbt_ok t' s' /\ elems C (T c l p k r) = l1 ++ (p, k') :: l2 /\ inorder t' = l1 ++ l2).
  { intros s' (t & Ht & Hn & Hi & Hc). exists t, (cleft C ++ inorder l), (inorder r ++ cright C), k.
    unfold elems in *. simpl in *. rewrite !length_app in Hcd. simpl in Hcd.
    split_and!; [split_and!; [done|done|rewrite Hi, !length_app; simpl; lia]|by rewrite <- !app_assoc|].
    rewrite Hi. by rewrite <- !app_assoc. }
  pose proof (rep_lookup _ _ _ _ _ _ _ H) as Hlp.
  unfold rbt_del. do 5 rb_read. rb_read.
  { rewrite Hcd. unfold elems. simpl. rewrite !length_app. simpl.
    apply negb_true_iff, Z.eqb_neq. lia. }
  rb_read. rb_write. do 4 rb_read. rb_read.
  set (s1 := Rbt (nodes s) (root s) (card s - 1)).
  assert (H1 : rep C (T c l p k r) s1) by exact H.
  destruct (zip_cok _ _ _ Hrb) as (c' & m & Hm & Hcok & Htop).
  assert (c' = c) as -> by by apply rb_color in Hm.
  destruct (tree_E_dec l) as [Hl|Hl]; [|destruct (tree_E_dec r) as [Hr|Hr]].
  - subst l. simpl. rb_reads. eapply runs_mono; [by eapply runs_del_unlink; eauto|]. simpl. auto.
  - subst r. simpl. rewrite andb_false_r. rb_reads.
    eapply runs_mono; [by eapply runs_del_unlink; eauto|]. simpl. auto.
  - replace (is_null (tptr l)) with false by by destruct l.
    replace (is_null (tptr r)) with false by by destruct r. simpl.
    eapply runs_mono; [by eapply runs_del_swap|].
    intros [] s2; [intros Hd; rb_reads; auto|].
    intros (C' & c' & l' & m' & H2 & Hrb2 & Hcok2 & Htop2 & Hels & Hc2).
    eapply runs_mono; [eapply runs_del_unlink; eauto|]. cbv beta.
    intros _ s3 Hd. apply Hfin. rewrite <- Hels. simpl in *. rewrite app_nil_r in Hd.
    by rewrite Hc2 in Hd.
Qed.
End del.
