(* ===== verification/RbtSpec.v ===== *)
(** * Red-black trees: the specification

    The pointer operations of rbt.c implement an ordered sequence of (node,
    key) pairs.  This file has the checker [rbt_verify], the refinement of the
    sequence operations and the properties of the component. *)

From stdpp Require Import prelude gmap sorting.
From S2P Require Import Prelude Rbt RbtRep RbtRot RbtIns RbtOps RbtSearch RbtDel RbtDelete RbtSwap RbtDelTop.

(** ** The checker accepts every balanced tree *)

Section verify.
Context {K : Type}.
Implicit Types (s : rbt K) (C : ctx K) (t u : tree K).

Lemma runs_node_color_rep C t s Q :
  rep C t s -> Q (tcolor t) s -> runs (node_color (tptr t)) s Q.
Proof. intros [Ht _]. by eapply runs_node_color. Qed.

Lemma rep_children C c l p k r s :
  rep C (T c l p k r) s -> rep (FL c p k r :: C) l s /\ rep (FR c l p k :: C) r s.
Proof. intros H. split; by apply rep_plug. Qed.

Lemma runs_verify_1 n C t s :
  rep C t s -> (length (inorder t) < n)%nat ->
  runs (verify_property_1 n (tptr t)) s (fun _ s' => s' = s).
Proof.
  revert C t. induction n as [|n IH]; intros C t H Hn; [lia|]. simpl. rb_read.
  eapply runs_node_color_rep; [done|]. rb_read. rb_read. { by destruct (tcolor t). }
  destruct t as [|c l p k r]; [by rb_reads|].
  destruct (rep_children _ _ _ _ _ _ _ H) as [Hl Hr]. simpl in Hn. rewrite length_app in Hn. simpl in Hn.
  apply rep_lookup in H. rb_reads. eapply runs_mono; [eapply IH; [done|lia]|]. simpl. intros _ s' ->.
  rb_reads. eapply IH; [done|lia].
Qed.

(** [cp] is the colour of the parent. *)
Lemma runs_verify_4 n C t s c m :
  rep C t s -> rb c m t -> (c = RBN_RED -> ctop C = RBN_BLACK) ->
  (length (inorder t) < n)%nat ->
  runs (verify_property_4 n (tptr t)) s (fun _ s' => s' = s).
Proof.
  revert C t c m. induction n as [|n IH]; intros C t c m H Hrb Htop Hn; [lia|]. simpl. rb_read.
  eapply runs_node_color_rep; [done|]. rewrite (rb_color _ _ _ Hrb). rb_read.
  destruct t as [|c' l p k r]; [inversion Hrb; subst; by rb_reads|].
  destruct (rep_children _ _ _ _ _ _ _ H) as [Hl Hr]. simpl in Hn. rewrite length_app in Hn. simpl in Hn.
  pose proof (rep_lookup _ _ _ _ _ _ _ H) as Hp. inversion Hrb; subst.
  - rb_reads. eapply runs_node_color_rep; [done|]. rb_reads; [by erewrite rb_color by done|].
    eapply runs_node_color_rep; [done|]. rb_reads; [by erewrite rb_color by done|].
    specialize (Htop eq_refl).
    assert (Hcp : forall Q, Q RBN_BLACK s -> runs (node_color (cpar C)) s Q).
    { intros Q HQ. unfold node_color. destruct C as [|f C]; simpl; [by rb_reads|].
      pose proof (rep_lookup_frame _ _ _ _ H) as Hf. rb_reads. simpl in Htop.
      by destruct f; simpl in *; subst. }
    apply Hcp. rb_reads. eapply runs_mono; [eapply IH; [exact Hl|done|done|lia]|].
    simpl. intros _ s' ->. rb_reads. eapply IH; [exact Hr|done|done|lia].
  - rb_reads. eapply runs_mono; [eapply IH; [exact Hl|done|done|lia]|].
    simpl. intros _ s' ->. rb_reads. eapply IH; [exact Hr|done|done|lia].
Qed.

(** The count of the first path is the black height plus the leaf. *)
Lemma runs_verify_5 n C t s c m bc pbc :
  rep C t s -> rb c m t -> (length (inorder t) < n)%nat ->
  pbc = -1 \/ pbc = bc + Z.of_nat m + 1 ->
  runs (verify_property_5_helper n (tptr t) bc pbc) s (fun r s' =>
    s' = s /\ r = bc + Z.of_nat m + 1).
Proof.
  revert C t c m bc pbc. induction n as [|n IH]; intros C t c m bc pbc H Hrb Hn Hpbc; [lia|]. simpl.
  rb_read. eapply runs_node_color_rep; [done|]. rewrite (rb_color _ _ _ Hrb).
  destruct t as [|c' l p k r].
  { inversion Hrb; subst. simpl. destruct (Z.eqb_spec pbc (-1)); [rb_reads; split; [done|simpl; lia]|].
    rb_read. rb_read. { apply Z.eqb_eq. simpl in *. lia. } rb_reads. split; [done|simpl in *; lia]. }
  destruct (rep_children _ _ _ _ _ _ _ H) as [Hl Hr]. simpl in Hn. rewrite length_app in Hn. simpl in Hn.
  apply rep_lookup in H. inversion Hrb; subst; cbn [is_color]; rb_reads.
  all: eapply runs_mono; [eapply IH; [exact Hl|done|lia|simpl; lia]|];
    simpl; intros pb s' [-> ->]; rb_reads;
    eapply runs_mono; [eapply IH; [exact Hr|done|lia|simpl; lia]|]; simpl; intros ? ? [-> ->]; split; [done|lia].
Qed.

Lemma runs_rbt_verify t s : rbt_ok t s -> runs rbt_verify s (fun _ s' => s' = s).
Proof.
  intros (H & [m Hrb] & _). pose proof H as (_ & _ & Hroot & _). pose proof (rep_size_tree _ _ _ H).
  unfold rbt_verify, verify_tree. rb_reads. rewrite Hroot. simpl croot.
  eapply runs_mono; [eapply runs_verify_1; [done|lia]|]. cbv beta. intros _ ? ->. rb_reads.
  unfold verify_property_2. rb_reads. eapply runs_node_color_rep; [done|].
  rb_reads; [by erewrite rb_color by done|].
  eapply runs_mono; [eapply runs_verify_4; [done|done|done|lia]|]. cbv beta. intros _ ? ->. rb_reads.
  unfold verify_property_5. rb_reads.
  eapply runs_mono; [eapply runs_verify_5; [done|done|lia|by left]|]. cbv beta. intros ? ? [-> _]. by rb_reads.
Qed.
End verify.

(** ** The ordered sequence *)

Section sequence.
Context {K : Type} (cmp : K -> K -> Z).
Implicit Types (l : list (loc * K)) (e : loc * K).

(** An element goes after the ones that compare equal to it. *)
Fixpoint seq_ins e l : list (loc * K) :=
  match l with
  | [] => [e]
  | e' :: l' => if 0 <? cmp e'.2 e.2 then e :: l else e' :: seq_ins e l'
  end.

Definition seq_del (p : loc) l : list (loc * K) := filter (fun e => e.1 <> p) l.

(** The store holds a balanced search tree with the elements [l]. *)
Definition models l (s : rbt K) : Prop :=
  exists t, rbt_ok t s /\ inorder t = l /\ sorted cmp l.

Lemma seq_ins_split e l1 l2 :
  Forall (fun e' => cmp e'.2 e.2 <= 0) l1 -> Forall (fun e' => 0 < cmp e'.2 e.2) l2 ->
  seq_ins e (l1 ++ l2) = l1 ++ e :: l2.
Proof.
  intros H1 H2. induction H1 as [|e' l1 He' H1 IH]; simpl.
  - destruct H2 as [|e' l2 He' H2]; simpl; [done|]. by apply Z.ltb_lt in He' as ->.
  - destruct (Z.ltb_spec 0 (cmp e'.2 e.2)); [lia|]. by rewrite IH.
Qed.

Lemma seq_del_split p k l1 l2 :
  NoDup (l1 ++ (p, k) :: l2).*1 -> seq_del p (l1 ++ (p, k) :: l2) = l1 ++ l2.
Proof.
  intros Hnd. autorewrite with nodup in Hnd. simpl in Hnd.
  assert (Hid : forall l, p ∉ l.*1 -> filter (fun e : loc * K => e.1 <> p) l = l).
  { induction l as [|e l IH]; intros Hl; [done|]. autorewrite with nodup in Hl.
    destruct Hl as [Hne Hl]. rewrite filter_cons_True by congruence. by rewrite IH. }
  unfold seq_del. rewrite filter_app, filter_cons_False by (simpl; tauto).
  destruct_and? Hnd. rewrite !Hid; done.
Qed.

Lemma sorted_app_del e l1 l2 : sorted cmp (l1 ++ e :: l2) -> sorted cmp (l1 ++ l2).
Proof.
  unfold sorted. rewrite !StronglySorted_app, StronglySorted_cons. intros (H12 & H1 & _ & H2).
  split_and!; [|done|done]. intros e1 e2 ??. apply H12; [done|by right].
Qed.

Lemma elem_of_seq_ins e e' l : e' ∈ seq_ins e l <-> e' = e \/ e' ∈ l.
Proof.
  induction l as [|x l IH]; simpl; [set_solver|]. destruct (_ <? _); [set_solver|].
  rewrite !elem_of_cons, IH. tauto.
Qed.

Lemma elem_of_seq_del p e l : e ∈ seq_del p l <-> e.1 <> p /\ e ∈ l.
Proof. unfold seq_del. by rewrite list_elem_of_filter. Qed.

Lemma models_nodup l (s : rbt K) : models l s -> NoDup l.*1.
Proof.
  intros (t & ((_ & _ & _ & Hnd) & _) & <- & _). unfold elems in Hnd. simpl in Hnd.
  by rewrite app_nil_r in Hnd.
Qed.

(** Memory outside the tree may be written. *)
Lemma models_frame l s p nd :
  models l s -> p ∉ l.*1 -> models l (Rbt (<[p := nd]> (nodes s)) (root s) (card s)).
Proof.
  intros (t & (Hr & Hb & Hc) & <- & Hs) Hp. exists t. split_and!; [|done|done].
  split_and!; [|done|done]. destruct s as [m r c]. apply rep_outside with (cd := c); [|done].
  unfold elems. simpl. by rewrite app_nil_r.
Qed.

Lemma models_empty : models [] (rbt_init ∅).
Proof.
  exists E. split_and!; [|done|constructor]. split_and!; [|exists O; constructor|done].
  split_and!; [done|done|done|constructor].
Qed.
End sequence.

Lemma pivot_unique {K} (l1 l2 r1 r2 : list (loc * K)) p k k' :
  NoDup (l1 ++ (p, k) :: r1).*1 -> l1 ++ (p, k) :: r1 = l2 ++ (p, k') :: r2 ->
  l1 = l2 /\ k = k' /\ r1 = r2.
Proof.
  revert l2. induction l1 as [|e l1 IH]; intros [|e' l2] Hnd Heq; simpl in *;
    simplify_eq; autorewrite with nodup in Hnd; simpl in Hnd; destruct_and? Hnd.
  - done.
  - autorewrite with nodup in *. naive_solver.
  - autorewrite with nodup in *. naive_solver.
  - destruct (IH l2) as (-> & -> & ->); [by autorewrite with nodup|done..].
Qed.

(** ** The properties of the tree *)

Section properties.
Context {K : Type} (cmp : K -> K -> Z) {Hcmp : Comparator cmp}.
Implicit Types (l : list (loc * K)) (s : rbt K).

Lemma models_ins l s x nd :
  models cmp l s -> x ∉ l.*1 -> nodes s !! x = Some nd ->
  runs (rbt_ins cmp (Some x)) s (fun _ => models cmp (seq_ins cmp (x, key nd) l)).
Proof.
  intros (t & Hok & <- & Hs) Hx Hn. eapply runs_mono; [by eapply runs_rbt_ins|]. simpl.
  intros _ s' (t' & l1 & l2 & Hok' & Hi & Hi' & Hord). destruct (Hord Hs) as [H1 H2].
  exists t'. split; [done|]. rewrite Hi, Hi', seq_ins_split by done. split; [done|].
  apply sorted_insert; [done|by rewrite <- Hi|done|done].
Qed.

Lemma models_add l s p k :
  models cmp l s -> p ∉ l.*1 ->
  runs (rbt_add cmp p k) s (fun _ => models cmp (seq_ins cmp (p, k) l)).
Proof.
  intros Hm Hp. unfold rbt_add. apply runs_bind, runs_modify.
  set (nd0 := default (Rbn None None None RBN_BLACK k) (nodes s !! p)).
  set (nd := Rbn (left nd0) (right nd0) (parent nd0) (color nd0) k).
  apply runs_bind. exists tt, (Rbt (<[p := nd]> (nodes s)) (root s) (card s)). split.
  { unfold rbn_init, set_key, st. cbn. rewrite lookup_insert_eq. cbn. by rewrite insert_insert_eq. }
  eapply (models_ins l _ p nd); [by apply models_frame|done|apply lookup_insert_eq].
Qed.

Lemma models_del l s p :
  models cmp l s -> p ∈ l.*1 ->
  runs (rbt_del (Some p)) s (fun _ => models cmp (seq_del p l)).
Proof.
  intros (t & Hok & <- & Hs) Hp. eapply runs_mono; [by eapply runs_rbt_del|]. simpl.
  intros _ s' (t' & l1 & l2 & k & Hok' & Hi & Hi'). exists t'. split; [done|].
  assert (NoDup (inorder t).*1) as Hnd.
  { destruct Hok as ((_ & _ & _ & Hnd) & _). unfold elems in Hnd. simpl in Hnd. by rewrite app_nil_r in Hnd. }
  rewrite Hi, Hi' in *. rewrite seq_del_split by done. split; [done|]. by eapply sorted_app_del.
Qed.

Lemma models_find l s k :
  models cmp l s ->
  runs (rbt_find cmp k) s (fun r s' => s' = s /\
    match r with
    | Some p => exists kp, (p, kp) ∈ l /\ cmp kp k = 0
    | None => forall e, e ∈ l -> cmp e.2 k <> 0
    end).
Proof. intros (t & (Hr & _) & <- & Hs). by apply runs_rbt_find. Qed.

Lemma models_glb l s k :
  models cmp l s ->
  runs (rbt_find_glb cmp k) s (fun r s' => s' = s /\
    match r with
    | Some p => exists kp, (p, kp) ∈ l /\ cmp kp k <= 0 /\
        forall e, e ∈ l -> cmp e.2 k <= 0 -> cmp e.2 kp <= 0
    | None => forall e, e ∈ l -> 0 < cmp e.2 k
    end).
Proof. intros (t & (Hr & _) & <- & Hs). by apply runs_rbt_find_glb. Qed.

Lemma models_lub l s k :
  models cmp l s ->
  runs (rbt_find_lub cmp k) s (fun r s' => s' = s /\
    match r with
    | Some p => exists kp, (p, kp) ∈ l /\ 0 <= cmp kp k /\
        forall e, e ∈ l -> 0 <= cmp e.2 k -> cmp kp e.2 <= 0
    | None => forall e, e ∈ l -> cmp e.2 k < 0
    end).
Proof. intros (t & (Hr & _) & <- & Hs). by apply runs_rbt_find_lub. Qed.

Lemma models_min l s : models cmp l s -> runs rbt_min s (fun r s' => s' = s /\ r = fst <$> head l).
Proof.
  intros (t & (Hr & _) & <- & Hs). unfold rbt_min. rb_read. rb_read.
  pose proof Hr as (_ & _ & -> & _). by eapply runs_rbn_min.
Qed.

Lemma models_max l s : models cmp l s -> runs rbt_max s (fun r s' => s' = s /\ r = fst <$> last l).
Proof.
  intros (t & (Hr & _) & <- & Hs). unfold rbt_max. rb_read. rb_read.
  pose proof Hr as (_ & _ & -> & _). by eapply runs_rbn_max.
Qed.

(** Splitting the sequence at a node gives its context in the tree. *)
Lemma models_focus l1 p k l2 s :
  models cmp (l1 ++ (p, k) :: l2) s ->
  exists C c lt rt, rep C (T c lt p k rt) s /\ cleft C ++ inorder lt = l1 /\ inorder rt ++ cright C = l2.
Proof.
  intros (t & (Hr & _) & Hi & Hs).
  destruct (rep_focus t s p) as (C & c & lt & k' & rt & Hz & Hrep); [done|rewrite Hi, fmap_app, fmap_cons; set_solver|].
  rewrite <- Hz, <- elems_zip in Hi. unfold elems in Hi. simpl in Hi.
  rewrite <- !app_assoc in Hi. simpl in Hi. rewrite app_assoc in Hi.
  apply pivot_unique in Hi as (? & -> & ?); [by eexists _, _, _, _|].
  destruct Hrep as (_ & _ & _ & Hnd). unfold elems in Hnd. simpl in Hnd.
  rewrite <- !app_assoc in Hnd. simpl in Hnd. by rewrite app_assoc in Hnd.
Qed.

Lemma models_succ l1 p k l2 s :
  models cmp (l1 ++ (p, k) :: l2) s ->
  runs (rbn_succ (Some p)) s (fun r s' => s' = s /\ r = fst <$> head l2).
Proof.
  intros (C & c & lt & rt & Hrep & <- & <-)%models_focus. by eapply runs_rbn_succ.
Qed.

Lemma models_pred l1 p k l2 s :
  models cmp (l1 ++ (p, k) :: l2) s ->
  runs (rbn_pred (Some p)) s (fun r s' => s' = s /\ r = fst <$> last l1).
Proof.
  intros (C & c & lt & rt & Hrep & <- & <-)%models_focus. by eapply runs_rbn_pred.
Qed.
End properties.

(** ** Height *)

Section height.
Context {K : Type}.

Fixpoint height (t : tree K) : nat :=
  match t with E => 0%nat | T _ l _ _ r => S (Nat.max (height l) (height r)) end.

Lemma rb_height c n (t : tree K) :
  rb c n t -> (height t <= 2 * n + if decide (c = RBN_RED) then 1 else 0)%nat.
Proof.
  induction 1 as [|n l p k r Hl IHl Hr IHr|cl cr n l p k r Hl IHl Hr IHr]; simpl in *; [lia|lia|].
  destruct cl, cr; simpl in *; lia.
Qed.

Lemma rb_weight c n (t : tree K) : rb c n t -> (2 ^ n <= S (length (inorder t)))%nat.
Proof.
  induction 1 as [|n l p k r Hl IHl Hr IHr|cl cr n l p k r Hl IHl Hr IHr]; simpl;
    rewrite ?length_app; simpl; lia.
Qed.

Lemma rb_height_log n (t : tree K) :
  rb RBN_BLACK n t -> (height t <= 2 * Nat.log2 (S (length (inorder t))))%nat.
Proof.
  intros H. pose proof (rb_height _ _ _ H) as Hh. pose proof (rb_weight _ _ _ H) as Hw. simpl in Hh.
  apply Nat.log2_le_mono in Hw. rewrite Nat.log2_pow2 in Hw by lia. lia.
Qed.
End height.

(** ** An example store *)

Definition zcmp (a b : Z) : Z := a - b.

#[export] Instance zcmp_comparator : Comparator zcmp.
Proof. split; unfold zcmp; lia. Qed.

Definition ex_tree : tree Z := T RBN_BLACK (T RBN_RED E 1%positive 10 E) 2%positive 20 (T RBN_RED E 3%positive 30 E).

(** Three linked nodes and a node 4 that is not in the tree yet. *)
Definition ex_store : rbt Z :=
  Rbt (list_to_map [ (1%positive, Rbn None None (Some 2%positive) RBN_RED 10);
                     (2%positive, Rbn (Some 1%positive) (Some 3%positive) None RBN_BLACK 20);
                     (3%positive, Rbn None None (Some 2%positive) RBN_RED 30);
                     (4%positive, Rbn None None None RBN_BLACK 25) ]) (Some 2%positive) 3.

Definition ex_elems : list (loc * Z) := [(1%positive, 10); (2%positive, 20); (3%positive, 30)].

Lemma ex_ok : rbt_ok ex_tree ex_store.
Proof.
  split_and!; [|exists 1%nat; repeat econstructor|reflexivity].
  split_and!; [repeat split|done|done|].
  apply (bool_decide_unpack _). vm_compute. done.
Qed.

Lemma ex_models : models zcmp ex_elems ex_store.
Proof.
  exists ex_tree. split_and!; [apply ex_ok|done|]. unfold sorted, ex_elems.
  repeat (apply StronglySorted_cons; split; [repeat constructor; unfold key_le, zcmp; simpl; lia|]).
  constructor.
Qed.

Section main.
Context {K : Type} (cmp : K -> K -> Z) {Hcmp : Comparator cmp}.
Implicit Types (l : list (loc * K)) (s : rbt K).

(** C1: [rbt_ins] refines sorted insertion.  On a store that holds a balanced
    search tree with the elements [l], inserting a node that is not linked
    terminates without tripping an assertion or touching a null pointer, and
    the result is a balanced search tree with exactly the new element added,
    after the ones that compare equal to it. *)
Theorem rbt_ins_refines l s x nd :
  models cmp l s -> x ∉ l.*1 -> nodes s !! x = Some nd ->
  runs (rbt_ins cmp (Some x)) s (fun _ => models cmp (seq_ins cmp (x, key nd) l)).
Proof. apply models_ins, Hcmp. Qed.

(** C2: [rbt_del] refines removal.  Deleting a linked node terminates, no
    assertion of the rebalancing cases fails, and the result is a balanced
    search tree with exactly that node gone and the others in order. *)
Theorem rbt_del_refines l s p :
  models cmp l s -> p ∈ l.*1 ->
  runs (rbt_del (Some p)) s (fun _ => models cmp (seq_del p l)).
Proof. apply models_del. Qed.

(** C31: [rbt_find] returns a node whose key compares equal if there is one and
    null otherwise, and leaves the store unchanged. *)
Theorem rbt_find_correct l s k :
  models cmp l s ->
  runs (rbt_find cmp k) s (fun r s' => s' = s /\
    match r with
    | Some p => exists kp, (p, kp) ∈ l /\ cmp kp k = 0
    | None => forall e, e ∈ l -> cmp e.2 k <> 0
    end).
Proof. apply models_find, Hcmp. Qed.

(** C37: [rbt_find_glb] returns a greatest element at most the key,
    [rbt_find_lub] a least element at least the key, null exactly when there
    is none; neither changes the store. *)
Theorem rbt_find_bounds_correct l s k :
  models cmp l s ->
  runs (rbt_find_glb cmp k) s (fun r s' => s' = s /\
    match r with
    | Some p => exists kp, (p, kp) ∈ l /\ cmp kp k <= 0 /\
        forall e, e ∈ l -> cmp e.2 k <= 0 -> cmp e.2 kp <= 0
    | None => forall e, e ∈ l -> 0 < cmp e.2 k
    end) /\
  runs (rbt_find_lub cmp k) s (fun r s' => s' = s /\
    match r with
    | Some p => exists kp, (p, kp) ∈ l /\ 0 <= cmp kp k /\
        forall e, e ∈ l -> 0 <= cmp e.2 k -> cmp kp e.2 <= 0
    | None => forall e, e ∈ l -> cmp e.2 k < 0
    end).
Proof. intros H. split; [by apply models_glb|by apply models_lub]. Qed.

(** C32: the iteration functions walk the sequence: [rbt_min] and [rbt_max] are
    its ends, and from any node [rbn_succ] and [rbn_pred] go to the next and
    the previous element, or to null at the ends. *)
Theorem rbt_iteration_correct l1 p k l2 s :
  models cmp (l1 ++ (p, k) :: l2) s ->
  runs rbt_min s (fun r s' => s' = s /\ r = fst <$> head (l1 ++ (p, k) :: l2)) /\
  runs rbt_max s (fun r s' => s' = s /\ r = fst <$> last (l1 ++ (p, k) :: l2)) /\
  runs (rbn_succ (Some p)) s (fun r s' => s' = s /\ r = fst <$> head l2) /\
  runs (rbn_pred (Some p)) s (fun r s' => s' = s /\ r = fst <$> last l1).
Proof.
  intros H. split_and!; [by eapply models_min|by eapply models_max|by eapply models_succ|by eapply models_pred].
Qed.

(** [rbt_verify], which asserts the red-black properties 1, 2, 4 and 5,
    runs to completion on every store the operations maintain. *)
Theorem rbt_verify_passes l s :
  models cmp l s -> runs rbt_verify s (fun _ s' => s' = s).
Proof. intros (t & Hok & _). by eapply runs_rbt_verify. Qed.

(** The represented tree has logarithmic height, so every descent and
    every rebalancing walk visits at most 2 log2 (card + 1) nodes. *)
Theorem rbt_height_bound t s :
  rbt_ok t s -> (height t <= 2 * Nat.log2 (S (Z.to_nat (card s))))%nat.
Proof.
  intros (_ & [n Hrb] & ->). rewrite Nat2Z.id. by eapply rb_height_log.
Qed.
End main.

(** Witnesses on the example store. *)

Lemma rbt_ins_refines_witness :
  runs (rbt_ins zcmp (Some 4%positive)) ex_store
    (fun _ => models zcmp [(1%positive, 10); (2%positive, 20); (4%positive, 25); (3%positive, 30)]).
Proof.
  apply (rbt_ins_refines zcmp ex_elems ex_store 4%positive (Rbn None None None RBN_BLACK 25)).
  - apply ex_models.
  - by apply (bool_decide_unpack _); vm_compute.
  - reflexivity.
Defined.

Lemma rbt_del_refines_witness :
  runs (rbt_del (Some 2%positive)) ex_store
    (fun _ => models zcmp [(1%positive, 10); (3%positive, 30)]).
Proof.
  apply (rbt_del_refines zcmp ex_elems ex_store 2%positive).
  - apply ex_models.
  - by apply (bool_decide_unpack _); vm_compute.
Defined.

Lemma rbt_find_correct_witness :
  runs (rbt_find zcmp 20) ex_store (fun r s' => s' = ex_store /\
    match r with
    | Some p => exists kp, (p, kp) ∈ ex_elems /\ zcmp kp 20 = 0
    | None => forall e, e ∈ ex_elems -> zcmp e.2 20 <> 0
    end).
Proof. apply (rbt_find_correct zcmp ex_elems ex_store 20), ex_models. Defined.

Lemma rbt_find_bounds_correct_witness :
  runs (rbt_find_glb zcmp 25) ex_store (fun r s' => s' = ex_store /\
    match r with
    | Some p => exists kp, (p, kp) ∈ ex_elems /\ zcmp kp 25 <= 0 /\
        forall e, e ∈ ex_elems -> zcmp e.2 25 <= 0 -> zcmp e.2 kp <= 0
    | None => forall e, e ∈ ex_elems -> 0 < zcmp e.2 25
    end).
Proof. apply (rbt_find_bounds_correct zcmp ex_elems ex_store 25), ex_models. Defined.

Lemma rbt_iteration_correct_witness :
  runs (rbn_succ (Some 2%positive)) ex_store (fun r s' => s' = ex_store /\ r = Some 3%positive).
Proof.
  apply (rbt_iteration_correct zcmp [(1%positive, 10)] 2%positive 20 [(3%positive, 30)] ex_store), ex_models.
Defined.

Lemma rbt_verify_passes_witness : runs rbt_verify ex_store (fun _ s' => s' = ex_store).
Proof. apply (rbt_verify_passes zcmp ex_elems), ex_models. Defined.

Lemma rbt_height_bound_witness : (height ex_tree <= 4)%nat.
Proof. apply (rbt_height_bound ex_tree ex_store), ex_ok. Defined.
