(* ===== verification/Idx.v ===== *)
(** * Prefix trees: lib/src/coll/idx.c

    The index that the plugin attributes and the store plugins keep their
    objects in.  A layer is a table of 256 entries; a key leads through one
    layer per byte, and the entry of its last byte has the object.  Layers
    are owned by their entry, so a tree of them is a value here.  The key
    argument is the memory behind the pointer, which may be longer than
    [keylen]; a read past it is stuck. *)

From stdpp Require Import prelude.
From S2P Require Import Prelude Rbt.

Open Scope Z_scope.

Definition IDX_RADIX : nat := 256.

(** [struct idx_layer_s]; an entry is an object and the next layer. *)
Inductive idx_layer_s := Layer {
  obj_count : Z;
  layer_count : Z;
  entries : list (option loc * option idx_layer_s)
}.

(** The globals, and what the coming calls of [malloc] return. *)
Record idx_globals := IdxG {
  idx_memory : Z;
  idx_entries : Z;
  malloc_ok : list bool
}.

(** The size of an entry and of a layer with its table. *)
Definition idx_entry_size : Z := 16.
Definition idx_layer_size (sz : Z) : Z := 8 + sz.

Definition idx_alloc (sz : Z) : M idx_globals bool := fun g =>
  let '(ok, l) := match malloc_ok g with [] => (true, []) | b :: l => (b, l) end in
  Some (ok, IdxG (u64 (idx_memory g + sz)) (idx_entries g) l).

Definition new_idx_layer (sz : Z) : M idx_globals (option idx_layer_s) :=
  ok ← idx_alloc (idx_layer_size sz);
  mret (if (ok : bool) then Some (Layer 0 0 (replicate IDX_RADIX (None, None))) else None).

(** [t_ok]: whether the allocation of [struct idx_s] succeeds. *)
Definition idx_create (t_ok : bool) : M idx_globals (option idx_layer_s) :=
  if negb t_ok then mret None else new_idx_layer (Z.of_nat IDX_RADIX * idx_entry_size).

(** The number of layers that are freed. *)
Fixpoint free_layer (l : idx_layer_s) : nat :=
  S (foldr (fun e n => match e.2 with Some nl => (free_layer nl + n)%nat | None => n end) O (entries l)).

Definition idx_destroy (t : idx_layer_s) : nat := free_layer t.

(** ** Entries *)

Definition entry (l : idx_layer_s) (b : Z) : option loc * option idx_layer_s := default (None, None) (entries l !! Z.to_nat b).
Definition obj_at l b : option loc := (entry l b).1.
Definition next_at l b : option idx_layer_s := (entry l b).2.
Definition set_obj l b (o : option loc) : idx_layer_s :=
  Layer (obj_count l) (layer_count l) (<[Z.to_nat b := (o, next_at l b)]> (entries l)).
Definition set_next l b (nl : option idx_layer_s) : idx_layer_s :=
  Layer (obj_count l) (layer_count l) (<[Z.to_nat b := (obj_at l b, nl)]> (entries l)).
Definition add_objs l (d : Z) : idx_layer_s := Layer (s32 (obj_count l + d)) (layer_count l) (entries l).
Definition add_layers l (d : Z) : idx_layer_s := Layer (obj_count l) (s32 (layer_count l + d)) (entries l).

(** ** Searching *)

(** The loop of [idx_find] and [idx_delete]: the layer reached, the rest of
    the key and of its length. *)
Fixpoint idx_walk (pl : option idx_layer_s) (key : list Z) (keylen : Z) : option (option idx_layer_s * list Z * Z) :=
  match pl with
  | None => Some (pl, key, keylen)
  | Some l =>
      if keylen =? 0 then Some (pl, key, keylen) else
      match key with
      | [] => None
      | b :: key => idx_walk (next_at l b) key (keylen - 1)
      end
  end.

(** [key] is [None] for NULL. *)
Definition idx_find {S} (t : idx_layer_s) (key : option (list Z)) (keylen : Z) : M S (option loc) :=
  match key with
  | None => mret None
  | Some key =>
      if keylen =? 0 then mret None else
      '(pl, key, keylen) ← lift_opt (idx_walk (Some t) key (keylen - 1));
      if negb (keylen =? 0) then mret None else
      match pl with
      | None => mret None
      | Some l => b ← lift_opt (head key); mret (obj_at l b)
      end
  end.

(** ** Traversal *)

Fixpoint traverse_layer {D} (cb : loc -> D -> D) (pl : idx_layer_s) (d : D) : D :=
  foldl (fun d e =>
    let d := match e.1 with Some obj => cb obj d | None => d end in
    match e.2 with Some nl => traverse_layer cb nl d | None => d end) d (entries pl).

Definition idx_traverse {D} (t : idx_layer_s) (cb : loc -> D -> D) (d : D) : D := traverse_layer cb t d.

Definition idx_count (t : option idx_layer_s) : Z :=
  match t with Some t => idx_traverse t (fun _ c => u64 (c + 1)) 0 | None => 0 end.

(** ** Adding *)

(** The loop of [idx_add] from the layer [l] on; the second result is the
    layer as the loop leaves it. *)
Fixpoint idx_add_walk (key : list Z) (keylen : Z) (l : idx_layer_s) (obj : loc) : M idx_globals (Z * idx_layer_s) :=
  match key with
  | [] => stuck
  | b :: key =>
      if keylen =? 0 then mret (0, set_obj (add_objs l 1) b (Some obj)) else
      match next_at l b with
      | Some nl =>
          '(rc, nl) ← idx_add_walk key (keylen - 1) nl obj;
          mret (rc, set_next l b (Some nl))
      | None =>
          new ← new_idx_layer (Z.of_nat IDX_RADIX * idx_entry_size);
          match new with
          | None => mret (ENOMEM, l)
          | Some nl =>
              '(rc, nl) ← idx_add_walk key (keylen - 1) nl obj;
              mret (rc, set_next (add_layers l 1) b (Some nl))
          end
      end
  end.

(** [obj] is [None] for NULL.  A [keylen] of 0 wraps. *)
Definition idx_add (t : idx_layer_s) (key : option (list Z)) (keylen : Z) (obj : option loc) : M idx_globals (Z * idx_layer_s) :=
  match obj with
  | None => mret (EINVAL, t)
  | Some obj =>
      found ← idx_find t key keylen;
      match found with
      | Some _ => mret (EEXIST, t)
      | None =>
          modify (fun g => IdxG (idx_memory g) (u64 (idx_entries g + 1)) (malloc_ok g));;
          key ← lift_opt key;
          idx_add_walk key (u64 (keylen - 1)) t obj
      end
  end.

(** ** Deleting *)

(** The result tells whether the layer was freed. *)
Fixpoint purge_layer {S} (l : idx_layer_s) (key : list Z) (keylen : Z) : M S (bool * idx_layer_s) :=
  match key with
  | [] => stuck
  | b :: key =>
      c_assert (negb (b =? 255));;
      if keylen <? 2 then mret (false, l) else
      if keylen =? 2 then mret ((obj_count l =? 0) && (layer_count l =? 0), l) else
      npl ← lift_opt (next_at l b);
      '(freed, npl) ← purge_layer npl key (keylen - 1);
      if (freed : bool) then
        let l := set_next (add_layers l (-1)) b None in
        mret ((obj_count l =? 0) && (layer_count l =? 0), l)
      else mret (false, set_next l b (Some npl))
  end.

(** The function looks at the second byte of the key before it looks at the
    layer or at the length. *)
Definition purge_layers {S} (t : idx_layer_s) (key : list Z) (keylen : Z) : M S idx_layer_s :=
  c_assert (negb (keylen =? 0));;
  b ← lift_opt (head key);
  match next_at t b with
  | None =>
      b1 ← lift_opt (head (tail key));
      c_assert (negb (b1 =? 255));;
      if keylen - 1 <? 2 then mret t else stuck
  | Some nl =>
      '(freed, nl) ← purge_layer nl (tail key) (keylen - 1);
      mret (if (freed : bool) then set_next (add_layers t (-1)) b None else set_next t b (Some nl))
  end.

(** The object at the end of the key is taken out of its layer. *)
Fixpoint idx_remove (l : idx_layer_s) (key : list Z) (keylen : Z) : option idx_layer_s :=
  match key with
  | [] => None
  | b :: key =>
      if keylen =? 0 then Some (set_obj (add_objs l (-1)) b None) else
      nl ← next_at l b;
      nl ← idx_remove nl key (keylen - 1);
      Some (set_next l b (Some nl))
  end.

Definition idx_delete {S} (t : idx_layer_s) (key : option (list Z)) (keylen : Z) : M S (option loc * idx_layer_s) :=
  match key with
  | None => mret (None, t)
  | Some key =>
      if keylen =? 0 then mret (None, t) else
      '(pl, rest, n) ← lift_opt (idx_walk (Some t) key (keylen - 1));
      if negb (n =? 0) then mret (None, t) else
      match pl with
      | None => mret (None, t)
      | Some l =>
          b ← lift_opt (head rest);
          t' ← lift_opt (idx_remove t key (keylen - 1));
          t' ← purge_layers t' key keylen;
          mret (obj_at l b, t')
      end
  end.
