(* ===== verification/IdxSpec.v ===== *)
(** * Prefix trees: the finite map they implement *)

From stdpp Require Import prelude gmap sorting.
From S2P Require Import Prelude Rbt Idx.

Open Scope Z_scope.

(** ** Keys and contents *)

Definition byte (b : Z) : Prop := 0 <= b < 256.

(** The object behind a key, without lengths. *)
Fixpoint denote (l : idx_layer_s) (key : list Z) : option loc :=
  match key with
  | [] => None
  | [b] => obj_at l b
  | b :: key => nl ← next_at l b; denote nl key
  end.

(** Everything in a layer and below, in the order of the table. *)
Section elems.
Context (below : idx_layer_s -> list (list Z * loc)).

Definition elems_entry (i : Z) (e : option loc * option idx_layer_s) : list (list Z * loc) :=
  match e.1 with Some o => [([i], o)] | None => [] end ++
  match e.2 with Some nl => prod_map (i ::.) id <$> below nl | None => [] end.

Fixpoint elems_entries (i : Z) (es : list (option loc * option idx_layer_s)) : list (list Z * loc) :=
  match es with
  | [] => []
  | e :: es => elems_entry i e ++ elems_entries (i + 1) es
  end.
End elems.

Fixpoint elems_layer (l : idx_layer_s) : list (list Z * loc) := elems_entries elems_layer 0 (entries l).

Definition contents (t : idx_layer_s) : gmap (list Z) loc := list_to_map (elems_layer t).

(** ** Well-formed trees

    The layer counts are those of the tables; with [cnt], so are the object
    counts, which deleting a key that is not there puts wrong. *)

Definition count_objs (l : idx_layer_s) : nat := length (filter (fun e => is_Some e.1) (entries l)).
Definition count_nexts (l : idx_layer_s) : nat := length (filter (fun e => is_Some e.2) (entries l)).

Inductive layer_ok (cnt : bool) : idx_layer_s -> Prop :=
  | layer_ok_intro l :
      length (entries l) = IDX_RADIX -> (cnt = true -> obj_count l = Z.of_nat (count_objs l)) ->
      layer_count l = Z.of_nat (count_nexts l) ->
      (forall i o nl, entries l !! i = Some (o, Some nl) -> layer_ok cnt nl) -> layer_ok cnt l.

Section layers.
Context {cnt : bool}.

Lemma entry_lookup l b : layer_ok cnt l -> byte b -> entries l !! Z.to_nat b = Some (entry l b).
Proof.
  intros [? Hlen _ _ _] Hb. unfold entry. destruct (lookup_lt_is_Some_2 (entries l0) (Z.to_nat b)) as [e He].
  - rewrite Hlen. unfold IDX_RADIX, byte in *. lia.
  - by rewrite He.
Qed.

Lemma next_ok l b nl : layer_ok cnt l -> byte b -> next_at l b = Some nl -> layer_ok cnt nl.
Proof.
  intros Hl Hb Hn. pose proof (entry_lookup l b Hl Hb) as He. destruct Hl as [l _ _ _ Hsub].
  unfold next_at in Hn. destruct (entry l b) as [o n]. cbn in Hn. subst n. by eapply Hsub.
Qed.

(** Filters and updates of a table. *)
Lemma filter_update {A} (P : A -> Prop) `{!forall x, Decision (P x)} (l : list A) i x y :
  l !! i = Some x ->
  Z.of_nat (length (filter P (<[i := y]> l))) =
    Z.of_nat (length (filter P l)) - (if decide (P x) then 1 else 0) + (if decide (P y) then 1 else 0).
Proof.
  revert i. induction l as [|z l IH]; intros [|i] Hi; [done|done|..].
  - injection Hi as ->. change (<[0%nat := y]> (x :: l)) with (y :: l). rewrite !filter_cons.
    destruct (decide (P x)), (decide (P y)); cbn [length]; lia.
  - change (<[S i := y]> (z :: l)) with (z :: <[i := y]> l). rewrite !filter_cons. specialize (IH i Hi).
    destruct (decide (P z)); cbn [length]; lia.
Qed.

(** A layer in which one entry was replaced. *)
Lemma layer_ok_update l b oc lc e' :
  layer_ok cnt l -> byte b ->
  (cnt = true -> oc = obj_count l - (if decide (is_Some (obj_at l b)) then 1 else 0) + (if decide (is_Some e'.1) then 1 else 0)) ->
  lc = layer_count l - (if decide (is_Some (next_at l b)) then 1 else 0) + (if decide (is_Some e'.2) then 1 else 0) ->
  (forall nl, e'.2 = Some nl -> layer_ok cnt nl) ->
  layer_ok cnt (Layer oc lc (<[Z.to_nat b := e']> (entries l))).
Proof.
  intros Hl Hb Ho Hn He'. pose proof (entry_lookup l b Hl Hb) as He. destruct Hl as [l Hlen Hoc Hlc Hsub]. constructor; cbn.
  - by rewrite length_insert.
  - intros Hcnt. unfold count_objs in *. cbn. rewrite (filter_update _ _ _ _ _ He), Ho, Hoc by done. done.
  - unfold count_nexts in *. cbn. rewrite (filter_update _ _ _ _ _ He), Hn, Hlc. done.
  - intros i o nl. destruct (decide (i = Z.to_nat b)) as [->|Hne].
    + rewrite list_lookup_insert_eq by (by eapply lookup_lt_Some). intros [= ->]. by apply He'.
    + rewrite list_lookup_insert_ne by done. apply Hsub.
Qed.

(** ** The elements *)

Lemma elem_of_entry f i e k o :
  (k, o) ∈ elems_entry f i e <-> exists k', k = i :: k' /\
    (k' = [] /\ e.1 = Some o \/ exists nl, e.2 = Some nl /\ (k', o) ∈ f nl).
Proof.
  unfold elems_entry. destruct e as [eo en]. cbn. rewrite elem_of_app. split.
  - intros [H|H].
    + destruct eo as [o1|]; [|set_solver]. apply list_elem_of_singleton in H as [= -> ->]. exists []. auto.
    + destruct en as [nl|]; [|set_solver]. apply list_elem_of_fmap in H as ([k1 o1] & [= -> ->] & H). exists k1. eauto.
  - intros (k' & -> & [[-> ->]|(nl & -> & H)]); [left; set_solver|]. right. apply list_elem_of_fmap. by exists (k', o).
Qed.

Lemma elem_of_entries f i es k o :
  (k, o) ∈ elems_entries f i es <-> exists j e, es !! j = Some e /\ (k, o) ∈ elems_entry f (i + Z.of_nat j) e.
Proof.
  revert i. induction es as [|e es IH]; intros i; cbn [elems_entries].
  - split; [set_solver|]. by intros (j & e & ? & _).
  - rewrite elem_of_app, IH. split.
    + intros [H|(j & e' & ? & H)]; [exists O, e; by rewrite Z.add_0_r|]. exists (S j), e'. split; [done|].
      by replace (i + Z.of_nat (S j)) with (i + 1 + Z.of_nat j) by lia.
    + intros ([|j] & e' & ? & H); cbn in *; simplify_eq; [left; by rewrite Z.add_0_r in H|]. right. exists j, e'. split; [done|].
      by replace (i + 1 + Z.of_nat j) with (i + Z.of_nat (S j)) by lia.
Qed.

Lemma entries_nodup f i es :
  (forall j eo nl, es !! j = Some (eo, Some nl) -> NoDup (f nl).*1 /\ forall k o, (k, o) ∈ f nl -> k <> []) ->
  NoDup (elems_entries f i es).*1.
Proof.
  revert i. induction es as [|e es IH]; intros i Hf; cbn [elems_entries]; [constructor|].
  rewrite fmap_app. apply NoDup_app. split_and!.
  - destruct e as [eo [nl|]]; unfold elems_entry; cbn; rewrite ?app_nil_r; [|destruct eo; [apply NoDup_singleton|constructor]].
    destruct (Hf O eo nl eq_refl) as [Hnd Hne]. rewrite fmap_app, <- list_fmap_compose. apply NoDup_app. split_and!.
    + destruct eo; [apply NoDup_singleton|constructor].
    + intros k Hk. destruct eo; [|set_solver]. apply list_elem_of_singleton in Hk as ->. intros Hin.
      apply list_elem_of_fmap in Hin as ([k1 o1] & [= Hk1] & Hin). by apply (Hne k1 o1).
    + change (NoDup ((cons i ∘ fst) <$> f nl)). rewrite list_fmap_compose. apply NoDup_fmap_2; [by intros ?? [=]|done].
  - intros k Hk Hin. apply list_elem_of_fmap in Hk as ([k1 o1] & -> & Hk). apply list_elem_of_fmap in Hin as ([k2 o2] & Heq & Hin).
    cbn in Heq. subst k2. apply elem_of_entry in Hk as (k' & -> & _). apply elem_of_entries in Hin as (j & e' & _ & Hin).
    apply elem_of_entry in Hin as (k2 & [= Heq _] & _). lia.
  - apply IH. intros j eo nl Hj. by apply (Hf (S j) eo nl).
Qed.

Lemma elems_layer_eq l : elems_layer l = elems_entries elems_layer 0 (entries l).
Proof. by destruct l. Qed.

Lemma elem_of_layer l k o :
  layer_ok cnt l -> (k, o) ∈ elems_layer l <-> Forall byte k /\ denote l k = Some o.
Proof.
  intros Hl. revert k o. induction Hl as [l Hlen Hoc Hlc Hsub IH]. intros k o.
  rewrite elems_layer_eq, elem_of_entries. split.
  - intros (j & e & Hj & (k' & -> & H)%elem_of_entry). rewrite Z.add_0_l.
    assert (byte (Z.of_nat j)) as Hb. { apply lookup_lt_Some in Hj. rewrite Hlen in Hj. unfold byte, IDX_RADIX in *. lia. }
    assert (entry l (Z.of_nat j) = e) as He. { unfold entry. by rewrite Nat2Z.id, Hj. }
    destruct H as [[-> H]|(nl & Hn & H)].
    + split; [by rewrite Forall_singleton|]. cbn. unfold obj_at. by rewrite He.
    + destruct e as [eo en]. cbn in Hn. subst en. apply (IH _ _ _ Hj) in H as [Hk H]. split; [by constructor|].
      cbn. destruct k' as [|b' k']; [done|]. unfold next_at. by rewrite He.
  - intros [Hk H]. destruct k as [|b k]; [done|]. apply Forall_cons in Hk as [Hb Hk].
    assert (entries l !! Z.to_nat b = Some (entry l b)) as He.
    { unfold entry. destruct (lookup_lt_is_Some_2 (entries l) (Z.to_nat b)) as [e He]; [|by rewrite He].
      rewrite Hlen. unfold byte, IDX_RADIX in *. lia. }
    exists (Z.to_nat b), (entry l b). split; [done|]. rewrite Z2Nat.id, Z.add_0_l by (unfold byte in Hb; lia).
    apply elem_of_entry. exists k. split; [done|]. cbn in H. destruct k as [|b' k]; [by left|]. right.
    apply bind_Some in H as (nl & Hn & H). exists nl. unfold next_at in Hn. split; [done|].
    destruct (entry l b) as [eo en] eqn:Een. cbn in Hn. subst en. by apply (IH _ _ _ He).
Qed.

Lemma denote_nil l : denote l [] = None.
Proof. done. Qed.

Lemma elems_nodup l : layer_ok cnt l -> NoDup (elems_layer l).*1.
Proof.
  induction 1 as [l Hlen Hoc Hlc Hsub IH]. rewrite elems_layer_eq. apply entries_nodup. intros j eo nl Hj. split; [by eapply IH|].
  intros k o Hin ->. by apply elem_of_layer in Hin as [_ ?]; [|by eapply Hsub].
Qed.

Lemma contents_lookup t k : layer_ok cnt t -> Forall byte k -> contents t !! k = denote t k.
Proof.
  intros Ht Hk. unfold contents. pose proof (elems_nodup t Ht) as Hnd. destruct (denote t k) as [o|] eqn:Hd.
  - apply elem_of_list_to_map; [done|]. by apply elem_of_layer.
  - apply not_elem_of_list_to_map. intros Hin. apply list_elem_of_fmap in Hin as ([k1 o1] & -> & Hin).
    apply elem_of_layer in Hin as [_ Hin]; [|done]. cbn in *. congruence.
Qed.

Lemma contents_bytes t k o : layer_ok cnt t -> contents t !! k = Some o -> Forall byte k.
Proof.
  intros Ht Hl. apply elem_of_list_to_map_2 in Hl. by apply elem_of_layer in Hl as [? _].
Qed.

(** ** Searching *)

(** The layer that the bytes lead to. *)
Fixpoint path (l : idx_layer_s) (ks : list Z) : option idx_layer_s :=
  match ks with
  | [] => Some l
  | b :: ks => nl ← next_at l b; path nl ks
  end.

Lemma denote_cons l c k : k <> [] -> denote l (c :: k) = next_at l c ≫= fun nl => denote nl k.
Proof. by destruct k. Qed.

Lemma denote_snoc l ks b : denote l (ks ++ [b]) = path l ks ≫= fun nl => obj_at nl b.
Proof.
  revert l. induction ks as [|c ks IH]; intros l; [done|]. cbn [app path]. rewrite denote_cons by (by destruct ks).
  destruct (next_at l c) as [nl|]; cbn; [apply IH|done].
Qed.

Lemma walk_path l ks b rest :
  exists key n, idx_walk (Some l) (ks ++ b :: rest) (Z.of_nat (length ks)) = Some (path l ks, key, n) /\
    (is_Some (path l ks) -> key = b :: rest /\ n = 0).
Proof.
  revert l. induction ks as [|c ks IH]; intros l; cbn [app length path].
  - by exists (b :: rest), 0.
  - cbn [idx_walk]. rewrite (proj2 (Z.eqb_neq _ _)) by lia. replace (Z.of_nat (S (length ks)) - 1) with (Z.of_nat (length ks)) by lia.
    destruct (next_at l c) as [nl|]; [apply IH|]. cbn. exists (ks ++ b :: rest), (Z.of_nat (length ks)). split; [by destruct (ks ++ b :: rest)|]. by intros [].
Qed.

Lemma find_denote {S} t ks b rest (s : S) :
  idx_find t (Some (ks ++ b :: rest)) (Z.of_nat (length ks) + 1) s = Some (denote t (ks ++ [b]), s).
Proof.
  unfold idx_find. rewrite (proj2 (Z.eqb_neq _ _)) by lia. replace (Z.of_nat (length ks) + 1 - 1) with (Z.of_nat (length ks)) by lia.
  destruct (walk_path t ks b rest) as (key & n & Hw & Hp). unfold mbind, M_bind, lift_opt. rewrite Hw. cbn. rewrite denote_snoc.
  destruct (path t ks) as [l|]; cbn.
  - destruct Hp as [-> ->]; [by eexists|]. done.
  - by destruct (n =? 0).
Qed.

(** ** Adding *)

Lemma set_get_obj l b o b' : layer_ok cnt l -> byte b -> byte b' ->
  obj_at (set_obj l b o) b' = (if decide (b' = b) then o else obj_at l b') /\ next_at (set_obj l b o) b' = next_at l b'.
Proof.
  intros Hl Hb Hb'. pose proof (entry_lookup l b Hl Hb) as He. unfold obj_at, next_at, entry, set_obj. cbn [entries].
  destruct (decide (b' = b)) as [->|Hne].
  - rewrite list_lookup_insert_eq by (by eapply lookup_lt_Some). done.
  - rewrite list_lookup_insert_ne by (unfold byte in *; lia). done.
Qed.

Lemma set_get_next l b nl b' : layer_ok cnt l -> byte b -> byte b' ->
  next_at (set_next l b nl) b' = (if decide (b' = b) then nl else next_at l b') /\ obj_at (set_next l b nl) b' = obj_at l b'.
Proof.
  intros Hl Hb Hb'. pose proof (entry_lookup l b Hl Hb) as He. unfold obj_at, next_at, entry, set_next. cbn [entries].
  destruct (decide (b' = b)) as [->|Hne].
  - rewrite list_lookup_insert_eq by (by eapply lookup_lt_Some). done.
  - rewrite list_lookup_insert_ne by (unfold byte in *; lia). done.
Qed.

(** The counts stay far from the ends of [int]. *)
Lemma counts_small l : layer_ok cnt l -> (cnt = true -> 0 <= obj_count l <= 256) /\ 0 <= layer_count l <= 256.
Proof.
  intros [? Hlen Hobj -> _]. unfold count_objs, count_nexts in *.
  pose proof (length_filter (fun e : option loc * option idx_layer_s => is_Some e.1) (entries l0)).
  pose proof (length_filter (fun e : option loc * option idx_layer_s => is_Some e.2) (entries l0)).
  unfold IDX_RADIX in *. split; [intros Hc; specialize (Hobj Hc); lia|lia].
Qed.

(** Replacing the object or the layer of an entry, with the counts. *)
Lemma layer_ok_obj l b o d : layer_ok cnt l -> byte b ->
  (cnt = true -> d = (if decide (is_Some o) then 1 else 0) - (if decide (is_Some (obj_at l b)) then 1 else 0)) ->
  layer_ok cnt (set_obj (add_objs l d) b o).
Proof.
  intros Hl Hb Hd. destruct (counts_small l Hl) as [Hco _]. apply (layer_ok_update l b _ _ (o, next_at l b)); cbn [fst snd add_objs add_layers obj_count layer_count]; [done|done|..].
  - intros Hc. specialize (Hco Hc). specialize (Hd Hc). rewrite s32_small; [lia|]. repeat case_decide; lia.
  - lia.
  - intros nl Hn. by eapply next_ok.
Qed.

Lemma layer_ok_next l b nl d : layer_ok cnt l -> byte b -> layer_ok cnt nl ->
  d = 1 - (if decide (is_Some (next_at l b)) then 1 else 0) -> layer_ok cnt (set_next (add_layers l d) b (Some nl)).
Proof.
  intros Hl Hb Hn Hd. destruct (counts_small l Hl) as [_ ?]. apply (layer_ok_update l b _ _ (obj_at l b, Some nl)); cbn [fst snd add_objs add_layers obj_count layer_count]; [done|done|..].
  - lia.
  - rewrite s32_small; [|repeat case_decide; lia].
    destruct (decide (is_Some (Some nl))) as [|Hno]; [lia|]. destruct Hno. by eexists.
  - by intros ? [= <-].
Qed.

Lemma add_none l : layer_ok cnt l -> add_layers l 0 = l.
Proof. intros Hl. destruct (counts_small l Hl) as [_ ?]. unfold add_layers. rewrite Z.add_0_r, s32_small by lia. by destruct l. Qed.

Definition empty_layer : idx_layer_s := Layer 0 0 (replicate IDX_RADIX (None, None)).

Lemma entry_empty b : entry empty_layer b = (None, None).
Proof.
  unfold entry, empty_layer. cbn [entries]. destruct (decide (Z.to_nat b < IDX_RADIX)%nat).
  - by rewrite lookup_replicate_2.
  - by rewrite lookup_ge_None_2 by (rewrite length_replicate; lia).
Qed.

Lemma empty_ok : layer_ok cnt empty_layer.
Proof.
  constructor; [done|vm_compute; reflexivity|vm_compute; reflexivity|].
  intros i o nl [[=] _]%lookup_replicate.
Qed.

Lemma denote_empty k : denote empty_layer k = None.
Proof. destruct k as [|b [|b' k]]; cbn; unfold obj_at, next_at; by rewrite ?entry_empty. Qed.

(** A key that goes through a replaced entry. *)
Lemma denote_set_next l b nl k : layer_ok cnt l -> byte b -> Forall byte k ->
  denote (set_next l b (Some nl)) k = match k with b' :: _ :: _ => if decide (b' = b) then denote nl (tail k) else denote l k | _ => denote l k end.
Proof.
  intros Hl Hb Hk. destruct k as [|b1 [|b2 k]]; [done|..]; apply Forall_cons in Hk as [Hb1 _];
    destruct (set_get_next l b (Some nl) b1 Hl Hb Hb1) as [Hn Ho]; cbn [denote]; rewrite ?Ho, ?Hn; [done|]. by case_decide.
Qed.

Lemma denote_add_layers l d k : denote (add_layers l d) k = denote l k.
Proof. by destruct k as [|? [|? ?]]. Qed.

(** The object of one key changes. *)
Definition only (l l' : idx_layer_s) (k : list Z) (o : option loc) : Prop :=
  forall k', Forall byte k' -> denote l' k' = if decide (k' = k) then o else denote l k'.

Lemma only_next l b nl nl' k o d :
  layer_ok cnt l -> byte b -> k <> [] -> (forall k', Forall byte k' -> denote nl k' = next_at l b ≫= fun n => denote n k') ->
  only nl nl' k o -> only l (set_next (add_layers l d) b (Some nl')) (b :: k) o.
Proof.
  intros Hl Hb Hne Hnl Ho k' Hk'.
  assert (denote (set_next (add_layers l d) b (Some nl')) k' = denote (set_next l b (Some nl')) k') as ->.
  { by destruct k' as [|? [|? ?]]. }
  rewrite denote_set_next by done. destruct k' as [|b1 [|b2 k']]; [by rewrite decide_False|rewrite decide_False; [done|congruence]|].
  apply Forall_cons in Hk' as [Hb1 Hk']. destruct (decide (b1 = b)) as [->|].
  - cbn [tail]. rewrite Ho by done. destruct (decide (b2 :: k' = k)) as [<-|]; [by rewrite decide_True|].
    rewrite decide_False by congruence. rewrite Hnl by done. done.
  - by rewrite decide_False by congruence.
Qed.

Lemma only_same l l' k : (forall k', Forall byte k' -> denote l' k' = denote l k') -> only l l' k (denote l k).
Proof. intros H k' Hk'. rewrite H by done. by case_decide; subst. Qed.

(** The outcome of an addition. *)
Definition added (g : idx_globals) (l l' : idx_layer_s) (k : list Z) (obj : loc) (rc : Z) : Prop :=
  layer_ok cnt l' /\ (Forall (eq true) (malloc_ok g) -> rc = 0) /\
  (rc = 0 /\ only l l' k (Some obj) \/ rc = ENOMEM /\ only l l' k None).

Lemma alloc_layer g (Q : option idx_layer_s -> idx_globals -> Prop) sz :
  (forall g', (Forall (eq true) (malloc_ok g) -> Forall (eq true) (malloc_ok g')) -> Q (Some empty_layer) g') ->
  (forall g', ~ Forall (eq true) (malloc_ok g) -> Q None g') -> runs (new_idx_layer sz) g Q.
Proof.
  intros Hs Hn. unfold new_idx_layer, runs, idx_alloc, mbind, M_bind, mret, M_ret.
  destruct (malloc_ok g) as [|[] ms] eqn:E; eexists _, _; (split; [reflexivity|]).
  - apply Hs. done.
  - apply Hs. cbn. by intros [_ ?]%Forall_cons.
  - apply Hn. by intros [? _]%Forall_cons.
Qed.

Lemma runs_add_walk ks b rest l obj g :
  layer_ok cnt l -> Forall byte ks -> byte b -> denote l (ks ++ [b]) = None ->
  runs (idx_add_walk (ks ++ b :: rest) (Z.of_nat (length ks)) l obj) g (fun r g' => added g l r.2 (ks ++ [b]) obj r.1).
Proof.
  revert l g. induction ks as [|c ks IH]; intros l g Hl Hks Hb Hd; cbn [app length idx_add_walk].
  - apply runs_ret. cbn [Z.of_nat Z.eqb]. split_and!; [|done|].
    + apply layer_ok_obj; try done. cbn in Hd. rewrite Hd. done.
    + left. split; [done|]. intros k' Hk'. assert (forall k, denote (set_obj (add_objs l 1) b (Some obj)) k = denote (set_obj l b (Some obj)) k) as ->.
      { by intros [|? [|? ?]]. }
      destruct k' as [|b1 [|b2 k']]; [done|..]; apply Forall_cons in Hk' as [Hb1 _]; cbn [fst snd];
        destruct (set_get_obj l b (Some obj) b1 Hl Hb Hb1) as [Ho Hn]; cbn [denote]; rewrite ?Ho, ?Hn.
      * repeat case_decide; congruence.
      * by rewrite decide_False.
  - apply Forall_cons in Hks as [Hc Hks]. rewrite (proj2 (Z.eqb_neq _ _)) by lia.
    replace (Z.of_nat (S (length ks)) - 1) with (Z.of_nat (length ks)) by lia.
    assert (ks ++ [b] <> []) as Hne by (by destruct ks). cbn [app] in Hd. rewrite denote_cons in Hd by done.
    destruct (next_at l c) as [nl|] eqn:Hn; cbn in Hd.
    + pose proof (next_ok l c nl Hl Hc Hn) as Hnl. apply runs_bind. eapply runs_mono; [by apply IH|].
      intros [rc nl'] g' (Hok & Hrc & Hon). apply runs_ret. cbn [fst snd] in *. rewrite <- (add_none l Hl).
      assert (forall k', Forall byte k' -> denote nl k' = next_at l c ≫= (fun n => denote n k')) as Hnk by (by intros; rewrite Hn).
      split_and!; [|done|].
      * apply layer_ok_next; try done. by rewrite Hn.
      * rewrite add_none by done. rewrite <- (add_none l Hl) at 2 4.
        destruct Hon as [[-> Ho]|[-> Ho]]; [left|right]; (split; [done|]); by eapply only_next.
    + apply runs_bind. apply alloc_layer.
      * intros g' Hg'. apply runs_bind. eapply runs_mono; [apply IH; [apply empty_ok|done|done|apply denote_empty]|].
        intros [rc nl'] g2 (Hok & Hrc & Hon). apply runs_ret. cbn [fst snd] in *.
        assert (forall k', Forall byte k' -> denote empty_layer k' = next_at l c ≫= (fun n => denote n k')) as Hnk.
        { intros k' _. by rewrite Hn, denote_empty. }
        split_and!; [|auto|].
        -- apply layer_ok_next; try done. by rewrite Hn.
        -- destruct Hon as [[-> Ho]|[-> Ho]]; [left|right]; (split; [done|]); by eapply only_next.
      * intros g' Hg'. apply runs_ret. split_and!; [done|tauto|]. right. split; [done|]. cbn [fst snd].
        replace None with (denote l (c :: ks ++ [b])) by (rewrite denote_cons, Hn by done; done). by apply only_same.
Qed.

(** ** Deleting *)

Lemma set_next_same l b nl : layer_ok cnt l -> byte b -> next_at l b = Some nl -> set_next l b (Some nl) = l.
Proof.
  intros Hl Hb Hn. pose proof (entry_lookup l b Hl Hb) as He. unfold set_next, obj_at. rewrite <- Hn. unfold next_at.
  rewrite list_insert_id; [by destruct l|]. rewrite He. by destruct (entry l b).
Qed.

(** The bytes of the key that [purge_layer] asserts not to be 255. *)
Definition purge_bytes (ks : list Z) (b : Z) : list Z := match ks with [] => [b] | _ => ks end.
Definition not_255 (l : list Z) : bool := forallb (fun b => negb (b =? 255)) l.

(** A layer on the way to another one has a layer below it, so purging never
    finds an empty layer. *)
Lemma purge_keeps {S} l ks b rest (s : S) :
  layer_ok cnt l -> Forall byte ks -> is_Some (path l ks) ->
  purge_layer l (ks ++ b :: rest) (Z.of_nat (length ks) + 1) s =
    if not_255 (purge_bytes ks b) then Some ((false, l), s) else None.
Proof.
  revert l. induction ks as [|c ks IH]; intros l Hl Hks Hp.
  { cbn. by destruct (b =? 255). }
  apply Forall_cons in Hks as [Hc Hks]. cbn [app purge_layer length purge_bytes not_255 forallb path] in *.
  destruct (next_at l c) as [nl|] eqn:Hn; [|by destruct Hp]. cbn in Hp. unfold mbind, M_bind, c_assert, mret, M_ret, lift_opt.
  destruct (c =? 255); [done|]. cbn [negb andb]. rewrite (proj2 (Z.ltb_ge _ _)) by lia.
  destruct ks as [|c' ks]; cbn [length app].
  - cbn [Z.of_nat Z.add Z.eqb forallb]. assert (0 < layer_count l) as Hlc.
    { pose proof (entry_lookup l c Hl Hc) as He. destruct Hl as [l _ _ -> _]. unfold count_nexts.
      assert (entry l c ∈ filter (fun e => is_Some e.2) (entries l)) as Hin.
      { apply list_elem_of_filter. split; [by exists nl|by eapply list_elem_of_lookup_2]. }
      destruct (filter _ _); [by apply elem_of_nil in Hin|cbn [length]; lia]. }
    rewrite (proj2 (Z.eqb_neq (layer_count l) 0)) by lia. by rewrite andb_false_r.
  - rewrite (proj2 (Z.eqb_neq _ _)) by lia. cbn [fmap option_fmap option_map].
    replace (Z.of_nat (Datatypes.S (Datatypes.S (length ks))) + 1 - 1) with (Z.of_nat (length (c' :: ks)) + 1) by (cbn [length]; lia).
    change (c' :: ks ++ b :: rest) with ((c' :: ks) ++ b :: rest). rewrite (IH nl (next_ok l c nl Hl Hc Hn) Hks Hp). cbn [purge_bytes].
    unfold not_255. destruct (forallb _ (c' :: ks)); [|done]. by rewrite set_next_same.
Qed.

(** What is asserted for a whole key: its second byte, which for a key of one
    byte is the byte after it. *)
Definition purge_check (ks : list Z) (b : Z) (rest : list Z) : bool :=
  match ks, rest with
  | [], [] => false
  | [], b1 :: _ => negb (b1 =? 255)
  | _ :: ks, _ => not_255 (purge_bytes ks b)
  end.

Lemma purge_layers_keep {S} t ks b rest (s : S) :
  layer_ok cnt t -> Forall byte ks -> byte b -> is_Some (path t ks) ->
  purge_layers t (ks ++ b :: rest) (Z.of_nat (length ks) + 1) s = if purge_check ks b rest then Some (t, s) else None.
Proof.
  intros Ht Hks Hb Hp. unfold purge_layers, mbind, M_bind, c_assert, mret, M_ret, lift_opt.
  rewrite (proj2 (Z.eqb_neq _ _)) by lia. cbn [negb]. destruct ks as [|c ks]; cbn [app head tail fmap option_fmap option_map].
  - change (Z.of_nat (length [] : nat) + 1 - 1) with 0. destruct (next_at t b) as [nl|] eqn:Hn.
    + destruct rest as [|b1 rest]; [done|]. cbn. unfold mbind, M_bind, c_assert, mret, M_ret. destruct (b1 =? 255); [done|]. cbn. by rewrite set_next_same.
    + destruct rest as [|b1 rest]; [done|]. cbn. by destruct (b1 =? 255).
  - apply Forall_cons in Hks as [Hc Hks]. cbn [path] in Hp. destruct (next_at t c) as [nl|] eqn:Hn; [|by destruct Hp].
    cbn in Hp. replace (Z.of_nat (length (c :: ks)) + 1 - 1) with (Z.of_nat (length ks) + 1) by (cbn [length]; lia).
    rewrite (purge_keeps nl ks b rest s (next_ok t c nl Ht Hc Hn) Hks Hp). cbn [purge_check]. destruct (not_255 _); [|done]. by rewrite set_next_same.
Qed.

Lemma remove_ok ks b rest l :
  layer_ok cnt l -> Forall byte ks -> byte b -> is_Some (path l ks) -> (cnt = true -> is_Some (denote l (ks ++ [b]))) ->
  exists l', idx_remove l (ks ++ b :: rest) (Z.of_nat (length ks)) = Some l' /\ layer_ok cnt l' /\ is_Some (path l' ks) /\
    only l l' (ks ++ [b]) None.
Proof.
  revert l. induction ks as [|c ks IH]; intros l Hl Hks Hb Hp Hd; cbn [app length idx_remove path] in *.
  - cbn [Z.of_nat Z.eqb]. eexists. split; [done|]. cbn in Hd. split_and!; [|done|].
    + apply layer_ok_obj; try done. intros Hc. rewrite (decide_True (P := is_Some (obj_at l b))) by auto. done.
    + intros k' Hk'. assert (forall k, denote (set_obj (add_objs l (-1)) b None) k = denote (set_obj l b None) k) as ->.
      { by intros [|? [|? ?]]. }
      destruct k' as [|b1 [|b2 k']]; [done|..]; apply Forall_cons in Hk' as [Hb1 _];
        destruct (set_get_obj l b None b1 Hl Hb Hb1) as [Ho Hn]; cbn [denote]; rewrite ?Ho, ?Hn.
      * repeat case_decide; congruence.
      * by rewrite decide_False.
  - apply Forall_cons in Hks as [Hc Hks]. rewrite (proj2 (Z.eqb_neq _ _)) by lia.
    replace (Z.of_nat (S (length ks)) - 1) with (Z.of_nat (length ks)) by lia.
    assert (ks ++ [b] <> []) as Hne by (by destruct ks). rewrite denote_cons in Hd by done.
    destruct (next_at l c) as [nl|] eqn:Hn; [|by destruct Hp]. cbn in Hp, Hd. pose proof (next_ok l c nl Hl Hc Hn) as Hnl.
    destruct (IH nl Hnl Hks Hb Hp Hd) as (nl' & Hr & Hok & Hp' & Hon). cbn. rewrite Hr. cbn. eexists. split; [done|]. split_and!.
    + rewrite <- (add_none l Hl). apply layer_ok_next; try done. by rewrite Hn.
    + rewrite (proj1 (set_get_next l c (Some nl') c Hl Hc Hc)), decide_True by done. done.
    + rewrite <- (add_none l Hl) at 2. eapply only_next; try done. intros. by rewrite Hn.
Qed.

(** ** Traversal *)

Lemma foldl_elems {D} (cb : loc -> D -> D) f es i d :
  (forall nl eo j, es !! j = Some (eo, Some nl) -> forall d, traverse_layer cb nl d = foldl (fun d o => cb o d) d (f nl).*2) ->
  foldl (fun d e => let d := match e.1 with Some obj => cb obj d | None => d end in
    match e.2 with Some nl => traverse_layer cb nl d | None => d end) d es = foldl (fun d o => cb o d) d (elems_entries f i es).*2.
Proof.
  revert i d. induction es as [|[eo en] es IH]; intros i d Hf; [done|]. cbn [foldl elems_entries fst snd].
  rewrite fmap_app, foldl_app. rewrite <- IH by (intros nl o j Hj; by apply (Hf nl o (S j))). f_equal.
  unfold elems_entry. cbn [fst snd]. rewrite fmap_app, foldl_app.
  assert (foldl (fun d o => cb o d) d (match eo with Some o => [([i], o)] | None => [] end).*2 = match eo with Some obj => cb obj d | None => d end) as ->
    by (by destruct eo).
  destruct en as [nl|]; [|done]. rewrite <- list_fmap_compose. rewrite (Hf nl eo O eq_refl). f_equal.
Qed.

Lemma traverse_elems {D} (cb : loc -> D -> D) l d :
  layer_ok cnt l -> traverse_layer cb l d = foldl (fun d o => cb o d) d (elems_layer l).*2.
Proof.
  intros Hl. revert d. induction Hl as [l Hlen Hoc Hlc Hsub IH]. intros d. destruct l as [oc lc es]. cbn [entries] in *.
  rewrite elems_layer_eq. cbn [traverse_layer entries]. apply foldl_elems. intros nl eo j Hj. by eapply IH.
Qed.

Lemma foldl_count (l : list loc) c : foldl (fun d (_ : loc) => u64 (d + 1)) (u64 c) l = u64 (c + Z.of_nat (length l)).
Proof.
  revert c. induction l as [|o l IH]; intros c; cbn [foldl length]; [by rewrite Z.add_0_r|].
  replace (u64 (u64 c + 1)) with (u64 (c + 1)) by (unfold wrapu; by rewrite Zplus_mod_idemp_l). rewrite IH. f_equal. lia.
Qed.

(** ** The refinement *)

(** What [idx_delete] asserts about the bytes after the first one: the next
    byte, even past the end of the key, and those before the last one. *)
Definition delete_asserts (k rest : list Z) : bool :=
  match tail k with
  | [] => match rest with [] => false | b :: _ => negb (b =? 255) end
  | tl => not_255 (match removelast tl with [] => tl | l => l end)
  end.

Lemma purge_check_key ks b rest : purge_check ks b rest = delete_asserts (ks ++ [b]) rest.
Proof.
  destruct ks as [|c ks]; [by destruct rest|]. unfold delete_asserts. cbn [app tail purge_check].
  destruct (ks ++ [b]) as [|x l] eqn:E; [by destruct ks|]. rewrite <- E, removelast_last. by destruct ks.
Qed.

Lemma contents_only t t' k o :
  layer_ok cnt t -> layer_ok cnt t' -> Forall byte k -> only t t' k o ->
  contents t' = match o with Some o => <[k := o]> (contents t) | None => delete k (contents t) end.
Proof.
  intros Ht Ht' Hk Ho. apply map_eq. intros k'.
  assert (match o with Some o => <[k := o]> (contents t) | None => delete k (contents t) end !! k' =
    if decide (k' = k) then o else contents t !! k') as ->.
  { destruct (decide (k' = k)) as [->|]; destruct o; by rewrite ?lookup_insert_eq, ?lookup_delete_eq, ?lookup_insert_ne, ?lookup_delete_ne. }
  destruct (decide (Forall byte k')) as [Hk'|Hk'].
  - rewrite !contents_lookup by done. by apply Ho.
  - rewrite decide_False by congruence.
    assert (forall t0, layer_ok cnt t0 -> contents t0 !! k' = None) as Hno; [|by rewrite !Hno].
    intros t0 Ht0. apply eq_None_not_Some. intros [o' Ho']. by apply Hk', (contents_bytes t0 k' o').
Qed.

Section refinement.
Context (t : idx_layer_s) (Ht : layer_ok cnt t).

(** A key as its first bytes and the last one. *)
Lemma key_snoc (k : list Z) : k <> [] -> Forall byte k ->
  exists ks b, k = ks ++ [b] /\ Forall byte ks /\ byte b /\ Z.of_nat (length k) = Z.of_nat (length ks) + 1.
Proof.
  intros Hne Hk. induction k as [|b ks _] using rev_ind; [done|].
  apply Forall_app in Hk as [Hks [Hb _]%Forall_cons]. exists ks, b. rewrite length_app, Nat2Z.inj_add. split_and!; done.
Qed.

Lemma refines_find {S} k rest (s : S) : k <> [] -> Forall byte k ->
  idx_find t (Some (k ++ rest)) (Z.of_nat (length k)) s = Some (contents t !! k, s).
Proof.
  intros Hne Hk. destruct (key_snoc k Hne Hk) as (ks & b & -> & _ & _ & ->). rewrite contents_lookup by done.
  rewrite <- app_assoc. apply find_denote.
Qed.

Lemma refines_add k rest obj g : k <> [] -> Forall byte k -> Z.of_nat (length k) < 2 ^ 64 ->
  runs (idx_add t (Some (k ++ rest)) (Z.of_nat (length k)) (Some obj)) g (fun r g' => layer_ok cnt r.2 /\
    match contents t !! k with
    | Some _ => r = (EEXIST, t)
    | None => (Forall (eq true) (malloc_ok g) -> r.1 = 0) /\
        (r.1 = 0 /\ contents r.2 = <[k := obj]> (contents t) \/ r.1 = ENOMEM /\ contents r.2 = contents t)
    end).
Proof.
  intros Hne Hk Hlt. unfold idx_add. apply runs_bind. eexists _, _. split; [by apply refines_find|]. cbv beta.
  destruct (contents t !! k) as [o|] eqn:Hc; [by apply runs_ret|].
  apply runs_bind, runs_modify, runs_bind. eexists _, _. split; [done|].
  rewrite contents_lookup in Hc by done. destruct (key_snoc k Hne Hk) as (ks & b & -> & Hks & Hb & Hlen).
  rewrite u64_small by lia. rewrite Hlen, Z.add_simpl_r, <- app_assoc. eapply runs_mono; [by apply runs_add_walk|].
  intros [rc t'] g' (Hok & Hrc & Hon). cbn [fst snd] in *. split_and!; [done|done|].
  destruct Hon as [[-> Ho]|[-> Ho]]; [left|right]; (split; [done|]).
  - by rewrite (contents_only t t' (ks ++ [b]) (Some obj)).
  - rewrite (contents_only t t' (ks ++ [b]) None) by done. apply delete_id. by rewrite contents_lookup.
Qed.

Lemma refines_delete {S} k rest (s : S) : k <> [] -> Forall byte k ->
  is_Some (path t (removelast k)) -> (cnt = true -> is_Some (contents t !! k)) ->
  exists t', layer_ok cnt t' /\ contents t' = delete k (contents t) /\
    idx_delete t (Some (k ++ rest)) (Z.of_nat (length k)) s =
      if delete_asserts k rest then Some ((contents t !! k, t'), s) else None.
Proof.
  intros Hne Hk. rewrite contents_lookup by done. destruct (key_snoc k Hne Hk) as (ks & b & -> & Hks & Hb & ->).
  rewrite removelast_last. intros Hpt Hc.
  destruct (remove_ok ks b rest t Ht Hks Hb Hpt Hc) as (t' & Hr & Hok & Hp & Hon). exists t'. split_and!; [done| |].
  { by rewrite (contents_only t t' (ks ++ [b]) None). }
  unfold idx_delete. rewrite (proj2 (Z.eqb_neq _ _)) by lia. rewrite Z.add_simpl_r, <- app_assoc. cbn [app].
  destruct (walk_path t ks b rest) as (key & n & Hw & Hpath). rewrite denote_snoc.
  destruct (path t ks) as [l|]; [|by destruct Hpt]. destruct Hpath as [-> ->]; [by eexists|]. cbn [mbind option_bind].
  unfold mbind, M_bind, lift_opt. rewrite Hw. cbn [fmap option_fmap option_map Z.eqb negb head]. rewrite Hr. cbn [fmap option_fmap option_map].
  rewrite (purge_layers_keep t' ks b rest s Hok Hks Hb Hp), purge_check_key. by destruct (delete_asserts _ _).
Qed.

(** A layer on the way to the key is missing. *)
Lemma refines_delete_absent {S} k rest (s : S) : k <> [] -> Forall byte k -> path t (removelast k) = None ->
  contents t !! k = None /\ idx_delete t (Some (k ++ rest)) (Z.of_nat (length k)) s = Some ((None, t), s).
Proof.
  intros Hne Hk. rewrite contents_lookup by done. destruct (key_snoc k Hne Hk) as (ks & b & -> & Hks & Hb & ->).
  rewrite removelast_last, denote_snoc. intros Hp. rewrite Hp. split; [done|].
  unfold idx_delete. rewrite (proj2 (Z.eqb_neq _ _)) by lia. rewrite Z.add_simpl_r, <- app_assoc. cbn [app].
  destruct (walk_path t ks b rest) as (key & n & Hw & _). rewrite Hp in Hw.
  unfold mbind, M_bind, lift_opt. rewrite Hw. cbn [fmap option_fmap option_map]. by destruct (n =? 0).
Qed.

Lemma refines_count : idx_count (Some t) = u64 (Z.of_nat (size (contents t))).
Proof.
  unfold idx_count, idx_traverse. rewrite traverse_elems by done. change 0 with (u64 0). rewrite foldl_count, length_fmap.
  unfold contents. rewrite map_size_list_to_map by (by apply elems_nodup). done.
Qed.
End refinement.
End layers.

Lemma layer_ok_weaken cnt l : layer_ok cnt l -> layer_ok false l.
Proof. induction 1 as [l Hlen Ho Hn Hsub IH]. by constructor. Qed.


Definition ex_g : idx_globals := IdxG 0 0 [].

Definition ex_add (k : list Z) (o : loc) (t : idx_layer_s) : idx_layer_s :=
  match idx_add t (Some k) (Z.of_nat (length k)) (Some o) ex_g with Some ((_, t), _) => t | None => t end.

Definition ex_tree : idx_layer_s := ex_add [98] 3%positive (ex_add [97; 98] 2%positive (ex_add [97] 1%positive empty_layer)).

Lemma ex_add_ok k o t : layer_ok true t -> k <> [] -> Forall byte k -> Z.of_nat (length k) < 2 ^ 64 -> layer_ok true (ex_add k o t).
Proof.
  intros Ht Hne Hk Hlt. destruct (refines_add t Ht k [] o ex_g Hne Hk Hlt) as ([rc t'] & g' & Hr & Hok & _).
  rewrite app_nil_r in Hr. unfold ex_add. by rewrite Hr.
Qed.

Lemma ex_layer_ok : layer_ok true ex_tree.
Proof.
  assert (byte 97 /\ byte 98) as [Ha Hb] by (unfold byte; lia).
  unfold ex_tree. apply ex_add_ok; [apply ex_add_ok; [apply ex_add_ok; [exact empty_ok|..]|..]|..]; try discriminate;
    rewrite ?Forall_cons, ?Forall_nil; cbn [length]; tauto || lia.
Qed.


(** ** Where the code does less than it says *)

Definition delete_from (t : idx_layer_s) (k : list Z) : option (option loc * idx_layer_s) :=
  fst <$> idx_delete t (Some (k ++ [0])) (Z.of_nat (length k)) ex_g.

(** Deleting "ab" leaves its layer in place although it is empty: no layer is
    ever freed before the whole index. *)
Theorem empty_layer_not_purged :
  free_layer ex_tree = 2%nat /\
  match delete_from ex_tree [97; 98] with
  | Some (o, t) => o = Some 2%positive /\ free_layer t = 2%nat /\ (obj_count <$> next_at t 97) = Some 0
  | None => False
  end.
Proof. split; vm_compute; [reflexivity|]. split_and!; reflexivity. Qed.

(** Deleting "ac", which is not there, counts an object of the layer less. *)
Theorem delete_missing_miscounts :
  match delete_from ex_tree [97; 99] with
  | Some (o, t) => o = None /\ (obj_count <$> next_at t 97) = Some 0 /\ (next_at t 97 ≫= fun l => obj_at l 98) = Some 2%positive
  | None => False
  end.
Proof. vm_compute. split_and!; reflexivity. Qed.

(** A key with the byte 255 can be added but not deleted. *)
Theorem delete_byte_255_asserts :
  match idx_add ex_tree (Some [97; 255]) 2 (Some 4%positive) ex_g with
  | Some ((rc, t), _) => rc = 0 /\ delete_from t [97; 255] = None
  | None => False
  end.
Proof. vm_compute. split; reflexivity. Qed.

(** An empty key is not refused: the length wraps and the loop leaves the key. *)
Theorem add_empty_key_overreads : idx_add ex_tree (Some [0]) 0 (Some 4%positive) ex_g = None.
Proof. vm_compute. reflexivity. Qed.
