(* ===== verification/OrdIndex.v ===== *)
(** * The ordered index the allocators rely on

    The allocators keep their free chunks in trees and use only insertion,
    deletion and the two bound searches.  [IndexOps] are these operations,
    [OrderedIndex] what they promise in terms of the finite map from nodes to
    keys, and the instance at the end shows that the red-black tree of rbt.c
    keeps the promise for every comparison callback that orders the keys in
    use like the integers. *)

From stdpp Require Import prelude gmap sorting.
From S2P Require Import Prelude Rbt RbtRep RbtRot RbtIns RbtOps RbtSearch RbtSpec.

(** The result [None] is a failed assertion or a bad pointer. *)
Class IndexOps (T : Type) := {
  ix_empty : T;
  ix_ins : (Z -> Z -> Z) -> loc -> Z -> T -> option T;
  ix_del : loc -> T -> option T;
  ix_glb : (Z -> Z -> Z) -> Z -> T -> option (option loc);
  ix_lub : (Z -> Z -> Z) -> Z -> T -> option (option loc);
}.

(** [P] are the keys that [cmp] orders. *)
Class OrderedIndex (T : Type) `{!IndexOps T} (cmp : Z -> Z -> Z) (P : Z -> Prop) := {
  ix_holds : gmap loc Z -> T -> Prop;
  ix_holds_empty : ix_holds ∅ ix_empty;
  ix_ins_ok m t p k :
    ix_holds m t -> m !! p = None -> P k ->
    exists t', ix_ins cmp p k t = Some t' /\ ix_holds (<[p := k]> m) t';
  ix_del_ok m t p k :
    ix_holds m t -> m !! p = Some k ->
    exists t', ix_del p t = Some t' /\ ix_holds (delete p m) t';
  ix_glb_ok m t k :
    ix_holds m t -> P k -> exists r, ix_glb cmp k t = Some r /\
      match r with
      | Some p => exists kp, m !! p = Some kp /\ kp <= k /\
          forall q kq, m !! q = Some kq -> kq <= k -> kq <= kp
      | None => forall q kq, m !! q = Some kq -> k < kq
      end;
  ix_lub_ok m t k :
    ix_holds m t -> P k -> exists r, ix_lub cmp k t = Some r /\
      match r with
      | Some p => exists kp, m !! p = Some kp /\ k <= kp /\
          forall q kq, m !! q = Some kq -> k <= kq -> kp <= kq
      | None => forall q kq, m !! q = Some kq -> kq < k
      end;
}.

(** ** The red-black tree *)

#[export] Instance rbt_index_ops : IndexOps (rbt Z) := {
  ix_empty := rbt_init ∅;
  ix_ins cmp p k s := snd <$> rbt_add cmp p k s;
  ix_del p s := snd <$> rbt_del (Some p) s;
  ix_glb cmp k s := fst <$> rbt_find_glb cmp k s;
  ix_lub cmp k s := fst <$> rbt_find_lub cmp k s;
}.

(** A callback that agrees, on the keys in use, with a lawful one. *)
Class OrdersLike (cmp base : Z -> Z -> Z) (P : Z -> Prop) := {
  base_lawful :: Comparator base;
  base_neg a b : base a b < 0 <-> a < b;
  base_agrees a b : P a -> P b -> cmp a b = base a b;
}.

(** Computations that only read. *)
Definition reads {S A} (m : M S A) : Prop := forall s a s', m s = Some (a, s') -> s' = s.

Lemma reads_ret {S A} (a : A) : reads (mret a : M S A).
Proof. intros s b s'. unfold mret, M_ret. intros. by simplify_eq. Qed.
Lemma reads_bind {S A B} (m : M S A) (f : A -> M S B) : reads m -> (forall a, reads (f a)) -> reads (m ≫= f).
Proof.
  intros Hm Hf s b s'. unfold mbind, M_bind. destruct (m s) as [[a s1]|] eqn:E; [|done].
  apply Hm in E as ->. apply Hf.
Qed.
Lemma reads_gets {S A} (f : S -> A) : reads (gets f).
Proof. intros s b s'. unfold gets. intros. by simplify_eq. Qed.
Lemma reads_ld {K} p : reads (ld p : M (rbt K) _).
Proof. intros s b s'. unfold ld. destruct p as [l|]; simpl; [|done]. destruct (_ !! _); simpl; intros; by simplify_eq. Qed.
Create HintDb reads.
#[export] Hint Resolve reads_ret reads_gets reads_ld : reads.

Ltac reads :=
  cbv zeta; lazymatch goal with
  | |- reads (_ ≫= _) => apply reads_bind; [reads|intros; reads]
  | |- reads (if ?b then _ else _) => destruct b; reads
  | _ => eauto with reads
  end.

Lemma bind_ext {S A B} (m : M S A) (f g : A -> M S B) s :
  (forall a s', m s = Some (a, s') -> f a s' = g a s') -> (m ≫= f) s = (m ≫= g) s.
Proof. intros H. unfold mbind, M_bind. destruct (m s) as [[a s']|]; [by apply H|done]. Qed.

(** Two loops whose bodies agree on a store that neither changes. *)
Lemma loopM_ext {S A B} (f g : A -> M S (A + B)) n a s :
  (forall a, f a s = g a s) -> (forall a, reads (g a)) -> loopM n f a s = loopM n g a s.
Proof.
  intros H Hr. revert a. induction n as [|n IH]; intros a; [done|].
  cbn [loopM]. unfold mbind, M_bind. rewrite H. destruct (g a s) as [[[a'|b] s']|] eqn:E; [|done..].
  apply Hr in E as ->. apply IH.
Qed.

Definition keys_in (P : Z -> Prop) (s : rbt Z) : Prop := map_Forall (fun _ nd => P (key nd)) (nodes s).

Lemma key_of_in P p s k s' : keys_in P s -> key_of p s = Some (k, s') -> P k /\ s' = s.
Proof.
  intros HP. unfold key_of, ld, mbind, M_bind, mret, M_ret. destruct p as [l|]; simpl; [|done].
  destruct (nodes s !! l) as [nd|] eqn:E; simpl; intros; simplify_eq. split; [by eapply HP|done].
Qed.

(** ** The keys of the nodes stay what they are *)

Section keeps.
Context (P : Z -> Prop).

Definition keeps {A} (m : M (rbt Z) A) : Prop :=
  forall s a s', keys_in P s -> m s = Some (a, s') -> keys_in P s'.

Lemma keeps_reads {A} (m : M (rbt Z) A) : reads m -> keeps m.
Proof. by intros H s a s' HP ->%H. Qed.
Lemma keeps_bind {A B} (m : M (rbt Z) A) (f : A -> M (rbt Z) B) :
  keeps m -> (forall a, keeps (f a)) -> keeps (m ≫= f).
Proof.
  intros Hm Hf s b s' HP. unfold mbind, M_bind. destruct (m s) as [[a s1]|] eqn:E; [|done].
  apply Hf. by eapply Hm.
Qed.
Lemma keeps_ret {A} (a : A) : keeps (mret a).
Proof. apply keeps_reads, reads_ret. Qed.
Lemma keeps_gets {A} (f : rbt Z -> A) : keeps (gets f).
Proof. apply keeps_reads, reads_gets. Qed.
Lemma keeps_ld p : keeps (ld p).
Proof. apply keeps_reads, reads_ld. Qed.
Lemma keeps_root p : keeps (set_root p).
Proof. intros s a s' HP. unfold set_root, modify. intros. by simplify_eq. Qed.
Lemma keeps_card c : keeps (set_card c).
Proof. intros s a s' HP. unfold set_card, modify. intros. by simplify_eq. Qed.
Lemma keeps_assert b : keeps (c_assert b).
Proof. unfold c_assert. destruct b; [apply keeps_ret|done]. Qed.
Lemma keeps_st p f : (forall nd, key (f nd) = key nd) -> keeps (st p f).
Proof.
  intros Hf s a s' HP. unfold st. destruct p as [l|]; simpl; [|done].
  destruct (nodes s !! l) as [nd|] eqn:E; simpl; intros; simplify_eq.
  apply map_Forall_insert_2; [|done]. rewrite Hf. by eapply HP.
Qed.
Lemma keeps_loop {A B} n (body : A -> M (rbt Z) (A + B)) a : (forall a, keeps (body a)) -> keeps (loopM n body a).
Proof.
  intros Hb. revert a. induction n as [|n IH]; intros a; [done|]. cbn [loopM].
  apply keeps_bind; [done|]. intros [a'|b]; [apply IH|apply keeps_ret].
Qed.
End keeps.

Create HintDb keeps.
#[export] Hint Resolve keeps_ret keeps_gets keeps_ld keeps_root keeps_card keeps_assert : keeps.

Ltac keeps :=
  cbv zeta; lazymatch goal with
  | |- keeps _ (_ ≫= _) => apply keeps_bind; [keeps|intros; keeps]
  | |- keeps _ (if ?b then _ else _) => destruct b; keeps
  | |- keeps _ (let '_ := ?x in _) => destruct x; keeps
  | |- keeps _ (loopM _ _ _) => apply keeps_loop; intros; keeps
  | |- keeps _ (st _ _) => by apply keeps_st
  | |- keeps _ (set_left _ _) => by apply keeps_st
  | |- keeps _ (set_right _ _) => by apply keeps_st
  | |- keeps _ (set_parent _ _) => by apply keeps_st
  | |- keeps _ (set_color _ _) => by apply keeps_st
  | _ => unfold left_of, right_of, parent_of, color_of, key_of, get_root, get_card, fuel in *;
         lazymatch goal with
         | |- keeps _ (_ ≫= _) => apply keeps_bind; [keeps|intros; keeps]
         | _ => eauto with keeps
         end
  end.

Section keeps_ops.
Context (P : Z -> Prop).

Lemma keeps_rotate_left x : keeps P (rotate_left x).
Proof. unfold rotate_left. keeps. Qed.
Lemma keeps_rotate_right x : keeps P (rotate_right x).
Proof. unfold rotate_right. keeps. Qed.
Lemma keeps_is_red x : keeps P (is_red x).
Proof. unfold is_red. keeps. Qed.
Lemma keeps_node_color x : keeps P (node_color x).
Proof. unfold node_color. keeps. Qed.
Lemma keeps_sibling x : keeps P (sibling x).
Proof. unfold sibling. keeps. Qed.
Lemma keeps_replace_node x y : keeps P (replace_node x y).
Proof. unfold replace_node. keeps. Qed.
End keeps_ops.
#[export] Hint Resolve keeps_rotate_left keeps_rotate_right keeps_is_red keeps_node_color keeps_sibling
  keeps_replace_node : keeps.

Section keeps_del.
Context (P : Z -> Prop).

Lemma keeps_sibling_colors x : keeps P (sibling_colors x).
Proof. unfold sibling_colors. keeps. Qed.
Lemma keeps_case6 n : keeps P (delete_case6 n).
Proof. unfold delete_case6. keeps. Qed.
Lemma keeps_find_pred n : keeps P (find_pred n).
Proof. unfold find_pred. keeps. Qed.
End keeps_del.
#[export] Hint Resolve keeps_sibling_colors keeps_case6 keeps_find_pred : keeps.

Section keeps_top.
Context (P : Z -> Prop).

Lemma keeps_case4 n : keeps P (delete_case4 n).
Proof. unfold delete_case4, delete_case5. keeps. Qed.
Lemma keeps_case2 (c1 : ptr -> M (rbt Z) unit) n : (forall n, keeps P (c1 n)) -> keeps P (delete_case2 c1 n).
Proof. intros H. pose proof keeps_case4. unfold delete_case2, delete_case3. keeps. Qed.
Lemma keeps_case1 f n : keeps P (delete_case1 f n).
Proof.
  revert n. induction f as [|f IH]; intros n; [done|]. cbn [delete_case1]. pose proof keeps_case2. keeps.
Qed.
Lemma keeps_del n : keeps P (rbt_del n).
Proof.
  pose proof keeps_case2. pose proof keeps_case1. unfold rbt_del, rbt_del_swap, rbt_del_unlink. keeps.
Qed.
Lemma keeps_ins cmp n : keeps P (rbt_ins cmp n).
Proof. unfold rbt_ins, rbt_ins_descend, rbt_ins_fixup_step. keeps. Qed.
End keeps_top.

Section agree.
Context (cmp base : Z -> Z -> Z) (P : Z -> Prop) `{!OrdersLike cmp base P}.

(** Replaces the callback after a key was read. *)
Ltac after_key HP :=
  let H := fresh in
  apply bind_ext; intros ? ? H; apply (key_of_in P) in H as [? ->]; [|exact HP].

Lemma find_glb_agrees k s : P k -> keys_in P s -> rbt_find_glb cmp k s = rbt_find_glb base k s.
Proof.
  intros Hk HP. unfold rbt_find_glb. apply bind_ext. intros r s1 Hr. apply reads_gets in Hr as ->.
  apply bind_ext. intros f s1 Hf. apply reads_gets in Hf as ->. apply loopM_ext.
  - intros [x glb]. destruct (is_null x); [done|]. after_key HP.
    by rewrite (base_agrees (cmp := cmp)).
  - intros [x glb]. unfold key_of, left_of, right_of. reads.
Qed.

Lemma find_lub_agrees k s : P k -> keys_in P s -> rbt_find_lub cmp k s = rbt_find_lub base k s.
Proof.
  intros Hk HP. unfold rbt_find_lub. apply bind_ext. intros r s1 Hr. apply reads_gets in Hr as ->.
  apply bind_ext. intros f s1 Hf. apply reads_gets in Hf as ->. apply loopM_ext.
  - intros [x lub]. destruct (is_null x); [done|]. after_key HP.
    by rewrite (base_agrees (cmp := cmp)).
  - intros [x lub]. unfold key_of, left_of, right_of. reads.
Qed.

Lemma descend_agrees x s : keys_in P s -> rbt_ins_descend cmp x s = rbt_ins_descend base x s.
Proof.
  intros HP. unfold rbt_ins_descend. apply bind_ext. intros r s1 Hr. apply reads_gets in Hr as ->.
  apply bind_ext. intros f s1 Hf. apply reads_gets in Hf as ->. apply loopM_ext.
  - intros [[n par] c]. destruct (is_null n); [done|]. after_key HP. after_key HP.
    by rewrite (base_agrees (cmp := cmp)).
  - intros [[n par] c]. unfold key_of, left_of, right_of. reads.
Qed.

Ltac after_st := let H := fresh in
  apply bind_ext; intros ? ? H; eapply (keeps_st P) in H; [|done|done].

Lemma ins_agrees x s : keys_in P s -> rbt_ins cmp x s = rbt_ins base x s.
Proof.
  intros HP. unfold rbt_ins. apply bind_ext. intros cd s1 H1. apply reads_gets in H1 as ->.
  apply bind_ext. intros [] s1 H1. assert (keys_in P s1) by (unfold set_card, modify in H1; by simplify_eq).
  clear H1. after_st. after_st. apply bind_ext. intros r s2 H2. apply reads_gets in H2 as ->.
  destruct (is_null r); [done|]. after_st. unfold mbind, M_bind. by rewrite descend_agrees.
Qed.
End agree.

(** ** The tree as an index *)

Section instance.
Context (cmp base : Z -> Z -> Z) (P : Z -> Prop) `{!OrdersLike cmp base P}.

(** The tree holds the pairs of [m], and the keys of its nodes are in [P]. *)
Definition rbt_holds (m : gmap loc Z) (s : rbt Z) : Prop :=
  exists l, models base l s /\ keys_in P s /\ forall p k, m !! p = Some k <-> (p, k) ∈ l.

Lemma base_le a b : base a b <= 0 <-> a <= b.
Proof.
  pose proof (cmp_opp (cmp := base) b a) as [? ?]. pose proof (base_neg (cmp := cmp) (P := P) b a) as [? ?]. lia.
Qed.

Lemma base_ge a b : 0 <= base a b <-> b <= a.
Proof. pose proof (base_neg (cmp := cmp) (P := P) a b). lia. Qed.

Lemma holds_absent (m : gmap loc Z) (l : list (loc * Z)) p :
  (forall p k, m !! p = Some k <-> (p, k) ∈ l) -> m !! p = None -> p ∉ l.*1.
Proof.
  intros Hm Hp Hin. apply list_elem_of_fmap in Hin as ([q k] & -> & Hin). apply Hm in Hin.
  simpl in *. congruence.
Qed.

Lemma rbt_add_ok m s p k :
  rbt_holds m s -> m !! p = None -> P k ->
  exists s', snd <$> rbt_add cmp p k s = Some s' /\ rbt_holds (<[p := k]> m) s'.
Proof.
  intros (l & Hmod & HP & Hm) Hp Hk. pose proof (holds_absent m l p Hm Hp) as Hpl.
  set (nd0 := default (Rbn None None None RBN_BLACK k) (nodes s !! p)).
  set (nd := Rbn (left nd0) (right nd0) (parent nd0) (color nd0) k).
  set (s1 := Rbt (<[p := nd]> (nodes s)) (root s) (card s)).
  assert (keys_in P s1) as HP1 by (by apply map_Forall_insert_2).
  destruct (models_ins base l s1 p nd) as ([] & s' & Hins & Hmod');
    [by apply models_frame|done|apply lookup_insert_eq|].
  rewrite <- (ins_agrees cmp base P) in Hins by done.
  exists s'. split.
  - unfold rbt_add, modify, rbn_init, set_key, st, mbind, M_bind. simpl.
    rewrite lookup_insert_eq. simpl. rewrite insert_insert_eq. fold nd0 nd s1. by rewrite Hins.
  - exists (seq_ins base (p, k) l). split_and!; [done|by eapply (keeps_ins P)|].
    intros q kq. rewrite elem_of_seq_ins, <- Hm, lookup_insert_Some.
    destruct (decide (p = q)) as [<-|Hne]; naive_solver.
Qed.

Lemma rbt_del_ok m s p k :
  rbt_holds m s -> m !! p = Some k ->
  exists s', snd <$> rbt_del (Some p) s = Some s' /\ rbt_holds (delete p m) s'.
Proof.
  intros (l & Hmod & HP & Hm) Hp. apply Hm in Hp as Hin.
  destruct (models_del base l s p) as ([] & s' & Hdel & Hmod'); [done|by apply (list_elem_of_fmap_2' fst _ _ _ Hin)|].
  exists s'. rewrite Hdel. split; [done|]. exists (seq_del p l).
  split_and!; [done|by eapply (keeps_del P)|].
  intros q kq. rewrite elem_of_seq_del, <- Hm, lookup_delete_Some. naive_solver.
Qed.

Lemma rbt_glb_ok m s k :
  rbt_holds m s -> P k -> exists r, fst <$> rbt_find_glb cmp k s = Some r /\
    match r with
    | Some p => exists kp, m !! p = Some kp /\ kp <= k /\
        forall q kq, m !! q = Some kq -> kq <= k -> kq <= kp
    | None => forall q kq, m !! q = Some kq -> k < kq
    end.
Proof.
  intros (l & Hmod & HP & Hm) Hk. destruct (models_glb base l s k Hmod) as (r & s' & Hf & -> & Hr).
  rewrite (find_glb_agrees cmp base P), Hf by done. exists r. split; [done|]. destruct r as [p|].
  - destruct Hr as (kp & Hin & Hle & Hmax). exists kp. rewrite Hm. split_and!; [done|by apply base_le|].
    intros q kq Hq%Hm Hqk. apply base_le, (Hmax (q, kq)); [done|by apply base_le].
  - intros q kq Hq%Hm. specialize (Hr _ Hq). simpl in Hr.
    destruct (decide (kq <= k)) as [Hle%base_le|]; lia.
Qed.

Lemma rbt_lub_ok m s k :
  rbt_holds m s -> P k -> exists r, fst <$> rbt_find_lub cmp k s = Some r /\
    match r with
    | Some p => exists kp, m !! p = Some kp /\ k <= kp /\
        forall q kq, m !! q = Some kq -> k <= kq -> kp <= kq
    | None => forall q kq, m !! q = Some kq -> kq < k
    end.
Proof.
  intros (l & Hmod & HP & Hm) Hk. destruct (models_lub base l s k Hmod) as (r & s' & Hf & -> & Hr).
  rewrite (find_lub_agrees cmp base P), Hf by done. exists r. split; [done|]. destruct r as [p|].
  - destruct Hr as (kp & Hin & Hle & Hmin). exists kp. rewrite Hm. split_and!; [done|by apply base_ge|].
    intros q kq Hq%Hm Hqk. apply base_le, (Hmin (q, kq)); [done|by apply base_ge].
  - intros q kq Hq%Hm. specialize (Hr _ Hq). simpl in Hr.
    destruct (decide (k <= kq)) as [Hle%base_ge|]; lia.
Qed.

Lemma rbt_holds_empty : rbt_holds ∅ (rbt_init ∅).
Proof.
  exists []. split_and!; [apply models_empty|by apply map_Forall_empty|intros; rewrite lookup_empty; set_solver].
Qed.

#[export] Instance rbt_ordered_index : OrderedIndex (rbt Z) cmp P := {
  ix_holds := rbt_holds;
  ix_holds_empty := rbt_holds_empty;
  ix_ins_ok := rbt_add_ok;
  ix_del_ok := rbt_del_ok;
  ix_glb_ok := rbt_glb_ok;
  ix_lub_ok := rbt_lub_ok;
}.
End instance.
