(* ===== verification/Mmalloc.v ===== *)
(** * The allocator of metric sets: model

    src/lib/src/mmalloc/mmalloc.c: a region obtained once is cut into chunks of
    whole grains.  Each chunk starts with a [struct mm_prefix] (96 bytes); the
    prefixes of the free chunks are linked in a tree by size and a tree by
    address.  The trees are an index in the sense of [OrdIndex], so a node is
    named by the address of its chunk.  The model keeps the prefixes of
    different chunks apart, which they are when a grain holds one; the bytes
    of the users are not modelled, and the debug printing is compiled out. *)

From stdpp Require Import prelude gmap.
From S2P Require Import Prelude Rbt OrdIndex.

(** The difference of two [size_t] counts, the first one truncated to [int],
    returned as an [int]. *)
Definition compare_count (a b : Z) : Z := s32 (u64 (s32 a - b)).

Definition compare_addr (a b : Z) : Z := if b <? a then 1 else if a <? b then -1 else 0.

(** [sizeof(struct mm_prefix)]: two nodes of 40 bytes, a count, a pointer. *)
Definition mm_prefix_size : Z := 96.

Record mm_prefix := MmPrefix { count : Z; pfx : Z }.

Definition loc_of (a : Z) : loc := Z.to_pos a.
Definition addr_of (p : loc) : Z := Z.pos p.

Record mm_region (T : Type) := MmRegion {
  grain : Z;
  grain_bits : Z;
  mm_size : Z;
  start : Z;
  locked : bool;
  size_tree : T;
  addr_tree : T;
  prefixes : gmap loc mm_prefix;
}.
Arguments MmRegion {T}.
Arguments grain {T}.
Arguments grain_bits {T}.
Arguments mm_size {T}.
Arguments start {T}.
Arguments locked {T}.
Arguments size_tree {T}.
Arguments addr_tree {T}.
Arguments prefixes {T}.

(** The loop of [get_pow2]; [size_t] has 64 bits, so it turns at most 64 times
    unless no power of two is large enough. *)
Fixpoint get_pow2_loop (fuel : nat) (n pow2 bits : Z) : option (Z * Z) :=
  match fuel with
  | O => None
  | S fuel => if pow2 <? n then get_pow2_loop fuel n (u64 (pow2 * 2)) (bits + 1) else Some (pow2, bits)
  end.

Definition get_pow2 (n : Z) : option (Z * Z) := get_pow2_loop 65 n 1 0.

Section mm.
Context {T : Type} `{!IndexOps T}.
Implicit Types R : mm_region T.

(** ** Accesses to the region *)

Definition with_locked b R := MmRegion (grain R) (grain_bits R) (mm_size R) (start R) b (size_tree R) (addr_tree R) (prefixes R).
Definition with_size_tree t R := MmRegion (grain R) (grain_bits R) (mm_size R) (start R) (locked R) t (addr_tree R) (prefixes R).
Definition with_addr_tree t R := MmRegion (grain R) (grain_bits R) (mm_size R) (start R) (locked R) (size_tree R) t (prefixes R).
Definition with_prefixes m R := MmRegion (grain R) (grain_bits R) (mm_size R) (start R) (locked R) (size_tree R) (addr_tree R) m.

(** The mutex is not recursive: locking it twice never returns. *)
Definition mm_lock : M (mm_region T) unit := fun R =>
  if locked R then None else Some (tt, with_locked true R).
Definition mm_unlock : M (mm_region T) unit := modify (with_locked false).

(** Prefixes are read and written inside the region only. *)
Definition get_prefix (a : Z) : M (mm_region T) mm_prefix := fun R =>
  x ← prefixes R !! loc_of a; Some (x, R).
Definition set_prefix (a : Z) (x : mm_prefix) : M (mm_region T) unit := fun R =>
  if (start R <=? a) && (a + mm_prefix_size <=? start R + mm_size R)
  then Some (tt, with_prefixes (<[loc_of a := x]> (prefixes R)) R) else None.

Definition size_ins (a k : Z) : M (mm_region T) unit := fun R =>
  t ← ix_ins compare_count (loc_of a) k (size_tree R); Some (tt, with_size_tree t R).
Definition addr_ins (a k : Z) : M (mm_region T) unit := fun R =>
  t ← ix_ins compare_addr (loc_of a) k (addr_tree R); Some (tt, with_addr_tree t R).
Definition size_del (a : Z) : M (mm_region T) unit := fun R =>
  t ← ix_del (loc_of a) (size_tree R); Some (tt, with_size_tree t R).
Definition addr_del (a : Z) : M (mm_region T) unit := fun R =>
  t ← ix_del (loc_of a) (addr_tree R); Some (tt, with_addr_tree t R).
Definition size_lub (k : Z) : M (mm_region T) (option loc) := fun R =>
  r ← ix_lub compare_count k (size_tree R); Some (r, R).
Definition addr_lub (k : Z) : M (mm_region T) (option loc) := fun R =>
  r ← ix_lub compare_addr k (addr_tree R); Some (r, R).
Definition addr_glb (k : Z) : M (mm_region T) (option loc) := fun R =>
  r ← ix_glb compare_addr k (addr_tree R); Some (r, R).

(** Puts a chunk into both trees, takes one out of both. *)
Definition trees_ins (a : Z) : M (mm_region T) unit :=
  x ← get_prefix a;
  size_ins a (count x);;
  addr_ins a (pfx x).
Definition trees_del (a : Z) : M (mm_region T) unit :=
  size_del a;;
  addr_del a.

(** ** The operations *)

(** [calloc_ok] and [mmap] are the results of the two calls, the latter an
    address or an error number. *)
Definition mm_init (calloc_ok : bool) (mmap : Z + Z) (size grain : Z) : option (Z * option (mm_region T)) :=
  if negb calloc_ok then Some (ENOMEM, None) else
  let size := mask_roundup size 4096 in
  match mmap with
  | inr errno => Some (errno, None)
  | inl start =>
      '(grain, bits) ← get_pow2 grain;
      let R := MmRegion grain bits size start false ix_empty ix_empty ∅ in
      '(_, R) ← (set_prefix start (MmPrefix (size / grain) start);; trees_ins start) R;
      Some (0, Some R)
  end.

(** The result 0 is [NULL]. *)
Definition mm_alloc (size : Z) : M (mm_region T) Z :=
  R ← get;
  let size := mask_roundup (u64 (size + mm_prefix_size)) (grain R) in
  let cnt := Z.shiftr size (grain_bits R) in
  mm_lock;;
  rbn ← size_lub cnt;
  match rbn with
  | None => mm_unlock;; mret 0
  | Some l =>
      let p := addr_of l in
      trees_del p;;
      x ← get_prefix p;
      let remainder := u64 (count x - cnt) in
      (if negb (remainder =? 0) then
         let n := p + Z.shiftl cnt (grain_bits R) in
         set_prefix n (MmPrefix remainder n);;
         trees_ins n
       else mret tt);;
      set_prefix p (MmPrefix cnt p);;
      mm_unlock;;
      mret (p + mm_prefix_size)
  end.

(** [disabled] is [mm_is_disable_mm_free]. *)
Definition mm_free (disabled : bool) (d : Z) : M (mm_region T) unit :=
  if disabled then mret tt else
  if d =? 0 then mret tt else
  R ← get;
  let p := d - mm_prefix_size in
  mm_lock;;
  x ← get_prefix p;
  rbn ← addr_glb (pfx x);
  p ← (match rbn with
       | Some l =>
           let q := addr_of l in
           y ← get_prefix q;
           let r := q + Z.shiftl (count y) (grain_bits R) in
           if r =? p then
             trees_del q;;
             x ← get_prefix p;
             set_prefix q (MmPrefix (u64 (count y + count x)) (pfx y));;
             mret q
           else mret p
       | None => mret p
       end);
  x ← get_prefix p;
  rbn ← addr_lub (pfx x);
  (match rbn with
   | Some l =>
       let q := addr_of l in
       let r := p + Z.shiftl (count x) (grain_bits R) in
       if r =? q then
         trees_del q;;
         y ← get_prefix q;
         set_prefix p (MmPrefix (u64 (count x + count y)) (pfx x))
       else mret tt
   | None => mret tt
   end);;
  x ← get_prefix p;
  set_prefix p (MmPrefix (count x) p);;
  trees_ins p;;
  mm_unlock.

(** The copy of the data is left out; a copy to the null pointer is not. *)
Definition mm_realloc (disabled : bool) (ptr newsize : Z) : M (mm_region T) Z :=
  R ← get;
  let newsize := mask_roundup newsize (grain R) in
  let newcount := Z.shiftr newsize (grain_bits R) in
  let p := ptr - mm_prefix_size in
  mm_lock;;
  x ← get_prefix p;
  rbn ← addr_lub (pfx x);
  extended ←
    (match rbn with
     | Some l =>
         let q := addr_of l in
         y ← get_prefix q;
         let r := p + Z.shiftl (count x) (grain_bits R) in
         if (r =? q) && (newcount <=? u64 (count x + count y)) then
           trees_del q;;
           let remainder := u64 (count x + count y - newcount) in
           (if negb (remainder =? 0) then
              let r := p + Z.shiftl newcount (grain_bits R) in
              set_prefix r (MmPrefix remainder r);;
              trees_ins r
            else mret tt);;
           set_prefix p (MmPrefix newcount (pfx x));;
           mret true
         else mret false
     | None => mret false
     end);
  if (extended : bool) then
    mm_unlock;; mret (p + mm_prefix_size)
  else
    newbuf ← mm_alloc newsize;
    c_assert (negb (newbuf =? 0));;
    mm_unlock;;
    mm_free disabled ptr;;
    mret newbuf.
End mm.
