(* ===== verification/Chunks.v ===== *)
(** * A region cut into chunks

    The specification of the allocators: a region of grains as the list of its
    chunks in address order, each with its number of grains and whether it is
    free.  [free_map] is what an index of the free chunks must hold. *)

From stdpp Require Import prelude gmap.
From S2P Require Import Prelude Rbt OrdIndex Mmalloc.

Abbreviation chunk := (Z * bool)%type.

(** Grains of a list of chunks. *)
Fixpoint total (l : list chunk) : Z :=
  match l with [] => 0 | (c, _) :: l => c + total l end.

Lemma total_app l1 l2 : total (l1 ++ l2) = total l1 + total l2.
Proof. induction l1 as [|[c b] l1 IH]; simpl; lia. Qed.

Definition sizes_ok (l : list chunk) : Prop := Forall (fun x => 0 < x.1) l.

Lemma total_nonneg l : sizes_ok l -> 0 <= total l.
Proof. induction 1 as [|[c b] l Hc _ IH]; simpl in *; lia. Qed.

(** No two free chunks are next to each other. *)
Fixpoint coalesced (l : list chunk) : Prop :=
  match l with
  | (_, b1) :: ((_, b2) :: _) as l' => (b1 && b2) = false /\ coalesced l'
  | _ => True
  end.

Section region.
Context (g : Z).
Hypothesis g_pos : 0 < g.

(** The index of the free chunks of [l], which starts at address [a]; [f]
    gives the key of a chunk from its address and its count. *)
Fixpoint free_map (f : Z -> Z -> Z) (a : Z) (l : list chunk) : gmap loc Z :=
  match l with
  | [] => ∅
  | (c, b) :: l =>
      let m := free_map f (a + g * c) l in
      if b then <[loc_of a := f a c]> m else m
  end.

(** The prefixes of all chunks. *)
Fixpoint chunk_prefixes (a : Z) (l : list chunk) (m : gmap loc mm_prefix) : Prop :=
  match l with
  | [] => True
  | (c, _) :: l => m !! loc_of a = Some (MmPrefix c a) /\ chunk_prefixes (a + g * c) l m
  end.

Lemma free_map_app f a l1 l2 :
  free_map f a (l1 ++ l2) = free_map f a l1 ∪ free_map f (a + g * total l1) l2.
Proof.
  revert a. induction l1 as [|[c b] l1 IH]; intros a; simpl.
  - by rewrite map_empty_union, Z.mul_0_r, Z.add_0_r.
  - rewrite IH. replace (a + g * (c + total l1)) with (a + g * c + g * total l1) by lia.
    destruct b; [by rewrite insert_union_l|done].
Qed.

Lemma chunk_prefixes_app a l1 l2 m :
  chunk_prefixes a (l1 ++ l2) m <-> chunk_prefixes a l1 m /\ chunk_prefixes (a + g * total l1) l2 m.
Proof.
  revert a. induction l1 as [|[c b] l1 IH]; intros a; simpl.
  - rewrite Z.mul_0_r, Z.add_0_r. tauto.
  - rewrite IH. replace (a + g * (c + total l1)) with (a + g * c + g * total l1) by lia. tauto.
Qed.

(** A member of the index is the start of a free chunk. *)
Lemma free_map_lookup f a l p k :
  0 < a -> sizes_ok l -> free_map f a l !! p = Some k ->
  exists l1 c l2, l = l1 ++ (c, true) :: l2 /\ addr_of p = a + g * total l1 /\ k = f (addr_of p) c.
Proof.
  intros Ha Hs. revert a Ha. induction Hs as [|[c b] l Hc Hs IH]; intros a Ha; simpl in *; [by rewrite lookup_empty|].
  assert (free_map f (a + g * c) l !! p = Some k -> exists l1 c' l2,
    (c, b) :: l = l1 ++ (c', true) :: l2 /\ addr_of p = a + g * total l1 /\ k = f (addr_of p) c') as Hrec.
  { intros H. destruct (IH (a + g * c) ltac:(nia) H) as (l1 & c' & l2 & -> & Hp & Hk).
    exists ((c, b) :: l1), c', l2. split; [done|]. simpl. split; [lia|done]. }
  destruct b; [|done]. rewrite lookup_insert_Some. intros [[<- <-]|[_ H]]; [|by apply Hrec].
  assert (addr_of (loc_of a) = a) as E by (unfold addr_of, loc_of; by rewrite Z2Pos.id).
  exists [], c, l. rewrite E. split; [done|]. simpl. split; [lia|done].
Qed.

Lemma free_map_range f a l p k :
  0 < a -> sizes_ok l -> free_map f a l !! p = Some k -> a <= addr_of p < a + g * total l.
Proof.
  intros Ha Hs (l1 & c & l2 & -> & Hp & _)%free_map_lookup; [|done..].
  apply Forall_app in Hs as [H1 H2]. apply Forall_cons in H2 as [Hc H2]. simpl in Hc.
  apply total_nonneg in H1, H2. rewrite total_app, Hp. simpl. nia.
Qed.

Lemma free_map_outside f a l b :
  0 < a -> sizes_ok l -> 0 < b -> b < a \/ a + g * total l <= b -> free_map f a l !! loc_of b = None.
Proof.
  intros Ha Hs Hb Hout. destruct (free_map f a l !! loc_of b) as [k|] eqn:E; [|done].
  apply free_map_range in E; [|done..]. unfold addr_of, loc_of in E. rewrite Z2Pos.id in E by done. lia.
Qed.

Lemma free_map_here f a l1 c l2 :
  0 < a -> sizes_ok (l1 ++ (c, true) :: l2) ->
  free_map f a (l1 ++ (c, true) :: l2) !! loc_of (a + g * total l1) = Some (f (a + g * total l1) c).
Proof.
  intros Ha Hs. apply Forall_app in Hs as [H1 H2]. pose proof (total_nonneg _ H1).
  rewrite free_map_app. simpl.
  rewrite lookup_union_r by (apply free_map_outside; [done|done|nia|lia]). apply lookup_insert_eq.
Qed.

(** Taking a chunk out of the index, and putting one in: the chunk is marked
    allocated, or free. *)
Lemma free_map_take f a l1 c l2 :
  0 < a -> sizes_ok (l1 ++ (c, true) :: l2) ->
  delete (loc_of (a + g * total l1)) (free_map f a (l1 ++ (c, true) :: l2)) =
  free_map f a (l1 ++ (c, false) :: l2).
Proof.
  intros Ha Hs. apply Forall_app in Hs as [H1 H2]. apply Forall_cons in H2 as [Hc H2]. simpl in Hc.
  pose proof (total_nonneg _ H1). rewrite !free_map_app. simpl.
  rewrite delete_union, delete_insert_eq.
  rewrite !delete_id; [done| |]; apply free_map_outside; try done; nia.
Qed.

Lemma free_map_put f a l1 c l2 :
  0 < a -> sizes_ok (l1 ++ (c, false) :: l2) ->
  <[loc_of (a + g * total l1) := f (a + g * total l1) c]> (free_map f a (l1 ++ (c, false) :: l2)) =
  free_map f a (l1 ++ (c, true) :: l2).
Proof.
  intros Ha Hs. apply Forall_app in Hs as [H1 H2]. pose proof (total_nonneg _ H1).
  rewrite !free_map_app. simpl. rewrite insert_union_r; [done|].
  apply free_map_outside; try done; nia.
Qed.

(** Allocated chunks can be cut or joined without the index noticing. *)
Lemma free_map_join f a l1 c1 c2 l2 :
  free_map f a (l1 ++ (c1, false) :: (c2, false) :: l2) = free_map f a (l1 ++ (c1 + c2, false) :: l2).
Proof. rewrite !free_map_app. simpl. do 2 f_equal. lia. Qed.

Lemma loc_of_inj x y : 0 < x -> 0 < y -> loc_of x = loc_of y -> x = y.
Proof. unfold loc_of. lia. Qed.

Lemma addr_loc x : 0 < x -> addr_of (loc_of x) = x.
Proof. unfold addr_of, loc_of. lia. Qed.

(** Prefixes outside a range of chunks may be written. *)
Lemma chunk_prefixes_outside a l m q x :
  0 < a -> sizes_ok l -> 0 < q -> q < a \/ a + g * total l <= q ->
  chunk_prefixes a l m -> chunk_prefixes a l (<[loc_of q := x]> m).
Proof.
  intros Ha Hs Hq. revert a Ha. induction Hs as [|[c b] l Hc Hs IH]; intros a Ha Hout; simpl in *; [done|].
  pose proof (total_nonneg _ Hs). intros [H1 H2]. split.
  - rewrite lookup_insert_ne; [done|]. intros E. apply loc_of_inj in E; [|done..]. nia.
  - apply IH; [nia| |done]. destruct Hout; [left; nia|right; nia].
Qed.

Lemma chunk_prefixes_here a l1 c b l2 m :
  chunk_prefixes a (l1 ++ (c, b) :: l2) m ->
  m !! loc_of (a + g * total l1) = Some (MmPrefix c (a + g * total l1)).
Proof. rewrite chunk_prefixes_app. simpl. tauto. Qed.

(** A chunk gets a new prefix and new chunks behind it. *)
Lemma chunk_prefixes_update a l1 c b l2 m (p := a + g * total l1) :
  0 < a -> sizes_ok (l1 ++ (c, b) :: l2) ->
  chunk_prefixes a l1 m -> chunk_prefixes (p + g * c) l2 m ->
  chunk_prefixes a (l1 ++ (c, b) :: l2) (<[loc_of p := MmPrefix c p]> m).
Proof.
  intros Ha Hs H1 H2. apply Forall_app in Hs as [Hs1 Hs2]. apply Forall_cons in Hs2 as [Hc Hs2]. simpl in Hc.
  pose proof (total_nonneg _ Hs1). assert (0 < p) by (subst p; nia).
  apply chunk_prefixes_app. split; [apply chunk_prefixes_outside; try done; lia|].
  simpl. fold p. split; [apply lookup_insert_eq|].
  apply chunk_prefixes_outside; try done; nia.
Qed.
End region.

(** ** Positions in a list of chunks *)

(** A position is given by the grains before it. *)
Lemma split_unique l1 x l2 k1 y k2 :
  sizes_ok (l1 ++ x :: l2) -> l1 ++ x :: l2 = k1 ++ y :: k2 -> total l1 = total k1 ->
  l1 = k1 /\ x = y /\ l2 = k2.
Proof.
  revert k1. induction l1 as [|[c b] l1 IH]; intros [|[d e] k1] Hs Heq Ht; simpl in *; simplify_eq; try done.
  - apply Forall_cons in Hs as [Hc Hs]. apply Forall_app in Hs as [?%total_nonneg _]. simpl in *. lia.
  - apply Forall_cons in Hs as [Hc Hs]. apply Forall_app in Hs as [?%total_nonneg _]. simpl in *. lia.
  - apply Forall_cons in Hs as [Hc Hs]. destruct (IH k1 Hs) as (-> & -> & ->); [done|lia|done].
Qed.

(** Chunks do not overlap: an earlier one ends before a later one starts. *)
Lemma split_before l1 x l2 k1 y k2 :
  sizes_ok (l1 ++ x :: l2) -> l1 ++ x :: l2 = k1 ++ y :: k2 -> total k1 < total l1 ->
  exists k, l1 = k1 ++ y :: k.
Proof.
  revert k1. induction l1 as [|[c b] l1 IH]; intros [|[d e] k1] Hs Heq Ht; simpl in *; simplify_eq.
  - lia.
  - apply Forall_cons in Hs as [Hc Hs]. apply Forall_app in Hs as [?%total_nonneg _]. simpl in *. lia.
  - by exists l1.
  - apply Forall_cons in Hs as [Hc Hs]. destruct (IH k1 Hs) as (k & ->); [done|lia|by exists k].
Qed.

Lemma coalesced_app l1 x l2 :
  coalesced (l1 ++ x :: l2) -> coalesced (l1 ++ [x]) /\ coalesced (x :: l2).
Proof.
  induction l1 as [|[c b] l1 IH]; simpl; [destruct x; done|].
  destruct l1 as [|[c1 b1] l1]; simpl in *.
  - destruct x as [cx bx]. intros [H1 H2]. tauto.
  - intros [H1 H2]. destruct (IH H2) as [H3 H4]. tauto.
Qed.

Lemma coalesced_join l1 x l2 :
  coalesced (l1 ++ [x]) -> coalesced (x :: l2) -> coalesced (l1 ++ x :: l2).
Proof.
  induction l1 as [|[c b] l1 IH]; simpl; [done|].
  destruct l1 as [|[c1 b1] l1]; simpl in *.
  - destruct x as [cx bx]. tauto.
  - intros [H1 H2] H3. split; [done|]. by apply IH.
Qed.

(** The last chunk is the one with the most grains before it. *)
Lemma last_split k1 x j1 y k :
  sizes_ok (k1 ++ [x]) -> k1 ++ [x] = j1 ++ y :: k -> total k1 <= total j1 -> j1 = k1 /\ y = x.
Proof.
  intros Hs Heq Hle. destruct k as [|z k _] using rev_ind.
  - by apply app_inj_tail in Heq as [-> ->].
  - rewrite app_comm_cons, app_assoc in Heq. apply app_inj_tail in Heq as [-> ->].
    apply Forall_app in Hs as [Hs _]. apply Forall_app in Hs as [_ Hs].
    apply Forall_cons in Hs as [Hy ?%total_nonneg]. rewrite total_app in Hle. destruct y; simpl in *. lia.
Qed.

Lemma last_free (l1 : list chunk) : (exists k1 d, l1 = k1 ++ [(d, true)]) \/ forall k1 d, l1 <> k1 ++ [(d, true)].
Proof.
  destruct l1 as [|[d []] k1 _] using rev_ind; [right|left; eauto|right]; intros k1' d' E.
  - by apply app_cons_not_nil in E.
  - by apply app_inj_tail in E as [_ ?].
Qed.

(** A chunk that ends where the rest of the list starts is the last one. *)
Lemma ends_last l1 x l2 k1 d k2 :
  sizes_ok (l1 ++ x :: l2) -> l1 ++ x :: l2 = k1 ++ (d, true) :: k2 -> total k1 + d = total l1 ->
  l1 = k1 ++ [(d, true)].
Proof.
  intros Hs Heq Ht. pose proof Hs as Hs'. rewrite Heq in Hs'.
  apply Forall_app in Hs' as [_ [Hd _]%Forall_cons]. simpl in Hd.
  destruct (split_before _ _ _ _ _ _ Hs Heq ltac:(lia)) as (k & ->).
  rewrite total_app in Ht. simpl in Ht. destruct k as [|[y b] k]; [done|].
  apply Forall_app in Hs as [[_ [_ [Hy ?%total_nonneg]%Forall_cons]%Forall_cons]%Forall_app _].
  simpl in *. lia.
Qed.
