(* ===== verification/MmallocSpec.v ===== *)
(** * The allocator of metric sets: theorems

    Allocation, release and resizing against the list of chunks of [Chunks],
    for every index that keeps the promise of [OrderedIndex]. *)

From stdpp Require Import prelude gmap.
From S2P Require Import Prelude Rbt OrdIndex Mmalloc Chunks.

(** ** Counting grains *)

(** The grains that [s] bytes take. *)
Definition grains (b s : Z) : Z := (s + (2 ^ b - 1)) / 2 ^ b.

Lemma roundup_count b s :
  0 <= b < 64 -> 0 <= s -> s + (2 ^ b - 1) < 2 ^ 64 ->
  Z.shiftr (mask_roundup s (2 ^ b)) b = grains b s.
Proof.
  intros Hb Hs Hlt. rewrite mask_roundup_pow2, Z.shiftr_div_pow2 by lia.
  apply Z.div_mul. assert (0 < 2 ^ b) by (apply Z.pow_pos_nonneg; lia). lia.
Qed.

Lemma grains_enough b s : 0 <= b -> s <= grains b s * 2 ^ b < s + 2 ^ b.
Proof.
  intros Hb. assert (0 < 2 ^ b) by (apply Z.pow_pos_nonneg; lia). unfold grains.
  pose proof (Z.div_mod (s + (2 ^ b - 1)) (2 ^ b)). pose proof (Z.mod_pos_bound (s + (2 ^ b - 1)) (2 ^ b)). lia.
Qed.

(** ** The comparison callbacks *)

Definition count_key (k : Z) : Prop := 0 <= k < 2147483648.

#[export] Instance compare_count_orders : OrdersLike compare_count Z.sub count_key.
Proof.
  split; [split; lia|lia|]. intros a b Ha Hb. unfold count_key in *. unfold compare_count.
  rewrite (s32_small a) by lia. unfold wraps, wrapu. change (2 ^ (32 - 1)) with 2147483648.
  change (2 ^ 32) with 4294967296. change (2 ^ 64) with 18446744073709551616.
  Z.to_euclidean_division_equations. lia.
Qed.

#[export] Instance compare_addr_orders : OrdersLike compare_addr compare_addr (fun _ => True).
Proof.
  split; [split| |done]; unfold compare_addr; intros; repeat case_match; lia.
Qed.

(** ** Steps on a region of chunks *)

Section steps.
Context {T : Type} `{!IndexOps T} `{!OrderedIndex T compare_count count_key}
  `{!OrderedIndex T compare_addr (fun _ => True)}.
Implicit Types R : mm_region T.

(** The geometry of a region that starts at [a], with grains of [2 ^ b] bytes
    that hold a prefix. *)
Record geometry (b a sz : Z) R : Prop := {
  geo_bits : 0 <= b < 64;
  geo_grain : grain R = 2 ^ b;
  geo_grain_bits : grain_bits R = b;
  geo_prefix : mm_prefix_size <= 2 ^ b;
  geo_start : start R = a /\ 0 < a;
  geo_size : mm_size R = sz /\ a + sz < 2 ^ 64;
}.

(** The chunks fit the region, and their counts are ordered by the callback. *)
Record fits (b sz : Z) (l : list chunk) : Prop := {
  fits_sizes : sizes_ok l;
  fits_region : 2 ^ b * total l <= sz;
  fits_count : total l < 2147483648;
}.

Abbreviation size_holds := (ix_holds (cmp := compare_count) (P := count_key)).
Abbreviation addr_holds := (ix_holds (cmp := compare_addr) (P := fun _ => True)).

(** The trees hold the free chunks of [l]. *)
Definition trees_ok b a l R : Prop :=
  size_holds (free_map (2 ^ b) (fun _ c => c) a l) (size_tree R) /\
  addr_holds (free_map (2 ^ b) (fun a _ => a) a l) (addr_tree R).

Context (b a sz : Z).

(** The memory and the geometry are those of [R] with prefixes [m]. *)
Definition region_with (lk : bool) (m : gmap loc mm_prefix) R : Prop :=
  geometry b a sz R /\ locked R = lk /\ prefixes R = m.

Lemma runs_trees_del l1 c l2 R lk m (Q : unit -> mm_region T -> Prop) :
  region_with lk m R -> fits b sz (l1 ++ (c, true) :: l2) -> trees_ok b a (l1 ++ (c, true) :: l2) R ->
  (forall R', region_with lk m R' -> trees_ok b a (l1 ++ (c, false) :: l2) R' -> Q tt R') ->
  runs (trees_del (a + 2 ^ b * total l1)) R Q.
Proof.
  intros (Hg & Hlk & Hm) Hfit [Hs Ha] HQ. pose proof Hg as [Hb _ _ Hp [_ Ha0] _].
  assert (0 < 2 ^ b) by (unfold mm_prefix_size in *; lia).
  pose proof (fits_sizes _ _ _ Hfit) as Hsz.
  edestruct (ix_del_ok (cmp := compare_count) (P := count_key)) as (t1 & E1 & H1);
    [exact Hs|by apply free_map_here|].
  edestruct (ix_del_ok (cmp := compare_addr) (P := fun _ => True)) as (t2 & E2 & H2);
    [exact Ha|by apply free_map_here|].
  rewrite free_map_take in H1, H2 by done.
  exists tt, (with_addr_tree t2 (with_size_tree t1 R)). split.
  - unfold trees_del, size_del, addr_del, mbind, M_bind. by rewrite E1; simpl; rewrite E2.
  - apply HQ; [|done]. split; [|done]. by destruct Hg.
Qed.

Lemma runs_trees_ins l1 c l2 R lk m (Q : unit -> mm_region T -> Prop) (p := a + 2 ^ b * total l1) :
  region_with lk m R -> fits b sz (l1 ++ (c, false) :: l2) -> trees_ok b a (l1 ++ (c, false) :: l2) R ->
  m !! loc_of p = Some (MmPrefix c p) ->
  (forall R', region_with lk m R' -> trees_ok b a (l1 ++ (c, true) :: l2) R' -> Q tt R') ->
  runs (trees_ins p) R Q.
Proof.
  intros (Hg & Hlk & Hm) Hfit [Hs Ha] Hpre HQ. pose proof Hg as [Hb _ _ Hp [_ Ha0] _].
  assert (0 < 2 ^ b) by (unfold mm_prefix_size in *; lia).
  pose proof (fits_sizes _ _ _ Hfit) as Hsz. pose proof (fits_count _ _ _ Hfit) as Hcnt.
  assert (count_key c) as Hc.
  { apply Forall_app in Hsz as [?%total_nonneg [Hc ?%total_nonneg]%Forall_cons]. simpl in Hc.
    rewrite total_app in Hcnt. simpl in Hcnt. unfold count_key. lia. }
  assert (forall f, free_map (2 ^ b) f a (l1 ++ (c, false) :: l2) !! loc_of p = None) as Hnone.
  { intros f. rewrite <- (free_map_take (2 ^ b)); [apply lookup_delete_eq|done|done|].
    apply Forall_app in Hsz as [? [? ?]%Forall_cons]. by apply Forall_app, conj, Forall_cons. }
  edestruct (ix_ins_ok (cmp := compare_count) (P := count_key)) as (t1 & E1 & H1);
    [exact Hs|by apply Hnone|exact Hc|].
  destruct (ix_ins_ok (cmp := compare_addr) (P := fun _ => True) _ _ (loc_of p) p Ha (Hnone _) I)
    as (t2 & E2 & H2).
  pose proof (free_map_put (2 ^ b) ltac:(done) (fun _ c => c) a l1 c l2 Ha0 Hsz) as F1.
  pose proof (free_map_put (2 ^ b) ltac:(done) (fun a _ => a) a l1 c l2 Ha0 Hsz) as F2.
  cbv beta in F1, F2. fold p in F1, F2. rewrite F1 in H1. rewrite F2 in H2.
  exists tt, (with_addr_tree t2 (with_size_tree t1 R)). split.
  - unfold trees_ins, get_prefix, size_ins, addr_ins, mbind, M_bind. rewrite Hm, Hpre. simpl.
    rewrite E1. simpl. by rewrite E2.
  - apply HQ; [|done]. split; [|done]. by destruct Hg.
Qed.

Lemma runs_get_prefix p x R lk m Q :
  region_with lk m R -> m !! loc_of p = Some x -> Q x R -> runs (get_prefix p) R Q.
Proof. intros (_ & _ & Hm) Hx HQ. exists x, R. split; [|done]. unfold get_prefix. by rewrite Hm, Hx. Qed.

Lemma runs_set_prefix p x l R lk m (Q : unit -> mm_region T -> Prop) :
  region_with lk m R -> trees_ok b a l R -> a <= p -> p + mm_prefix_size <= a + sz ->
  (forall R', region_with lk (<[loc_of p := x]> m) R' -> trees_ok b a l R' -> Q tt R') ->
  runs (set_prefix p x) R Q.
Proof.
  intros (Hg & Hlk & Hm) Ht H1 H2 HQ. pose proof Hg as [Hb ? ? ? [Hs ?] [Hz ?]].
  eexists tt, _. split; [|apply (HQ (with_prefixes (<[loc_of p := x]> m) R)); [|done]].
  - unfold set_prefix. rewrite Hs, Hz, Hm. rewrite !(proj2 (Z.leb_le _ _)) by lia. done.
  - split; [|done]. by destruct Hg.
Qed.

(** ** The searches *)

Lemma geometry_pos R : geometry b a sz R -> 0 < 2 ^ b /\ 0 < a.
Proof. intros [Hb _ _ Hp [_ Ha] _]. unfold mm_prefix_size in Hp. lia. Qed.

(** Best fit: the smallest free chunk that is large enough. *)
Lemma runs_size_lub l k R (Q : option loc -> mm_region T -> Prop) :
  geometry b a sz R -> fits b sz l -> trees_ok b a l R -> count_key k ->
  ((forall c, (c, true) ∈ l -> c < k) -> Q None R) ->
  (forall l1 c l2, l = l1 ++ (c, true) :: l2 -> k <= c ->
     (forall c', (c', true) ∈ l -> k <= c' -> c <= c') -> Q (Some (loc_of (a + 2 ^ b * total l1))) R) ->
  runs (size_lub k) R Q.
Proof.
  intros Hg Hfit [Hs _] Hk Hnone Hsome. destruct (geometry_pos R Hg) as [Hpos Ha].
  pose proof (fits_sizes _ _ _ Hfit) as Hsz.
  assert (forall c, (c, true) ∈ l -> exists p, free_map (2 ^ b) (fun _ c => c) a l !! p = Some c) as Hin.
  { intros c (l1 & l2 & ->)%list_elem_of_split. eexists. by apply free_map_here. }
  destruct (ix_lub_ok (cmp := compare_count) (P := count_key) _ _ k Hs Hk) as (r & Hr & Hspec).
  exists r, R. split; [unfold size_lub; by rewrite Hr|]. destruct r as [p|].
  - destruct Hspec as (kp & Hp & Hle & Hmin).
    apply (free_map_lookup (2 ^ b)) in Hp as (l1 & c & l2 & -> & Hp & ->); [|done..].
    replace p with (loc_of (a + 2 ^ b * total l1)) by (rewrite <- Hp; unfold loc_of, addr_of; lia).
    eapply Hsome; [done|done|]. intros c' Hc' Hle'. destruct (Hin c' Hc') as [q Hq]. by eapply Hmin.
  - apply Hnone. intros c Hc. destruct (Hin c Hc) as [q Hq]. by eapply Hspec.
Qed.

Lemma free_at l1 c l2 p k :
  0 < 2 ^ b -> 0 < a -> sizes_ok (l1 ++ (c, false) :: l2) ->
  free_map (2 ^ b) (fun a _ => a) a (l1 ++ (c, false) :: l2) !! p = Some k ->
  exists k1 d k2, l1 ++ (c, false) :: l2 = k1 ++ (d, true) :: k2 /\ addr_of p = a + 2 ^ b * total k1 /\
    k = addr_of p /\ total k1 <> total l1.
Proof.
  intros Hpos Ha Hsz (k1 & d & k2 & Heq & Hp & ->)%(free_map_lookup (2 ^ b)); [|done..].
  exists k1, d, k2. split_and!; [done|done|done|]. intros Ht.
  by destruct (split_unique _ _ _ _ _ _ Hsz Heq (eq_sym Ht)) as (_ & ? & _).
Qed.

(** The search to the left finds the neighbour when it is free; otherwise it
    finds nothing that ends where the chunk starts. *)
Lemma runs_addr_glb l1 c l2 R (Q : option loc -> mm_region T -> Prop) (p := a + 2 ^ b * total l1) :
  let l := l1 ++ (c, false) :: l2 in
  geometry b a sz R -> fits b sz l -> trees_ok b a l R ->
  (forall k1 d, l1 = k1 ++ [(d, true)] -> Q (Some (loc_of (a + 2 ^ b * total k1))) R) ->
  ((forall k1 d, l1 <> k1 ++ [(d, true)]) -> Q None R) ->
  ((forall k1 d, l1 <> k1 ++ [(d, true)]) -> forall k1 d k2, l = k1 ++ (d, true) :: k2 ->
     a + 2 ^ b * total k1 + 2 ^ b * d <> p -> Q (Some (loc_of (a + 2 ^ b * total k1))) R) ->
  runs (addr_glb p) R Q.
Proof.
  intros l Hg Hfit [_ Hs] Hleft Hnone Hother. destruct (geometry_pos R Hg) as [Hpos Ha].
  pose proof (fits_sizes _ _ _ Hfit) as Hsz.
  destruct (ix_glb_ok (cmp := compare_addr) (P := fun _ => True) _ _ p Hs I) as (r & Hr & Hspec).
  exists r, R. split; [unfold addr_glb; by rewrite Hr|].
  assert (forall k1 d, l1 = k1 ++ [(d, true)] ->
    free_map (2 ^ b) (fun a _ => a) a l !! loc_of (a + 2 ^ b * total k1) = Some (a + 2 ^ b * total k1)) as Hin.
  { intros k1 d ->. subst l. rewrite <- app_assoc in *. by apply (free_map_here (2 ^ b)). }
  destruct (last_free l1) as [(k1 & d & E)|Hno].
  - assert (sizes_ok (k1 ++ [(d, true)])) as Hk by (rewrite <- E; by apply Forall_app in Hsz as [? _]).
    assert (0 < d) as Hd by (by apply Forall_app in Hk as [_ [? _]%Forall_cons]).
    assert (total l1 = total k1 + d) as Htot by (rewrite E, total_app; simpl; lia).
    specialize (Hin k1 d E). destruct r as [q|]; [|specialize (Hspec _ _ Hin); subst p; nia].
    destruct Hspec as (kq & Hq & Hle & Hmax). specialize (Hmax _ _ Hin ltac:(subst p; nia)).
    apply free_at in Hq as (j1 & e & j2 & Heq & Hq & -> & Hne); [|done..].
    rewrite Hq in Hle, Hmax. subst p.
    destruct (split_before _ _ _ _ _ _ Hsz Heq ltac:(nia)) as (k & Hj). rewrite E in Hj.
    destruct (last_split _ _ _ _ _ Hk Hj ltac:(nia)) as [-> _].
    replace q with (loc_of (a + 2 ^ b * total k1)) by (rewrite <- Hq; unfold loc_of, addr_of; lia).
    by eapply Hleft.
  - destruct r as [q|]; [|by apply Hnone]. destruct Hspec as (kq & Hq & Hle & _).
    apply free_at in Hq as (j1 & e & j2 & Heq & Hq & -> & Hne); [|done..].
    replace q with (loc_of (a + 2 ^ b * total j1)) by (rewrite <- Hq; unfold loc_of, addr_of; lia).
    eapply Hother; [done|exact Heq|]. subst p. intros Hend. eapply (Hno j1 e), ends_last; [done..|nia].
Qed.

(** To the right: the neighbour when it is free, otherwise nothing that starts
    where the chunk ends. *)
Lemma runs_addr_lub l1 c l2 R (Q : option loc -> mm_region T -> Prop) (p := a + 2 ^ b * total l1) :
  let l := l1 ++ (c, false) :: l2 in
  geometry b a sz R -> fits b sz l -> trees_ok b a l R ->
  (forall d k2, l2 = (d, true) :: k2 -> Q (Some (loc_of (p + 2 ^ b * c))) R) ->
  ((forall d k2, l2 <> (d, true) :: k2) -> Q None R) ->
  ((forall d k2, l2 <> (d, true) :: k2) -> forall k1 d k2, l = k1 ++ (d, true) :: k2 ->
     a + 2 ^ b * total k1 <> p + 2 ^ b * c -> Q (Some (loc_of (a + 2 ^ b * total k1))) R) ->
  runs (addr_lub p) R Q.
Proof.
  intros l Hg Hfit [_ Hs] Hright Hnone Hother. destruct (geometry_pos R Hg) as [Hpos Ha].
  pose proof (fits_sizes _ _ _ Hfit) as Hsz.
  destruct (ix_lub_ok (cmp := compare_addr) (P := fun _ => True) _ _ p Hs I) as (r & Hr & Hspec).
  exists r, R. split; [unfold addr_lub; by rewrite Hr|].
  assert (0 < c) as Hc by (by apply Forall_app in Hsz as [_ [? _]%Forall_cons]).
  assert (total (l1 ++ [(c, false)]) = total l1 + c) as Htot by (rewrite total_app; simpl; lia).
  assert (forall q, (exists d k2, l2 = (d, true) :: k2) -> addr_of q = a + 2 ^ b * (total l1 + c) ->
    q = loc_of (p + 2 ^ b * c)) as Hloc by (intros q _ Hq; subst p; unfold loc_of, addr_of in *; lia).
  assert ((exists d k2, l2 = (d, true) :: k2) \/ forall d k2, l2 <> (d, true) :: k2) as [(d & k2 & E)|Hno].
  { destruct l2 as [|[d []] k2]; [right; done|left; eauto|right; congruence]. }
  - assert (free_map (2 ^ b) (fun a _ => a) a l !! loc_of (p + 2 ^ b * c) = Some (p + 2 ^ b * c)) as Hin.
    { pose proof (free_map_here (2 ^ b) Hpos (fun a _ => a) a (l1 ++ [(c, false)]) d k2 Ha) as H.
      rewrite Htot, <- app_assoc in H. simpl in H. rewrite <- E in H. subst p.
      replace (a + 2 ^ b * total l1 + 2 ^ b * c) with (a + 2 ^ b * (total l1 + c)) by lia. by apply H. }
    destruct r as [q|]; [|specialize (Hspec _ _ Hin); nia].
    destruct Hspec as (kq & Hq & Hle & Hmin). specialize (Hmin _ _ Hin ltac:(nia)).
    apply free_at in Hq as (j1 & e & j2 & Heq & Hq & -> & Hne); [|done..].
    rewrite Hq in Hle, Hmin. subst p.
    assert (total l1 <= total j1 <= total l1 + c) as [Hge Hub] by nia. clear Hle Hmin.
    destruct (split_before j1 (e, true) j2 l1 (c, false) l2) as (k & ->);
      [by rewrite <- Heq|done|lia|].
    assert (total (l1 ++ (c, false) :: k) = total l1 + c) as Hk.
    { rewrite total_app in *. simpl in *. rewrite <- app_assoc in Heq. apply app_inv_head in Heq.
      simpl in Heq. simplify_eq. apply Forall_app in Hsz as [_ [_ Hk]%Forall_cons].
      rewrite Heq in Hk. apply Forall_app in Hk as [?%total_nonneg _]. lia. }
    rewrite Hk in Hq. rewrite (Hloc q) by eauto. by eapply Hright.
  - destruct r as [q|]; [|by apply Hnone]. destruct Hspec as (kq & Hq & Hle & _).
    apply free_at in Hq as (j1 & e & j2 & Heq & Hq & -> & Hne); [|done..].
    replace q with (loc_of (a + 2 ^ b * total j1)) by (rewrite <- Hq; unfold loc_of, addr_of; lia).
    eapply Hother; [done|exact Heq|]. subst p. intros Hend.
    assert (total j1 = total (l1 ++ [(c, false)])) as Ht by nia.
    destruct (split_before j1 (e, true) j2 l1 (c, false) l2) as (k & ->); [by rewrite <- Heq|done|lia|].
    rewrite <- app_assoc in Heq. apply app_inv_head in Heq. simpl in Heq. injection Heq as Heq.
    rewrite !total_app in Ht. simpl in Ht.
    destruct k as [|[x y] k]; [by apply (Hno e j2)|].
    apply Forall_app in Hsz as [_ [_ Hk]%Forall_cons]. rewrite Heq in Hk.
    apply Forall_app in Hk as [[Hx ?%total_nonneg]%Forall_cons _]. simpl in *. lia.
Qed.
End steps.
