(* ===== verification/MmallocOps.v ===== *)
(** * The allocator of metric sets: allocation and release *)

From stdpp Require Import prelude gmap.
From S2P Require Import Prelude Rbt OrdIndex Mmalloc Chunks MmallocSpec.

(** The chunks after [n] grains of a free chunk of [c] were allocated. *)
Definition cut (n c : Z) : list chunk :=
  (n, false) :: if decide (c = n) then [] else [(c - n, true)].

(** A chunk of [c] grains between [l1] and [l2] becomes free and is joined with
    its free neighbours. *)
Definition join_right (c : Z) (l2 : list chunk) : list chunk :=
  match l2 with
  | (d, true) :: l2 => (c + d, true) :: l2
  | _ => (c, true) :: l2
  end.
Definition join (l1 : list chunk) (c : Z) (l2 : list chunk) : list chunk :=
  match last l1 with
  | Some (d, true) => removelast l1 ++ join_right (d + c) l2
  | _ => l1 ++ join_right c l2
  end.

Lemma total_cut n c : total (cut n c) = c.
Proof. unfold cut. case_decide; simpl; lia. Qed.

Section ops.
Context {T : Type} `{!IndexOps T} `{!OrderedIndex T compare_count count_key}
  `{!OrderedIndex T compare_addr (fun _ => True)}.
Implicit Types R : mm_region T.
Context (b a sz : Z).

(** The region is in order: its chunks are [l]. *)
Record heap_ok (l : list chunk) R : Prop := {
  ok_geometry : geometry b a sz R;
  ok_fits : fits b sz l;
  ok_trees : trees_ok b a l R;
  ok_prefixes : chunk_prefixes (2 ^ b) a l (prefixes R);
  ok_coalesced : coalesced l;
  ok_unlocked : locked R = false;
}.

Lemma runs_lock R (Q : unit -> mm_region T -> Prop) :
  locked R = false -> Q tt (with_locked true R) -> runs mm_lock R Q.
Proof. intros H HQ. eexists _, _. split; [|done]. unfold mm_lock. by rewrite H. Qed.

Lemma geometry_locked k R : geometry b a sz R -> geometry b a sz (with_locked k R).
Proof. by destruct 1. Qed.

Lemma runs_unlock m l R (Q : unit -> mm_region T -> Prop) :
  region_with b a sz true m R -> trees_ok b a l R ->
  (forall R', region_with b a sz false m R' -> trees_ok b a l R' -> Q tt R') -> runs mm_unlock R Q.
Proof.
  intros (Hg & _ & Hm) Ht HQ. apply runs_modify, HQ; [|done]. split; [by apply geometry_locked|done].
Qed.

Lemma heap_ok_intro l R :
  region_with b a sz false (prefixes R) R -> fits b sz l -> trees_ok b a l R ->
  chunk_prefixes (2 ^ b) a l (prefixes R) -> coalesced l -> heap_ok l R.
Proof. intros (? & ? & _) ????. by split. Qed.

(** Splitting an allocated chunk is invisible to the trees. *)
Lemma trees_split l1 n c l2 R :
  trees_ok b a (l1 ++ (c, false) :: l2) R -> trees_ok b a (l1 ++ (n, false) :: (c - n, false) :: l2) R.
Proof.
  unfold trees_ok. rewrite !(free_map_join (2 ^ b)). by replace (n + (c - n)) with c by lia.
Qed.

Lemma fits_resize l1 c k l2 x :
  fits b sz (l1 ++ (c, x) :: l2) -> sizes_ok k -> total k = c -> fits b sz (l1 ++ k ++ l2).
Proof.
  intros [Hs Hr Hc] Hk Ht. apply Forall_app in Hs as [H1 [_ H2]%Forall_cons].
  rewrite total_app in *. simpl in *. split; [by repeat (apply Forall_app; split)| |];
    rewrite !total_app, Ht; lia.
Qed.

(** The end of a chunk lies in the region. *)
Lemma in_region l1 c x l2 R :
  geometry b a sz R -> fits b sz (l1 ++ (c, x) :: l2) ->
  a <= a + 2 ^ b * total l1 /\ a + 2 ^ b * total l1 + mm_prefix_size <= a + sz /\ 0 < a + 2 ^ b * total l1.
Proof.
  intros [? ? ? Hp [? ?] ?] [Hs Hr Hc]. apply Forall_app in Hs as [H1%total_nonneg [Hx H2%total_nonneg]%Forall_cons].
  rewrite total_app in Hr. simpl in *. unfold mm_prefix_size in *. nia.
Qed.

Lemma coalesced_cut l1 n c l2 :
  coalesced (l1 ++ (c, true) :: l2) -> coalesced (l1 ++ cut n c ++ l2).
Proof.
  intros H. destruct (coalesced_app _ _ _ H) as [H1 H2]. unfold cut.
  assert (coalesced (l1 ++ [(n, false)])) as H1'.
  { clear -H1. induction l1 as [|[x y] l1 IH]; [done|]. destruct l1 as [|[x' y'] l1]; simpl in *.
    - split; [apply andb_false_r|done].
    - destruct H1. split; [done|]. by apply IH. }
  case_decide; simpl; apply coalesced_join; try done; simpl.
  destruct l2 as [|[d e] l2]; [done|]. split; [done|apply H2].
Qed.

(** The remainder of the chunk goes back to the trees and the chunk gets its
    prefix. *)
Lemma runs_carve l1 c l2 n R m (p := a + 2 ^ b * total l1) (Q : unit -> mm_region T -> Prop) :
  region_with b a sz true m R -> fits b sz (l1 ++ (c, false) :: l2) ->
  trees_ok b a (l1 ++ (c, false) :: l2) R ->
  chunk_prefixes (2 ^ b) a l1 m -> chunk_prefixes (2 ^ b) (p + 2 ^ b * c) l2 m ->
  0 < n <= c ->
  (forall R' m', region_with b a sz true m' R' -> trees_ok b a (l1 ++ cut n c ++ l2) R' ->
     fits b sz (l1 ++ cut n c ++ l2) ->
     chunk_prefixes (2 ^ b) a (l1 ++ cut n c ++ l2) m' -> Q tt R') ->
  runs ((if negb (u64 (c - n) =? 0) then
           set_prefix (p + Z.shiftl n b) (MmPrefix (u64 (c - n)) (p + Z.shiftl n b));;
           trees_ins (p + Z.shiftl n b)
         else mret tt);;
        set_prefix p (MmPrefix n p)) R Q.
Proof.
  intros Hw Hfit Ht Hpre1 Hpre2 Hn HQ. pose proof Hw as (Hg & _).
  destruct (geometry_pos b a sz R Hg) as [Hpos Ha]. pose proof Hg as [Hb ? ? ? ? ?].
  destruct (in_region _ _ _ _ R Hg Hfit) as (Hp1 & Hp2 & Hp3). fold p in Hp1, Hp2, Hp3.
  pose proof (fits_count _ _ _ Hfit) as Hcnt. pose proof (fits_sizes _ _ _ Hfit) as Hsz.
  apply Forall_app in Hsz as [Hs1 [_ Hs2]%Forall_cons].
  pose proof (total_nonneg _ Hs1). pose proof (total_nonneg _ Hs2). rewrite total_app in Hcnt. simpl in Hcnt.
  rewrite u64_small by lia. rewrite Z.shiftl_mul_pow2 by lia.
  assert (sizes_ok (cut n c)) as Hcut.
  { unfold cut. constructor; [simpl; lia|]. case_decide; repeat constructor. simpl. lia. }
  pose proof (fits_resize l1 c (cut n c) l2 false Hfit Hcut (total_cut n c)) as Hfit'.
  apply runs_bind. destruct (Z.eqb_spec (c - n) 0) as [E|E]; cbn [negb].
  - apply runs_ret. eapply runs_set_prefix; [done|done|lia|lia|]. intros R' Hw' Ht'.
    revert Hfit' HQ. unfold cut. rewrite decide_True by lia. assert (c = n) as -> by lia. simpl. intros Hfit' HQ.
    eapply HQ; [done|done|done|]. apply (chunk_prefixes_update (2 ^ b)); [done|done|apply Hfit'|done|done].
  - replace (p + n * 2 ^ b) with (a + 2 ^ b * total (l1 ++ [(n, false)])) by (rewrite total_app; simpl; subst p; lia).
    revert Hfit' HQ. unfold cut. rewrite decide_False by lia. simpl. intros Hfit' HQ.
    assert (l1 ++ (n, false) :: (c - n, true) :: l2 = (l1 ++ [(n, false)]) ++ (c - n, true) :: l2) as Eq1
      by (by rewrite <- app_assoc).
    assert (fits b sz ((l1 ++ [(n, false)]) ++ (c - n, false) :: l2)) as Hfit2.
    { rewrite Eq1 in Hfit'. destruct Hfit' as [Hs Hr Hc]. rewrite !total_app in Hr, Hc. simpl in Hr, Hc.
      split; [|rewrite !total_app; simpl; lia..].
      apply Forall_app in Hs as [? [? ?]%Forall_cons]. by apply Forall_app, conj, Forall_cons. }
    destruct (in_region _ _ _ _ R Hg Hfit2) as (Hn1 & Hn2 & Hn3).
    apply (trees_split l1 n) in Ht.
    assert (l1 ++ (n, false) :: (c - n, false) :: l2 = (l1 ++ [(n, false)]) ++ (c - n, false) :: l2) as Eq2
      by (by rewrite <- app_assoc).
    rewrite Eq2 in Ht.
    apply runs_bind. eapply runs_set_prefix; [done|done|lia|lia|]. intros R1 Hw1 Ht1.
    eapply runs_trees_ins; [done|done|done|apply lookup_insert_eq|]. intros R2 Hw2 Ht2.
    eapply runs_set_prefix; [done|done|lia|lia|]. intros R3 Hw3 Ht3. rewrite <- Eq1 in Ht3.
    eapply HQ; [done|done|done|]. set (q := a + 2 ^ b * total (l1 ++ [(n, false)])) in *.
    assert (q = p + 2 ^ b * n) as Eq by (subst p q; rewrite total_app; simpl; lia).
    apply (chunk_prefixes_update (2 ^ b)); [done|done|apply Hfit'| |].
    + apply chunk_prefixes_outside; try done; nia.
    + fold p. rewrite <- Eq. simpl. split; [apply lookup_insert_eq|].
      replace (q + 2 ^ b * (c - n)) with (p + 2 ^ b * c) by lia.
      apply chunk_prefixes_outside; try done; nia.
Qed.

(** What [mm_alloc] promises for [n] grains. *)
Definition allocated (n : Z) (l : list chunk) (r : Z) R' : Prop :=
  (r = 0 /\ (forall c, (c, true) ∈ l -> c < n) /\ heap_ok l R') \/
  exists l1 c l2, l = l1 ++ (c, true) :: l2 /\ n <= c /\
    (forall c', (c', true) ∈ l -> n <= c' -> c <= c') /\
    r = a + 2 ^ b * total l1 + mm_prefix_size /\ heap_ok (l1 ++ cut n c ++ l2) R'.

(** Marking a chunk does not change its size or its prefix. *)
Lemma fits_mark l1 c x y l2 : fits b sz (l1 ++ (c, x) :: l2) -> fits b sz (l1 ++ (c, y) :: l2).
Proof.
  intros Hf. destruct Hf as [Hs Hr Hc]. rewrite total_app in Hr, Hc. simpl in *.
  split; [|rewrite total_app; simpl; lia..].
  apply Forall_app in Hs as [? [? ?]%Forall_cons]. by apply Forall_app, conj, Forall_cons.
Qed.
Lemma prefixes_mark l1 c x y l2 m :
  chunk_prefixes (2 ^ b) a (l1 ++ (c, x) :: l2) m -> chunk_prefixes (2 ^ b) a (l1 ++ (c, y) :: l2) m.
Proof. by rewrite !(chunk_prefixes_app (2 ^ b)). Qed.

Lemma runs_mm_alloc size l R (n := grains b (size + mm_prefix_size)) :
  heap_ok l R -> 0 <= size -> size + mm_prefix_size + 2 ^ b <= 2 ^ 64 -> n < 2147483648 ->
  runs (mm_alloc size) R (allocated n l).
Proof.
  intros [Hg Hfit Ht Hpre Hco Hlk] Hsize Hmax Hn. pose proof Hg as [Hb Eg Eb _ _ _].
  destruct (geometry_pos b a sz R Hg) as [Hpos Ha].
  assert (0 < n) as Hn0.
  { pose proof (grains_enough b (size + mm_prefix_size) ltac:(lia)) as Hge. fold n in Hge.
    unfold mm_prefix_size in *. nia. }
  unfold mm_alloc. apply runs_bind, runs_get. cbv zeta. rewrite Eg, Eb.
  rewrite u64_small, roundup_count by (unfold mm_prefix_size in *; lia). fold n.
  apply runs_bind, runs_lock; [done|].
  apply runs_bind, (runs_size_lub b a sz l); [by apply geometry_locked|done|done|unfold count_key; lia| |].
  - intros Hnone. apply runs_bind, runs_modify, runs_ret. left. split_and!; [done|done|].
    split; [by destruct Hg|done|done|done|done|done].
  - intros l1 c l2 -> Hle Hbest. destruct (in_region _ _ _ _ R Hg Hfit) as (_ & _ & Hp3).
    rewrite addr_loc by done.
    apply runs_bind, (runs_trees_del b a sz l1 c l2 _ true (prefixes R));
      [split_and!; [by apply geometry_locked|done|done]|done|done|].
    intros R1 Hw1 Ht1. apply fits_mark with (y := false) in Hfit.
    apply prefixes_mark with (y := false) in Hpre.
    apply runs_bind. eapply (runs_get_prefix b a sz); [done|by eapply chunk_prefixes_here|]. cbn [count].
    apply (chunk_prefixes_app (2 ^ b)) in Hpre as [Hpre1 [_ Hpre2]].
    apply runs_bind_assoc. eapply runs_bind, runs_carve; [done|done|done|done|done|lia|].
    intros R2 m' Hw2 Ht2 Hfit2 Hpre3. apply runs_bind. eapply runs_unlock; [done|done|].
    intros R3 Hw3 Ht3. apply runs_ret. right. exists l1, c, l2. split_and!; try done.
    pose proof Hw3 as (_ & _ & Hm3). rewrite <- Hm3 in *. apply heap_ok_intro; try done. by apply coalesced_cut.
Qed.

(** ** Release *)

Abbreviation no_free_last l := (forall k d, l <> k ++ [(d, true)]).
Abbreviation no_free_head l := (forall d k, l <> (d, true) :: k).

(** The state in the middle of a release: the trees hold the free chunks, the
    lock is held. *)
Definition releasing (l : list chunk) R : Prop :=
  region_with b a sz true (prefixes R) R /\ fits b sz l /\ trees_ok b a l R /\
  chunk_prefixes (2 ^ b) a l (prefixes R).

Lemma releasing_intro l m R :
  region_with b a sz true m R -> fits b sz l -> trees_ok b a l R -> chunk_prefixes (2 ^ b) a l m -> releasing l R.
Proof. intros Hw ???. pose proof Hw as (_ & _ & E). subst m. by split_and!. Qed.

Lemma trees_join l1 d c l2 R :
  trees_ok b a (l1 ++ (d, false) :: (c, false) :: l2) R -> trees_ok b a (l1 ++ (d + c, false) :: l2) R.
Proof. unfold trees_ok. by rewrite !(free_map_join (2 ^ b)). Qed.

Lemma fits_join l1 d x c y l2 :
  fits b sz (l1 ++ (d, x) :: (c, y) :: l2) -> fits b sz (l1 ++ (d + c, false) :: l2).
Proof.
  intros [Hs Hr Hc]. rewrite total_app in Hr, Hc. simpl in *.
  apply Forall_app in Hs as [? [? [? ?]%Forall_cons]%Forall_cons]. simpl in *.
  split; [apply Forall_app; split; [done|]; apply Forall_cons; simpl; split; [lia|done]
         |rewrite total_app; simpl; lia..].
Qed.

(** Two chunks [d] and [c] become one: the neighbour leaves the trees and the
    first prefix gets the sum. *)
Lemma runs_join_prefix l1 d c l2 R (p := a + 2 ^ b * total l1) (Q : unit -> mm_region T -> Prop) :
  releasing (l1 ++ (d, false) :: (c, false) :: l2) R ->
  (forall R', releasing (l1 ++ (d + c, false) :: l2) R' -> Q tt R') ->
  runs (set_prefix p (MmPrefix (u64 (d + c)) p)) R Q.
Proof.
  intros (Hw & Hfit & Ht & Hpre) HQ. pose proof Hw as (Hg & _).
  destruct (geometry_pos b a sz R Hg) as [Hpos Ha].
  destruct (in_region _ _ _ _ R Hg Hfit) as (H1 & H2 & _). fold p in H1, H2.
  pose proof (fits_join _ _ _ _ _ _ Hfit) as Hfit'. pose proof (fits_count _ _ _ Hfit) as Hcnt.
  pose proof (fits_sizes _ _ _ Hfit') as Hs'. pose proof (fits_sizes _ _ _ Hfit) as Hs.
  apply Forall_app in Hs as [Hs1%total_nonneg [Hd [Hc Hs2%total_nonneg]%Forall_cons]%Forall_cons].
  rewrite total_app in Hcnt. simpl in *. rewrite u64_small by lia.
  eapply runs_set_prefix; [done|by apply trees_join|lia|lia|]. intros R' Hw' Ht'.
  apply HQ. eapply releasing_intro; [done|done|done|].
  apply (chunk_prefixes_app (2 ^ b)) in Hpre as [Hpre1 [_ [_ Hpre2]]]. fold p in Hpre2.
  apply (chunk_prefixes_update (2 ^ b)); [done|done|done|done|]. fold p.
  by replace (p + 2 ^ b * (d + c)) with (p + 2 ^ b * d + 2 ^ b * c) by lia.
Qed.

(** The neighbour [d] of the chunk at [l1] leaves the trees. *)
Lemma runs_release_del l1 d l2 R (Q : unit -> mm_region T -> Prop) :
  releasing (l1 ++ (d, true) :: l2) R ->
  (forall R', releasing (l1 ++ (d, false) :: l2) R' -> Q tt R') ->
  runs (trees_del (a + 2 ^ b * total l1)) R Q.
Proof.
  intros (Hw & Hfit & Ht & Hpre) HQ. eapply runs_trees_del; [done|done|done|]. intros R' Hw' Ht'.
  apply HQ. eapply releasing_intro; [done|by eapply fits_mark|done|by eapply prefixes_mark].
Qed.

Lemma runs_release_prefix l1 c x l2 R (p := a + 2 ^ b * total l1) (Q : mm_prefix -> mm_region T -> Prop) :
  releasing (l1 ++ (c, x) :: l2) R -> Q (MmPrefix c p) R -> runs (get_prefix p) R Q.
Proof. intros (Hw & _ & _ & Hpre) HQ. eapply runs_get_prefix; [done|by eapply chunk_prefixes_here|done]. Qed.

(** The chunk and its left neighbour. *)
Lemma runs_left l1 c l2 R (p := a + 2 ^ b * total l1) (Q : Z -> mm_region T -> Prop) :
  releasing (l1 ++ (c, false) :: l2) R ->
  (forall k d R', l1 = k ++ [(d, true)] -> releasing (k ++ (d + c, false) :: l2) R' ->
     Q (a + 2 ^ b * total k) R') ->
  (no_free_last l1 -> Q p R) ->
  runs (rbn ← addr_glb p;
        match rbn with
        | Some l =>
            let q := addr_of l in
            y ← get_prefix q;
            let r := q + Z.shiftl (count y) b in
            if r =? p then
              trees_del q;;
              x ← get_prefix p;
              set_prefix q (MmPrefix (u64 (count y + count x)) (pfx y));;
              mret q
            else mret p
        | None => mret p
        end) R Q.
Proof.
  intros Hr HQ1 HQ2. pose proof Hr as ((Hg & _) & Hfit & Ht & Hpre).
  destruct (geometry_pos b a sz R Hg) as [Hpos Ha]. pose proof Hg as [Hb _ _ _ _ _].
  apply runs_bind, (runs_addr_glb b a sz l1 c l2); [done|done|done| | |].
  - intros k d ->. rewrite <- app_assoc in Hr, Hfit. simpl in Hr, Hfit.
    destruct (in_region _ _ _ _ R Hg Hfit) as (_ & _ & Hp3). rewrite addr_loc by done. cbv zeta.
    apply runs_bind. eapply runs_release_prefix; [done|]. cbn [count pfx].
    rewrite Z.shiftl_mul_pow2 by lia. subst p. rewrite total_app. simpl.
    rewrite (proj2 (Z.eqb_eq _ _)) by lia.
    apply runs_bind. eapply runs_release_del; [done|]. intros R1 Hr1.
    apply runs_bind. replace (a + 2 ^ b * (total k + (d + 0))) with (a + 2 ^ b * total (k ++ [(d, false)]))
      by (rewrite total_app; simpl; lia).
    eapply runs_release_prefix; [rewrite <- app_assoc; exact Hr1|]. cbn [count].
    apply runs_bind. eapply runs_join_prefix; [done|]. intros R2 Hr2. apply runs_ret. by eapply HQ1.
  - intros Hno. apply runs_ret. auto.
  - intros Hno k d k2 Heq Hne. pose proof Hr as Hr'. rewrite Heq in Hr', Hfit.
    destruct (in_region _ _ _ _ R Hg Hfit) as (_ & _ & Hp3). rewrite addr_loc by done. cbv zeta.
    apply runs_bind. eapply runs_release_prefix; [done|]. cbn [count].
    rewrite Z.shiftl_mul_pow2, (proj2 (Z.eqb_neq _ _)) by (fold p in Hne; lia). apply runs_ret. auto.
Qed.

(** The chunk and its right neighbour. *)
Lemma runs_right l1 c l2 R (p := a + 2 ^ b * total l1) (Q : unit -> mm_region T -> Prop) :
  releasing (l1 ++ (c, false) :: l2) R ->
  (forall d k R', l2 = (d, true) :: k -> releasing (l1 ++ (c + d, false) :: k) R' -> Q tt R') ->
  (no_free_head l2 -> Q tt R) ->
  runs (rbn ← addr_lub p;
        match rbn with
        | Some l =>
            let q := addr_of l in
            let r := p + Z.shiftl c b in
            if r =? q then
              trees_del q;;
              y ← get_prefix q;
              set_prefix p (MmPrefix (u64 (c + count y)) p)
            else mret tt
        | None => mret tt
        end) R Q.
Proof.
  intros Hr HQ1 HQ2. pose proof Hr as ((Hg & _) & Hfit & Ht & Hpre).
  destruct (geometry_pos b a sz R Hg) as [Hpos Ha]. pose proof Hg as [Hb _ _ _ _ _].
  apply runs_bind, (runs_addr_lub b a sz l1 c l2); [done|done|done| | |].
  - intros d k ->. assert (p + 2 ^ b * c = a + 2 ^ b * total (l1 ++ [(c, false)])) as Eq
      by (rewrite total_app; simpl; subst p; lia).
    assert (releasing ((l1 ++ [(c, false)]) ++ (d, true) :: k) R) as Hr' by (by rewrite <- app_assoc).
    pose proof Hr' as (_ & Hfit' & _). destruct (in_region _ _ _ _ R Hg Hfit') as (_ & _ & Hp3).
    fold p. rewrite Eq, addr_loc by done. cbv zeta. rewrite Z.shiftl_mul_pow2, (Z.mul_comm c), Eq, Z.eqb_refl by lia.
    apply runs_bind. eapply runs_release_del; [done|]. intros R1 Hr1.
    apply runs_bind. eapply runs_release_prefix; [done|]. cbn [count].
    rewrite <- app_assoc in Hr1. simpl in Hr1. apply (runs_join_prefix l1 c d k); [done|]. intros R2 Hr2. by eapply HQ1.
  - intros Hno. apply runs_ret. auto.
  - intros Hno k d k2 Heq Hne. rewrite Heq in Hfit.
    destruct (in_region _ _ _ _ R Hg Hfit) as (_ & _ & Hp3). rewrite addr_loc by done. cbv zeta.
    rewrite Z.shiftl_mul_pow2, (proj2 (Z.eqb_neq _ _)) by (fold p in Hne; lia). apply runs_ret. auto.
Qed.

(** The chunk goes back to the trees. *)
Lemma runs_put_back l1 c l2 R (p := a + 2 ^ b * total l1) :
  releasing (l1 ++ (c, false) :: l2) R -> coalesced (l1 ++ (c, true) :: l2) ->
  runs (x ← get_prefix p; set_prefix p (MmPrefix (count x) p);; trees_ins p;; mm_unlock) R
    (fun _ => heap_ok (l1 ++ (c, true) :: l2)).
Proof.
  intros Hr Hco. pose proof Hr as (Hw & Hfit & Ht & Hpre). pose proof Hw as (Hg & _).
  destruct (geometry_pos b a sz R Hg) as [Hpos Ha]. destruct (in_region _ _ _ _ R Hg Hfit) as (H1 & H2 & _).
  apply runs_bind. eapply runs_release_prefix; [done|]. cbn [count].
  apply runs_bind. eapply runs_set_prefix; [done|done|done|done|]. intros R1 Hw1 Ht1.
  apply runs_bind. eapply runs_trees_ins; [done|done|done|apply lookup_insert_eq|]. intros R2 Hw2 Ht2.
  eapply runs_unlock; [done|done|]. intros R3 Hw3 Ht3. pose proof Hw3 as (_ & _ & E).
  rewrite <- E in Hw3. apply heap_ok_intro; [done|by eapply fits_mark|done| |done].
  rewrite E. apply prefixes_mark with (x := false), (chunk_prefixes_update (2 ^ b)); try done; [by apply Hfit|..];
    by apply (chunk_prefixes_app (2 ^ b)) in Hpre as [? [? ?]].
Qed.

Lemma join_free k d c l2 : join (k ++ [(d, true)]) c l2 = k ++ join_right (d + c) l2.
Proof. unfold join. by rewrite last_snoc, removelast_last. Qed.

Lemma join_not_free l1 c l2 : no_free_last l1 -> join l1 c l2 = l1 ++ join_right c l2.
Proof.
  intros H. unfold join. destruct l1 as [|[d []] k _] using rev_ind; [done|by destruct (H k d)|].
  by rewrite last_snoc.
Qed.

Lemma join_right_not_free c l2 : no_free_head l2 -> join_right c l2 = (c, true) :: l2.
Proof. intros H. destruct l2 as [|[d []] l2]; [done|by destruct (H d l2)|done]. Qed.

(** A free chunk fits between chunks that are not free. *)
Lemma coalesced_mark l1 c d x l2 :
  no_free_last l1 -> no_free_head l2 -> coalesced (l1 ++ (c, x) :: l2) -> coalesced (l1 ++ (d, true) :: l2).
Proof.
  intros H1 H2 [Hl Hr]%coalesced_app. apply coalesced_join.
  - clear Hr H2. induction l1 as [|[y z] l1 IH]; [done|]. destruct l1 as [|[y' z'] l1]; simpl in *.
    + destruct z; [by destruct (H1 [] y)|done].
    + destruct Hl as [Hyz Hl]. split; [done|]. apply IH; [|done].
      intros k e E. apply (H1 ((y, z) :: k) e). by rewrite E.
  - destruct l2 as [|[y []] l2]; [done|by destruct (H2 y l2)|]. simpl in *. tauto.
Qed.

Lemma coalesced_right l1 c l2 :
  no_free_last l1 -> coalesced (l1 ++ (c, false) :: l2) -> coalesced (l1 ++ join_right c l2).
Proof.
  intros H1 Hco. destruct l2 as [|[d []] l2]; simpl; [by eapply coalesced_mark| |by eapply coalesced_mark].
  destruct (coalesced_app _ _ _ Hco) as [Hl Hr]. simpl in Hr. destruct Hr as [_ Hr].
  eapply (coalesced_mark _ c _ false); [done| |].
  - intros e k ->. simpl in Hr. by destruct Hr.
  - apply coalesced_join; [done|]. destruct l2 as [|[y z] l2]; [done|]. simpl in *. tauto.
Qed.

Lemma coalesced_left k d c l2 :
  coalesced (k ++ (d, true) :: (c, false) :: l2) -> no_free_last k /\ coalesced (k ++ (d + c, false) :: l2).
Proof.
  intros [Hl Hr]%coalesced_app. split.
  - intros j e ->. rewrite <- app_assoc in Hl. simpl in Hl. apply coalesced_app in Hl as [_ Hl].
    simpl in Hl. by destruct Hl.
  - apply coalesced_join.
    + clear Hr. induction k as [|[y z] k IH]; [done|]. destruct k as [|[y' z'] k]; simpl in *.
      * split; [apply andb_false_r|done].
      * destruct Hl as [? Hl]. split; [done|]. by apply IH.
    + destruct l2 as [|[y z] l2]; [done|]. simpl in *. tauto.
Qed.

(** The second half of the release, once the left neighbour is joined. *)
Lemma runs_free_right k c l2 R (p := a + 2 ^ b * total k) :
  releasing (k ++ (c, false) :: l2) R -> no_free_last k -> coalesced (k ++ (c, false) :: l2) ->
  runs (x ← get_prefix p;
        rbn ← addr_lub (pfx x);
        (match rbn with
         | Some l =>
             let q := addr_of l in
             let r := p + Z.shiftl (count x) b in
             if r =? q then
               trees_del q;;
               y ← get_prefix q;
               set_prefix p (MmPrefix (u64 (count x + count y)) (pfx x))
             else mret tt
         | None => mret tt
         end);;
        x ← get_prefix p;
        set_prefix p (MmPrefix (count x) p);;
        trees_ins p;;
        mm_unlock) R (fun _ => heap_ok (k ++ join_right c l2)).
Proof.
  intros Hr Hno Hco. pose proof (coalesced_right _ _ _ Hno Hco) as Hco'.
  apply runs_bind. eapply runs_release_prefix; [done|]. cbn [pfx count].
  apply runs_bind_assoc, runs_bind, (runs_right k c l2); [done| |].
  - intros d k2 R' -> Hr'. by apply runs_put_back.
  - intros Hnh. rewrite join_right_not_free in * by done. by apply runs_put_back.
Qed.

Lemma runs_mm_free l1 c l2 R :
  heap_ok (l1 ++ (c, false) :: l2) R ->
  runs (mm_free false (a + 2 ^ b * total l1 + mm_prefix_size)) R (fun _ => heap_ok (join l1 c l2)).
Proof.
  intros [Hg Hfit Ht Hpre Hco Hlk]. pose proof Hg as [Hb _ Eb _ _ _].
  destruct (in_region _ _ _ _ R Hg Hfit) as (_ & _ & Hp3).
  unfold mm_free. rewrite (proj2 (Z.eqb_neq _ _)) by (unfold mm_prefix_size; lia).
  apply runs_bind, runs_get. cbv zeta. rewrite Eb, Z.add_simpl_r.
  apply runs_bind, runs_lock; [done|].
  assert (releasing (l1 ++ (c, false) :: l2) (with_locked true R)) as Hr
    by (split_and!; try done; split_and!; [by apply geometry_locked|done|done]).
  apply runs_bind. eapply runs_release_prefix; [done|]. cbn [pfx].
  apply runs_bind_assoc, runs_bind, (runs_left l1 c l2); [done| |].
  - intros k d R' -> Hr'. rewrite join_free. rewrite <- app_assoc in Hco.
    apply coalesced_left in Hco as [Hno Hco]. by apply runs_free_right.
  - intros Hno. rewrite join_not_free by done. by apply runs_free_right.
Qed.

(** ** Resizing *)

Lemma bind_none {A B} (m : M (mm_region T) A) (f : A -> M (mm_region T) B) R :
  runs m R (fun x R' => f x R' = None) -> (m ≫= f) R = None.
Proof. intros (x & R' & Hm & Hf). unfold mbind, M_bind. by rewrite Hm. Qed.

Lemma mm_alloc_locked size R : locked R = true -> mm_alloc size R = None.
Proof. intros H. unfold mm_alloc, get, mm_lock, mbind, M_bind. cbv zeta beta iota. by rewrite H. Qed.

Lemma bind_stuck {A B} (m : M (mm_region T) A) (f : A -> M (mm_region T) B) R : m R = None -> (m ≫= f) R = None.
Proof. intros H. unfold mbind, M_bind. by rewrite H. Qed.

(** Without room behind the chunk, [mm_realloc] calls [mm_alloc] with the lock
    held and waits for itself. *)
Lemma mm_realloc_stuck l1 c l2 newsize dis R (n := grains b newsize) :
  heap_ok (l1 ++ (c, false) :: l2) R -> 0 <= newsize -> newsize + 2 ^ b <= 2 ^ 64 ->
  (forall d k, l2 = (d, true) :: k -> c + d < n) ->
  mm_realloc dis (a + 2 ^ b * total l1 + mm_prefix_size) newsize R = None.
Proof.
  intros [Hg Hfit Ht Hpre Hco Hlk] H0 Hmax Hno. pose proof Hg as [Hb Eg Eb _ _ _].
  destruct (geometry_pos b a sz R Hg) as [Hpos Ha].
  unfold mm_realloc. apply bind_none, runs_get. cbv zeta. rewrite Eg, Eb, Z.add_simpl_r.
  rewrite roundup_count by lia. fold n. apply bind_none, runs_lock; [done|].
  set (R1 := with_locked true R). assert (releasing (l1 ++ (c, false) :: l2) R1) as Hr
    by (split_and!; try done; split_and!; [by apply geometry_locked|done|done]).
  apply bind_none. eapply runs_release_prefix; [done|]. cbn [pfx count].
  pose proof Hr as ((Hg1 & _) & _ & Ht1 & _).
  apply bind_none, (runs_addr_lub b a sz l1 c l2); [done|done|done| | |].
  - intros d k ->. specialize (Hno d k eq_refl).
    assert (a + 2 ^ b * total l1 + 2 ^ b * c = a + 2 ^ b * total (l1 ++ [(c, false)])) as Eq
      by (rewrite total_app; simpl; lia).
    assert (releasing ((l1 ++ [(c, false)]) ++ (d, true) :: k) R1) as Hr' by (by rewrite <- app_assoc).
    pose proof Hr' as (_ & Hfit' & _). destruct (in_region _ _ _ _ R1 Hg1 Hfit') as (_ & _ & Hp3).
    pose proof (fits_count _ _ _ Hfit) as Hcnt. pose proof (fits_sizes _ _ _ Hfit) as Hs.
    apply Forall_app in Hs as [Hs1%total_nonneg [Hc [Hd Hs2%total_nonneg]%Forall_cons]%Forall_cons].
    rewrite total_app in Hcnt. simpl in Hc, Hd, Hcnt.
    rewrite Eq, addr_loc by done. apply bind_none, runs_bind. eapply runs_release_prefix; [done|]. cbn [count].
    rewrite u64_small, (proj2 (Z.leb_gt n _)), andb_false_r by lia. apply runs_ret, bind_stuck, mm_alloc_locked. done.
  - intros _. apply bind_none, runs_ret, bind_stuck, mm_alloc_locked. done.
  - intros _ k1 d k2 Heq Hne. pose proof Hr as Hr'. rewrite Heq in Hr', Hfit.
    destruct (in_region _ _ _ _ R1 Hg1 Hfit) as (_ & _ & Hp3). rewrite addr_loc by done.
    apply bind_none, runs_bind. eapply runs_release_prefix; [done|].
    rewrite Z.shiftl_mul_pow2, (proj2 (Z.eqb_neq _ _)) by lia. apply runs_ret, bind_stuck, mm_alloc_locked. done.
Qed.

Lemma coalesced_resize l1 c d n k :
  coalesced (l1 ++ (c, false) :: (d, true) :: k) -> coalesced (l1 ++ cut n (c + d) ++ k).
Proof.
  intros [Hl Hr]%coalesced_app. simpl in Hr. destruct Hr as [_ Hr].
  assert (coalesced (l1 ++ [(n, false)])) as Hl'.
  { clear -Hl. induction l1 as [|[x y] l1 IH]; [done|]. destruct l1 as [|[x' y'] l1]; simpl in *; [done|].
    destruct Hl. split; [done|]. by apply IH. }
  unfold cut. case_decide; simpl; apply coalesced_join; try done;
    destruct k as [|[y z] k]; simpl in *; try done; tauto.
Qed.

(** With room behind the chunk, it is resized in place to the grains of the
    new size, the prefix not counted. *)
Lemma runs_mm_realloc l1 c d k newsize dis R (n := grains b newsize) (r := a + 2 ^ b * total l1 + mm_prefix_size) :
  heap_ok (l1 ++ (c, false) :: (d, true) :: k) R -> 0 < newsize -> newsize + 2 ^ b <= 2 ^ 64 -> n <= c + d ->
  runs (mm_realloc dis r newsize) R (fun r' R' => r' = r /\ heap_ok (l1 ++ cut n (c + d) ++ k) R').
Proof.
  intros [Hg Hfit Ht Hpre Hco Hlk] H0 Hmax Hn. pose proof Hg as [Hb Eg Eb _ _ _].
  destruct (geometry_pos b a sz R Hg) as [Hpos Ha].
  pose proof (grains_enough b newsize ltac:(lia)) as Hge. fold n in Hge. assert (0 < n) by nia.
  unfold mm_realloc. apply runs_bind, runs_get. cbv zeta. subst r. rewrite Eg, Eb, Z.add_simpl_r.
  rewrite roundup_count by lia. fold n. apply runs_bind, runs_lock; [done|].
  set (R1 := with_locked true R). assert (releasing (l1 ++ (c, false) :: (d, true) :: k) R1) as Hr
    by (split_and!; try done; split_and!; [by apply geometry_locked|done|done]).
  apply runs_bind. eapply runs_release_prefix; [done|]. cbn [pfx count].
  pose proof Hr as ((Hg1 & _) & _ & Ht1 & _).
  assert (a + 2 ^ b * total l1 + 2 ^ b * c = a + 2 ^ b * total (l1 ++ [(c, false)])) as Eq
    by (rewrite total_app; simpl; lia).
  assert (releasing ((l1 ++ [(c, false)]) ++ (d, true) :: k) R1) as Hr' by (by rewrite <- app_assoc).
  pose proof Hr' as (_ & Hfit' & _). destruct (in_region _ _ _ _ R1 Hg1 Hfit') as (_ & _ & Hp3).
  pose proof (fits_count _ _ _ Hfit) as Hcnt. pose proof (fits_sizes _ _ _ Hfit) as Hs.
  apply Forall_app in Hs as [Hs1%total_nonneg [Hc [Hd Hs2%total_nonneg]%Forall_cons]%Forall_cons].
  rewrite total_app in Hcnt. simpl in Hc, Hd, Hcnt.
  apply runs_bind, (runs_addr_lub b a sz l1 c ((d, true) :: k)); [done|done|done| |by intros Hno; destruct (Hno d k)|by intros Hno; destruct (Hno d k)].
  intros d' k' [= <- <-]. rewrite Eq, addr_loc by done. apply runs_bind, runs_bind.
  eapply runs_release_prefix; [done|]. cbn [count].
  rewrite u64_small, Z.shiftl_mul_pow2, (Z.mul_comm c), Eq, Z.eqb_refl, (proj2 (Z.leb_le n _)) by lia. cbn [andb].
  apply runs_bind. eapply runs_release_del; [done|]. intros R2 Hr2. rewrite <- app_assoc in Hr2. simpl in Hr2.
  destruct Hr2 as (Hw2 & Hfit2 & Ht2 & Hpre2).
  apply (chunk_prefixes_app (2 ^ b)) in Hpre2 as [Hp1 [_ [_ Hp2]]].
  apply runs_bind_assoc. apply runs_bind.
  eapply (runs_carve l1 (c + d) k n); [done|by eapply fits_join|by apply trees_join|done| |lia|].
  { by replace (a + 2 ^ b * total l1 + 2 ^ b * (c + d)) with (a + 2 ^ b * total l1 + 2 ^ b * c + 2 ^ b * d) by lia. }
  intros R3 m' Hw3 Ht3 Hfit3 Hpre3. apply runs_ret. cbn [negb]. apply runs_bind.
  eapply runs_unlock; [done|done|]. intros R4 Hw4 Ht4. apply runs_ret. split; [done|].
  pose proof Hw4 as (_ & _ & E). rewrite <- E in *. apply heap_ok_intro; try done. by apply (coalesced_resize l1 c d).
Qed.
End ops.
