(* ===== verification/MmallocProps.v ===== *)
(** * The allocator of metric sets: properties

    Stated for every index that keeps the promise of [OrderedIndex]; the
    witnesses run the allocator over the red-black tree of rbt.c. *)

From stdpp Require Import prelude gmap.
From S2P Require Import Prelude Rbt OrdIndex Mmalloc Chunks MmallocSpec MmallocOps.

(** ** Powers of two *)

Lemma get_pow2_loop_ok fuel n k :
  0 <= k <= 63 -> n <= 2 ^ 63 -> (Z.to_nat (63 - k) < fuel)%nat -> (0 < k -> 2 ^ (k - 1) < n) ->
  exists j, get_pow2_loop fuel n (2 ^ k) k = Some (2 ^ j, j) /\ k <= j <= 63 /\ n <= 2 ^ j /\
    (0 < j -> 2 ^ (j - 1) < n).
Proof.
  revert k. induction fuel as [|fuel IH]; intros k Hk Hn Hf Hlow; [lia|]. cbn [get_pow2_loop].
  destruct (Z.ltb_spec (2 ^ k) n) as [Hlt|Hge]; [|exists k; split_and!; try done; lia].
  assert (k < 63) as Hk63. { destruct (decide (k = 63)) as [->|]; lia. }
  assert (2 ^ k * 2 = 2 ^ (k + 1)) as E by (rewrite Z.pow_add_r by lia; lia).
  rewrite E, u64_small.
  - destruct (IH (k + 1)) as (j & Hj & Hr & Hn' & Hl); [lia|done|lia| |].
    + intros _. by replace (k + 1 - 1) with k by lia.
    + exists j. split_and!; try done; lia.
  - split; [apply Z.pow_nonneg; lia|]. change 18446744073709551616 with (2 ^ 64).
    apply Z.pow_lt_mono_r; lia.
Qed.

Lemma get_pow2_ok n :
  n <= 2 ^ 63 -> exists j, get_pow2 n = Some (2 ^ j, j) /\ 0 <= j <= 63 /\ n <= 2 ^ j /\ (0 < j -> 2 ^ (j - 1) < n).
Proof.
  intros Hn. destruct (get_pow2_loop_ok 65 n 0) as (j & Hj & Hr & H1 & H2); [lia|done|lia|lia|].
  exists j. split_and!; try done; lia.
Qed.

Section props.
Context {T : Type} `{!IndexOps T} `{!OrderedIndex T compare_count count_key}
  `{!OrderedIndex T compare_addr (fun _ => True)}.
Implicit Types R : mm_region T.

(** A region just obtained is one free chunk. *)
Lemma mm_init_heap b a size grain (sz := mask_roundup size 4096) :
  get_pow2 grain = Some (2 ^ b, b) -> 0 <= b < 64 -> mm_prefix_size <= 2 ^ b ->
  0 < a -> a + sz < 2 ^ 64 -> 0 < sz / 2 ^ b < 2147483648 ->
  exists R : mm_region T, mm_init true (inl a) size grain = Some (0, Some R) /\
    heap_ok b a sz [(sz / 2 ^ b, true)] R.
Proof.
  intros Hp Hb Hpre Ha Hend Hc. set (c := sz / 2 ^ b) in *.
  assert (0 < 2 ^ b) by (unfold mm_prefix_size in *; lia).
  assert (2 ^ b * c <= sz) as Hfit by (subst c; apply Z.mul_div_le; lia).
  set (R0 := MmRegion (2 ^ b) b sz a false ix_empty ix_empty ∅ : mm_region T).
  assert (region_with b a sz false ∅ R0) as Hw.
  { split_and!; [by split|done|done]. }
  assert (trees_ok b a [(c, false)] R0) as Ht by (split; apply ix_holds_empty).
  assert (fits b sz [(c, false)]) as Hf.
  { split; [repeat constructor; simpl; lia|simpl; lia..]. }
  assert (runs (set_prefix a (MmPrefix c a);; trees_ins a) R0 (fun _ => heap_ok b a sz [(c, true)])) as (u & R & Hrun & Hok).
  { apply runs_bind. eapply runs_set_prefix; [done|done|lia|unfold mm_prefix_size in *; nia|].
    intros R1 Hw1 Ht1. pose proof (runs_trees_ins b a sz [] c [] R1) as Hins. cbv zeta in Hins.
    replace (a + 2 ^ b * total []) with a in Hins by (simpl; lia).
    eapply Hins; [done|done|done|apply lookup_insert_eq|].
    intros R2 Hw2 Ht2. pose proof Hw2 as (_ & _ & E). rewrite <- E in Hw2.
    apply heap_ok_intro; [done|by eapply (fits_mark _ _ [] c false)|done| |done].
    simpl. rewrite E. split; [apply lookup_insert_eq|done]. }
  exists R. split; [|done]. unfold mm_init. cbn [negb]. fold sz. cbv zeta. rewrite Hp.
  cbn [mbind option_bind] in Hrun |- *. fold c R0. by rewrite Hrun.
Qed.

(** A heap whose grain holds a prefix starts as one free chunk of all the
    whole grains of the region, the grain rounded up to the least power of
    two. *)
Theorem mm_init_correct a size grain (sz := mask_roundup size 4096) :
  64 < grain <= 2 ^ 63 -> 0 < a -> a + sz < 2 ^ 64 -> grain * 2 <= sz -> sz < 2147483648 * grain ->
  exists b (R : mm_region T), mm_init true (inl a) size grain = Some (0, Some R) /\
    grain <= 2 ^ b < 2 * grain /\ heap_ok b a sz [(sz / 2 ^ b, true)] R.
Proof.
  intros Hg Ha Hend Hmin Hmax. destruct (get_pow2_ok grain) as (b & Hp & Hb & Hle & Hlow); [lia|].
  assert (6 < b) as Hb6.
  { destruct (Z.ltb_spec 6 b); [done|]. assert (2 ^ b <= 2 ^ 6) by (apply Z.pow_le_mono_r; lia). lia. }
  specialize (Hlow ltac:(lia)). assert (2 ^ b = 2 * 2 ^ (b - 1)) as E.
  { rewrite <- Z.pow_succ_r by lia. f_equal. lia. }
  assert (2 ^ 7 <= 2 ^ b) by (apply Z.pow_le_mono_r; lia).
  destruct (mm_init_heap b a size grain) as (R & HR & Hok); try done; [lia|unfold mm_prefix_size; lia| |].
  - fold sz. split; [apply Z.div_str_pos; lia|apply Z.div_lt_upper_bound; lia].
  - exists b, R. split_and!; [done|lia|lia|done].
Qed.

(** C12: on a heap in order, [mm_alloc] returns and takes the smallest free
    chunk with room for the size and the prefix, cuts off exactly the grains
    needed at its front, and returns the address after the prefix, 96 bytes
    into the chunk (mmalloc.h promises an address on a grain boundary); the
    heap stays in order (both trees, every prefix, no free neighbours left
    apart).  It returns the null pointer only when no free chunk has room, and
    changes nothing then.  The size needs less than 2^31 grains. *)
Theorem mm_alloc_correct b a sz size l R (n := grains b (size + mm_prefix_size)) :
  heap_ok b a sz l R -> 0 <= size -> size + mm_prefix_size + 2 ^ b <= 2 ^ 64 -> n < 2147483648 ->
  runs (mm_alloc size) R (fun r R' =>
    allocated b a sz n l r R' /\ size <= n * 2 ^ b - mm_prefix_size < size + 2 ^ b).
Proof.
  intros Hok H0 Hmax Hn. pose proof (ok_geometry _ _ _ _ _ Hok) as [Hb _ _ _ _ _].
  eapply runs_mono; [by apply runs_mm_alloc|]. intros r R' Hr. split; [done|].
  pose proof (grains_enough b (size + mm_prefix_size)). lia.
Qed.

(** C13: freeing an allocated chunk returns, makes it free and joins it with
    the free chunks on both sides; the heap stays in order. *)
Theorem mm_free_correct b a sz l1 c l2 R :
  heap_ok b a sz (l1 ++ (c, false) :: l2) R ->
  runs (mm_free false (a + 2 ^ b * total l1 + mm_prefix_size)) R
    (fun _ => heap_ok b a sz (join l1 c l2)).
Proof. apply runs_mm_free. Qed.

(** C39: Freeing what was just allocated restores the chunks of the heap. *)
Theorem mm_alloc_free_roundtrip b a sz size l R (n := grains b (size + mm_prefix_size)) :
  heap_ok b a sz l R -> 0 <= size -> size + mm_prefix_size + 2 ^ b <= 2 ^ 64 -> n < 2147483648 ->
  runs (p ← mm_alloc size; mm_free false p) R (fun _ => heap_ok b a sz l).
Proof.
  intros Hok H0 Hmax Hn. apply runs_bind. eapply runs_mono; [by apply runs_mm_alloc|].
  intros r R' [(-> & _ & Hok')|(l1 & c & l2 & -> & Hle & _ & -> & Hok')]; [by apply runs_ret|].
  pose proof (ok_coalesced _ _ _ _ _ Hok) as Hco. fold n in Hle, Hok'.
  unfold cut in Hok'. cbn [app] in Hok'.
  eapply runs_mono; [by eapply (runs_mm_free b a sz l1 n)|]. simpl. intros _ R2.
  replace (join l1 n _) with (l1 ++ (c, true) :: l2); [done|].
  destruct (coalesced_app _ _ _ Hco) as [Hl Hr]. rewrite join_not_free.
  - f_equal. case_decide as E; simpl; [|by replace (n + (c - n)) with c by lia].
    subst c. rewrite join_right_not_free; [done|]. intros d k ->. simpl in Hr. by destruct Hr.
  - intros k d ->. rewrite <- app_assoc in Hl. apply coalesced_app in Hl as [_ Hl]. simpl in Hl. by destruct Hl.
Qed.

(** C40: [mm_realloc] never returns when the chunk cannot grow in place: it
    calls [mm_alloc] with the lock held.  When it can, the chunk gets the
    grains of the new size without the prefix, so that at a multiple of the
    grain the user has fewer bytes than asked for. *)
Theorem mm_realloc_contract b a sz l1 c l2 newsize dis R (n := grains b newsize)
    (r := a + 2 ^ b * total l1 + mm_prefix_size) :
  heap_ok b a sz (l1 ++ (c, false) :: l2) R -> 0 < newsize -> newsize + 2 ^ b <= 2 ^ 64 ->
  ((forall d k, l2 = (d, true) :: k -> c + d < n) -> mm_realloc dis r newsize R = None) /\
  (forall d k, l2 = (d, true) :: k -> n <= c + d ->
     runs (mm_realloc dis r newsize) R (fun r' R' =>
       r' = r /\ heap_ok b a sz (l1 ++ cut n (c + d) ++ k) R' /\
       (newsize mod 2 ^ b = 0 -> n * 2 ^ b - mm_prefix_size < newsize))).
Proof.
  intros Hok H0 Hmax. split; [intros; eapply mm_realloc_stuck; [done|lia|done|done]|].
  intros d k -> Hn. eapply runs_mono; [by apply (runs_mm_realloc b a sz l1 c d k)|].
  intros r' R' [-> Hok']. split_and!; [done|done|]. intros Hmod.
  pose proof (ok_geometry _ _ _ _ _ Hok) as [Hb _ _ _ _ _].
  assert (0 < 2 ^ b) by (apply Z.pow_pos_nonneg; lia).
  subst n. unfold grains. apply Z.mod_divide in Hmod as [q ->]; [|lia].
  rewrite Z.add_comm, Z.div_add, (Z.div_small (2 ^ b - 1)) by lia. unfold mm_prefix_size. lia.
Qed.
End props.

(** ** Witnesses: the allocator over the red-black tree *)

Definition ex_size : Z := 65536.
Definition ex_region : mm_region (rbt Z) :=
  match mm_init true (inl 4096) ex_size 1024 with
  | Some (_, Some R) => R
  | _ => MmRegion 0 0 0 0 false ix_empty ix_empty ∅
  end.

Lemma ex_heap : heap_ok 10 4096 ex_size [(64, true)] ex_region.
Proof.
  destruct (mm_init_heap (T := rbt Z) 10 4096 ex_size 1024) as (R & HR & Hok);
    [vm_compute; reflexivity|lia|vm_compute; discriminate|lia|vm_compute; reflexivity|vm_compute; split; reflexivity|].
  unfold ex_region. rewrite HR. exact Hok.
Qed.

Lemma mm_init_correct_witness :
  exists b (R : mm_region (rbt Z)), mm_init true (inl 4096) 65536 1000 = Some (0, Some R) /\
    1000 <= 2 ^ b < 2 * 1000 /\ heap_ok b 4096 65536 [(65536 / 2 ^ b, true)] R.
Proof.
  apply (mm_init_correct (T := rbt Z) 4096 65536 1000);
    [split; [lia|vm_compute; discriminate]|lia|vm_compute; reflexivity|vm_compute; discriminate|vm_compute; reflexivity].
Defined.

Lemma mm_alloc_correct_witness :
  runs (mm_alloc 2000) ex_region (fun r R' =>
    allocated 10 4096 ex_size (grains 10 (2000 + 96)) [(64, true)] r R' /\
    2000 <= grains 10 (2000 + 96) * 2 ^ 10 - 96 < 2000 + 2 ^ 10).
Proof.
  apply (mm_alloc_correct 10 4096 ex_size 2000 [(64, true)] ex_region ex_heap);
    [lia|vm_compute; discriminate|vm_compute; reflexivity].
Defined.

(** The same heap after an allocation of three grains. *)
Definition ex_region2 : mm_region (rbt Z) :=
  match mm_alloc 2000 ex_region with Some (_, R) => R | None => ex_region end.

Lemma ex_heap2 : heap_ok 10 4096 ex_size [(3, false); (61, true)] ex_region2.
Proof.
  destruct (runs_mm_alloc 10 4096 ex_size 2000 [(64, true)] ex_region ex_heap) as (r & R & Hrun & Hr);
    [lia|vm_compute; discriminate|vm_compute; reflexivity|].
  unfold ex_region2. rewrite Hrun. change (grains 10 (2000 + mm_prefix_size)) with 3 in Hr.
  destruct Hr as [(_ & Hno & _)|(l1 & c & l2 & Heq & _ & _ & _ & Hok)].
  - assert (64 < 3) by (apply Hno, elem_of_cons; by left). lia.
  - destruct l1 as [|x l1]; [|by destruct l1]. simpl in Heq. injection Heq as <- <-. exact Hok.
Qed.

Lemma mm_free_correct_witness :
  runs (mm_free false (4096 + 2 ^ 10 * 0 + 96)) ex_region2 (fun _ => heap_ok 10 4096 ex_size [(3 + 61, true)]).
Proof. apply (mm_free_correct 10 4096 ex_size [] 3 [(61, true)] ex_region2 ex_heap2). Defined.

Lemma mm_alloc_free_roundtrip_witness :
  runs (p ← mm_alloc 5000; mm_free false p) ex_region2
    (fun _ => heap_ok 10 4096 ex_size [(3, false); (61, true)]).
Proof.
  apply (mm_alloc_free_roundtrip 10 4096 ex_size 5000 [(3, false); (61, true)] ex_region2 ex_heap2);
    [lia|vm_compute; discriminate|vm_compute; reflexivity].
Defined.

Lemma mm_realloc_contract_witness :
  mm_realloc false (4096 + 2 ^ 10 * 0 + 96) 1000000 ex_region2 = None /\
  runs (mm_realloc false (4096 + 2 ^ 10 * 0 + 96) 4096) ex_region2 (fun r' R' =>
    r' = 4192 /\ heap_ok 10 4096 ex_size [(4, false); (60, true)] R' /\ (4096 mod 2 ^ 10 = 0 -> 4 * 2 ^ 10 - 96 < 4096)).
Proof.
  split.
  - apply (proj1 (mm_realloc_contract 10 4096 ex_size [] 3 [(61, true)] 1000000 false ex_region2 ex_heap2
      ltac:(lia) ltac:(vm_compute; discriminate))).
    intros d k Heq. injection Heq as <- <-. vm_compute. reflexivity.
  - apply (proj2 (mm_realloc_contract 10 4096 ex_size [] 3 [(61, true)] 4096 false ex_region2 ex_heap2
      ltac:(lia) ltac:(vm_compute; discriminate)) 61 [] eq_refl).
    vm_compute. discriminate.
Defined.

(** A request of 2^42 bytes takes 2^32 + 1 grains, which the callback compares
    as 1: the allocator takes a chunk of 64 grains for it and writes the
    remainder's prefix outside the region. *)
Example mm_alloc_huge_traps : mm_alloc (2 ^ 42) ex_region = None.
Proof. vm_compute. reflexivity. Qed.
