(* ===== verification/Event.v ===== *)
(** * The event scheduler: model

    lib/src/ovis_event/ovis_event.c: the binary heap of timer events, the
    computation of wake-up times, and the scheduler with its one-shot queue.
    Events live in a store of their own because the heap holds pointers to
    them and writes their [priv.idx] back-pointers.  The lock [m->mutex] is
    held over the whole of each modelled section, so the sections are atomic
    steps. *)

From stdpp Require Import prelude gmap sorting.
From S2P Require Import Prelude.

Abbreviation loc := positive.

(** ** struct timeval *)

Record timeval := Timeval { tv_sec : Z; tv_usec : Z }.

#[export] Instance timeval_eq_dec : EqDecision timeval.
Proof. solve_decision. Defined.

Definition USEC : Z := 1000000.

(** [timercmp(a, b, <)], [timeradd] and [timersub] of <sys/time.h>. *)
Definition timer_lt (a b : timeval) : bool :=
  if tv_sec a =? tv_sec b then tv_usec a <? tv_usec b else tv_sec a <? tv_sec b.

Definition timeradd (a b : timeval) : timeval :=
  let sec := tv_sec a + tv_sec b in
  let usec := tv_usec a + tv_usec b in
  if 1000000 <=? usec then Timeval (sec + 1) (usec - 1000000) else Timeval sec usec.

Definition timersub (a b : timeval) : timeval :=
  let sec := tv_sec a - tv_sec b in
  let usec := tv_usec a - tv_usec b in
  if usec <? 0 then Timeval (sec - 1) (usec + 1000000) else Timeval sec usec.

(** ** Events *)

Definition OVIS_EVENT_EPOLL : Z := 1.
Definition OVIS_EVENT_TIMEOUT : Z := 2.
Definition OVIS_EVENT_EPOLL_TIMEOUT : Z := 3.
Definition OVIS_EVENT_PERIODIC : Z := 4.
Definition OVIS_EVENT_ONESHOT : Z := 8.

(** The anonymous union of [param]. *)
Inductive time_param :=
| TP_none
| TP_timeout (tv : timeval)
| TP_periodic (period_us phase_us : Z).

Record event := Event {
  ev_type : Z;
  ev_epoll_events : Z;
  ev_fd : Z;
  ev_time : time_param;
  cb_type : Z;
  cb_epoll_events : Z;
  ev_tv : timeval;
  ev_idx : Z
}.

Definition set_ev_tv (tv : timeval) (e : event) : event :=
  Event (ev_type e) (ev_epoll_events e) (ev_fd e) (ev_time e) (cb_type e) (cb_epoll_events e) tv (ev_idx e).
Definition set_ev_idx (i : Z) (e : event) : event :=
  Event (ev_type e) (ev_epoll_events e) (ev_fd e) (ev_time e) (cb_type e) (cb_epoll_events e) (ev_tv e) i.
Definition set_cb_type (t : Z) (e : event) : event :=
  Event (ev_type e) (ev_epoll_events e) (ev_fd e) (ev_time e) t (cb_epoll_events e) (ev_tv e) (ev_idx e).
Definition set_cb_events (x : Z) (e : event) : event :=
  Event (ev_type e) (ev_epoll_events e) (ev_fd e) (ev_time e) (cb_type e) x (ev_tv e) (ev_idx e).
Definition set_epoll_events (x : Z) (e : event) : event :=
  Event (ev_type e) x (ev_fd e) (ev_time e) (cb_type e) (cb_epoll_events e) (ev_tv e) (ev_idx e).

(** [calloc] zeroes what the constructors do not set. *)
Definition ovis_event_epoll_new (fd epoll_events : Z) : event :=
  Event OVIS_EVENT_EPOLL epoll_events fd TP_none 0 0 (Timeval 0 0) (-1).
Definition ovis_event_timeout_new (timeout : timeval) : event :=
  Event OVIS_EVENT_TIMEOUT 0 0 (TP_timeout timeout) 0 0 (Timeval 0 0) (-1).
Definition ovis_event_epoll_timeout_new (fd epoll_events : Z) (timeout : timeval) : event :=
  Event OVIS_EVENT_EPOLL_TIMEOUT epoll_events fd (TP_timeout timeout) 0 0 (Timeval 0 0) (-1).
Definition ovis_event_periodic_new (period_us phase_us : Z) : event :=
  Event OVIS_EVENT_PERIODIC 0 (-1) (TP_periodic period_us phase_us) 0 0 (Timeval 0 0) (-1).

(** ** The scheduler *)

Inductive manager_state :=
| OVIS_EVENT_MANAGER_INIT
| OVIS_EVENT_MANAGER_RUNNING
| OVIS_EVENT_MANAGER_WAITING
| OVIS_EVENT_MANAGER_TERM.

#[export] Instance manager_state_eq_dec : EqDecision manager_state.
Proof. solve_decision. Defined.

(** [harr] is the flexible array [heap->ev]; slots that were never written are
    [None].  [wakeups] counts the notifications written to the pipe. *)
Record sched := Sched {
  events : gmap loc event;
  alloc_len : Z;
  heap_len : Z;
  harr : list (option loc);
  oneshot_tq : list loc;
  evcount : Z;
  refcount : Z;
  mstate : manager_state;
  wakeups : Z;
  destroyed : bool
}.

Definition with_events m s := Sched m (alloc_len s) (heap_len s) (harr s) (oneshot_tq s) (evcount s) (refcount s) (mstate s) (wakeups s) (destroyed s).
Definition with_heap_len n s := Sched (events s) (alloc_len s) n (harr s) (oneshot_tq s) (evcount s) (refcount s) (mstate s) (wakeups s) (destroyed s).
Definition with_harr a s := Sched (events s) (alloc_len s) (heap_len s) a (oneshot_tq s) (evcount s) (refcount s) (mstate s) (wakeups s) (destroyed s).
Definition with_tq q s := Sched (events s) (alloc_len s) (heap_len s) (harr s) q (evcount s) (refcount s) (mstate s) (wakeups s) (destroyed s).
Definition with_evcount n s := Sched (events s) (alloc_len s) (heap_len s) (harr s) (oneshot_tq s) n (refcount s) (mstate s) (wakeups s) (destroyed s).
Definition with_refcount n s := Sched (events s) (alloc_len s) (heap_len s) (harr s) (oneshot_tq s) (evcount s) n (mstate s) (wakeups s) (destroyed s).
Definition with_state x s := Sched (events s) (alloc_len s) (heap_len s) (harr s) (oneshot_tq s) (evcount s) (refcount s) x (wakeups s) (destroyed s).
Definition with_wakeups n s := Sched (events s) (alloc_len s) (heap_len s) (harr s) (oneshot_tq s) (evcount s) (refcount s) (mstate s) n (destroyed s).
Definition with_destroyed b s := Sched (events s) (alloc_len s) (heap_len s) (harr s) (oneshot_tq s) (evcount s) (refcount s) (mstate s) (wakeups s) b.


(** Loads and stores of an event, and of a slot of the heap array. *)
Definition ld_ev (p : loc) : M sched event := s ← get; lift_opt (events s !! p).
Definition upd_ev (p : loc) (f : event -> event) : M sched unit :=
  s ← get; e ← lift_opt (events s !! p); put (with_events (<[p := f e]> (events s)) s).
Definition ev_at (i : Z) : M sched loc :=
  s ← get;
  if (i <? 0) || (Z.of_nat (length (harr s)) <=? i) then stuck else
  match harr s !! Z.to_nat i with
  | Some (Some p) => mret p
  | _ => stuck
  end.
Definition ev_set (i : Z) (p : loc) : M sched unit :=
  s ← get;
  if (0 <=? i) && (i <? Z.of_nat (length (harr s)))
  then put (with_harr (<[Z.to_nat i := Some p]> (harr s)) s) else stuck.

Definition heap_fuel : M sched nat := gets (fun s => S (length (harr s))).

Definition ovis_event_heap_create (n : Z) : Z * Z * list (option loc) :=
  (n, 0, replicate (Z.to_nat n) None).

Definition ovis_event_lt (p q : loc) : M sched bool :=
  e0 ← ld_ev p; e1 ← ld_ev q; mret (timer_lt (ev_tv e0) (ev_tv e1)).

Definition ovis_event_heap_float (idx : Z) : M sched unit :=
  e ← ev_at idx;
  f ← heap_fuel;
  i ← loopM f (fun idx =>
    if idx =? 0 then mret (inr idx) else
    let pidx := Z.quot (idx - 1) 2 in
    pe ← ev_at pidx;
    lt ← ovis_event_lt e pe;
    if negb lt then mret (inr idx) else
    ev_set idx pe;;
    pe ← ev_at pidx; upd_ev pe (set_ev_idx idx);;
    mret (inl pidx)) idx;
  ev_set i e;;
  upd_ev e (set_ev_idx i).

Definition ovis_event_heap_sink (idx : Z) : M sched unit :=
  e ← ev_at idx;
  f ← heap_fuel;
  let l := s32 (idx * 2 + 1) in
  let r := s32 (l + 1) in
  i ← loopM f (fun '(idx, l, r) =>
    n ← gets heap_len;
    if negb (u32 l <? n) then mret (inr idx) else
    x ← (if n <=? u32 r then mret l else
         el ← ev_at l; er ← ev_at r;
         lt ← ovis_event_lt el er;
         mret (if (lt : bool) then l else r));
    ex ← ev_at x;
    lt ← ovis_event_lt ex e;
    if negb lt then mret (inr idx) else
    ev_set idx ex;;
    ex ← ev_at x; upd_ev ex (set_ev_idx idx);;
    let l := s32 (x * 2 + 1) in
    let r := s32 (l + 1) in
    mret (inl (x, l, r))) (idx, l, r);
  ev_set i e;;
  upd_ev e (set_ev_idx i).

Definition ovis_event_heap_insert (p : loc) : M sched Z :=
  n ← gets heap_len;
  a ← gets alloc_len;
  if n =? a then mret ENOMEM else
  ev_set n p;;
  modify (with_heap_len (u32 (n + 1)));;
  n ← gets heap_len;
  ovis_event_heap_float (s32 (n - 1));;
  mret 0.

Definition ovis_event_heap_remove (p : loc) : M sched Z :=
  e ← ld_ev p;
  (if 0 <=? ev_idx e then
     n ← gets heap_len;
     modify (with_heap_len (u32 (n - 1)));;
     q ← ev_at (u32 (n - 1));
     ev_set (ev_idx e) q;;
     q ← ev_at (ev_idx e); upd_ev q (set_ev_idx (ev_idx e));;
     e ← ld_ev p;
     ovis_event_heap_sink (ev_idx e);;
     upd_ev p (set_ev_idx (-1))
   else mret tt);;
  mret 0.

Definition ovis_event_heap_update (idx : Z) : M sched unit :=
  p ← ev_at idx;
  ovis_event_heap_float idx;;
  e ← ld_ev p;
  if ev_idx e =? idx then ovis_event_heap_sink idx else mret tt.

Definition ovis_event_heap_pop : M sched loc :=
  p ← ev_at 0;
  ovis_event_heap_remove p;;
  mret p.

Definition ovis_event_heap_top : M sched (option loc) :=
  n ← gets heap_len;
  if 0 <? n then p ← ev_at 0; mret (Some p) else mret None.

(** ** Wake-up times *)

(** The next multiple of the period plus the phase, in [uint64_t] and
    [int64_t] arithmetic; a zero period is a division by zero. *)
Definition set_next_periodic_time (period_us phase_us : Z) (tv : timeval) : option timeval :=
  if period_us =? 0 then None else
  let now := u64 (tv_sec tv * USEC + tv_usec tv) in
  let us := u64 (u64 (now + u64 (period_us - 1)) / period_us * period_us) in
  let us := u64 (us + phase_us) in
  let diff := s64 (s64 us - s64 now) in
  let diff :=
    if diff <=? 0 then s64 (u64 diff + period_us)
    else if period_us <? u64 diff then s64 (u64 diff mod period_us)
    else diff in
  let us := u64 (now + u64 diff) in
  Some (Timeval (s64 (us / USEC)) (s64 (us mod USEC))).

Definition ovis_event_next_wakeup (now : timeval) (p : loc) : M sched unit :=
  e ← ld_ev p;
  if (ev_type e =? OVIS_EVENT_TIMEOUT) || (ev_type e =? OVIS_EVENT_EPOLL_TIMEOUT) then
    match ev_time e with
    | TP_timeout t => upd_ev p (set_ev_tv (timeradd now t))
    | _ => stuck
    end
  else if ev_type e =? OVIS_EVENT_PERIODIC then
    match ev_time e with
    | TP_periodic per ph =>
        tv ← lift_opt (set_next_periodic_time per ph now);
        upd_ev p (set_ev_tv tv)
    | _ => stuck
    end
  else stuck.

(** The milliseconds [epoll_wait] may sleep until [tv], rounded up. *)
Definition ms_until (tv now : timeval) : Z :=
  let dtv := timersub tv now in
  s32 (tv_sec dtv * 1000 + Z.quot (tv_usec dtv + 999) 1000).

(** One round of [ovis_event_heap_process]: the event whose callback is called
    next, or the timeout when no event is due.  [now1] is the time of the
    comparison and [now2] the one the next wake-up is computed from. *)
Inductive process_result :=
| PR_fire (p : loc)
| PR_timeout (timeout : Z).

Definition ovis_event_heap_process_round (now1 now2 : timeval) : M sched process_result :=
  tq ← gets oneshot_tq;
  r ← (match tq with
       | p :: tq =>
           modify (with_tq tq);;
           n ← gets evcount; modify (with_evcount (n - 1));;
           upd_ev p (set_ev_idx (-1));;
           mret (PR_fire p)
       | [] =>
           top ← ovis_event_heap_top;
           match top with
           | None => mret (PR_timeout (-1))
           | Some p =>
               e ← ld_ev p;
               if negb (timer_lt now1 (ev_tv e)) then mret (PR_fire p) else
               let dtv := timersub (ev_tv e) now1 in
               c_assert (0 <=? tv_sec dtv);;
               c_assert (0 <=? tv_usec dtv);;
               mret (PR_timeout (ms_until (ev_tv e) now1))
           end
       end);
  match r with
  | PR_timeout t =>
      st ← gets mstate;
      (if bool_decide (st = OVIS_EVENT_MANAGER_RUNNING)
       then modify (with_state OVIS_EVENT_MANAGER_WAITING) else mret tt);;
      mret (PR_timeout t)
  | PR_fire p =>
      e ← ld_ev p;
      (if (ev_type e =? OVIS_EVENT_TIMEOUT) || (ev_type e =? OVIS_EVENT_EPOLL_TIMEOUT) then
         match ev_time e with
         | TP_timeout t =>
             upd_ev p (set_ev_tv (timeradd now2 t));;
             ovis_event_heap_update (ev_idx e);;
             upd_ev p (set_cb_type OVIS_EVENT_TIMEOUT)
         | _ => stuck
         end
       else if ev_type e =? OVIS_EVENT_PERIODIC then
         match ev_time e with
         | TP_periodic per ph =>
             tv ← lift_opt (set_next_periodic_time per ph now2);
             upd_ev p (set_ev_tv tv);;
             ovis_event_heap_update (ev_idx e);;
             upd_ev p (set_cb_type OVIS_EVENT_PERIODIC)
         | _ => stuck
         end
       else if ev_type e =? OVIS_EVENT_ONESHOT then
         upd_ev p (set_cb_type OVIS_EVENT_ONESHOT)
       else stuck);;
      mret (PR_fire p)
  end.

Definition ovis_event_timer_update (now : timeval) (p : loc) : M sched Z :=
  e ← ld_ev p;
  match ev_time e with
  | TP_timeout t =>
      upd_ev p (set_ev_tv (timeradd now t));;
      ovis_event_heap_update (ev_idx e);;
      mret 0
  | _ => stuck
  end.

(** ** The scheduler operations *)

Definition has_bits (x bits : Z) : bool := negb (Z.land x bits =? 0).

Definition ovis_scheduler_ref_get : M sched unit :=
  n ← gets refcount; modify (with_refcount (n + 1)).

Definition ovis_scheduler_ref_put : M sched unit :=
  n ← gets refcount;
  c_assert (0 <? n);;
  modify (with_refcount (n - 1));;
  if n - 1 =? 0 then modify (with_destroyed true) else mret tt.

Definition ovis_scheduler_free : M sched unit := ovis_scheduler_ref_put.

(** [wr] is the outcome of [write] on the pipe: [None] when it succeeds. *)
Definition notify (wr : option Z) : M sched Z :=
  match wr with
  | None => n ← gets wakeups; modify (with_wakeups (n + 1));; mret 0
  | Some errno => mret errno
  end.

(** [epoll_rc] is the result of [epoll_ctl], [now] the one of [gettimeofday]. *)
Definition ovis_scheduler_event_add (epoll_rc : Z) (now : timeval) (wr : option Z) (p : loc) : M sched Z :=
  e ← ld_ev p;
  rc ← (if has_bits (ev_type e) OVIS_EVENT_EPOLL then
          if negb (epoll_rc =? 0) then mret (Some epoll_rc) else
          n ← gets evcount; modify (with_evcount (n + 1));; mret None
        else mret None);
  match rc with
  | Some rc => mret rc
  | None =>
  rc ← (if has_bits (ev_type e) (Z.lor OVIS_EVENT_TIMEOUT OVIS_EVENT_PERIODIC) then
          e ← ld_ev p;
          if negb (ev_idx e =? -1) then mret (Some EEXIST) else
          ovis_event_next_wakeup now p;;
          rc ← ovis_event_heap_insert p;
          if negb (rc =? 0) then mret (Some rc) else
          n ← gets evcount; modify (with_evcount (n + 1));;
          st ← gets mstate;
          e ← ld_ev p;
          if bool_decide (st = OVIS_EVENT_MANAGER_WAITING) && (ev_idx e =? 0) then
            rc ← notify wr;
            mret (if rc =? 0 then None else Some rc)
          else mret None
        else mret None);
  match rc with
  | Some rc => mret rc
  | None =>
  if ev_type e =? OVIS_EVENT_ONESHOT then
    e ← ld_ev p;
    if negb (ev_idx e =? -1) then mret EEXIST else
    upd_ev p (set_ev_idx 0);;
    n ← gets evcount; modify (with_evcount (n + 1));;
    q ← gets oneshot_tq; modify (with_tq (q ++ [p]));;
    st ← gets mstate;
    if bool_decide (st = OVIS_EVENT_MANAGER_WAITING) then notify wr else mret 0
  else mret 0
  end end.

Definition ovis_scheduler_event_del (epoll_rc : Z) (wr : option Z) (p : loc) : M sched Z :=
  e ← ld_ev p;
  rc ← (if has_bits (ev_type e) OVIS_EVENT_EPOLL then
          if negb (epoll_rc =? 0) then mret (Some epoll_rc) else
          n ← gets evcount; modify (with_evcount (n - 1));; mret None
        else mret None);
  match rc with
  | Some rc => mret rc
  | None =>
  if 0 <=? ev_idx e then
    ovis_event_heap_remove p;;
    n ← gets evcount; modify (with_evcount (n - 1));;
    st ← gets mstate;
    n ← gets evcount;
    if bool_decide (st = OVIS_EVENT_MANAGER_WAITING) && (n =? 0) then notify wr else mret 0
  else mret 0
  end.

Definition ovis_event_term_check : M sched Z :=
  st ← gets mstate;
  match st with
  | OVIS_EVENT_MANAGER_INIT => stuck
  | OVIS_EVENT_MANAGER_RUNNING | OVIS_EVENT_MANAGER_WAITING => mret 0
  | OVIS_EVENT_MANAGER_TERM => mret EINTR
  end.

Definition ovis_scheduler_term (wr : option Z) : M sched Z :=
  st ← gets mstate;
  match st with
  | OVIS_EVENT_MANAGER_RUNNING | OVIS_EVENT_MANAGER_WAITING =>
      modify (with_state OVIS_EVENT_MANAGER_TERM);; notify wr
  | _ => mret EINVAL
  end.

Definition ovis_scheduler_epoll_event_mod (epoll_rc errno : Z) (p : loc) (epoll_events : Z) : M sched Z :=
  if negb (epoll_rc =? 0) then mret errno
  else upd_ev p (set_epoll_events epoll_events);; mret 0.

(** ** The scheduler loop

    [cb] is the application's callback.  The environment of a run is a script:
    for each turn of the loop the clock readings of the heap rounds and the
    outcome of [epoll_wait].  [None] means that the script ended while the
    loop was still running. *)

Inductive epoll_outcome :=
| EP_error (errno : Z)
| EP_events (evs : list (loc * Z * timeval)).

Record turn := Turn { turn_times : list (timeval * timeval); turn_epoll : epoll_outcome }.

Section loop.
Context (cb : loc -> M sched unit).

Fixpoint ovis_event_heap_process (times : list (timeval * timeval)) : M sched (option Z) :=
  match times with
  | [] => mret None
  | (now1, now2) :: times =>
      r ← ovis_event_heap_process_round now1 now2;
      match r with
      | PR_timeout t => mret (Some t)
      | PR_fire p => cb p;; ovis_event_heap_process times
      end
  end.

Fixpoint ovis_scheduler_dispatch (evs : list (loc * Z * timeval)) : M sched Z :=
  match evs with
  | [] => ovis_event_term_check
  | (p, bits, now) :: evs =>
      rc ← ovis_event_term_check;
      if negb (rc =? 0) then mret rc else
      upd_ev p (set_cb_type OVIS_EVENT_EPOLL);;
      upd_ev p (set_cb_events bits);;
      e ← ld_ev p;
      (if has_bits (ev_type e) OVIS_EVENT_TIMEOUT && negb (ev_idx e =? -1)
       then ovis_event_timer_update now p else mret 0);;
      cb p;;
      ovis_scheduler_dispatch evs
  end.

Fixpoint ovis_scheduler_turns (return_on_empty : bool) (script : list turn) : M sched (option Z) :=
  match script with
  | [] => mret None
  | t :: script =>
      timeout ← ovis_event_heap_process (turn_times t);
      match timeout with
      | None => mret None
      | Some _ =>
          n ← gets evcount;
          if (n =? 0) && return_on_empty then mret (Some ENOENT) else
          match turn_epoll t with
          | EP_error errno =>
              if errno =? EINTR then ovis_scheduler_turns return_on_empty script
              else mret (Some errno)
          | EP_events [] => ovis_scheduler_turns return_on_empty script
          | EP_events evs =>
              st ← gets mstate;
              (if bool_decide (st = OVIS_EVENT_MANAGER_WAITING)
               then modify (with_state OVIS_EVENT_MANAGER_RUNNING) else mret tt);;
              rc ← ovis_scheduler_dispatch evs;
              if negb (rc =? 0) then ovis_scheduler_ref_put;; mret (Some rc)
              else ovis_scheduler_turns return_on_empty script
          end
      end
  end.

Definition ovis_scheduler_loop (return_on_empty : bool) (script : list turn) : M sched (option Z) :=
  ovis_scheduler_ref_get;;
  st ← gets mstate;
  match st with
  | OVIS_EVENT_MANAGER_INIT | OVIS_EVENT_MANAGER_TERM =>
      modify (with_state OVIS_EVENT_MANAGER_RUNNING);;
      ovis_scheduler_turns return_on_empty script
  | _ => ovis_scheduler_ref_put;; mret (Some EINVAL)
  end.
End loop.

(** [ovis_scheduler_new], when the allocations and the system calls succeed;
    [heap_sz] is the size from the environment. *)
Definition ovis_scheduler_new (heap_sz : Z) : sched :=
  let '(alen, hlen, arr) := ovis_event_heap_create (u32 heap_sz) in
  Sched ∅ alen hlen arr [] 0 1 OVIS_EVENT_MANAGER_INIT 0 false.
