(* ===== verification/EventHeap.v ===== *)
(** * The event heap

    The array of [ovis_event.c] as a function from slots to events, the heap
    order, and the correctness of [ovis_event_heap_float] and
    [ovis_event_heap_sink]: order and back-pointers are restored, the members
    stay the same and nothing else is written. *)

From stdpp Require Import prelude gmap sorting.
From S2P Require Import Prelude Event.

(** ** Order of wake-up times *)

Definition tle (a b : timeval) : Prop := timer_lt b a = false.

Ltac timer_tac :=
  unfold tle, timer_lt in *;
  repeat match goal with
  | |- context [?a =? ?b] => destruct (Z.eqb_spec a b)
  | H : context [?a =? ?b] |- _ => destruct (Z.eqb_spec a b)
  | |- context [?a <? ?b] => destruct (Z.ltb_spec a b)
  | H : context [?a <? ?b] |- _ => destruct (Z.ltb_spec a b)
  end; try done; try lia.

Lemma tle_refl a : tle a a.
Proof. timer_tac. Qed.
Lemma tle_trans a b c : tle a b -> tle b c -> tle a c.
Proof. intros. timer_tac. Qed.
Lemma timer_lt_tle a b : timer_lt a b = true -> tle a b.
Proof. intros. timer_tac. Qed.

(** ** Heap order over slots *)

Section order.
Context (k : loc -> timeval) (n : nat).
Implicit Types (f : nat -> loc).

Definition child (j c : nat) : Prop := c = (2 * j + 1)%nat \/ c = (2 * j + 2)%nat.

Definition slot_upd f (i : nat) (x : loc) : nat -> loc := fun j => if decide (j = i) then x else f j.

Definition swap_slots f (i j : nat) : nat -> loc := slot_upd (slot_upd f i (f j)) j (f i).

Definition heap_order f : Prop :=
  forall j c, child j c -> (c < n)%nat -> tle (k (f j)) (k (f c)).

(** Only the link from slot [j] to its parent may be out of order. *)
Definition float_inv f (j : nat) : Prop :=
  (forall i c, child i c -> (c < n)%nat -> c <> j -> tle (k (f i)) (k (f c))) /\
  (forall i c, child i j -> child j c -> (c < n)%nat -> tle (k (f i)) (k (f c))).

(** Only the links from slot [j] to its children may be out of order. *)
Definition sink_inv f (j : nat) : Prop :=
  (forall i c, child i c -> (c < n)%nat -> i <> j -> tle (k (f i)) (k (f c))) /\
  (forall i c, child i j -> child j c -> (c < n)%nat -> tle (k (f i)) (k (f c))).

Lemma float_step f j pj :
  (j < n)%nat -> child pj j -> float_inv f j -> timer_lt (k (f j)) (k (f pj)) = true ->
  float_inv (swap_slots f j pj) pj.
Proof.
  intros Hn Hc [H1 H2] Hlt. apply timer_lt_tle in Hlt. split.
  - intros i c Hic Hcn Hne. destruct (decide (i = pj)) as [->|].
    + unfold swap_slots, slot_upd.
      repeat (case_decide; subst); unfold child in *; try lia; try done.
      apply (tle_trans _ (k (f pj))); [done|]. apply H1; unfold child; lia.
    + unfold swap_slots, slot_upd.
      repeat (case_decide; subst); unfold child in *; try lia.
      * apply (H2 pj c); unfold child; lia.
      * apply H1; unfold child; lia.
  - intros i c Hij Hjc Hcn. unfold swap_slots, slot_upd.
    repeat (case_decide; subst); unfold child in *; try lia.
    + apply H1; unfold child; lia.
    + apply (tle_trans _ (k (f pj))); apply H1; unfold child; lia.
Qed.

Lemma float_done f j :
  float_inv f j -> (forall pj, child pj j -> timer_lt (k (f j)) (k (f pj)) = false) -> heap_order f.
Proof.
  intros [H1 _] Hj i c Hic Hcn. destruct (decide (c = j)) as [->|]; [by apply Hj|by apply H1].
Qed.

Lemma sink_step f j x :
  (x < n)%nat -> child j x -> sink_inv f j -> timer_lt (k (f x)) (k (f j)) = true ->
  (forall c, child j c -> (c < n)%nat -> tle (k (f x)) (k (f c))) ->
  sink_inv (swap_slots f j x) x.
Proof.
  intros Hn Hc [H1 H2] Hlt Hmin. apply timer_lt_tle in Hlt. split.
  - intros i c Hic Hcn Hne. unfold swap_slots, slot_upd.
    repeat case_decide; subst; unfold child in *; try lia; try done;
      first [apply Hmin; unfold child; lia | apply H1; unfold child; lia
            | eapply H2; [|exact Hc|]; unfold child; lia].
  - intros i c Hij Hjc Hcn. unfold swap_slots, slot_upd.
    repeat (case_decide; subst); unfold child in *; try lia.
    apply H1; unfold child; lia.
Qed.

Lemma sink_done f j :
  sink_inv f j -> (forall c, child j c -> (c < n)%nat -> timer_lt (k (f c)) (k (f j)) = false) ->
  heap_order f.
Proof.
  intros [H1 _] Hj i c Hic Hcn. destruct (decide (i = j)) as [->|]; [by apply Hj|by apply H1].
Qed.

(** The root is a minimum. *)
Lemma heap_order_root f i : heap_order f -> (i < n)%nat -> tle (k (f 0%nat)) (k (f i)).
Proof.
  intros Hh. induction i as [i IH] using lt_wf_ind. intros Hi.
  destruct i as [|i]; [apply tle_refl|].
  pose proof (Nat.div_mod i 2 ltac:(lia)) as Hdm. pose proof (Nat.mod_upper_bound i 2 ltac:(lia)).
  apply (tle_trans _ (k (f (i / 2)%nat))); [apply IH; lia|]. apply Hh; unfold child; lia.
Qed.
End order.

(** ** Loads and stores *)

Section prims.
Implicit Types (s : sched).

Lemma runs_lift_opt {A} (o : option A) a s Q : o = Some a -> Q a s -> runs (lift_opt o) s Q.
Proof. intros -> ?. by exists a, s. Qed.

Lemma runs_ld_ev s p e Q : events s !! p = Some e -> Q e s -> runs (ld_ev p) s Q.
Proof.
  intros H HQ. unfold ld_ev. apply runs_bind, runs_get. by eapply runs_lift_opt.
Qed.

Lemma runs_upd_ev s p g e Q :
  events s !! p = Some e -> Q tt (with_events (<[p := g e]> (events s)) s) -> runs (upd_ev p g) s Q.
Proof.
  intros H HQ. unfold upd_ev. apply runs_bind, runs_get, runs_bind.
  eapply runs_lift_opt; [done|]. by apply runs_put.
Qed.

Lemma runs_ev_at s i p Q :
  harr s !! i = Some (Some p) -> Q p s -> runs (ev_at (Z.of_nat i)) s Q.
Proof.
  intros H HQ. unfold ev_at. apply runs_bind, runs_get.
  pose proof (lookup_lt_Some _ _ _ H). destruct (Z.ltb_spec (Z.of_nat i) 0); [lia|].
  destruct (Z.leb_spec (Z.of_nat (length (harr s))) (Z.of_nat i)); [lia|].
  rewrite Nat2Z.id, H. by apply runs_ret.
Qed.

Lemma runs_ev_set s i p Q :
  (i < length (harr s))%nat -> Q tt (with_harr (<[i := Some p]> (harr s)) s) ->
  runs (ev_set (Z.of_nat i) p) s Q.
Proof.
  intros H HQ. unfold ev_set. apply runs_bind, runs_get.
  rewrite (proj2 (Z.leb_le _ _)), (proj2 (Z.ltb_lt _ _)), Nat2Z.id by lia. by apply runs_put.
Qed.
End prims.

Ltac ev_step :=
  match goal with
  | |- runs (mbind _ _) _ _ => apply runs_bind
  | |- runs (mret _) _ _ => apply runs_ret
  | |- runs (gets _) _ _ => apply runs_gets
  | |- runs (modify _) _ _ => apply runs_modify
  | |- runs (ld_ev _) _ _ => eapply runs_ld_ev; [simpl; eassumption|]
  | |- runs (upd_ev _ _) _ _ => eapply runs_upd_ev; [simpl; eassumption|]
  | |- runs (ev_at (Z.of_nat _)) _ _ => eapply runs_ev_at; [simpl; eassumption|]
  | |- runs heap_fuel _ _ => apply runs_gets
  end.
Ltac ev_steps := repeat ev_step.

(** ** Slots, back-pointers and frames *)

Definition key_of (m : gmap loc event) (p : loc) : timeval :=
  match m !! p with Some e => ev_tv e | None => Timeval 0 0 end.

Definition store (s0 : sched) (m : gmap loc event) (a : list (option loc)) : sched :=
  with_harr a (with_events m s0).

(** Slots below [n], except the hole, hold [f]; the event in a slot points
    back to it. *)
Definition hlink (n : nat) (f : nat -> loc) (hole : option nat) (m : gmap loc event) (a : list (option loc)) : Prop :=
  forall i, (i < n)%nat -> hole <> Some i ->
    a !! i = Some (Some (f i)) /\ exists e, m !! f i = Some e /\ ev_idx e = Z.of_nat i.

Definition member (n : nat) (f : nat -> loc) (p : loc) : Prop := exists i, (i < n)%nat /\ f i = p.

(** Only back-pointers of the members differ. *)
Definition same_events (P : loc -> Prop) (m m' : gmap loc event) : Prop :=
  forall p, (set_ev_idx 0 <$> m' !! p) = (set_ev_idx 0 <$> m !! p) /\ (~ P p -> m' !! p = m !! p).

Lemma same_events_refl P m : same_events P m m.
Proof. done. Qed.

Lemma same_events_trans (P : loc -> Prop) m1 m2 m3 :
  same_events P m1 m2 -> same_events P m2 m3 -> same_events P m1 m3.
Proof.
  intros H1 H2 p. destruct (H1 p) as [E1 F1], (H2 p) as [E2 F2]. split; [congruence|].
  intros Hp. rewrite F2, F1; done.
Qed.

Lemma same_events_upd (P : loc -> Prop) m p e i :
  m !! p = Some e -> P p -> same_events P m (<[p := set_ev_idx i e]> m).
Proof.
  intros Hm HP q. destruct (decide (q = p)) as [->|].
  - rewrite lookup_insert_eq, Hm. done.
  - by rewrite lookup_insert_ne.
Qed.

Lemma same_events_lookup P m m' p e :
  same_events P m m' -> m !! p = Some e -> exists e', m' !! p = Some e' /\ set_ev_idx 0 e' = set_ev_idx 0 e.
Proof.
  intros H Hm. destruct (H p) as [E _]. rewrite Hm in E. simpl in E.
  destruct (m' !! p) as [e'|]; [|done]. simpl in E. exists e'. split; [done|congruence].
Qed.

Lemma same_events_key P m m' p : same_events P m m' -> key_of m' p = key_of m p.
Proof.
  intros H. destruct (H p) as [E _]. unfold key_of.
  destruct (m' !! p) as [e'|], (m !! p) as [e|]; simpl in E; try done.
  by destruct e, e'; simplify_eq.
Qed.

Lemma same_events_ext (P Q : loc -> Prop) m m' :
  (forall p, P p -> Q p) -> same_events P m m' -> same_events Q m m'.
Proof. intros HPQ H p. destruct (H p) as [? HF]. split; [done|]. intros Hq. apply HF. eauto. Qed.

Lemma member_swap n f i j p : (i < n)%nat -> (j < n)%nat -> member n (swap_slots f i j) p <-> member n f p.
Proof.
  intros Hi Hj. unfold member, swap_slots, slot_upd. split.
  - intros (x & Hx & <-). repeat case_decide; eauto.
  - intros (x & Hx & <-). destruct (decide (x = i)) as [->|]; [|destruct (decide (x = j)) as [->|]].
    + exists j. by rewrite decide_True.
    + exists i. rewrite (decide_True (P := i = i)) by done. case_decide; subst; done.
    + exists x. by rewrite !decide_False.
Qed.

(** The loops move a hole through the array; [f] already has the event that
    will close it. *)
Record hole_at n f j (m : gmap loc event) (a : list (option loc)) : Prop := {
  hole_link : hlink n f (Some j) m a;
  hole_lt : (j < n)%nat;
  hole_len : (n <= length a)%nat;
  hole_fresh : forall i, (i < n)%nat -> i <> j -> f i <> f j;
  hole_ev : is_Some (m !! f j)
}.

Lemma swap_at f i j : i <> j -> swap_slots f i j j = f i /\ swap_slots f i j i = f j.
Proof. intros. unfold swap_slots, slot_upd. repeat case_decide; subst; done. Qed.

Lemma swap_other f i j x : x <> i -> x <> j -> swap_slots f i j x = f x.
Proof. intros. unfold swap_slots, slot_upd. repeat case_decide; subst; done. Qed.

Lemma hole_slot n f j m a x :
  hole_at n f j m a -> (x < n)%nat -> x <> j ->
  a !! x = Some (Some (f x)) /\ exists e, m !! f x = Some e /\ ev_idx e = Z.of_nat x.
Proof. intros H Hx Hne. apply (hole_link _ _ _ _ _ H); congruence. Qed.

Lemma hole_move n f j m a x ex :
  hole_at n f j m a -> (x < n)%nat -> x <> j -> m !! f x = Some ex ->
  hole_at n (swap_slots f j x) x (<[f x := set_ev_idx (Z.of_nat j) ex]> m) (<[j := Some (f x)]> a).
Proof.
  intros H Hx Hne Hex. destruct (swap_at f j x ltac:(done)) as [Ex Ej].
  pose proof (hole_lt _ _ _ _ _ H). pose proof (hole_len _ _ _ _ _ H).
  assert (f x <> f j) by (by apply (hole_fresh _ _ _ _ _ H)).
  split; [|done|by rewrite length_insert| |].
  - intros i Hi Hni. destruct (decide (i = j)) as [->|].
    + rewrite Ej. rewrite list_lookup_insert_eq by lia. split; [done|].
      eexists. by rewrite lookup_insert_eq.
    + assert (i <> x) by congruence. rewrite swap_other by done.
      destruct (hole_slot _ _ _ _ _ i H) as (Ha & e & He & Hidx); [done..|].
      rewrite list_lookup_insert_ne by done. split; [done|]. exists e. split; [|done].
      destruct (hole_slot _ _ _ _ _ x H) as (_ & e' & He' & Hidx'); [done..|].
      rewrite lookup_insert_ne; [done|]. intros Heq. rewrite Heq in He'. simplify_eq. lia.
  - intros i Hi Hix. rewrite Ex. destruct (decide (i = j)) as [->|]; [by rewrite Ej|].
    rewrite swap_other by done. by apply (hole_fresh _ _ _ _ _ H).
  - rewrite Ex, lookup_insert_ne by done. apply (hole_ev _ _ _ _ _ H).
Qed.

Lemma hole_close n f j m a e :
  hole_at n f j m a -> m !! f j = Some e ->
  hlink n f None (<[f j := set_ev_idx (Z.of_nat j) e]> m) (<[j := Some (f j)]> a).
Proof.
  intros H He i Hi _. pose proof (hole_lt _ _ _ _ _ H). pose proof (hole_len _ _ _ _ _ H).
  destruct (decide (i = j)) as [->|].
  - rewrite list_lookup_insert_eq by lia. split; [done|]. eexists. by rewrite lookup_insert_eq.
  - destruct (hole_slot _ _ _ _ _ i H) as (Ha & e' & He' & Hidx); [done..|].
    rewrite list_lookup_insert_ne by done. split; [done|]. exists e'. split; [|done].
    rewrite lookup_insert_ne; [done|]. apply not_eq_sym. by apply (hole_fresh _ _ _ _ _ H).
Qed.

Lemma hole_open n f j m a :
  hlink n f None m a -> (j < n)%nat -> (n <= length a)%nat -> hole_at n f j m a.
Proof.
  intros H Hj Hn. split; [|done|done| |].
  - intros i Hi _. by apply H.
  - intros i Hi Hne Heq. destruct (H i) as (_ & e & He & Hidx); [done..|].
    destruct (H j) as (_ & e' & He' & Hidx'); [done..|]. rewrite Heq in He. simplify_eq. lia.
  - destruct (H j) as (_ & e & He & _); [done..|]. by exists e.
Qed.

(** What the two loops and the final stores leave behind. *)
Definition resifted s0 n f j m a s' : Prop :=
  exists f' j' m' a', s' = store s0 m' a' /\ hlink n f' None m' a' /\
    heap_order (key_of m) n f' /\ (j' < n)%nat /\ f' j' = f j /\
    (forall p, member n f' p <-> member n f p) /\ same_events (member n f) m m' /\
    length a' = length a /\ (forall i, (n <= i)%nat -> a' !! i = a !! i).

(** The state of a loop; [I] is what is known of the order. *)
Definition sifting (I : (nat -> loc) -> nat -> Prop) s0 n f j m a j' s' : Prop :=
  exists f' m' a', s' = store s0 m' a' /\ hole_at n f' j' m' a' /\ I f' j' /\ f' j' = f j /\
    (forall p, member n f' p <-> member n f p) /\ same_events (member n f) m m' /\
    length a' = length a /\ (forall i, (n <= i)%nat -> a' !! i = a !! i).

Lemma runs_ovis_event_lt s p q ep eq Q :
  events s !! p = Some ep -> events s !! q = Some eq ->
  Q (timer_lt (key_of (events s) p) (key_of (events s) q)) s -> runs (ovis_event_lt p q) s Q.
Proof.
  intros Hp Hq HQ. unfold ovis_event_lt, key_of in *. rewrite Hp, Hq in HQ. ev_steps. done.
Qed.

Lemma sift_move {B} (rest : M sched B) Q (I' : (nat -> loc) -> nat -> Prop) s0 n f j m a j' f' m' a' x :
  hole_at n f' j' m' a' -> f' j' = f j ->
  (forall p, member n f' p <-> member n f p) -> same_events (member n f) m m' ->
  length a' = length a -> (forall i, (n <= i)%nat -> a' !! i = a !! i) ->
  (x < n)%nat -> x <> j' -> I' (swap_slots f' j' x) x ->
  (forall s', sifting I' s0 n f j m a x s' -> runs rest s' Q) ->
  runs (ev_set (Z.of_nat j') (f' x);;
        pe ← ev_at (Z.of_nat x); upd_ev pe (set_ev_idx (Z.of_nat j'));; rest) (store s0 m' a') Q.
Proof.
  intros Hh Hf Hmem Hse Hlen Htail Hx Hne HI HQ.
  destruct (hole_slot _ _ _ _ _ x Hh) as (Hax & ex & Hex & Hidx); [done..|].
  pose proof (hole_lt _ _ _ _ _ Hh). pose proof (hole_len _ _ _ _ _ Hh).
  apply runs_bind, runs_ev_set; [simpl; lia|]. apply runs_bind. eapply runs_ev_at.
  { simpl. by rewrite list_lookup_insert_ne. }
  apply runs_bind. eapply runs_upd_ev; [done|]. apply HQ. destruct (swap_at f' j' x) as [Ex Ej]; [done|].
  eexists (swap_slots f' j' x), _, _. split; [reflexivity|]. split_and!.
  - by apply hole_move.
  - done.
  - by rewrite Ex.
  - intros p. rewrite member_swap by done. apply Hmem.
  - eapply same_events_trans; [done|]. apply same_events_upd; [done|]. apply Hmem. by exists x.
  - simpl. by rewrite length_insert.
  - intros i Hi. simpl. rewrite list_lookup_insert_ne by lia. by apply Htail.
Qed.

Lemma sift_close (I : (nat -> loc) -> nat -> Prop) s0 n f j m a j' s' :
  sifting I s0 n f j m a j' s' -> (forall f', I f' j' -> heap_order (key_of m) n f') ->
  runs (ev_set (Z.of_nat j') (f j);; upd_ev (f j) (set_ev_idx (Z.of_nat j'))) s'
    (fun _ => resifted s0 n f j m a).
Proof.
  intros (f' & m' & a' & -> & Hh & HI & Hf & Hmem & Hse & Hlen & Htail) Hord.
  pose proof (hole_lt _ _ _ _ _ Hh). pose proof (hole_len _ _ _ _ _ Hh).
  destruct (hole_ev _ _ _ _ _ Hh) as [e He]. rewrite <- Hf.
  apply runs_bind, runs_ev_set; [simpl; lia|]. eapply runs_upd_ev; [done|].
  eexists f', j', _, _. split; [reflexivity|]. split_and!; try done.
  - by apply hole_close.
  - by apply Hord.
  - eapply same_events_trans; [done|]. apply same_events_upd; [done|]. apply Hmem. by exists j'.
  - simpl. by rewrite length_insert.
  - intros i Hi. simpl. rewrite list_lookup_insert_ne by lia. by apply Htail.
Qed.

(** The float loop: the hole goes towards the root. *)
Lemma runs_float s0 n f j m a :
  hole_at n f j m a -> a !! j = Some (Some (f j)) -> float_inv (key_of m) n f j ->
  runs (ovis_event_heap_float (Z.of_nat j)) (store s0 m a) (fun _ => resifted s0 n f j m a).
Proof.
  intros Hh Haj Hinv. unfold ovis_event_heap_float. ev_steps.
  set (ord := fun (f' : nat -> loc) (j' : nat) => heap_order (key_of m) n f').
  eapply runs_mono.
  { eapply (runs_loop (fun d i s' => exists j', i = Z.of_nat j' /\ d = j' /\
      sifting (float_inv (key_of m) n) s0 n f j m a j' s')
      _ (fun i s' => exists j', i = Z.of_nat j' /\ sifting ord s0 n f j m a j' s')).
    - intros d i s' (j' & -> & -> & f' & m' & a' & -> & Hh' & Hfi & Hf & Hmem & Hse & Hlen & Htail).
      destruct (Z.eqb_spec (Z.of_nat j') 0) as [H0|H0].
      { ev_steps. exists j'. split; [done|]. exists f', m', a'. split_and!; try done.
        eapply float_done; [done|]. unfold child. intros pj ?. lia. }
      assert (exists pj, Z.quot (Z.of_nat j' - 1) 2 = Z.of_nat pj /\ child pj j') as (pj & -> & Hpj).
      { exists (Z.to_nat ((Z.of_nat j' - 1) / 2)). rewrite Z.quot_div_nonneg by lia. unfold child.
        pose proof (Z.div_mod (Z.of_nat j' - 1) 2). pose proof (Z.mod_pos_bound (Z.of_nat j' - 1) 2). lia. }
      assert (pj < j')%nat by (unfold child in Hpj; lia). pose proof (hole_lt _ _ _ _ _ Hh').
      destruct (hole_slot _ _ _ _ _ pj Hh') as (Hap & ep & Hep & Hidx); [lia..|].
      destruct (hole_ev _ _ _ _ _ Hh') as [e He]. rewrite <- Hf.
      ev_steps. eapply runs_ovis_event_lt; [done..|]. simpl.
      rewrite !(same_events_key _ _ _ _ Hse).
      destruct (timer_lt (key_of m (f' j')) (key_of m (f' pj))) eqn:Hlt; simpl.
      + eapply sift_move; [done..|lia|lia|by apply float_step|]. intros s' Hs'. ev_steps.
        exists pj. split; [lia|]. by exists pj.
      + ev_steps. exists j'. split; [done|]. exists f', m', a'. split_and!; try done.
        eapply float_done; [done|]. intros pj' Hpj'.
        assert (pj' = pj) as -> by (unfold child in *; lia). done.
    - exists j. split; [done|]. split; [done|]. exists f, m, a. done.
    - pose proof (hole_lt _ _ _ _ _ Hh). pose proof (hole_len _ _ _ _ _ Hh). simpl. lia. }
  simpl. intros i s' (j' & -> & Hs). by eapply sift_close.
Qed.

(** The children's indices stay within [int]. *)
Lemma sink_index n (j : nat) :
  (j < n)%nat -> Z.of_nat n < 1073741824 ->
  s32 (Z.of_nat j * 2 + 1) = Z.of_nat (2 * j + 1) /\
  s32 (Z.of_nat (2 * j + 1) + 1) = Z.of_nat (2 * j + 2) /\
  u32 (Z.of_nat (2 * j + 1)) = Z.of_nat (2 * j + 1) /\ u32 (Z.of_nat (2 * j + 2)) = Z.of_nat (2 * j + 2).
Proof.
  intros Hj Hn. rewrite (s32_small (Z.of_nat j * 2 + 1)) by lia.
  rewrite s32_small by lia. rewrite !u32_small by lia. lia.
Qed.

(** The smaller child of slot [j]; with equal keys the right one. *)
Lemma runs_smaller_child s0 n f j m a Q :
  hole_at n f j m a -> (2 * j + 1 < n)%nat -> Z.of_nat n < 1073741824 ->
  (forall x, child j x -> (x < n)%nat ->
     (forall c, child j c -> (c < n)%nat -> tle (key_of m (f x)) (key_of m (f c))) ->
     Q (Z.of_nat x) (store s0 m a)) ->
  runs (if Z.of_nat n <=? u32 (Z.of_nat (2 * j + 2)) then mret (Z.of_nat (2 * j + 1)) else
        el ← ev_at (Z.of_nat (2 * j + 1)); er ← ev_at (Z.of_nat (2 * j + 2));
        lt ← ovis_event_lt el er;
        mret (if (lt : bool) then Z.of_nat (2 * j + 1) else Z.of_nat (2 * j + 2))) (store s0 m a) Q.
Proof.
  intros Hh Hl Hn HQ. destruct (sink_index n j) as (_ & _ & _ & ->); [lia..|].
  destruct (Z.leb_spec (Z.of_nat n) (Z.of_nat (2 * j + 2))) as [Hr|Hr].
  { ev_steps. apply HQ; unfold child; [lia..|]. intros c Hc Hcn.
    assert (c = 2 * j + 1)%nat as -> by lia. apply tle_refl. }
  destruct (hole_slot _ _ _ _ _ (2 * j + 1) Hh) as (Hal & el & Hel & _); [lia..|].
  destruct (hole_slot _ _ _ _ _ (2 * j + 2) Hh) as (Har & er & Her & _); [lia..|].
  ev_steps. eapply runs_ovis_event_lt; [done..|]. simpl events.
  destruct (timer_lt (key_of m (f (2 * j + 1)%nat)) (key_of m (f (2 * j + 2)%nat))) eqn:Hlt; ev_steps;
    (apply HQ; unfold child; [lia..|]); intros c Hc Hcn;
    (destruct Hc as [-> | ->]; [|]); try apply tle_refl; [by apply timer_lt_tle|done].
Qed.

(** The sink loop: the hole goes to the smaller child. *)
Lemma runs_sink s0 n f j m a :
  hole_at n f j m a -> a !! j = Some (Some (f j)) -> sink_inv (key_of m) n f j ->
  heap_len s0 = Z.of_nat n -> Z.of_nat n < 1073741824 ->
  runs (ovis_event_heap_sink (Z.of_nat j)) (store s0 m a) (fun _ => resifted s0 n f j m a).
Proof.
  intros Hh Haj Hinv Hn Hmax. unfold ovis_event_heap_sink. ev_steps.
  set (ord := fun (f' : nat -> loc) (j' : nat) => heap_order (key_of m) n f').
  eapply runs_mono.
  { eapply (runs_loop (fun d '(i, l, r) s' => exists j', i = Z.of_nat j' /\ d = (n - j')%nat /\
      l = s32 (Z.of_nat j' * 2 + 1) /\ r = s32 (l + 1) /\
      sifting (sink_inv (key_of m) n) s0 n f j m a j' s')
      _ (fun i s' => exists j', i = Z.of_nat j' /\ sifting ord s0 n f j m a j' s')).
    - intros d [[i l] r] s' (j' & -> & -> & -> & -> & f' & m' & a' & -> & Hh' & Hfi & Hf & Hmem & Hse & Hlen & Htail).
      pose proof (hole_lt _ _ _ _ _ Hh'). destruct (sink_index n j') as (-> & Hr & El & Er); [done..|].
      rewrite <- Hf. ev_steps. simpl heap_len. rewrite Hn, El.
      destruct (Z.ltb_spec (Z.of_nat (2 * j' + 1)) (Z.of_nat n)) as [Hl|Hl]; simpl negb; cbv iota.
      2: { ev_steps. exists j'. split; [done|]. exists f', m', a'. split_and!; try done.
           eapply sink_done; [done|]. unfold child. lia. }
      rewrite Hr. apply runs_bind. eapply runs_smaller_child; [done|lia|done|].
      intros x Hc Hx Hmin.
      assert (x <> j') by (unfold child in Hc; lia).
      destruct (hole_slot _ _ _ _ _ x Hh') as (Hax & ex & Hex & Hidx); [done..|].
      destruct (hole_ev _ _ _ _ _ Hh') as [e He].
      ev_steps. eapply runs_ovis_event_lt; [done..|]. simpl events.
      rewrite !(same_events_key _ _ _ _ Hse).
      destruct (timer_lt (key_of m (f' x)) (key_of m (f' j'))) eqn:Hlt; simpl negb; cbv iota.
      + eapply sift_move; [done..| |].
        { apply sink_step; [done..|]. intros c ??. rewrite <- !(same_events_key _ _ _ _ Hse). by apply Hmin. }
        intros s' Hs'. ev_steps. exists (n - x)%nat. split; [unfold child in Hc; lia|]. by exists x.
      + ev_steps. exists j'. split; [done|]. exists f', m', a'. split_and!; try done.
        eapply sink_done; [done|]. intros c Hc' Hcn.
        specialize (Hmin c Hc' Hcn). rewrite !(same_events_key _ _ _ _ Hse) in Hmin.
        exact (tle_trans _ _ _ Hlt Hmin).
    - exists j. split_and!; try done. exists f, m, a. done.
    - pose proof (hole_lt _ _ _ _ _ Hh). pose proof (hole_len _ _ _ _ _ Hh). simpl. lia. }
  simpl. intros i s' (j' & -> & Hs). by eapply sift_close.
Qed.
