(* ===== verification/EventHeapOps.v ===== *)
(** * The event heap as a set of events

    [heap_ok H s]: the array of [s] is a heap of exactly the events [H].  The
    operations [ovis_event_heap_insert], [_remove], [_update], [_pop] and
    [_top] against that set. *)

From stdpp Require Import prelude gmap sorting.
From S2P Require Import Prelude Event EventHeap.

Definition heap_ok (H : gset loc) (s : sched) : Prop :=
  exists n f, heap_len s = Z.of_nat n /\ Z.of_nat n <= alloc_len s < 1073741824 /\
    length (harr s) = Z.to_nat (alloc_len s) /\
    hlink n f None (events s) (harr s) /\ heap_order (key_of (events s)) n f /\
    (forall p, p ∈ H <-> member n f p).

(** An operation on the heap: the other fields of the scheduler stay, and
    events change at most in their back-pointers, those outside [P] not at
    all. *)
Definition heap_frame (P : loc -> Prop) (s s' : sched) : Prop :=
  (exists n m a, s' = with_heap_len n (store s m a)) /\ same_events P (events s) (events s').

Lemma store_id s : store s (events s) (harr s) = s.
Proof. by destruct s. Qed.

Lemma hlink_inj n f m a i j : hlink n f None m a -> (i < n)%nat -> (j < n)%nat -> f i = f j -> i = j.
Proof.
  intros H Hi Hj Heq. destruct (H i) as (_ & e & He & Hx); [done..|].
  destruct (H j) as (_ & e' & He' & Hx'); [done..|]. rewrite Heq in He. simplify_eq. lia.
Qed.

Lemma slot_upd_eq f i x : slot_upd f i x i = x.
Proof. unfold slot_upd. by rewrite decide_True. Qed.
Lemma slot_upd_ne f i x j : j <> i -> slot_upd f i x j = f j.
Proof. intros. unfold slot_upd. by rewrite decide_False. Qed.

Lemma heap_order_key k k' n f :
  (forall p, member n f p -> k' p = k p) -> heap_order k n f -> heap_order k' n f.
Proof.
  intros Hk Ho j c Hc Hn. rewrite !Hk; [by apply Ho|by exists c|exists j; unfold child in Hc; split; [lia|done]].
Qed.

(** ** Insertion *)

Lemma runs_heap_insert H s p e :
  heap_ok H s -> p ∉ H -> events s !! p = Some e ->
  runs (ovis_event_heap_insert p) s (fun rc s' =>
    if heap_len s =? alloc_len s then rc = ENOMEM /\ s' = s
    else rc = 0 /\ heap_ok ({[ p ]} ∪ H) s' /\ heap_frame (fun q => q ∈ {[ p ]} ∪ H) s s').
Proof.
  intros (n & f & Hn & [Hna Hmax] & Hlen & Hl & Ho & Hm) Hp He. unfold ovis_event_heap_insert. ev_steps.
  destruct (Z.eqb_spec (heap_len s) (alloc_len s)) as [Hfull|Hroom]; ev_steps; [done|].
  rewrite Hn. apply runs_ev_set; [lia|]. ev_steps. simpl heap_len.
  rewrite u32_small by lia. rewrite s32_small by lia.
  replace (Z.of_nat n + 1 - 1) with (Z.of_nat n) by lia.
  set (a := <[n := Some p]> (harr s)). set (f' := slot_upd f n p).
  assert (Hmem : forall q, q ∈ {[ p ]} ∪ H <-> member (S n) f' q).
  { intros q. rewrite elem_of_union, elem_of_singleton, Hm. unfold member, f'. split.
    - intros [->|(i & Hi & <-)]; [exists n; by rewrite slot_upd_eq; eauto with lia|].
      exists i. rewrite slot_upd_ne by lia. split; [lia|done].
    - intros (i & Hi & <-). destruct (decide (i = n)) as [->|]; [left; by rewrite slot_upd_eq|].
      right. exists i. rewrite slot_upd_ne by done. split; [lia|done]. }
  eapply runs_mono.
  { apply (runs_float (with_heap_len (Z.of_nat n + 1) s) (S n) f' n (events s) a).
    - split; [|lia|unfold a; rewrite length_insert; lia| |unfold f'; by rewrite slot_upd_eq].
      + intros i Hi Hne. assert (i < n)%nat by (assert (i <> n) by congruence; lia).
        unfold f', a. rewrite slot_upd_ne, list_lookup_insert_ne by lia. by apply Hl.
      + intros i Hi Hne. unfold f'. rewrite slot_upd_eq, slot_upd_ne by done. intros <-.
        apply Hp, Hm. exists i. split; [lia|done].
    - unfold f', a. rewrite slot_upd_eq, list_lookup_insert_eq by lia. done.
    - split; [|unfold child; lia]. intros i c Hc Hcn Hne. unfold f'.
      rewrite !slot_upd_ne by (unfold child in Hc; lia). apply Ho; [done|lia]. }
  simpl. intros _ s' (f2 & j & m2 & a2 & -> & Hl2 & Ho2 & _ & _ & Hmem2 & Hse & Hlen2 & _). ev_steps.
  assert (Hmem3 : forall q, q ∈ {[ p ]} ∪ H <-> member (S n) f2 q) by (intros q; by rewrite Hmem, Hmem2).
  split; [done|]. split.
  - exists (S n), f2. split_and!; simpl; try done; try lia.
    + rewrite Hlen2. unfold a. rewrite length_insert. done.
    + eapply heap_order_key; [|exact Ho2]. intros q _. by eapply same_events_key.
  - split; [by exists (Z.of_nat n + 1), m2, a2|]. simpl. eapply same_events_ext; [|exact Hse].
    intros q Hq. by apply Hmem.
Qed.

(** ** The earliest event *)

Lemma runs_heap_top H s :
  heap_ok H s ->
  runs ovis_event_heap_top s (fun r s' => s' = s /\
    match r with
    | None => H = ∅
    | Some p => p ∈ H /\ (exists e, events s !! p = Some e /\ ev_idx e = 0) /\
        forall q, q ∈ H -> tle (key_of (events s) p) (key_of (events s) q)
    end).
Proof.
  intros (n & f & Hn & [Hna Hmax] & Hlen & Hl & Ho & Hm). unfold ovis_event_heap_top. ev_steps. rewrite Hn.
  destruct n as [|n]; simpl.
  { ev_steps. split; [done|]. apply set_eq. intros p. rewrite Hm. unfold member. set_solver by lia. }
  destruct (Hl 0%nat) as (Ha & e & He & Hidx); [lia|done|].
  apply runs_bind. change 0 with (Z.of_nat 0). ev_steps. split; [done|]. split_and!.
  - apply Hm. exists 0%nat. split; [lia|done].
  - by exists e.
  - intros q (i & Hi & <-)%Hm. by eapply heap_order_root.
Qed.

(** ** Removal *)

(** Sinking a slot past the end only writes back what is there. *)
Lemma runs_sink_last s0 n p e m a :
  heap_len s0 = Z.of_nat n -> Z.of_nat n < 1073741824 ->
  a !! n = Some (Some p) -> m !! p = Some e ->
  runs (ovis_event_heap_sink (Z.of_nat n)) (store s0 m a) (fun _ s' =>
    s' = store s0 (<[p := set_ev_idx (Z.of_nat n) e]> m) a).
Proof.
  intros Hn Hmax Ha He. unfold ovis_event_heap_sink. ev_steps.
  eapply runs_mono.
  { eapply (runs_loop (fun d '(i, l, r) s' => i = Z.of_nat n /\ l = s32 (Z.of_nat n * 2 + 1) /\ s' = store s0 m a)
      _ (fun i s' => i = Z.of_nat n /\ s' = store s0 m a)); [|done|].
    - intros d [[i l] r] s' (-> & -> & ->). ev_steps. simpl. rewrite Hn, s32_small, u32_small by lia.
      destruct (Z.ltb_spec (Z.of_nat n * 2 + 1) (Z.of_nat n)); [lia|]. simpl. by ev_steps.
    - simpl. instantiate (1 := 0%nat). lia. }
  simpl. intros i s' [-> ->]. ev_steps. apply runs_ev_set; [by apply lookup_lt_Some in Ha|]. ev_steps.
  unfold store. simpl. by rewrite list_insert_id.
Qed.

Lemma member_remove n f j m a p :
  hlink n f None m a -> (j < n)%nat ->
  member (n - 1) (slot_upd f j (f (n - 1)%nat)) p <-> member n f p /\ p <> f j.
Proof.
  intros Hl Hj. unfold member. split.
  - intros (i & Hi & <-). destruct (decide (i = j)) as [->|Hne].
    + rewrite slot_upd_eq. split; [exists (n - 1)%nat; split; [lia|done]|].
      intros Heq. apply (hlink_inj _ _ _ _ _ _ Hl) in Heq; lia.
    + rewrite slot_upd_ne by done. split; [exists i; split; [lia|done]|].
      intros Heq. apply (hlink_inj _ _ _ _ _ _ Hl) in Heq; lia.
  - intros [(i & Hi & <-) Hne]. assert (i <> j) by congruence. destruct (decide (i = (n - 1)%nat)) as [->|].
    + exists j. rewrite slot_upd_eq. split; [lia|done].
    + exists i. rewrite slot_upd_ne by done. split; [lia|done].
Qed.

(** The slots after the last event was moved to slot [j]. *)
Lemma remove_hole n f j s m1 :
  hlink n f None (events s) (harr s) -> (j < n - 1)%nat -> (n <= length (harr s))%nat ->
  same_events (fun p => p = f (n - 1)%nat) (events s) m1 ->
  hole_at (n - 1) (slot_upd f j (f (n - 1)%nat)) j m1 (<[j := Some (f (n - 1)%nat)]> (harr s)).
Proof.
  intros Hl Hj Hlen Hse. split; [|done|rewrite length_insert; lia| |].
  - intros i Hi Hne. assert (i <> j) by congruence. rewrite slot_upd_ne, list_lookup_insert_ne by done.
    destruct (Hl i) as (Ha & e & He & Hidx); [lia|done|]. split; [done|]. exists e. split; [|done].
    destruct (Hse (f i)) as [_ ->]; [done|]. intros Heq.
    apply (hlink_inj _ _ _ _ _ _ Hl) in Heq; lia.
  - intros i Hi Hne. rewrite slot_upd_eq, slot_upd_ne by done. intros Heq.
    apply (hlink_inj _ _ _ _ _ _ Hl) in Heq; lia.
  - rewrite slot_upd_eq. destruct (Hl (n - 1)%nat) as (_ & e & He & _); [lia|done|].
    destruct (same_events_lookup _ _ _ _ _ Hse He) as (e' & ? & _). by exists e'.
Qed.

Lemma remove_sink_inv k n f j :
  heap_order k n f -> (j < n - 1)%nat ->
  (forall i, child i j -> tle (k (f i)) (k (f (n - 1)%nat))) ->
  sink_inv k (n - 1) (slot_upd f j (f (n - 1)%nat)) j.
Proof.
  intros Ho Hj Hpar. split.
  - intros i c Hc Hcn Hne. rewrite (slot_upd_ne _ _ _ i) by done.
    destruct (decide (c = j)) as [->|]; [rewrite slot_upd_eq; by apply Hpar|].
    rewrite slot_upd_ne by done. apply Ho; [done|lia].
  - intros i c Hij Hjc Hcn. rewrite !slot_upd_ne by (unfold child in *; lia).
    apply (tle_trans _ (k (f j))); apply Ho; unfold child in *; lia.
Qed.

(** Clearing the back-pointer of an event that is in no slot. *)
Lemma hlink_clear n f m a p e :
  hlink n f None m a -> ~ member n f p -> hlink n f None (<[p := e]> m) a.
Proof.
  intros Hl Hp i Hi _. destruct (Hl i) as (? & e' & ? & ?); [done..|]. split; [done|].
  exists e'. rewrite lookup_insert_ne; [done|]. intros ->. apply Hp. by exists i.
Qed.

(** Removing the event in slot [j]: the last event takes the slot.  The order
    is kept when the last event is not earlier than the slot's parent. *)
Lemma runs_heap_remove_slot n f j s :
  heap_len s = Z.of_nat n -> Z.of_nat n <= alloc_len s < 1073741824 ->
  length (harr s) = Z.to_nat (alloc_len s) -> hlink n f None (events s) (harr s) ->
  heap_order (key_of (events s)) n f -> (j < n)%nat ->
  (forall i, child i j -> tle (key_of (events s) (f i)) (key_of (events s) (f (n - 1)%nat))) ->
  runs (ovis_event_heap_remove (f j)) s (fun rc s' =>
    rc = 0 /\ exists f' m' a', s' = with_heap_len (Z.of_nat (n - 1)) (store s m' a') /\
      length a' = length (harr s) /\ hlink (n - 1) f' None m' a' /\
      heap_order (key_of (events s)) (n - 1) f' /\
      (forall p, member (n - 1) f' p <-> member n f p /\ p <> f j) /\
      same_events (member n f) (events s) m').
Proof.
  intros Hn [Hna Hmax] Hlen Hl Ho Hj Hpar. unfold ovis_event_heap_remove.
  destruct (Hl j) as (Haj & e & He & Hidx); [done..|].
  set (q := f (n - 1)%nat) in *. destruct (Hl (n - 1)%nat) as (Haq & eq & Heq & Hiq); [lia|done|].
  fold q in Haq, Heq. ev_steps. rewrite Hidx.
  destruct (Z.leb_spec 0 (Z.of_nat j)); [|lia]. ev_steps. rewrite Hn, u32_small by lia.
  replace (Z.of_nat n - 1) with (Z.of_nat (n - 1)) by lia.
  ev_steps. apply runs_ev_set; [simpl; lia|]. ev_steps.
  eapply runs_ev_at. { simpl. apply list_lookup_insert_eq. lia. }
  apply runs_bind. eapply runs_upd_ev; [done|]. simpl events.
  set (m1 := <[q := set_ev_idx (Z.of_nat j) eq]> (events s)). set (a1 := <[j := Some q]> (harr s)).
  set (s1 := with_heap_len (Z.of_nat (n - 1)) s).
  change (with_events _ _) with (store s1 m1 a1).
  assert (Hse1 : same_events (member n f) (events s) m1).
  { apply same_events_upd; [done|]. exists (n - 1)%nat. split; [lia|done]. }
  assert (He1 : exists e1, m1 !! f j = Some e1 /\ ev_idx e1 = Z.of_nat j).
  { unfold m1. destruct (decide (q = f j)) as [Hq|Hq].
    - exists (set_ev_idx (Z.of_nat j) eq). rewrite Hq, lookup_insert_eq. done.
    - exists e. by rewrite lookup_insert_ne. }
  destruct He1 as (e1 & He1 & Hidx1). ev_steps. rewrite Hidx1.
  set (f1 := slot_upd f j q).
  assert (Hmem1 : forall p, member (n - 1) f1 p <-> member n f p /\ p <> f j)
    by (intros p; by eapply member_remove).
  assert (Hjm : member n f (f j)) by by exists j.
  assert (Hse1' : same_events (fun p => p = q) (events s) m1) by by apply same_events_upd.
  destruct (decide (j = (n - 1)%nat)) as [Hlast|Hinner].
  - replace (ovis_event_heap_sink (Z.of_nat j)) with (ovis_event_heap_sink (Z.of_nat (n - 1)))
      by (do 2 f_equal; lia).
    eapply runs_mono.
    { eapply (runs_sink_last s1 (n - 1) (f j) e1); [done|lia| |exact He1].
      unfold a1, q. rewrite <- Hlast, list_lookup_insert_eq by lia. done. }
    simpl. intros _ s2 ->. ev_steps. eapply runs_upd_ev; [apply lookup_insert_eq|].
    ev_steps. split; [done|]. eexists f1, _, a1. split; [reflexivity|].
    split_and!.
    + unfold a1. by rewrite length_insert.
    + apply hlink_clear; [apply hlink_clear|]; [|by rewrite Hmem1; intros []..].
      intros i Hi _. unfold f1, a1. rewrite slot_upd_ne, list_lookup_insert_ne by lia.
      destruct (Hl i) as (Ha & ei & Hei & Hii); [lia|done|]. split; [done|]. exists ei. split; [|done].
      destruct (Hse1' (f i)) as [_ ->]; [done|]. intros Hx. apply (hlink_inj _ _ _ _ _ _ Hl) in Hx; lia.
    + intros i c Hc Hcn. unfold f1. rewrite !slot_upd_ne by (unfold child in Hc; lia). apply Ho; [done|lia].
    + done.
    + eapply same_events_trans; [exact Hse1|]. eapply same_events_trans; [by apply same_events_upd|].
      apply same_events_upd; [apply lookup_insert_eq|done].
  - eapply runs_mono.
    { apply (runs_sink s1 (n - 1) f1 j m1 a1).
      - apply remove_hole; [done|lia|lia|done].
      - unfold f1, a1. rewrite slot_upd_eq, list_lookup_insert_eq by lia. done.
      - eapply remove_sink_inv; [eapply heap_order_key; [|done]|lia|].
        + intros p _. by eapply same_events_key.
        + intros i Hi. rewrite !(same_events_key _ _ _ _ Hse1). by apply Hpar.
      - done.
      - lia. }
    simpl. intros _ s2 (f2 & j2 & m2 & a2 & -> & Hl2 & Ho2 & _ & _ & Hmem2 & Hse2 & Hlen2 & _).
    destruct (same_events_lookup _ _ _ _ _ Hse2 He1) as (e2 & He2 & _). ev_steps.
    split; [done|]. eexists f2, _, a2. split; [reflexivity|]. split_and!.
    + rewrite Hlen2. unfold a1. by rewrite length_insert.
    + apply hlink_clear; [done|]. rewrite Hmem2, Hmem1. by intros [].
    + eapply heap_order_key; [|exact Ho2]. intros p _. symmetry. by eapply same_events_key.
    + intros p. by rewrite Hmem2, Hmem1.
    + simpl. eapply same_events_trans; [exact Hse1|].
      eapply same_events_trans; [|apply same_events_upd; [exact He2|done]].
      eapply same_events_ext; [|exact Hse2]. intros p Hp. by apply Hmem1 in Hp as [].
Qed.

(** ** A changed wake-up time *)

Lemma heap_order_sink_inv k n f j : heap_order k n f -> sink_inv k n f j.
Proof.
  intros Ho. split; [intros; by apply Ho|].
  intros i c Hij Hjc Hc. apply (tle_trans _ (k (f j))); apply Ho; unfold child in *; lia.
Qed.

Lemma set_ev_idx_same e i : ev_idx e = i -> set_ev_idx i e = e.
Proof. intros <-. by destruct e. Qed.

(** An event that is not earlier than its parent is not moved up. *)
Lemma runs_float_stay s0 n f j m a :
  hlink n f None m a -> (j < n)%nat -> (n <= length a)%nat ->
  (forall pj, child pj j -> timer_lt (key_of m (f j)) (key_of m (f pj)) = false) ->
  runs (ovis_event_heap_float (Z.of_nat j)) (store s0 m a) (fun _ s' => s' = store s0 m a).
Proof.
  intros Hl Hj Hlen Hpar. destruct (Hl j) as (Haj & e & He & Hidx); [done..|].
  unfold ovis_event_heap_float. ev_steps. eapply runs_mono.
  { eapply (runs_loop (fun d i s' => i = Z.of_nat j /\ s' = store s0 m a)
      _ (fun i s' => i = Z.of_nat j /\ s' = store s0 m a)); [|done|].
    - intros d i s' (-> & ->). destruct (Z.eqb_spec (Z.of_nat j) 0); [by ev_steps|].
      assert (exists pj, Z.quot (Z.of_nat j - 1) 2 = Z.of_nat pj /\ child pj j) as (pj & -> & Hpj).
      { exists (Z.to_nat ((Z.of_nat j - 1) / 2)). rewrite Z.quot_div_nonneg by lia. unfold child.
        pose proof (Z.div_mod (Z.of_nat j - 1) 2). pose proof (Z.mod_pos_bound (Z.of_nat j - 1) 2). lia. }
      destruct (Hl pj) as (Hap & ep & Hep & _); [unfold child in Hpj; lia|done|].
      ev_steps. eapply runs_ovis_event_lt; [done..|]. simpl events. rewrite Hpar by done. simpl. by ev_steps.
    - simpl. instantiate (1 := 0%nat). lia. }
  simpl. intros i s' [-> ->]. ev_steps. apply runs_ev_set; [simpl; lia|]. ev_steps.
  unfold store. simpl. rewrite list_insert_id by done. by rewrite set_ev_idx_same, insert_id.
Qed.

Lemma child_dec j : j = 0%nat \/ exists pj, child pj j /\ forall p, child p j -> p = pj.
Proof.
  destruct j as [|j]; [by left|right]. exists (j / 2)%nat. unfold child.
  pose proof (Nat.div_mod j 2 ltac:(lia)). pose proof (Nat.mod_upper_bound j 2 ltac:(lia)).
  split; [lia|]. intros p ?. lia.
Qed.

Lemma runs_heap_update_slot s0 n f j m a :
  heap_len s0 = Z.of_nat n -> Z.of_nat n < 1073741824 -> (n <= length a)%nat ->
  hlink n f None m a -> (j < n)%nat ->
  (forall i c, child i c -> (c < n)%nat -> i <> j -> c <> j -> tle (key_of m (f i)) (key_of m (f c))) ->
  (forall i c, child i j -> child j c -> (c < n)%nat -> tle (key_of m (f i)) (key_of m (f c))) ->
  runs (ovis_event_heap_update (Z.of_nat j)) (store s0 m a) (fun _ => resifted s0 n f j m a).
Proof.
  intros Hn Hmax Hlen Hl Hj H1 H2. destruct (Hl j) as (Haj & e & He & Hidx); [done..|].
  unfold ovis_event_heap_update. apply runs_bind. eapply runs_ev_at; [done|]. apply runs_bind.
  assert (Hpar : (exists pj, child pj j /\ timer_lt (key_of m (f j)) (key_of m (f pj)) = true) \/
    forall pj, child pj j -> timer_lt (key_of m (f j)) (key_of m (f pj)) = false).
  { destruct (child_dec j) as [->|(pj & Hpj & Huni)]; [right; unfold child; lia|].
    destruct (timer_lt (key_of m (f j)) (key_of m (f pj))) eqn:Hlt; [left; eauto|].
    right. intros p Hp. by rewrite (Huni p Hp). }
  destruct Hpar as [(pj & Hpj & Hlt)|Hstay].
  - eapply runs_mono.
    { eapply runs_float; [by apply hole_open|done|]. split; [|done]. intros i c Hic Hc Hne.
      destruct (decide (i = j)) as [->|]; [|by apply H1].
      apply timer_lt_tle in Hlt. by apply (tle_trans _ _ _ Hlt), (H2 pj). }
    simpl. intros _ s1 (f1 & j1 & m1 & a1 & -> & Hl1 & Ho1 & Hj1 & Hf1 & Hmem1 & Hse1 & Hlen1 & Ht1).
    destruct (Hl1 j1) as (_ & e1 & He1 & Hidx1); [done..|]. rewrite Hf1 in He1. ev_steps.
    destruct (Z.eqb_spec (ev_idx e1) (Z.of_nat j)) as [Heq|_].
    2: { ev_steps. exists f1, j1, m1, a1. done. }
    assert (j1 = j) as -> by lia.
    eapply runs_mono.
    { eapply (runs_sink s0 n f1 j m1 a1).
      - by apply hole_open; [| |lia].
      - by apply Hl1.
      - apply heap_order_sink_inv. eapply heap_order_key; [|exact Ho1]. intros p _. by eapply same_events_key.
      - done.
      - done. }
    simpl. intros _ s2 (f2 & j2 & m2 & a2 & -> & Hl2 & Ho2 & Hj2 & Hf2 & Hmem2 & Hse2 & Hlen2 & Ht2).
    exists f2, j2, m2, a2. split_and!; try done.
    + eapply heap_order_key; [|exact Ho2]. intros p _. symmetry. by eapply same_events_key.
    + by rewrite Hf2.
    + intros p. by rewrite Hmem2.
    + eapply same_events_trans; [done|]. eapply same_events_ext; [|exact Hse2]. intros p. by rewrite Hmem1.
    + lia.
    + intros i Hi. by rewrite Ht2, Ht1.
  - eapply runs_mono; [by eapply runs_float_stay|]. simpl. intros _ s1 ->. ev_steps.
    rewrite Hidx, Z.eqb_refl. eapply runs_sink; [by apply hole_open|done| |done|done].
    split; [|done]. intros i c Hic Hc Hne. destruct (decide (c = j)) as [->|]; [by apply Hstay|by apply H1].
Qed.

(** ** The operations on the set *)

Lemma heap_ok_slot H s p :
  heap_ok H s -> p ∈ H -> exists e n f j, events s !! p = Some e /\ ev_idx e = Z.of_nat j /\ (j < n)%nat /\ f j = p /\
    heap_len s = Z.of_nat n /\ Z.of_nat n <= alloc_len s < 1073741824 /\
    length (harr s) = Z.to_nat (alloc_len s) /\ hlink n f None (events s) (harr s) /\
    heap_order (key_of (events s)) n f /\ (forall p, p ∈ H <-> member n f p).
Proof.
  intros (n & f & Hn & Hna & Hlen & Hl & Ho & Hm) Hp. destruct (proj1 (Hm p) Hp) as (j & Hj & Hf).
  destruct (Hl j) as (_ & e & He & Hidx); [done..|]. rewrite Hf in He.
  exists e, n, f, j. done.
Qed.

Lemma runs_retime {B} (rest : M sched B) Q H s p e tv :
  heap_ok H s -> p ∈ H -> events s !! p = Some e ->
  (forall m a, let s' := store s m a in
     heap_ok H s' -> same_events (fun q => q ∈ H) (<[p := set_ev_tv tv e]> (events s)) m ->
     runs rest s' Q) ->
  runs (upd_ev p (set_ev_tv tv);; ovis_event_heap_update (ev_idx e);; rest) s Q.
Proof.
  intros Hok Hp He HQ.
  destruct (heap_ok_slot _ _ _ Hok Hp) as (e' & n & f & j & He' & Hidx & Hj & Hf & Hn & Hna & Hlen & Hl & Ho & Hm).
  rewrite He in He'. injection He' as <-. subst p.
  apply runs_bind. eapply runs_upd_ev; [done|]. apply runs_bind. rewrite Hidx.
  set (m1 := <[f j := set_ev_tv tv e]> (events s)).
  replace (with_events m1 s) with (store s m1 (harr s)) by (by destruct s).
  assert (Hl1 : hlink n f None m1 (harr s)).
  { intros i Hi _. destruct (Hl i) as (Ha & ei & Hei & Hii); [done..|]. split; [done|].
    destruct (decide (f i = f j)) as [Heq|].
    - exists (set_ev_tv tv e). unfold m1. rewrite Heq, lookup_insert_eq. split; [done|].
      simpl. apply (hlink_inj _ _ _ _ _ _ Hl) in Heq as ->; done.
    - exists ei. unfold m1. by rewrite lookup_insert_ne. }
  assert (Hk : forall i, (i < n)%nat -> i <> j -> key_of m1 (f i) = key_of (events s) (f i)).
  { intros i Hi Hne. unfold key_of, m1. rewrite lookup_insert_ne; [done|].
    intros Heq. apply (hlink_inj _ _ _ _ _ _ Hl) in Heq; [|done..]. by subst. }
  eapply runs_mono.
  { apply (runs_heap_update_slot s n f j m1 (harr s)); try done; [lia|lia|..].
    - intros i c Hic Hc Hi Hcj. rewrite !Hk; [by apply Ho|done..|unfold child in Hic; lia|done].
    - intros i c Hij Hjc Hc. rewrite !Hk; [|unfold child in *; lia..].
      by apply (heap_order_sink_inv _ _ _ j Ho). }
  simpl. intros _ s' (f' & j' & m' & a' & -> & Hl' & Ho' & Hj' & Hf' & Hmem & Hse & Hlen' & _).
  apply HQ.
  - exists n, f'. split_and!; simpl; try done; try lia.
    + eapply heap_order_key; [|exact Ho']. intros q _. by eapply same_events_key.
    + intros q. rewrite Hm. by rewrite Hmem.
  - eapply same_events_ext; [|exact Hse]. intros q Hq. by apply Hm.
Qed.

(** Removing an event that is earliest, or last in the array. *)
Lemma runs_heap_remove_set H s p e n f :
  heap_len s = Z.of_nat n -> Z.of_nat n <= alloc_len s < 1073741824 ->
  length (harr s) = Z.to_nat (alloc_len s) -> hlink n f None (events s) (harr s) ->
  heap_order (key_of (events s)) n f -> (forall p, p ∈ H <-> member n f p) ->
  p ∈ H -> events s !! p = Some e ->
  (forall i j, ev_idx e = Z.of_nat j -> child i j -> tle (key_of (events s) (f i)) (key_of (events s) (f (n - 1)%nat))) ->
  runs (ovis_event_heap_remove p) s (fun rc s' =>
    rc = 0 /\ heap_ok (H ∖ {[ p ]}) s' /\ heap_frame (fun q => q ∈ H) s s').
Proof.
  intros Hn Hna Hlen Hl Ho Hm Hp He Hpar. destruct (proj1 (Hm p) Hp) as (j & Hj & Hf).
  destruct (Hl j) as (_ & e' & He' & Hidx); [done..|]. rewrite Hf in He'.
  rewrite He in He'. injection He' as <-. subst p.
  eapply runs_mono; [eapply (runs_heap_remove_slot n f j s); eauto|]. simpl.
  intros rc s' (-> & f' & m' & a' & -> & Hlen' & Hl' & Ho' & Hmem & Hse). split; [done|]. split.
  - exists (n - 1)%nat, f'. split_and!; simpl; try done; try lia.
    + eapply heap_order_key; [|exact Ho']. intros q _. by eapply same_events_key.
    + intros q. rewrite Hmem, elem_of_difference, elem_of_singleton, Hm. done.
  - split; [by eexists _, _, _|]. simpl. eapply same_events_ext; [|exact Hse]. intros q Hq. by apply Hm.
Qed.

Lemma runs_heap_pop H s :
  heap_ok H s -> H <> ∅ ->
  runs ovis_event_heap_pop s (fun p s' =>
    p ∈ H /\ (forall q, q ∈ H -> tle (key_of (events s) p) (key_of (events s) q)) /\
    heap_ok (H ∖ {[ p ]}) s' /\ heap_frame (fun q => q ∈ H) s s').
Proof.
  intros Hok Hne. pose proof Hok as (n & f & Hn & Hna & Hlen & Hl & Ho & Hm).
  destruct (set_choose_L H Hne) as [q Hq]. destruct (proj1 (Hm q) Hq) as (i & Hi & _).
  destruct (Hl 0%nat) as (Ha & e & He & Hidx); [lia|done|].
  assert (Hp : f 0%nat ∈ H) by (apply Hm; exists 0%nat; split; [lia|done]).
  unfold ovis_event_heap_pop. change 0 with (Z.of_nat 0). ev_steps.
  eapply runs_mono; [eapply runs_heap_remove_set; eauto|].
  { intros i' j' Hj' Hc. rewrite Hidx in Hj'. unfold child in Hc. lia. }
  simpl. intros rc s' (-> & Hok' & Hfr). ev_steps. split_and!; [done| |done|done].
  intros q' (i' & Hi' & <-)%Hm. by eapply heap_order_root.
Qed.
