(* ===== verification/EventSpec.v ===== *)
(** * The event scheduler: properties

    Wake-up times, the rounds of the scheduler, registration and removal of
    events on every branch, and the counter-examples that modelling found. *)

From stdpp Require Import prelude gmap sorting.
From S2P Require Import Prelude Event EventHeap EventHeapOps.

(** ** Wake-up times *)

Lemma wraps_wrapu w z : 0 < w -> wraps w (wrapu w z) = wraps w z.
Proof.
  intros Hw. unfold wraps, wrapu. f_equal. by rewrite Zplus_mod_idemp_l.
Qed.

Lemma wrapu_add_r w a b : wrapu w (a + wrapu w b) = wrapu w (a + b).
Proof. unfold wrapu. by rewrite Zplus_mod_idemp_r. Qed.

Lemma wraps_add_l w a b : wraps w (wrapu w a + b) = wraps w (a + b).
Proof.
  unfold wraps, wrapu. f_equal. rewrite <- !Z.add_assoc. by rewrite Zplus_mod_idemp_l.
Qed.

Definition us_of (tv : timeval) : Z := tv_sec tv * USEC + tv_usec tv.
Definition normal (tv : timeval) : Prop := 0 <= tv_sec tv /\ 0 <= tv_usec tv < USEC.

Lemma timer_lt_us a b : normal a -> normal b -> timer_lt a b = (us_of a <? us_of b).
Proof.
  unfold normal, us_of, timer_lt, USEC. intros ??.
  destruct (Z.eqb_spec (tv_sec a) (tv_sec b)); destruct (Z.ltb_spec (tv_sec a * 1000000 + tv_usec a) (tv_sec b * 1000000 + tv_usec b));
    first [apply Z.ltb_lt; lia | apply Z.ltb_ge; lia].
Qed.

Lemma next_periodic per phi tv :
  0 < per <= 2305843009213693952 -> - per < phi <= per -> normal tv -> us_of tv < 2305843009213693952 ->
  exists tv', set_next_periodic_time per (u64 phi) tv = Some tv' /\ normal tv' /\
    us_of tv < us_of tv' <= us_of tv + per /\ (us_of tv' - phi) mod per = 0.
Proof.
  intros Hper Hphi Hnorm Hnow. unfold set_next_periodic_time.
  destruct (Z.eqb_spec per 0); [lia|]. fold (us_of tv).
  assert (0 <= us_of tv) by (unfold us_of, normal, USEC in *; lia).
  set (now := us_of tv) in *.
  rewrite (u64_small now), (u64_small (per - 1)) by lia. rewrite (u64_small (now + (per - 1))) by lia.
  set (R := (now + (per - 1)) / per * per).
  assert (HR : now <= R <= now + per - 1).
  { unfold R. pose proof (Z.div_mod (now + (per - 1)) per). pose proof (Z.mod_pos_bound (now + (per - 1)) per). lia. }
  assert (HRm : R mod per = 0) by (unfold R; apply Z.mod_mul; lia).
  rewrite (u64_small R) by lia. rewrite (wrapu_add_r 64 R phi), (wraps_wrapu 64 (R + phi)) by lia.
  rewrite (s64_small (R + phi)), (s64_small now) by lia. rewrite (s64_small (R + phi - now)) by lia.
  set (d := R + phi - now) in *.
  assert (Hgoal : forall x, 0 < x <= per -> (exists t, x = d + t * per) ->
    exists tv', Some (Timeval (s64 (u64 (now + u64 x) / USEC)) (s64 (u64 (now + u64 x) mod USEC))) = Some tv' /\
      normal tv' /\ now < us_of tv' <= now + per /\ (us_of tv' - phi) mod per = 0).
  { intros x Hx [t Ht]. eexists. split; [reflexivity|].
    rewrite (u64_small x), (u64_small (now + x)) by lia.
    unfold normal, us_of, USEC. simpl.
    pose proof (Z.div_mod (now + x) 1000000). pose proof (Z.mod_pos_bound (now + x) 1000000).
    rewrite !s64_small by lia. split_and!; try lia.
    replace (_ + _ - phi) with (R + t * per) by (unfold d in Ht; lia).
    by rewrite Z.mod_add by lia. }
  destruct (Z.leb_spec d 0) as [Hd|Hd].
  - rewrite wraps_add_l, (s64_small (d + per)) by lia. apply Hgoal; [lia|]. exists 1. lia.
  - rewrite (u64_small d) by lia. destruct (Z.ltb_spec per d) as [Hp|Hp].
    + assert (d mod per = d - per) as -> by (symmetry; apply (Z.mod_unique_pos _ _ 1); lia).
      rewrite (s64_small (d - per)) by lia. apply Hgoal; [lia|]. exists (-1). lia.
    + apply Hgoal; [lia|]. exists 0. lia.
Qed.

(** The sleep of [epoll_wait] reaches the wake-up time and exceeds it by less
    than a millisecond, as long as it fits in an [int]. *)
Lemma ms_until_bounds tv now :
  normal tv -> normal now -> timer_lt now tv = true -> us_of tv - us_of now < 2147483647000 ->
  let t := ms_until tv now in
  0 < t /\ 1000 * (t - 1) < us_of tv - us_of now <= 1000 * t.
Proof.
  intros Ht Hn Hlt Hmax t. rewrite timer_lt_us in Hlt by done. apply Z.ltb_lt in Hlt.
  unfold t, ms_until, timersub, normal, us_of, USEC in *.
  destruct (Z.ltb_spec (tv_usec tv - tv_usec now) 0); simpl;
    rewrite Z.quot_div_nonneg by lia;
    match goal with |- context [?a / 1000] =>
      pose proof (Z.div_mod a 1000); pose proof (Z.mod_pos_bound a 1000) end;
    rewrite s32_small by lia; lia.
Qed.

(** ** Well-formed schedulers *)

Definition timed_event (e : event) : Prop :=
  match ev_time e with
  | TP_timeout _ => ev_type e = OVIS_EVENT_TIMEOUT \/ ev_type e = OVIS_EVENT_EPOLL_TIMEOUT
  | TP_periodic per _ => ev_type e = OVIS_EVENT_PERIODIC /\ per <> 0
  | TP_none => False
  end.

(** The time [ovis_event_next_wakeup] computes. *)
Definition next_tv (e : event) (now : timeval) : option timeval :=
  match ev_time e with
  | TP_timeout t => Some (timeradd now t)
  | TP_periodic per ph => set_next_periodic_time per ph now
  | TP_none => None
  end.

Record sched_ok (H : gset loc) (s : sched) : Prop := {
  so_heap : heap_ok H s;
  so_timed : forall p, p ∈ H -> exists e, events s !! p = Some e /\ timed_event e;
  so_nodup : NoDup (oneshot_tq s);
  so_oneshot : forall p, p ∈ oneshot_tq s -> p ∉ H /\
    exists e, events s !! p = Some e /\ ev_type e = OVIS_EVENT_ONESHOT /\ ev_idx e = 0
}.

Lemma heap_ok_events H s m :
  heap_ok H s ->
  (forall p, p ∈ H -> exists e e', events s !! p = Some e /\ m !! p = Some e' /\ ev_tv e' = ev_tv e /\ ev_idx e' = ev_idx e) ->
  heap_ok H (with_events m s).
Proof.
  intros (n & f & Hn & Hna & Hlen & Hl & Ho & Hm) He. exists n, f. split_and!; simpl; try done; try lia.
  - intros i Hi _. destruct (Hl i) as (Ha & e & Hei & Hidx); [done..|]. split; [done|].
    destruct (He (f i)) as (e1 & e' & H1 & H2 & _ & H3); [apply Hm; by exists i|].
    exists e'. simpl. split; [done|]. simplify_eq. congruence.
  - eapply heap_order_key; [|exact Ho]. intros p Hp. unfold key_of. simpl.
    destruct (He p) as (e1 & e' & H1 & H2 & H3 & _); [by apply Hm|]. by rewrite H1, H2.
Qed.

Lemma heap_ok_upd_outside H s p e : heap_ok H s -> p ∉ H -> heap_ok H (with_events (<[p := e]> (events s)) s).
Proof.
  intros Hok Hp. apply heap_ok_events; [done|]. intros q Hq.
  destruct (heap_ok_slot _ _ _ Hok Hq) as (eq & n & f & j & Heq & _).
  exists eq, eq. rewrite lookup_insert_ne by set_solver. done.
Qed.

Lemma heap_ok_fields H s s' :
  heap_ok H s -> events s' = events s -> harr s' = harr s -> heap_len s' = heap_len s ->
  alloc_len s' = alloc_len s -> heap_ok H s'.
Proof. intros (n & f & H') E1 E2 E3 E4. exists n, f. by rewrite E1, E2, E3, E4. Qed.

Lemma timed_next e now : timed_event e -> is_Some (next_tv e now).
Proof.
  unfold timed_event, next_tv, set_next_periodic_time. destruct (ev_time e) as [|t|per ph]; [done|eauto|].
  intros [_ Hper]. destruct (Z.eqb_spec per 0); [done|eauto].
Qed.

Lemma same_events_field {A} (g : event -> A) P m m' p e :
  (forall i e, g (set_ev_idx i e) = g e) ->
  same_events P m m' -> m !! p = Some e -> exists e', m' !! p = Some e' /\ g e' = g e.
Proof.
  intros Hg Hse He. destruct (same_events_lookup _ _ _ _ _ Hse He) as (e' & He' & Heq).
  exists e'. split; [done|]. by rewrite <- (Hg 0 e'), <- (Hg 0 e), Heq.
Qed.

Lemma same_events_timed P m m' p e :
  same_events P m m' -> m !! p = Some e -> timed_event e -> exists e', m' !! p = Some e' /\ timed_event e'.
Proof.
  intros Hse He Ht. destruct (same_events_field (fun e => (ev_type e, ev_time e)) _ _ _ _ _ ltac:(done) Hse He) as (e' & He' & Heq).
  exists e'. split; [done|]. unfold timed_event in *. injection Heq as -> ->. done.
Qed.

(** ** A round of the scheduler *)

Definition oneshot_event (e : event) : Prop := ev_type e = OVIS_EVENT_ONESHOT.

(** What a fired timer leaves: the same heap, with its next wake-up time. *)
Definition rescheduled (H : gset loc) p e now (cb : Z) (s s' : sched) : Prop :=
  heap_ok H s' /\ (exists m a, s' = store s m a) /\
  exists tv, next_tv e now = Some tv /\ key_of (events s') p = tv /\
    (exists e', events s' !! p = Some e' /\ cb_type e' = cb /\ ev_time e' = ev_time e /\ ev_type e' = ev_type e) /\
    forall q, q <> p -> (set_ev_idx 0 <$> events s' !! q) = (set_ev_idx 0 <$> events s !! q) /\
      (q ∉ H -> events s' !! q = events s !! q).

Lemma runs_fire_timed H s p e now cb tv :
  heap_ok H s -> p ∈ H -> events s !! p = Some e -> next_tv e now = Some tv ->
  runs (upd_ev p (set_ev_tv tv);; ovis_event_heap_update (ev_idx e);; upd_ev p (set_cb_type cb)) s
    (fun _ => rescheduled H p e now cb s).
Proof.
  intros Hok Hp He Htv. eapply runs_retime; [done..|]. intros m a s1 Hok1 Hse.
  assert (He1 : <[p := set_ev_tv tv e]> (events s) !! p = Some (set_ev_tv tv e)) by apply lookup_insert_eq.
  destruct (same_events_lookup _ _ _ _ _ Hse He1) as (e1 & He1' & Heq).
  eapply runs_upd_ev; [exact He1'|]. split; [|split].
  - apply heap_ok_events; [done|]. intros q Hq.
    destruct (heap_ok_slot _ _ _ Hok1 Hq) as (eq & n & f & j & Heq' & _). exists eq.
    destruct (decide (q = p)) as [->|].
    + exists (set_cb_type cb eq). rewrite lookup_insert_eq. simpl in Heq'. rewrite He1' in Heq'. by simplify_eq.
    + exists eq. by rewrite lookup_insert_ne.
  - exists (<[p := set_cb_type cb e1]> m), a. done.
  - exists tv. simpl. split_and!; [done| | |].
    + unfold key_of. rewrite lookup_insert_eq. simpl. by destruct e1, e; simplify_eq/=.
    + eexists. rewrite lookup_insert_eq. split; [done|]. simpl. by destruct e1, e; simplify_eq/=.
    + intros q Hq. rewrite lookup_insert_ne by done. destruct (Hse q) as [E1 E2].
      rewrite lookup_insert_ne in E1, E2 by done. done.
Qed.

Lemma rescheduled_sched_ok H p e now cb s s' :
  sched_ok H s -> p ∈ H -> events s !! p = Some e -> timed_event e ->
  rescheduled H p e now cb s s' -> sched_ok H s'.
Proof.
  intros [_ Htimed Hnd Hone] Hp He Ht (Hok & (m & a & ->) & tv & _ & _ & (e' & He' & _ & Et & Ey) & Hoth). split; [done| |done|].
  - intros q Hq. destruct (decide (q = p)) as [->|Hne].
    { exists e'. split; [done|]. unfold timed_event in *. by rewrite Et, Ey. }
    destruct (Htimed q Hq) as (eq & Heq & Hteq). destruct (Hoth q Hne) as [E _]. simpl in *.
    rewrite Heq in E. destruct (m !! q) as [eq'|]; [|done]. exists eq'. split; [done|].
    unfold timed_event in *. by destruct eq, eq'; simplify_eq/=.
  - intros q Hq. destruct (Hone q Hq) as (Hnh & eq & Heq & Hty & Hi). split; [done|]. exists eq.
    destruct (Hoth q) as [_ E]; [intros ->; done|]. simpl in *. rewrite E by done. done.
Qed.

(** The outcome of a round. *)
Definition round_post (H : gset loc) now1 now2 (s : sched) (r : process_result) (s' : sched) : Prop :=
  sched_ok H s' /\
  match r with
  | PR_fire p =>
      (exists tq, oneshot_tq s = p :: tq /\ oneshot_tq s' = tq /\ evcount s' = evcount s - 1) \/
      (oneshot_tq s = [] /\ p ∈ H /\ tle (key_of (events s) p) now1 /\
       (forall q, q ∈ H -> tle (key_of (events s) p) (key_of (events s) q)) /\
       evcount s' = evcount s /\
       exists e, events s !! p = Some e /\ next_tv e now2 = Some (key_of (events s') p))
  | PR_timeout t =>
      oneshot_tq s = [] /\ (forall p, p ∈ H -> timer_lt now1 (key_of (events s) p) = true) /\
      events s' = events s /\
      (H = ∅ /\ t = -1 \/
       exists p, p ∈ H /\ (forall q, q ∈ H -> tle (key_of (events s) p) (key_of (events s) q)) /\
         t = ms_until (key_of (events s) p) now1)
  end.

(** The dispatch of a fired event, by its type. *)
Lemma runs_fire_dispatch H s p e now2 Q :
  sched_ok H s -> p ∈ H -> events s !! p = Some e -> timed_event e ->
  (forall s' cb, rescheduled H p e now2 cb s s' -> Q (PR_fire p) s') ->
  runs (e ← ld_ev p;
      (if (ev_type e =? OVIS_EVENT_TIMEOUT) || (ev_type e =? OVIS_EVENT_EPOLL_TIMEOUT) then
         match ev_time e with
         | TP_timeout t =>
             upd_ev p (set_ev_tv (timeradd now2 t));;
             ovis_event_heap_update (ev_idx e);;
             upd_ev p (set_cb_type OVIS_EVENT_TIMEOUT)
         | _ => stuck
         end
       else if ev_type e =? OVIS_EVENT_PERIODIC then
         match ev_time e with
         | TP_periodic per ph =>
             tv ← lift_opt (set_next_periodic_time per ph now2);
             upd_ev p (set_ev_tv tv);;
             ovis_event_heap_update (ev_idx e);;
             upd_ev p (set_cb_type OVIS_EVENT_PERIODIC)
         | _ => stuck
         end
       else if ev_type e =? OVIS_EVENT_ONESHOT then
         upd_ev p (set_cb_type OVIS_EVENT_ONESHOT)
       else stuck);;
      mret (PR_fire p)) s Q.
Proof.
  intros Hso Hp He Ht HQ. ev_steps. pose proof Ht as Ht'. pose proof (so_heap _ _ Hso) as Hok.
  unfold timed_event in Ht. destruct (ev_time e) as [|t|per ph] eqn:Etime; [done| |].
  - assert ((ev_type e =? OVIS_EVENT_TIMEOUT) || (ev_type e =? OVIS_EVENT_EPOLL_TIMEOUT) = true) as ->.
    { by destruct Ht as [-> | ->]. }
    eapply runs_mono; [eapply runs_fire_timed; [done|done|done|by unfold next_tv; rewrite Etime]|].
    simpl. intros _ s' Hres. ev_steps. by eapply HQ.
  - destruct Ht as [Hty Hper]. rewrite Hty. simpl.
    destruct (timed_next e now2 Ht') as [tv Htv]. pose proof Htv as Htv'.
    unfold next_tv in Htv. rewrite Etime in Htv. apply runs_bind. eapply runs_lift_opt; [done|].
    eapply runs_mono; [by eapply runs_fire_timed|].
    simpl. intros _ s' Hres. ev_steps. by eapply HQ.
Qed.

Lemma timersub_nonneg a b : normal a -> normal b -> timer_lt b a = true ->
  0 <= tv_sec (timersub a b) /\ 0 <= tv_usec (timersub a b).
Proof.
  intros Ha Hb Hlt. rewrite timer_lt_us in Hlt by done. apply Z.ltb_lt in Hlt.
  unfold timersub, normal, us_of, USEC in *. destruct (Z.ltb_spec (tv_usec a - tv_usec b) 0); simpl; lia.
Qed.

Lemma tle_lt_trans a b c : timer_lt a b = true -> tle b c -> timer_lt a c = true.
Proof. intros. timer_tac. Qed.

(** A one-shot event is taken from the queue. *)
Lemma runs_round_oneshot H s p tq now1 now2 :
  sched_ok H s -> oneshot_tq s = p :: tq ->
  runs (ovis_event_heap_process_round now1 now2) s (round_post H now1 now2 s).
Proof.
  intros Hso Htq. pose proof (so_oneshot _ _ Hso p) as Hp. rewrite Htq in Hp.
  destruct Hp as (Hnh & e & He & Hty & Hidx); [by left|]. pose proof (so_nodup _ _ Hso) as Hnd.
  rewrite Htq in Hnd. apply NoDup_cons in Hnd as [Hntq Hnd].
  unfold ovis_event_heap_process_round. ev_steps. rewrite Htq. ev_steps. simpl events.
  eapply runs_ld_ev; [apply lookup_insert_eq|]. simpl ev_type. rewrite Hty. simpl.
  ev_steps. eapply runs_upd_ev; [apply lookup_insert_eq|]. ev_steps. simpl.
  set (s1 := with_events _ _).
  assert (Hoth : forall q, q <> p -> events s1 !! q = events s !! q).
  { intros q Hq. unfold s1. simpl. by rewrite !lookup_insert_ne. }
  split; [|left; by exists tq]. split.
  - eapply (heap_ok_fields H (with_events (events s1) s)); [|done..]. apply heap_ok_events; [apply Hso|].
    intros q Hq. destruct (heap_ok_slot _ _ _ (so_heap _ _ Hso) Hq) as (eq & n & f & j & Heq & _).
    exists eq, eq. rewrite Hoth by (intros ->; done). done.
  - intros q Hq. destruct (so_timed _ _ Hso q Hq) as (eq & Heq & Ht). exists eq.
    rewrite Hoth by (intros ->; done). done.
  - done.
  - intros q Hq. destruct (so_oneshot _ _ Hso q) as (? & eq & ? & ? & ?); [rewrite Htq; by right|].
    split; [done|]. exists eq. rewrite Hoth by (intros ->; done). done.
Qed.

Lemma sched_ok_state H s st : sched_ok H s -> sched_ok H (with_state st s).
Proof. intros [H1 H2 H3 H4]. by split. Qed.

Lemma runs_round H s now1 now2 :
  sched_ok H s -> normal now1 -> (forall p, p ∈ H -> normal (key_of (events s) p)) ->
  runs (ovis_event_heap_process_round now1 now2) s (round_post H now1 now2 s).
Proof.
  intros Hso Hnow Hkeys. destruct (oneshot_tq s) as [|p tq] eqn:Htq; [|by eapply runs_round_oneshot].
  unfold ovis_event_heap_process_round. ev_steps. rewrite Htq. ev_steps.
  eapply runs_mono; [apply runs_heap_top, Hso|]. simpl. intros [p|] s' [-> Htop].
  - destruct Htop as (Hp & _ & Hmin). destruct (so_timed _ _ Hso p Hp) as (e & He & Ht). ev_steps.
    assert (Hk : key_of (events s) p = ev_tv e) by (unfold key_of; by rewrite He).
    destruct (timer_lt now1 (ev_tv e)) eqn:Hlt; simpl negb; cbv iota.
    + destruct (timersub_nonneg (ev_tv e) now1) as [Hs Hu]; [rewrite <- Hk; auto|done|done|].
      apply runs_bind, runs_assert; [by apply Z.leb_le|]. apply runs_bind, runs_assert; [by apply Z.leb_le|].
      ev_steps.
      assert (Hpost : forall s', sched_ok H s' -> events s' = events s ->
        round_post H now1 now2 s (PR_timeout (ms_until (ev_tv e) now1)) s').
      { intros s' Hs' Hev. split; [done|]. rewrite Hev. split_and!; [done| |done|right; exists p; split_and!; [done|done|by rewrite Hk]].
        intros q Hq. eapply tle_lt_trans; [exact Hlt|]. rewrite <- Hk. by apply Hmin. }
      case_bool_decide; ev_steps; apply Hpost; try done; by apply sched_ok_state.
    + apply runs_ret. eapply runs_fire_dispatch; [done..|]. intros s' cb Hres.
      split; [by eapply rescheduled_sched_ok|]. right.
      destruct Hres as (_ & (m & a & ->) & tv & Htv & Hkey & _).
      split_and!; try done; [by rewrite Hk|]. exists e. split; [done|]. by rewrite Hkey.
  - ev_steps. subst H.
    assert (Hpost : forall s', sched_ok ∅ s' -> events s' = events s -> round_post ∅ now1 now2 s (PR_timeout (-1)) s').
    { intros s' Hs' Hev. split; [done|]. split_and!; [done|set_solver|done|by left]. }
    case_bool_decide; ev_steps; apply Hpost; try done; by apply sched_ok_state.
Qed.

(** ** Registration of a timer event *)

Lemma runs_next_wakeup s p e now tv :
  events s !! p = Some e -> timed_event e -> next_tv e now = Some tv ->
  runs (ovis_event_next_wakeup now p) s (fun _ s' =>
    s' = with_events (<[p := set_ev_tv tv e]> (events s)) s).
Proof.
  intros He Ht Htv. unfold ovis_event_next_wakeup. ev_steps. unfold timed_event, next_tv in *.
  destruct (ev_time e) as [|t|per ph]; [done| |].
  - assert ((ev_type e =? OVIS_EVENT_TIMEOUT) || (ev_type e =? OVIS_EVENT_EPOLL_TIMEOUT) = true) as ->.
    { by destruct Ht as [-> | ->]. }
    ev_steps. by simplify_eq.
  - destruct Ht as [-> _]. simpl. apply runs_bind. eapply runs_lift_opt; [done|]. by ev_steps.
Qed.

(** The scheduler after an insertion into the heap. *)
Lemma sched_ok_insert H s s' p e :
  sched_ok H s -> p ∉ oneshot_tq s -> events s !! p = Some e -> timed_event e ->
  heap_ok ({[ p ]} ∪ H) s' -> heap_frame (fun q => q ∈ {[ p ]} ∪ H) s s' -> sched_ok ({[ p ]} ∪ H) s'.
Proof.
  intros [_ Htimed Hnd Hone] Hq He Ht Hok ((n & m & a & ->) & Hse). split; [done| |done|].
  - intros q [->%elem_of_singleton|Hq']%elem_of_union; [by eapply same_events_timed|].
    destruct (Htimed q Hq') as (eq & Heq & Hteq). by eapply same_events_timed.
  - intros q Hq'. destruct (Hone q Hq') as (Hn & eq & Heq & Hty & Hi). simpl in Hse.
    assert (q ∉ {[ p ]} ∪ H) as Hnq by set_solver. split; [done|]. exists eq.
    destruct (Hse q) as [_ E]. simpl. rewrite E; done.
Qed.

Lemma sched_ok_upd_outside H s p e :
  sched_ok H s -> p ∉ H -> p ∉ oneshot_tq s -> sched_ok H (with_events (<[p := e]> (events s)) s).
Proof.
  intros [H1 H2 H3 H4] Hp Hq. split; [by apply heap_ok_upd_outside| |done|].
  - intros q Hq'. destruct (H2 q Hq') as (eq & ? & ?). exists eq. simpl. rewrite lookup_insert_ne by set_solver. done.
  - intros q Hq'. destruct (H4 q Hq') as (? & eq & ? & ? & ?). split; [done|]. exists eq. simpl.
    rewrite lookup_insert_ne by set_solver. done.
Qed.

Lemma sched_ok_fields H s s' :
  sched_ok H s -> events s' = events s -> harr s' = harr s -> heap_len s' = heap_len s ->
  alloc_len s' = alloc_len s -> oneshot_tq s' = oneshot_tq s -> sched_ok H s'.
Proof.
  intros [H1 H2 H3 H4] E1 E2 E3 E4 E5. split; [by eapply heap_ok_fields|by rewrite E1|by rewrite E5|].
  by rewrite E1, E5.
Qed.

(** A strictly earliest event sits at the root. *)
Lemma heap_ok_earliest H s p :
  heap_ok H s -> p ∈ H ->
  (forall q, q ∈ H -> q <> p -> timer_lt (key_of (events s) p) (key_of (events s) q) = true) ->
  exists e, events s !! p = Some e /\ ev_idx e = 0.
Proof.
  intros Hok Hp Hmin.
  destruct (heap_ok_slot _ _ _ Hok Hp) as (e & n & f & j & He & Hidx & Hj & Hf & Hn & Hna & Hlen & Hl & Ho & Hm).
  exists e. split; [done|]. destruct (decide (j = 0%nat)) as [->|Hne]; [done|].
  assert (Hr : f 0%nat <> p).
  { intros Heq. apply Hne. apply (hlink_inj _ _ _ _ _ _ Hl); [done|lia|congruence]. }
  pose proof (heap_order_root _ _ _ j Ho Hj) as Hle. rewrite Hf in Hle. unfold tle in Hle.
  rewrite Hmin in Hle; [done| |done]. apply Hm. exists 0%nat. split; [lia|done].
Qed.

Definition pure_timer (e : event) : Prop :=
  timed_event e /\ ev_type e <> OVIS_EVENT_EPOLL_TIMEOUT.

Lemma pure_timer_bits e : pure_timer e ->
  has_bits (ev_type e) OVIS_EVENT_EPOLL = false /\
  has_bits (ev_type e) (Z.lor OVIS_EVENT_TIMEOUT OVIS_EVENT_PERIODIC) = true /\
  (ev_type e =? OVIS_EVENT_ONESHOT) = false.
Proof.
  intros [Ht Hne]. unfold timed_event in Ht. destruct (ev_time e); [done| |].
  - by destruct Ht as [-> | ?].
  - by destruct Ht as [-> _].
Qed.

(** The outcome of adding a timer to a heap with room. *)
Definition timer_added H s p e now (wr : option Z) (rc : Z) s' : Prop :=
  sched_ok ({[ p ]} ∪ H) s' /\ evcount s' = evcount s + 1 /\ next_tv e now = Some (key_of (events s') p) /\
  (forall q, q ∈ H -> key_of (events s') q = key_of (events s) q) /\
  (rc = 0 \/ wr = Some rc) /\
  (mstate s = OVIS_EVENT_MANAGER_WAITING ->
   (forall q, q ∈ H -> timer_lt (key_of (events s') p) (key_of (events s) q) = true) -> wr = None ->
   rc = 0 /\ wakeups s' = wakeups s + 1).

Lemma runs_event_add_timer H s p e now wr rc0 :
  sched_ok H s -> p ∉ H -> p ∉ oneshot_tq s -> events s !! p = Some e -> pure_timer e -> ev_idx e = -1 ->
  runs (ovis_scheduler_event_add rc0 now wr p) s (fun rc s' =>
    if heap_len s =? alloc_len s then rc = ENOMEM /\ evcount s' = evcount s /\ sched_ok H s'
    else timer_added H s p e now wr rc s').
Proof.
  intros Hso Hp Hq He Hpt Hidx. destruct (pure_timer_bits e Hpt) as (B1 & B2 & B3). destruct Hpt as [Ht _].
  destruct (timed_next e now Ht) as [tv Htv].
  unfold ovis_scheduler_event_add. ev_steps. rewrite B1. ev_steps. rewrite B2. ev_steps. rewrite Hidx. simpl negb. cbv iota.
  apply runs_bind. eapply runs_mono; [by eapply runs_next_wakeup|]. simpl. intros _ s1 ->.
  set (s1 := with_events _ s).
  assert (Hso1 : sched_ok H s1) by by apply sched_ok_upd_outside.
  assert (He1 : events s1 !! p = Some (set_ev_tv tv e)) by apply lookup_insert_eq.
  assert (Hk1 : forall q, q <> p -> key_of (events s1) q = key_of (events s) q).
  { intros q Hne. unfold key_of, s1. simpl. by rewrite lookup_insert_ne. }
  apply runs_bind. eapply runs_mono; [eapply (runs_heap_insert H s1); [apply Hso1|done|done]|].
  change (heap_len s1) with (heap_len s). change (alloc_len s1) with (alloc_len s). intros rc s2.
  destruct (Z.eqb_spec (heap_len s) (alloc_len s)) as [Hfull|Hroom].
  { intros [-> ->]. simpl. by ev_steps. }
  intros (-> & Hok2 & Hfr). simpl negb. cbv iota.
  assert (Hso2 : sched_ok ({[ p ]} ∪ H) s2) by by eapply sched_ok_insert.
  destruct Hfr as ((n & m & a & E2) & Hse).
  assert (Hk2 : forall q, key_of (events s2) q = key_of (events s1) q) by (intros q; by eapply same_events_key).
  assert (Hkp : key_of (events s2) p = tv) by (rewrite Hk2; unfold key_of; by rewrite He1).
  destruct (heap_ok_slot _ _ p Hok2) as (e2 & n2 & f2 & j2 & He2 & Hidx2 & _); [set_solver|].
  ev_steps. simpl mstate.
  assert (Hadd : forall s3 rc, events s3 = events s2 -> harr s3 = harr s2 -> heap_len s3 = heap_len s2 ->
    alloc_len s3 = alloc_len s2 -> oneshot_tq s3 = oneshot_tq s2 -> evcount s3 = evcount s2 + 1 ->
    (rc = 0 \/ wr = Some rc) ->
    (mstate s2 = OVIS_EVENT_MANAGER_WAITING -> ev_idx e2 = 0 -> wr = None -> rc = 0 /\ wakeups s3 = wakeups s2 + 1) ->
    timer_added H s p e now wr rc s3).
  { intros s3 rc E3 F1 F2 F3 F4 Hcnt Hrc Hwake. split_and!.
    - by eapply sched_ok_fields.
    - rewrite Hcnt, E2. done.
    - by rewrite E3, Hkp.
    - intros q Hq'. rewrite E3, Hk2, Hk1 by (intros ->; done). done.
    - done.
    - intros Hst Hearly Hwr.
      assert (Hw : rc = 0 /\ wakeups s3 = wakeups s2 + 1).
      { apply Hwake; [by rewrite E2|..|done].
        destruct (heap_ok_earliest _ _ p Hok2) as (e2' & He2' & Hi2); [set_solver| |congruence].
        intros q Hq' Hne. rewrite Hk2, (Hk2 q), (Hk1 q) by done. rewrite <- Hk2, <- E3. apply Hearly. set_solver. }
      split; [apply Hw|]. destruct Hw as [_ ->]. by rewrite E2. }
  simpl events. ev_steps. case_bool_decide as Hst; [|simpl].
  2: { ev_steps. rewrite B3. ev_steps. apply Hadd; try done; first [by left | intros Hw; by rewrite Hw in Hst]. }
  simpl andb. destruct (Z.eqb_spec (ev_idx e2) 0) as [H0|H0].
  2: { ev_steps. rewrite B3. ev_steps. apply Hadd; try done; first [by left | intros ? Hx; by rewrite Hx in H0]. }
  destruct wr as [err|]; simpl notify; ev_steps.
  - destruct (Z.eqb_spec err 0) as [->|]; [rewrite B3|]; ev_steps; apply Hadd; try done; first [by left | by right].
  - simpl. rewrite B3. ev_steps. apply Hadd; try done; by left.
Qed.

(** A phase of minus two periods or less puts the wake-up time in the past. *)
Lemma next_periodic_past per phi tv :
  0 < per <= 2305843009213693952 -> normal tv -> us_of tv < 2305843009213693952 ->
  - us_of tv <= phi <= -2 * per ->
  exists tv', set_next_periodic_time per (u64 phi) tv = Some tv' /\ us_of tv' < us_of tv.
Proof.
  intros Hper Hnorm Hnow Hphi. unfold set_next_periodic_time.
  destruct (Z.eqb_spec per 0); [lia|]. fold (us_of tv).
  assert (0 <= us_of tv) by (unfold us_of, normal, USEC in *; lia).
  set (now := us_of tv) in *.
  rewrite (u64_small now), (u64_small (per - 1)) by lia. rewrite (u64_small (now + (per - 1))) by lia.
  set (R := (now + (per - 1)) / per * per).
  assert (HR : now <= R <= now + per - 1).
  { unfold R. pose proof (Z.div_mod (now + (per - 1)) per). pose proof (Z.mod_pos_bound (now + (per - 1)) per). lia. }
  rewrite (u64_small R) by lia. rewrite (wrapu_add_r 64 R phi), (wraps_wrapu 64 (R + phi)) by lia.
  rewrite (s64_small (R + phi)), (s64_small now) by lia. rewrite (s64_small (R + phi - now)) by lia.
  destruct (Z.leb_spec (R + phi - now) 0) as [Hd|Hd]; [|lia].
  rewrite wraps_add_l, (s64_small (R + phi - now + per)) by lia. eexists. split; [reflexivity|].
  rewrite wrapu_add_r. replace (now + (R + phi - now + per)) with (R + phi + per) by lia.
  rewrite u64_small by lia. unfold us_of, USEC. simpl.
  pose proof (Z.div_mod (R + phi + per) 1000000). pose proof (Z.mod_pos_bound (R + phi + per) 1000000).
  rewrite !s64_small by lia. lia.
Qed.

(** ** The loop on an empty scheduler *)

Definition idle (s : sched) : Prop :=
  heap_len s = 0 /\ oneshot_tq s = [] /\ evcount s = 0.

Lemma runs_loop_empty cb s now1 now2 times ep script :
  idle s -> mstate s = OVIS_EVENT_MANAGER_INIT \/ mstate s = OVIS_EVENT_MANAGER_TERM ->
  ovis_scheduler_loop cb true (Turn ((now1, now2) :: times) ep :: script) s =
    Some (Some ENOENT, with_state OVIS_EVENT_MANAGER_WAITING (with_refcount (refcount s + 1) s)).
Proof.
  intros (Hlen & Htq & Hcnt) Hst.
  unfold ovis_scheduler_loop, ovis_scheduler_ref_get, ovis_scheduler_turns, ovis_event_heap_process,
    ovis_event_heap_process_round, ovis_event_heap_top, mbind, M_bind, gets, modify, mret, M_ret. simpl.
  destruct Hst as [-> | ->]; simpl; rewrite Htq; simpl; rewrite Hlen; simpl; rewrite Hcnt; done.
Qed.

(** ** Example schedulers *)

Definition sec (n : Z) : timeval := Timeval n 0.

(** A scheduler of capacity 4 with a one-second timer (1), a one-shot event (2)
    and a periodic event (3) that are not registered yet. *)
Definition ex_sched : sched :=
  with_events (list_to_map [ (1%positive, ovis_event_timeout_new (sec 1));
      (2%positive, Event OVIS_EVENT_ONESHOT 0 (-1) TP_none 0 0 (Timeval 0 0) (-1));
      (3%positive, ovis_event_periodic_new 1000000 500000) ])
    (ovis_scheduler_new 4).

Lemma ex_sched_ok : sched_ok ∅ ex_sched.
Proof.
  split; [|set_solver|constructor|set_solver].
  exists 0%nat, (fun _ => 1%positive). split_and!; [done|by vm_compute|by vm_compute|done|..].
  - intros i Hi. lia.
  - intros j c _ Hc. lia.
  - intros p. unfold member. split; [set_solver|]. intros (i & Hi & _). lia.
Qed.

(** The timer is in the heap, due at 11 s. *)
Definition ex_armed : sched :=
  with_evcount 1 (with_heap_len 1 (with_harr [Some 1%positive; None; None; None]
    (with_events (<[1%positive := set_ev_idx 0 (set_ev_tv (sec 11) (ovis_event_timeout_new (sec 1)))]> (events ex_sched)) ex_sched))).

Definition ex_set : gset loc := {[ 1%positive ]}.

Lemma ex_armed_ok : sched_ok ex_set ex_armed.
Proof.
  split; [|intros p ->%elem_of_singleton; eexists; split; [reflexivity|by left]|constructor|set_solver].
  exists 1%nat, (fun _ => 1%positive). split_and!; [done|by vm_compute|by vm_compute|done|..].
  - intros i Hi _. assert (i = 0%nat) as -> by lia. split; [done|]. eexists. split; [reflexivity|done].
  - intros j c Hc Hn. unfold child in Hc. lia.
  - intros p. unfold member, ex_set. rewrite elem_of_singleton. split; [intros ->; exists 0%nat; lia|].
    intros (i & _ & <-). done.
Qed.

(** Seven timers in heap order. *)
Definition seven (p : positive) : Z :=
  match p with 1%positive => 1 | 2%positive => 4 | 3%positive => 2 | 4%positive => 5 | 5%positive => 6 | 6%positive => 7 | _ => 3 end.

Definition ex_seven : sched :=
  with_heap_len 7 (with_harr ((Some <$> [1; 2; 3; 4; 5; 6; 7]%positive) ++ [None])
    (with_events (list_to_map ((fun p => (p, set_ev_idx (Z.pos p - 1) (set_ev_tv (sec (seven p)) (ovis_event_timeout_new (sec 1)))))
        <$> [1; 2; 3; 4; 5; 6; 7]%positive)) (ovis_scheduler_new 8))).

Lemma ex_seven_ok : heap_ok (list_to_set [1; 2; 3; 4; 5; 6; 7]%positive) ex_seven.
Proof.
  exists 7%nat, Pos.of_succ_nat. split_and!; [done|by vm_compute|by vm_compute|done|..].
  - intros i Hi _. do 7 (destruct i as [|i]; [split; [done|]; eexists; split; [reflexivity|done]|]). lia.
  - intros j c Hc Hn. unfold child in Hc.
    do 3 (destruct j as [|j]; [destruct Hc as [-> | ->]; by vm_compute|]). lia.
  - intros p. unfold member. split.
    + intros Hp. rewrite elem_of_list_to_set in Hp. exists (Nat.pred (Pos.to_nat p)).
      repeat (apply elem_of_cons in Hp as [->|Hp]; [simpl; lia|]). by apply elem_of_nil in Hp.
    + intros (i & Hi & <-). rewrite elem_of_list_to_set. do 7 (destruct i as [|i]; [set_solver|]). lia.
Qed.

(** ** Properties *)

(** C34: inserting an event into the heap array returns ENOMEM and changes
    nothing when the array is full; otherwise the array is a heap of the old
    events and the new one, every event in it has its slot number as
    back-pointer, and nothing but back-pointers of heap events was written. *)
Theorem heap_insert_refines H s p e :
  heap_ok H s -> p ∉ H -> events s !! p = Some e ->
  runs (ovis_event_heap_insert p) s (fun rc s' =>
    if heap_len s =? alloc_len s then rc = ENOMEM /\ s' = s
    else rc = 0 /\ heap_ok ({[ p ]} ∪ H) s' /\ heap_frame (fun q => q ∈ {[ p ]} ∪ H) s s').
Proof. apply runs_heap_insert. Qed.

Lemma heap_insert_refines_witness :
  runs (ovis_event_heap_insert 3%positive) ex_armed (fun rc s' =>
    rc = 0 /\ heap_ok ({[ 3%positive ]} ∪ ex_set) s' /\
    heap_frame (fun q => q ∈ {[ 3%positive ]} ∪ ex_set) ex_armed s').
Proof.
  apply (heap_insert_refines ex_set ex_armed 3%positive (ovis_event_periodic_new 1000000 500000)).
  - apply ex_armed_ok.
  - set_solver.
  - reflexivity.
Defined.

(** C35: popping a non-empty heap terminates and returns an event whose wake-up
    time is not later than any other's; the rest stays a heap with correct
    back-pointers. *)
Theorem heap_pop_refines H s :
  heap_ok H s -> H <> ∅ ->
  runs ovis_event_heap_pop s (fun p s' =>
    p ∈ H /\ (forall q, q ∈ H -> tle (key_of (events s) p) (key_of (events s) q)) /\
    heap_ok (H ∖ {[ p ]}) s' /\ heap_frame (fun q => q ∈ H) s s').
Proof. apply runs_heap_pop. Qed.

Lemma heap_pop_refines_witness :
  runs ovis_event_heap_pop ex_armed (fun p s' =>
    p ∈ ex_set /\
    (forall q, q ∈ ex_set -> tle (key_of (events ex_armed) p) (key_of (events ex_armed) q)) /\
    heap_ok (ex_set ∖ {[ p ]}) s' /\ heap_frame (fun q => q ∈ ex_set) ex_armed s').
Proof.
  apply (heap_pop_refines ex_set ex_armed).
  - apply ex_armed_ok.
  - apply non_empty_singleton_L.
Defined.

(** Removing an event from the middle of the heap can break the heap order,
    because [ovis_event_heap_remove] only sinks the event that takes the slot.
    With timers due at 1, 4, 2, 5, 6, 7 and 3 seconds in heap order, deleting the
    one due at 5 makes the timer due at 4 the next one after 1 and 2, while the
    one due at 3 is still registered. *)
Theorem heap_remove_breaks_order :
  heap_ok (list_to_set [1; 2; 3; 4; 5; 6; 7]%positive) ex_seven /\
  exists s', (ovis_event_heap_remove 4%positive;; ovis_event_heap_pop;; ovis_event_heap_pop;; ovis_event_heap_top) ex_seven
      = Some (Some 2%positive, s') /\
    timer_lt (key_of (events s') 7%positive) (key_of (events s') 2%positive) = true /\
    exists e, events s' !! 7%positive = Some e /\ 0 <= ev_idx e < heap_len s'.
Proof.
  split; [apply ex_seven_ok|]. eexists. split; [vm_compute; reflexivity|]. split; [reflexivity|].
  eexists. split; [reflexivity|]. vm_compute. done.
Qed.

(** C15: a round of the scheduler takes a queued one-shot event first; else it
    fires the earliest timer exactly when it is due, gives it its next wake-up
    time and restores the heap; else no timer is due, nothing is changed and
    the timeout is the time to the earliest one. *)
Theorem heap_process_round_correct H s now1 now2 :
  sched_ok H s -> normal now1 -> (forall p, p ∈ H -> normal (key_of (events s) p)) ->
  runs (ovis_event_heap_process_round now1 now2) s (round_post H now1 now2 s).
Proof. apply runs_round. Qed.

Lemma heap_process_round_correct_witness :
  runs (ovis_event_heap_process_round (sec 12) (sec 12)) ex_armed (round_post ex_set (sec 12) (sec 12) ex_armed).
Proof.
  apply (heap_process_round_correct ex_set ex_armed (sec 12) (sec 12)).
  - apply ex_armed_ok.
  - by vm_compute.
  - intros p ->%elem_of_singleton. by vm_compute.
Defined.

(** For a phase between minus and plus one period, the next wake-up time of
    a periodic event is after now, at most one period away, and congruent to
    the phase modulo the period; no intermediate result overflows. *)
Theorem next_periodic_time_correct per phi tv :
  0 < per <= 2305843009213693952 -> - per < phi <= per -> normal tv -> us_of tv < 2305843009213693952 ->
  exists tv', set_next_periodic_time per (u64 phi) tv = Some tv' /\ normal tv' /\
    us_of tv < us_of tv' <= us_of tv + per /\ (us_of tv' - phi) mod per = 0.
Proof. apply next_periodic. Qed.

Lemma next_periodic_time_correct_witness :
  exists tv', set_next_periodic_time 1000000 (u64 (-250000)) (sec 1700000000) = Some tv' /\ normal tv' /\
    us_of (sec 1700000000) < us_of tv' <= us_of (sec 1700000000) + 1000000 /\ (us_of tv' - -250000) mod 1000000 = 0.
Proof. apply (next_periodic_time_correct 1000000 (-250000) (sec 1700000000)); by vm_compute. Defined.

(** With a phase of minus two periods or less, which the constructor
    accepts, the computed wake-up time is before now: the event is due again at
    once, and every round that fires it leaves it due. *)
Theorem next_periodic_time_past per phi tv :
  0 < per <= 2305843009213693952 -> normal tv -> us_of tv < 2305843009213693952 ->
  - us_of tv <= phi <= -2 * per ->
  exists tv', set_next_periodic_time per (u64 phi) tv = Some tv' /\ us_of tv' < us_of tv.
Proof. apply next_periodic_past. Qed.

Lemma next_periodic_time_past_witness :
  exists tv', set_next_periodic_time 1000000 (u64 (-2000000)) (sec 1700000000) = Some tv' /\
    us_of tv' < us_of (sec 1700000000).
Proof. apply (next_periodic_time_past 1000000 (-2000000) (sec 1700000000)); by vm_compute. Defined.

(** The timeout given to [epoll_wait] does not end before the event is due
    and ends less than a millisecond after, for waits below 2^31 ms. *)
Theorem epoll_timeout_bounds tv now :
  normal tv -> normal now -> timer_lt now tv = true -> us_of tv - us_of now < 2147483647000 ->
  0 < ms_until tv now /\ 1000 * (ms_until tv now - 1) < us_of tv - us_of now <= 1000 * ms_until tv now.
Proof. apply ms_until_bounds. Qed.

Lemma epoll_timeout_bounds_witness :
  0 < ms_until (Timeval 11 250) (sec 10) /\
  1000 * (ms_until (Timeval 11 250) (sec 10) - 1) < us_of (Timeval 11 250) - us_of (sec 10)
    <= 1000 * ms_until (Timeval 11 250) (sec 10).
Proof. apply (epoll_timeout_bounds (Timeval 11 250) (sec 10)); by vm_compute. Defined.

(** C33: adding a timeout or periodic event that is not registered fails with
    ENOMEM and leaves the heap and the count alone when the heap is full;
    otherwise the event is in the heap with its wake-up time computed, the count
    goes up by one, and when the loop sleeps and the event is earlier than all
    others the loop is notified. *)
Theorem event_add_timer_correct H s p e now wr rc0 :
  sched_ok H s -> p ∉ H -> p ∉ oneshot_tq s -> events s !! p = Some e -> pure_timer e -> ev_idx e = -1 ->
  runs (ovis_scheduler_event_add rc0 now wr p) s (fun rc s' =>
    if heap_len s =? alloc_len s then rc = ENOMEM /\ evcount s' = evcount s /\ sched_ok H s'
    else timer_added H s p e now wr rc s').
Proof. apply runs_event_add_timer. Qed.

Lemma event_add_timer_correct_witness :
  runs (ovis_scheduler_event_add 0 (sec 10) None 1%positive) ex_sched
    (timer_added ∅ ex_sched 1%positive (ovis_event_timeout_new (sec 1)) (sec 10) None).
Proof.
  apply (event_add_timer_correct ∅ ex_sched 1%positive (ovis_event_timeout_new (sec 1)) (sec 10) None 0).
  - apply ex_sched_ok.
  - set_solver.
  - simpl. by apply not_elem_of_nil.
  - reflexivity.
  - split; [by left|done].
  - reflexivity.
Defined.

(** Deleting a pending one-shot event treats its marker index 0 as a heap
    slot: it stays in the one-shot queue and the timer in slot 0 is dropped from
    the heap; with an empty heap the array is accessed at index 2^32 - 1. *)
Theorem oneshot_del_corrupts_heap :
  (exists s', (ovis_scheduler_event_add 0 (sec 10) None 1%positive;;
               ovis_scheduler_event_add 0 (sec 10) None 2%positive;;
               ovis_scheduler_event_del 0 None 2%positive) ex_sched = Some (0, s') /\
     oneshot_tq s' = [2%positive] /\ heap_len s' = 0 /\ evcount s' = 1) /\
  (ovis_scheduler_event_add 0 (sec 10) None 2%positive;;
   ovis_scheduler_event_del 0 None 2%positive) ex_sched = None.
Proof. split; [eexists; split; [vm_compute; reflexivity|done]|]. vm_compute. reflexivity. Qed.

(** [ovis_scheduler_loop] on an empty scheduler with [return_on_empty]
    returns ENOENT but keeps the reference it took and leaves the state WAITING,
    so that the loop cannot be entered again (EINVAL). *)
Theorem loop_on_empty_keeps_reference cb s now1 now2 times ep script script' :
  idle s -> mstate s = OVIS_EVENT_MANAGER_INIT \/ mstate s = OVIS_EVENT_MANAGER_TERM -> 0 < refcount s ->
  exists s', ovis_scheduler_loop cb true (Turn ((now1, now2) :: times) ep :: script) s = Some (Some ENOENT, s') /\
    refcount s' = refcount s + 1 /\
    runs (ovis_scheduler_loop cb true script') s' (fun rc _ => rc = Some EINVAL).
Proof.
  intros Hidle Hst Href. eexists. split; [by apply runs_loop_empty|]. split; [done|].
  unfold ovis_scheduler_loop, ovis_scheduler_ref_get, ovis_scheduler_ref_put. ev_steps. simpl. ev_steps. simpl.
  apply runs_assert; [apply Z.ltb_lt; lia|]. ev_steps. simpl.
  destruct (Z.eqb_spec (refcount s + 1 + 1 - 1) 0); [lia|]. by ev_steps.
Qed.

Lemma loop_on_empty_keeps_reference_witness :
  exists s', ovis_scheduler_loop (fun _ => mret tt) true [Turn [(sec 10, sec 10)] (EP_events [])] (ovis_scheduler_new 4)
      = Some (Some ENOENT, s') /\ refcount s' = 2 /\
    runs (ovis_scheduler_loop (fun _ => mret tt) true []) s' (fun rc _ => rc = Some EINVAL).
Proof.
  apply (loop_on_empty_keeps_reference (fun _ => mret tt) (ovis_scheduler_new 4) (sec 10) (sec 10) [] (EP_events []) [] []).
  - by split.
  - by left.
  - done.
Defined.
