(* ===== verification/RailQuota.v ===== *)
(** * Send quotas and rate limits of a rail: model

    src/ldms/src/core/ldms_rail.c.  An endpoint of a rail holds the quota its
    peer granted ([send_quota], the bytes it may still send), the debt left
    by a reconfiguration that lowered the quota below what was available,
    and a quota of bytes per second.  The words are shared by the threads
    that publish messages and the transport threads, so the endpoint-level
    functions are computations with interference ([Conc]).  [clock] is what
    [clock_gettime(CLOCK_REALTIME)] answers: an error number or the current
    second. *)

From stdpp Require Import prelude.
From S2P Require Import Prelude Conc.

(** [LDMS_UNLIMITED] is [(-1)], compared with [uint64_t] words. *)
Definition LDMS_UNLIMITED : Z := 18446744073709551615.

Record ldms_rail_rate_quota_s := RateQuota {
  quota : Z;
  rate : Z;
  tv_sec : Z;
}.

#[export] Instance rate_quota_eq_dec : EqDecision ldms_rail_rate_quota_s.
Proof. solve_decision. Defined.

(** A queued message of [sbuf_tq]: its identity and [sbuf->msg->msg_len]. *)
Record pending_sbuf := PendingSbuf { sbuf_id : Z; msg_len : Z }.

#[export] Instance pending_sbuf_eq_dec : EqDecision pending_sbuf.
Proof. solve_decision. Defined.

Inductive ldms_rail_ep_state_t :=
| LDMS_RAIL_EP_INIT
| LDMS_RAIL_EP_LISTENING
| LDMS_RAIL_EP_ACCEPTING
| LDMS_RAIL_EP_CONNECTING
| LDMS_RAIL_EP_CONNECTED
| LDMS_RAIL_EP_PEER_CLOSE
| LDMS_RAIL_EP_CLOSE
| LDMS_RAIL_EP_ERROR
| LDMS_RAIL_EP_REJECTED.

#[export] Instance ep_state_eq_dec : EqDecision ldms_rail_ep_state_t.
Proof. solve_decision. Defined.

Record ldms_rail_ep_s := RailEp {
  state : ldms_rail_ep_state_t;
  idx : Z;
  send_quota : Z;
  send_quota_debt : Z;
  remote_is_rail : Z;
  rate_quota : ldms_rail_rate_quota_s;
  pending_ret_quota : Z;
  in_eps_stq : Z;
  sbuf_tq : list pending_sbuf;
}.

#[export] Instance rail_ep_eq_dec : EqDecision ldms_rail_ep_s.
Proof. solve_decision. Defined.

(** ** The fields as lenses *)

Definition l_quota : lens ldms_rail_rate_quota_s Z :=
  Lens quota (fun v c => RateQuota v (rate c) (tv_sec c)).
Definition l_rate : lens ldms_rail_rate_quota_s Z :=
  Lens rate (fun v c => RateQuota (quota c) v (tv_sec c)).
Definition l_tv_sec : lens ldms_rail_rate_quota_s Z :=
  Lens tv_sec (fun v c => RateQuota (quota c) (rate c) v).

Definition l_send_quota : lens ldms_rail_ep_s Z := Lens send_quota (fun v r =>
  RailEp (state r) (idx r) v (send_quota_debt r) (remote_is_rail r) (rate_quota r) (pending_ret_quota r) (in_eps_stq r) (sbuf_tq r)).
Definition l_send_quota_debt : lens ldms_rail_ep_s Z := Lens send_quota_debt (fun v r =>
  RailEp (state r) (idx r) (send_quota r) v (remote_is_rail r) (rate_quota r) (pending_ret_quota r) (in_eps_stq r) (sbuf_tq r)).
Definition l_rate_quota : lens ldms_rail_ep_s ldms_rail_rate_quota_s := Lens rate_quota (fun v r =>
  RailEp (state r) (idx r) (send_quota r) (send_quota_debt r) (remote_is_rail r) v (pending_ret_quota r) (in_eps_stq r) (sbuf_tq r)).
Definition l_pending_ret_quota : lens ldms_rail_ep_s Z := Lens pending_ret_quota (fun v r =>
  RailEp (state r) (idx r) (send_quota r) (send_quota_debt r) (remote_is_rail r) (rate_quota r) v (in_eps_stq r) (sbuf_tq r)).
Definition l_in_eps_stq : lens ldms_rail_ep_s Z := Lens in_eps_stq (fun v r =>
  RailEp (state r) (idx r) (send_quota r) (send_quota_debt r) (remote_is_rail r) (rate_quota r) (pending_ret_quota r) v (sbuf_tq r)).
Definition l_sbuf_tq : lens ldms_rail_ep_s (list pending_sbuf) := Lens sbuf_tq (fun v r =>
  RailEp (state r) (idx r) (send_quota r) (send_quota_debt r) (remote_is_rail r) (rate_quota r) (pending_ret_quota r) (in_eps_stq r) v).

#[export] Instance l_quota_ok : LensOk l_quota.
Proof. split; by intros; try destruct s. Qed.
#[export] Instance l_rate_ok : LensOk l_rate.
Proof. split; by intros; try destruct s. Qed.
#[export] Instance l_tv_sec_ok : LensOk l_tv_sec.
Proof. split; by intros; try destruct s. Qed.
#[export] Instance l_send_quota_ok : LensOk l_send_quota.
Proof. split; by intros; try destruct s. Qed.
#[export] Instance l_send_quota_debt_ok : LensOk l_send_quota_debt.
Proof. split; by intros; try destruct s. Qed.
#[export] Instance l_rate_quota_ok : LensOk l_rate_quota.
Proof. split; by intros; try destruct s. Qed.
#[export] Instance l_pending_ret_quota_ok : LensOk l_pending_ret_quota.
Proof. split; by intros; try destruct s. Qed.
#[export] Instance l_in_eps_stq_ok : LensOk l_in_eps_stq.
Proof. split; by intros; try destruct s. Qed.
#[export] Instance l_sbuf_tq_ok : LensOk l_sbuf_tq.
Proof. split; by intros; try destruct s. Qed.

(** ** Quota words *)

Section quota.
Context {S : Type} (q : lens S Z).

Definition quota_acquire (n : Z) : M (conc S) Z :=
  v0 ← load q;
  if v0 =? LDMS_UNLIMITED then mret 0 else
  k ← retries;
  loopM k (fun v0 =>
    if v0 <? n then mret (inr ENOBUFS) else
    let v1 := u64 (v0 - n) in
    '(ok, v) ← cas q v0 v1;
    mret (if (ok : bool) then inr 0 else inl v)) v0.

Definition quota_release (n : Z) : M (conc S) Z :=
  v0 ← load q;
  if v0 =? LDMS_UNLIMITED then mret v0 else
  add_fetch q n.
End quota.

(** ** Bytes per second *)

Section rate.
Context {S : Type} (c : lens S ldms_rail_rate_quota_s) (clock : lens S (Z + Z)).

Let c_quota := lens_comp c l_quota.
Let c_rate := lens_comp c l_rate.
Let c_sec := lens_comp c l_tv_sec.

(** The part of a round that starts a new second: [None] is the jump back to
    [again]. *)
Definition rate_quota_new_second (sec v0 now : Z) : M (conc S) (option Z) :=
  if sec <? now then
    r ← load c_rate;
    '(ok, _) ← cas c_quota v0 r;
    if negb ok then mret None else
    '(ok, _) ← cas c_sec sec now;
    if negb ok then mret None else
    r ← load c_rate;
    mret (Some r)
  else mret (Some v0).

Definition rate_quota_round (n : Z) : M (conc S) (unit + Z) :=
  sec ← load c_sec;
  v0 ← load c_quota;
  ts ← load clock;
  match ts with
  | inl errno => mret (inr errno)
  | inr now =>
      v ← rate_quota_new_second sec v0 now;
      match v with
      | None => mret (inl tt)
      | Some v0 =>
          if v0 <? n then mret (inr ENOBUFS) else
          '(ok, _) ← cas c_quota v0 (u64 (v0 - n));
          mret (if (ok : bool) then inr 0 else inl tt)
      end
  end.

Definition rate_quota_acquire (n : Z) : M (conc S) Z :=
  r ← load c_rate;
  if r =? LDMS_UNLIMITED then mret 0 else
  k ← retries;
  loopM k (fun _ => rate_quota_round n) tt.

Definition rate_quota_release (n : Z) : M (conc S) unit :=
  r ← load c_rate;
  if r =? LDMS_UNLIMITED then mret tt else
  ts ← load clock;
  match ts with
  | inl _ => mret tt
  | inr now =>
      '(ok, _) ← cas c_sec now now;
      if negb ok then mret tt else
      _ ← add_fetch c_quota n; mret tt
  end.
End rate.

(** ** Endpoints *)

Section endpoint.
Context {S : Type} (rep : lens S ldms_rail_ep_s).

Let r_send_quota := lens_comp rep l_send_quota.
Let r_debt := lens_comp rep l_send_quota_debt.

(** Pays the debt; the result is what is left of [q]. *)
Definition rep_quota_pay_debt (q : Z) : M (conc S) Z :=
  k ← retries;
  loopM k (fun _ =>
    v0 ← load r_debt;
    if v0 =? 0 then mret (inr q) else
    if v0 <=? q then
      '(ok, _) ← cas r_debt v0 0;
      mret (if (ok : bool) then inr (u64 (q - v0)) else inl tt)
    else
      '(ok, _) ← cas r_debt v0 (u64 (v0 - q));
      mret (if (ok : bool) then inr 0 else inl tt)) tt.

(** The [int] result truncates the [uint64_t] of [__quota_release]. *)
Definition rep_quota_release (q : Z) : M (conc S) Z :=
  q ← rep_quota_pay_debt q;
  v ← quota_release r_send_quota q;
  mret (s32 v).

Context (clock : lens S (Z + Z)).

Definition rep_quota_acquire (q : Z) : M (conc S) Z :=
  rc ← quota_acquire r_send_quota q;
  if negb (rc =? 0) then mret rc else
  rc ← rate_quota_acquire (lens_comp rep l_rate_quota) clock q;
  if negb (rc =? 0) then _ ← rep_quota_release q; mret rc else
  mret 0.

(** [op_ctxt_alloc p] tells whether the profiling context of the message [p]
    could be allocated, [rep_publish p] is what [__rep_publish] returns for
    it; a message published is appended to [sent].  The profiling lists are
    left out. *)
Context (sent : lens S (list pending_sbuf)).
Context (op_ctxt_alloc : pending_sbuf -> bool) (rep_publish : pending_sbuf -> Z).

Definition rep_flush_sbuf_tq : M (conc S) Z :=
  tq ← gets (fun s => sbuf_tq (lget rep (shared s)));
  loopM (Datatypes.S (length tq)) (fun _ =>
    tq ← gets (fun s => sbuf_tq (lget rep (shared s)));
    match tq with
    | [] => mret (inr 0)
    | p :: tq' =>
        rc ← rep_quota_acquire (msg_len p);
        if negb (rc =? 0) then mret (inr rc) else
        if negb (op_ctxt_alloc p) then mret (inr ENOMEM) else
        let rc := rep_publish p in
        if negb (rc =? 0) then
          _ ← rep_quota_release (msg_len p);
          mret (inr rc)
        else
          log ← gets (fun s => lget sent (shared s));
          modify (fun s => Conc (lset sent (log ++ [p]) (shared s)) (others s));;
          modify (fun s => Conc (lset (lens_comp rep l_sbuf_tq) tq' (shared s)) (others s));;
          mret (inl tt)
    end) tt.
End endpoint.

(** ** The rail *)

(** Requests put on the wire by the modelled functions. *)
Inductive request :=
| LDMS_CMD_SEND_QUOTA (quota rc : Z)
| LDMS_CMD_QUOTA_RECONFIG (q : Z)
| LDMS_CMD_RATE_RECONFIG (rate : Z).

#[export] Instance request_eq_dec : EqDecision request.
Proof. solve_decision. Defined.

(** [events] are the [LDMS_XPRT_EVENT_SEND_QUOTA_DEPOSITED] events given to
    the application: quota, endpoint index and code. *)
Record ldms_rail_s := Rail {
  is_rail : bool;
  rail_state : ldms_rail_ep_state_t;
  eps : list ldms_rail_ep_s;
  r_recv_quota : Z;
  r_recv_rate_limit : Z;
  r_send_quota : Z;
  r_send_rate_limit : Z;
  peer_msg_enabled : Z;
  events : list (Z * Z * Z);
  wire : list (Z * request);
}.

Definition with_eps l r := Rail (is_rail r) (rail_state r) l (r_recv_quota r) (r_recv_rate_limit r) (r_send_quota r) (r_send_rate_limit r) (peer_msg_enabled r) (events r) (wire r).
Definition with_recv_quota v r := Rail (is_rail r) (rail_state r) (eps r) v (r_recv_rate_limit r) (r_send_quota r) (r_send_rate_limit r) (peer_msg_enabled r) (events r) (wire r).
Definition with_recv_rate_limit v r := Rail (is_rail r) (rail_state r) (eps r) (r_recv_quota r) v (r_send_quota r) (r_send_rate_limit r) (peer_msg_enabled r) (events r) (wire r).
Definition with_send_quota v r := Rail (is_rail r) (rail_state r) (eps r) (r_recv_quota r) (r_recv_rate_limit r) v (r_send_rate_limit r) (peer_msg_enabled r) (events r) (wire r).
Definition with_send_rate_limit v r := Rail (is_rail r) (rail_state r) (eps r) (r_recv_quota r) (r_recv_rate_limit r) (r_send_quota r) v (peer_msg_enabled r) (events r) (wire r).
Definition with_peer_msg_enabled v r := Rail (is_rail r) (rail_state r) (eps r) (r_recv_quota r) (r_recv_rate_limit r) (r_send_quota r) (r_send_rate_limit r) v (events r) (wire r).
Definition with_event e r := Rail (is_rail r) (rail_state r) (eps r) (r_recv_quota r) (r_recv_rate_limit r) (r_send_quota r) (r_send_rate_limit r) (peer_msg_enabled r) (events r ++ [e]) (wire r).
Definition with_wire e r := Rail (is_rail r) (rail_state r) (eps r) (r_recv_quota r) (r_recv_rate_limit r) (r_send_quota r) (r_send_rate_limit r) (peer_msg_enabled r) (events r) (wire r ++ [e]).

(** [__rail_ep_limit]: the endpoint takes over the limits of the connect
    message [conn] of its peer (quota, rate, whether the message service is
    enabled); [None] stands for a message that is not a rail's. *)
Definition rail_ep_limit (i : nat) (conn : option (Z * Z * Z)) : M ldms_rail_s unit := fun r =>
  e ← eps r !! i;
  let set q rq rir :=
    with_eps (<[i := RailEp (state e) (idx e) q (send_quota_debt e) rir rq
                       (pending_ret_quota e) (in_eps_stq e) (sbuf_tq e)]> (eps r)) in
  match conn with
  | Some (recv_quota, rate_limit, msg_enabled) =>
      Some (tt, with_peer_msg_enabled msg_enabled
        (set recv_quota (RateQuota rate_limit rate_limit 0) 1
          (with_send_rate_limit rate_limit (with_send_quota recv_quota r))))
  | None =>
      Some (tt, with_peer_msg_enabled 0
        (set LDMS_UNLIMITED (RateQuota LDMS_UNLIMITED LDMS_UNLIMITED (tv_sec (rate_quota e))) 0 r))
  end.

(** A function on [&r->eps[i]]; an index out of range is stuck.  The handlers
    of the rail are followed without interference. *)
Definition on_ep {A} (i : nat) (m : M (conc ldms_rail_ep_s) A) : M ldms_rail_s A := fun r =>
  e ← eps r !! i;
  '(a, c) ← m (Conc e []);
  Some (a, with_eps (<[i := shared c]> (eps r)) r).

(** [sent] by [zap_send] on endpoint [i]. *)
Definition zap_send (i : Z) (req : request) : M ldms_rail_s unit :=
  modify (with_wire (i, req)).

(** [int quota] becomes the 32-bit word of the request. *)
Definition rail_ep_quota_return (i : Z) (quota rc : Z) : M ldms_rail_s unit :=
  zap_send i (LDMS_CMD_SEND_QUOTA (u32 (s32 quota)) (u32 rc)).

Definition rail_process_send_quota (i : nat) (quota rc : Z)
    (flush : M (conc ldms_rail_ep_s) Z) : M ldms_rail_s unit :=
  let sc := u32 quota in
  q ← on_ep i (rep_quota_release lens_id sc);
  ix ← on_ep i (gets (fun c => idx (shared c)));
  (if s32 rc =? ENOTSUP then modify (with_peer_msg_enabled 0) else mret tt);;
  modify (with_event (u64 q, ix, s32 rc));;
  _ ← on_ep i flush; mret tt.

(** [zerr] is what [zap_send] returns, converted by [zap_zerr2errno]. *)
Definition ldms_xprt_rail_recv_quota_set (q zerr : Z) : M ldms_rail_s Z :=
  r ← get;
  if negb (is_rail r) then mret (- EINVAL) else
  if q =? r_recv_quota r then mret 0 else
  modify (with_recv_quota q);;
  zap_send 0 (LDMS_CMD_QUOTA_RECONFIG q);;
  mret (- zerr).

Definition rail_reconfig_ep (add : Z) : M (conc ldms_rail_ep_s) unit :=
  if 0 <? add then _ ← rep_quota_release lens_id (u64 add); mret tt
  else
    rc ← quota_acquire l_send_quota (u64 (- add));
    if negb (rc =? 0) then
      _ ← add_fetch l_send_quota_debt (u64 (- add)); mret tt
    else mret tt.

Fixpoint for_eps (i n : nat) (f : nat -> M ldms_rail_s unit) : M ldms_rail_s unit :=
  match n with
  | O => mret tt
  | S n => f i;; for_eps (S i) n f
  end.

Definition rail_process_quota_reconfig (q : Z) : M ldms_rail_s unit :=
  r ← get;
  let add := s64 (u64 (q - r_send_quota r)) in
  modify (with_send_quota q);;
  if add =? 0 then mret tt else
  for_eps 0 (length (eps r)) (fun i => on_ep i (rail_reconfig_ep add)).

Definition ldms_xprt_rail_recv_rate_limit_set (rate zerr : Z) : M ldms_rail_s Z :=
  r ← get;
  if negb (is_rail r) then mret (- EINVAL) else
  if rate =? r_recv_rate_limit r then mret 0 else
  modify (with_recv_rate_limit rate);;
  zap_send 0 (LDMS_CMD_RATE_RECONFIG rate);;
  mret (- zerr).

Definition rail_process_rate_reconfig (rate : Z) : M ldms_rail_s unit :=
  r ← get;
  if r_send_rate_limit r =? rate then mret tt else
  modify (with_send_rate_limit rate);;
  for_eps 0 (length (eps r)) (fun i => on_ep i (store (lens_comp l_rate_quota l_rate) rate)).

Definition ldms_xprt_set_quota (recv_quota rate_limit : Z) : M ldms_rail_s Z :=
  r ← get;
  if negb (is_rail r) then mret EINVAL else
  if negb (bool_decide (rail_state r = LDMS_RAIL_EP_INIT)) then mret EBUSY else
  modify (with_recv_rate_limit (u64 rate_limit));;
  modify (with_recv_quota (u64 recv_quota));;
  mret 0.

Definition ldms_xprt_rail_send_quota_get (n : Z) : M ldms_rail_s (Z + list Z) :=
  r ← get;
  if negb (is_rail r) then mret (inl (- EINVAL)) else
  if n <? Z.of_nat (length (eps r)) then mret (inl (- ENOMEM)) else
  mret (inr (map send_quota (eps r))).

Definition ldms_xprt_rail_pending_ret_quota_get (n : Z) : M ldms_rail_s (Z + list Z) :=
  r ← get;
  if negb (is_rail r) then mret (inl (- EINVAL)) else
  if n <? Z.of_nat (length (eps r)) then mret (inl (- ENOMEM)) else
  mret (inr (map pending_ret_quota (eps r))).

(** [send] is the result of the transport's send on endpoint 0. *)
Definition rail_send (msg_len send : Z) : M ldms_rail_s Z :=
  st ← on_ep 0 (gets (fun c => state (shared c)));
  if negb (bool_decide (st = LDMS_RAIL_EP_CONNECTED)) then mret ENOTCONN else
  if negb (send =? 0) then
    _ ← on_ep 0 (rep_quota_release lens_id msg_len); mret send
  else mret send.

(** ** One endpoint, its clock and what it sent *)

Record ep_world := EpWorld {
  w_ep : ldms_rail_ep_s;
  w_clock : Z + Z;
  w_sent : list pending_sbuf;
}.

Definition l_ep : lens ep_world ldms_rail_ep_s :=
  Lens w_ep (fun v w => EpWorld v (w_clock w) (w_sent w)).
Definition l_clock : lens ep_world (Z + Z) :=
  Lens w_clock (fun v w => EpWorld (w_ep w) v (w_sent w)).
Definition l_sent : lens ep_world (list pending_sbuf) :=
  Lens w_sent (fun v w => EpWorld (w_ep w) (w_clock w) v).

#[export] Instance l_ep_ok : LensOk l_ep.
Proof. split; by intros; try destruct s. Qed.
#[export] Instance l_clock_ok : LensOk l_clock.
Proof. split; by intros; try destruct s. Qed.
#[export] Instance l_sent_ok : LensOk l_sent.
Proof. split; by intros; try destruct s. Qed.
