(* ===== verification/RailQuotaSpec.v ===== *)
(** * Send quotas and rate limits of a rail: theorems *)

From stdpp Require Import prelude sorting.
From S2P Require Import Prelude Conc RailQuota.

Definition word64 (v : Z) : Prop := 0 <= v < 2 ^ 64.

Lemma word64_u64 v : word64 v -> u64 v = v.
Proof. intros. by apply u64_small. Qed.

(** ** Quota words under interference *)

Section quota_word.
Context {S : Type} (q : lens S Z) `{!LensOk q}.

(** What an atomic acquisition of [n] does to the state [s] it takes effect
    on. *)
Definition acquired (n rc : Z) (s s' : S) : Prop :=
  (rc = 0 /\ n <= lget q s /\ s' = lset q (lget q s - n) s)
  \/ (rc = 0 /\ lget q s = LDMS_UNLIMITED /\ s' = s)
  \/ (rc = ENOBUFS /\ lget q s < n /\ s' = s).

Definition keeps_word (gs : list (S -> S)) : Prop :=
  Forall (fun g => forall s, word64 (lget q s) -> word64 (lget q (g s))) gs.

Lemma keeps_word_app gs hs : keeps_word (gs ++ hs) <-> keeps_word gs /\ keeps_word hs.
Proof. apply Forall_app. Qed.

Lemma runs_quota_acquire n c :
  0 <= n -> word64 (lget q (shared c)) -> keeps_word (others c) ->
  runs (quota_acquire q n) c (fun rc c' => after c c' (acquired n rc)).
Proof.
  intros Hn Hw Hk. unfold quota_acquire. apply runs_bind, runs_load.
  intros gs rest (Ho & Hlen & Hnil). set (s := run_others gs (shared c)).
  rewrite Ho in Hk. apply keeps_word_app in Hk as [Hk1 Hk2].
  assert (word64 (lget q s)) as Hs by (by apply (run_others_inv (fun s => word64 (lget q s)))).
  case_match eqn:Eu.
  { apply runs_ret. exists gs. split; [done|]. right. left. split_and!; [done|by apply Z.eqb_eq|done]. }
  apply (runs_retries (fun v c1 => v = lget q (shared c1) /\ word64 v /\
    keeps_word (others c1) /\
    exists gs, others c = gs ++ others c1 /\ shared c1 = run_others gs (shared c))).
  { simpl. split_and!; eauto. }
  clear -LensOk0 Hn. intros v c1 (-> & Hv & Hk & gs & Ho & Hsh).
  case_match eqn:El.
  { apply runs_ret. exists gs. rewrite Hsh in *. split; [done|].
    right. right. split_and!; [done|lia|done]. }
  apply runs_bind, runs_cas.
  - intros hs rest Hm Heq. apply runs_ret. apply (after_trans _ c1 _ _ gs); [done..|].
    destruct Hm as (Ho1 & _ & _). exists hs. split; [done|]. left. simpl.
    rewrite Heq. rewrite word64_u64 by (unfold word64 in *; lia). split_and!; [done|lia|done].
  - intros hs rest Hm Hne. apply runs_ret.
    assert (length rest < length (others c1))%nat.
    { eapply one_move_shorter; [done|]. intros Heq. by rewrite Heq in Hne. }
    destruct Hm as (Ho1 & _ & _). rewrite Ho1 in Hk. apply keeps_word_app in Hk as [? ?].
    split; [|done]. simpl. split_and!; [done|by apply (run_others_inv (fun s => word64 (lget q s)))|done|].
    exists (gs ++ hs). rewrite Ho, Ho1, <- app_assoc, run_others_app, <- Hsh. done.
Qed.
End quota_word.

Section quota_word_release.
Context {S : Type} (q : lens S Z) `{!LensOk q}.

Definition released (n v : Z) (s s' : S) : Prop :=
  (lget q s = LDMS_UNLIMITED /\ v = LDMS_UNLIMITED /\ s' = s)
  \/ (v = u64 (lget q s + n) /\ s' = lset q v s).

Lemma runs_quota_release n c :
  runs (quota_release q n) c (fun v c' => after c c' (released n v)).
Proof.
  unfold quota_release. apply runs_bind, runs_load. intros gs rest (Ho & _ & _).
  case_match eqn:Eu.
  - apply runs_ret. exists gs. split; [done|]. left. apply Z.eqb_eq in Eu. done.
  - apply runs_add_fetch. intros hs rest' (Ho' & _ & _).
    exists (gs ++ hs). simpl in *. rewrite Ho, Ho', <- app_assoc, run_others_app.
    split; [done|]. by right.
Qed.
End quota_word_release.

(** ** Endpoints: the debt is paid first *)

Section endpoint_release.
Context {S : Type} (rep : lens S ldms_rail_ep_s) `{!LensOk rep}.

Let debt := lens_comp rep l_send_quota_debt.
Let sq := lens_comp rep l_send_quota.

Definition debt_paid (q left : Z) (s s' : S) : Prop :=
  left = q - Z.min (lget debt s) q /\
  s' = lset debt (lget debt s - Z.min (lget debt s) q) s.

Lemma runs_rep_quota_pay_debt q c :
  word64 q -> word64 (lget debt (shared c)) -> keeps_word debt (others c) ->
  runs (rep_quota_pay_debt rep q) c (fun left c' => after c c' (debt_paid q left)).
Proof.
  intros Hq Hw Hk. unfold rep_quota_pay_debt. cbv zeta. change (lens_comp rep l_send_quota_debt) with debt.
  apply (runs_retries (fun _ c1 => word64 (lget debt (shared c1)) /\ keeps_word debt (others c1) /\
    exists gs, others c = gs ++ others c1 /\ shared c1 = run_others gs (shared c))).
  { split_and!; [done|done|]. by exists []. }
  clear Hw Hk. intros _ c1 (Hw & Hk & gs & Ho & Hsh).
  apply runs_bind, runs_load. intros hs rest (Ho1 & _ & _).
  set (s1 := run_others hs (shared c1)) in *.
  rewrite Ho1 in Hk. apply keeps_word_app in Hk as [Hk1 Hk2].
  assert (word64 (lget debt s1)) as Hs1
    by (by apply (run_others_inv (fun s => word64 (lget debt s)))).
  assert (others c = (gs ++ hs) ++ rest /\ s1 = run_others (gs ++ hs) (shared c)) as [Ho2 Hs2].
  { rewrite run_others_app, <- Hsh, <- app_assoc, <- Ho1. done. }
  assert (length rest <= length (others c1))%nat as Hlen.
  { rewrite Ho1, length_app. lia. }
  assert (forall hs' rest' v, one_move rest hs' rest' -> lget debt (run_others hs' s1) <> v ->
            v = lget debt s1 ->
            (word64 (lget debt (run_others hs' s1)) /\ keeps_word debt rest' /\
             exists gs, others c = gs ++ rest' /\ run_others hs' s1 = run_others gs (shared c))
            /\ (length rest' < length (others c1))%nat) as Hretry.
  { intros hs' rest' v Hm Hne ->.
    assert (length rest' < length rest)%nat by (eapply one_move_shorter; [done|intros Heq; by rewrite Heq in Hne]).
    destruct Hm as (Ho3 & _ & _). rewrite Ho3 in Hk2. apply keeps_word_app in Hk2 as [? ?].
    split; [split_and!|lia]; [|done|].
    - by apply (run_others_inv (fun s => word64 (lget debt s))).
    - exists ((gs ++ hs) ++ hs'). by rewrite Ho2, Ho3, (run_others_app (gs ++ hs)), <- Hs2, !app_assoc. }
  assert (forall hs' rest' v left s', one_move rest hs' rest' -> lget debt (run_others hs' s1) = v ->
            left = q - Z.min v q -> s' = lset debt (v - Z.min v q) (run_others hs' s1) ->
            after c (Conc s' rest') (debt_paid q left)) as Hdone.
  { intros hs' rest' v left s' (Ho3 & _ & _) <- -> ->. exists ((gs ++ hs) ++ hs'). simpl.
    rewrite Ho2, Ho3, (run_others_app (gs ++ hs)), <- Hs2, !app_assoc. done. }
  case_match eqn:E0.
  { apply runs_ret. apply Z.eqb_eq in E0. exists (gs ++ hs). simpl. split; [done|].
    rewrite <- Hs2. unfold debt_paid. rewrite E0, Z.min_l by (unfold word64 in *; lia).
    split; [lia|]. rewrite Z.sub_0_r, <- E0. symmetry. apply lens_set_get. }
  case_match eqn:El.
  - apply runs_bind, runs_cas.
    + intros hs' rest' Hm Heq. apply runs_ret.
      eapply Hdone; [done..| |].
      * rewrite Z.min_l by lia. apply word64_u64. unfold word64 in *; lia.
      * rewrite Z.min_l by lia. by rewrite Z.sub_diag.
    + intros hs' rest' Hm Hne. apply runs_ret. by eapply Hretry.
  - apply runs_bind, runs_cas.
    + intros hs' rest' Hm Heq. apply runs_ret.
      eapply Hdone; [done..| |]; rewrite Z.min_r by lia; [lia|].
      by rewrite word64_u64 by (unfold word64 in *; lia).
    + intros hs' rest' Hm Hne. apply runs_ret. by eapply Hretry.
Qed.

Lemma runs_rep_quota_release q c :
  word64 q -> word64 (lget debt (shared c)) -> keeps_word debt (others c) ->
  runs (rep_quota_release rep q) c (fun v c' => exists left c1 w,
    after c c1 (debt_paid q left) /\ after c1 c' (released sq left w) /\ v = s32 w).
Proof.
  intros Hq Hw Hk. unfold rep_quota_release. apply runs_bind.
  eapply runs_mono; [by apply runs_rep_quota_pay_debt|].
  intros left c1 Hp. cbv beta. apply runs_bind. eapply runs_mono; [apply runs_quota_release|].
  intros w c' Hr. apply runs_ret. by exists left, c1, w.
Qed.
End endpoint_release.

(** ** Rates, without interference *)

(** What is available in the second [now]. *)
Definition rate_avail (c : ldms_rail_rate_quota_s) (now : Z) : Z :=
  if tv_sec c <? now then rate c else quota c.

Definition rate_after (c : ldms_rail_rate_quota_s) (now n : Z) : Z * ldms_rail_rate_quota_s :=
  let a := rate_avail c now in
  if a <? n then (ENOBUFS, RateQuota a (rate c) (Z.max (tv_sec c) now))
  else (0, RateQuota (a - n) (rate c) (Z.max (tv_sec c) now)).

Definition rate_ok (c : ldms_rail_rate_quota_s) : Prop :=
  word64 (quota c) /\ word64 (rate c).

Ltac load_alone := apply runs_bind, runs_load; intros ? ? ?; alone.
Ltac cas_alone := apply runs_bind, runs_cas; intros ? ? ? ?; alone.

Section rate_alone.
Context {S : Type} (c : lens S ldms_rail_rate_quota_s) (clock : lens S (Z + Z)) `{!LensOk c}.

Lemma runs_rate_quota_acquire n now s :
  0 <= n -> rate_ok (lget c s) -> rate (lget c s) <> LDMS_UNLIMITED ->
  lget clock s = inr now ->
  runs (rate_quota_acquire c clock n) (Conc s []) (fun rc c' =>
    c' = Conc (lset c (snd (rate_after (lget c s) now n)) s) [] /\
    rc = fst (rate_after (lget c s) now n)).
Proof.
  intros Hn [Hq Hr] Hlim Hclk. unfold rate_quota_acquire. cbv zeta.
  load_alone. rewrite (proj2 (Z.eqb_neq _ _) Hlim).
  apply (runs_retries (fun _ c1 => c1 = Conc s [])); [done|].
  intros _ c1 ->. unfold rate_quota_round, rate_quota_new_second. cbv zeta.
  do 3 load_alone. rewrite Hclk. unfold rate_after, rate_avail.
  apply runs_bind. case_match eqn:Esec.
  - load_alone. cas_alone; [|done]. simpl. cas_alone.
    2: { rewrite lens_get_set in *. simpl in *. lia. }
    load_alone. apply runs_ret. rewrite !lens_get_set, !lens_set_set. simpl.
    rewrite Z.max_r by lia. case_match eqn:El; [by apply runs_ret|].
    cas_alone; rewrite !lens_get_set, ?lens_set_set in *; simpl in *; [|done].
    apply runs_ret. by rewrite word64_u64 by (unfold word64 in *; lia).
  - apply runs_ret. rewrite Z.max_l by lia. case_match eqn:El.
    { apply runs_ret. destruct (lget c s) as [a b d] eqn:E. simpl. rewrite <- E, lens_set_get. done. }
    cas_alone; [|done]. apply runs_ret.
    by rewrite word64_u64 by (unfold word64 in *; lia).
Qed.
End rate_alone.

(** ** A sequence of requests against one rate *)

Abbreviation rate_world := (ldms_rail_rate_quota_s * (Z + Z))%type.
Definition l_fst : lens rate_world ldms_rail_rate_quota_s := Lens fst (fun v w => (v, snd w)).
Definition l_snd : lens rate_world (Z + Z) := Lens snd (fun v w => (fst w, v)).

#[export] Instance l_fst_ok : LensOk l_fst.
Proof. split; by intros; try destruct s. Qed.

(** The requests [(now, n)] made one after the other, with their results. *)
Fixpoint rate_requests (reqs : list (Z * Z)) (c : ldms_rail_rate_quota_s)
    : option (list (Z * Z * Z)) :=
  match reqs with
  | [] => Some []
  | (now, n) :: reqs =>
      '(rc, c') ← rate_quota_acquire l_fst l_snd n (Conc (c, inr now) []);
      tr ← rate_requests reqs (fst (shared c'));
      Some ((now, n, rc) :: tr)
  end.

(** The bytes granted in second [t]. *)
Fixpoint granted (t : Z) (tr : list (Z * Z * Z)) : Z :=
  match tr with
  | [] => 0
  | (now, n, rc) :: tr => (if (now =? t) && (rc =? 0) then n else 0) + granted t tr
  end.

Lemma rate_requests_granted r reqs c :
  rate c = r -> rate_ok c -> r <> LDMS_UNLIMITED -> quota c <= r ->
  StronglySorted Z.le (tv_sec c :: map fst reqs) -> Forall (fun q => 0 <= snd q) reqs ->
  exists tr, rate_requests reqs c = Some tr /\
    granted (tv_sec c) tr <= quota c /\
    (forall t, t < tv_sec c -> granted t tr = 0) /\
    (forall t, tv_sec c < t -> granted t tr <= r).
Proof.
  revert c. induction reqs as [|[now n] reqs IH]; intros c Hr Hok Hlim Hq Hs Hn.
  { exists []. simpl. destruct Hok as [[? ?] [? ?]]. split_and!; [done|lia|done|intros; lia]. }
  apply Forall_cons in Hn as [Hn0 Hn]. apply StronglySorted_inv in Hs as [Hs Hall].
  simpl in Hs, Hall. apply Forall_cons in Hall as [Hle Hall]. simpl in Hn0.
  destruct (runs_rate_quota_acquire l_fst l_snd n now (c, inr now)) as (rc & c' & Hrun & -> & ->);
    [done|done|by simpl; rewrite Hr|done|].
  set (c1 := snd (rate_after c now n)).
  assert (tv_sec c1 = now /\ rate c1 = r /\ rate_ok c1 /\ quota c1 <= r) as (Ht1 & Hr1 & Hok1 & Hq1).
  { unfold c1, rate_after, rate_avail. destruct Hok as [[? ?] [? ?]]. unfold rate_ok, word64.
    repeat case_match; simpl; split_and!; try lia; done. }
  destruct (IH c1) as (tr & Htr & H0 & H1 & H2); [done..|by rewrite Ht1|done|].
  cbn [rate_requests]. rewrite Hrun. simpl. fold c1. rewrite Htr. simpl.
  eexists. split; [done|]. simpl. rewrite Ht1 in H0, H1, H2.
  assert (forall t, t <> now -> (if (now =? t) && (fst (rate_after c now n) =? 0) then n else 0) = 0) as Hz.
  { intros t Ht. rewrite (proj2 (Z.eqb_neq now t)) by lia. done. }
  assert ((if (now =? now) && (fst (rate_after c now n) =? 0) then n else 0) + granted now tr
          <= rate_avail c now) as Hnow.
  { rewrite Z.eqb_refl. unfold c1, rate_after in *. case_match; simpl in *; lia. }
  unfold rate_avail in Hnow. split_and!.
  - destruct (decide (tv_sec c = now)) as [Heq|Hne].
    + rewrite Heq. rewrite Heq in Hnow. rewrite Z.ltb_irrefl in Hnow. done.
    + rewrite Hz, H1 by lia. destruct Hok as [[? ?] ?]. lia.
  - intros t Ht. rewrite Hz, H1 by lia. done.
  - intros t Ht. destruct (decide (t = now)) as [->|Hne].
    + rewrite (proj2 (Z.ltb_lt _ _) Ht) in Hnow. lia.
    + rewrite Hz by done. destruct (decide (t < now)); [rewrite H1 by lia|specialize (H2 t); lia].
      destruct Hok as [? [? ?]]. lia.
Qed.

(** ** Endpoints without interference *)

Definition set_quota_debt (q d : Z) (e : ldms_rail_ep_s) : ldms_rail_ep_s :=
  RailEp (state e) (idx e) q d (remote_is_rail e) (rate_quota e) (pending_ret_quota e) (in_eps_stq e) (sbuf_tq e).

(** Depositing [q]: the debt first, the rest to the quota. *)
Definition ep_deposit (q : Z) (e : ldms_rail_ep_s) : ldms_rail_ep_s :=
  let x := Z.min (send_quota_debt e) q in
  set_quota_debt (send_quota e + (q - x)) (send_quota_debt e - x) e.

(** Bytes that may be sent once the debt is paid. *)
Definition balance (e : ldms_rail_ep_s) : Z := send_quota e - send_quota_debt e.

Definition ep_ok (e : ldms_rail_ep_s) : Prop :=
  word64 (send_quota e) /\ word64 (send_quota_debt e) /\ rate_ok (rate_quota e).

Lemma balance_deposit q e : balance (ep_deposit q e) = balance e + q.
Proof. unfold balance. simpl. lia. Qed.

Section endpoint_alone.
Context {S : Type} (rep : lens S ldms_rail_ep_s) (clock : lens S (Z + Z)) `{!LensOk rep}.

Lemma runs_deposit q s :
  word64 q -> ep_ok (lget rep s) ->
  send_quota (lget rep s) <> LDMS_UNLIMITED -> send_quota (lget rep s) + q < 2 ^ 64 ->
  runs (rep_quota_release rep q) (Conc s []) (fun v c' =>
    c' = Conc (lset rep (ep_deposit q (lget rep s)) s) [] /\
    v = s32 (send_quota (ep_deposit q (lget rep s)))).
Proof.
  intros Hq (Hs & Hd & _) Hlim Hov.
  eapply runs_mono; [apply (runs_rep_quota_release rep); [done|done|by constructor]|].
  intros v c' (left & c1 & w & H1 & H2 & ->).
  apply after_alone in H1 as (s1 & -> & -> & ->). apply after_alone in H2 as (s2 & -> & H2).
  destruct H2 as [(H2 & _)|(-> & ->)].
  { simpl in H2. rewrite lens_get_set in H2. simpl in H2. congruence. }
  simpl. rewrite !lens_get_set, lens_set_set. simpl. unfold ep_deposit, set_quota_debt.
  unfold word64 in *.
  rewrite (word64_u64 (_ + _)) by (unfold word64; lia). done.
Qed.

Lemma runs_quota_acquire_alone (l : lens S Z) `{!LensOk l} n s :
  0 <= n -> word64 (lget l s) -> lget l s <> LDMS_UNLIMITED ->
  runs (quota_acquire l n) (Conc s []) (fun rc c' =>
    if lget l s <? n then rc = ENOBUFS /\ c' = Conc s []
    else rc = 0 /\ c' = Conc (lset l (lget l s - n) s) []).
Proof.
  intros Hn Hw Hlim.
  eapply runs_mono; [apply (runs_quota_acquire l); [done|done|by constructor]|].
  intros rc c' (s' & -> & H)%after_alone.
  destruct H as [(-> & ? & ->)|[(_ & ? & _)|(-> & ? & ->)]]; [|done|];
    case_match; try lia; done.
Qed.

(** What the unlimited marker leaves of the two quota operations: nothing is
    taken, and a release still pays the debt. *)
Definition ep_take (q : Z) (e : ldms_rail_ep_s) : ldms_rail_ep_s :=
  if send_quota e =? LDMS_UNLIMITED then e
  else set_quota_debt (send_quota e - q) (send_quota_debt e) e.

Definition ep_give (q : Z) (e : ldms_rail_ep_s) : ldms_rail_ep_s :=
  if send_quota e =? LDMS_UNLIMITED
  then set_quota_debt LDMS_UNLIMITED (send_quota_debt e - Z.min (send_quota_debt e) q) e
  else ep_deposit q e.

(** The request of [n] bytes per second, the clock giving [ts]. *)
Definition rate_turn (c : ldms_rail_rate_quota_s) (ts : Z + Z) (n : Z) : Z * ldms_rail_rate_quota_s :=
  if rate c =? LDMS_UNLIMITED then (0, c) else
  match ts with
  | inl errno => (errno, c)
  | inr now => rate_after c now n
  end.

(** [rep_quota_acquire] as a function of the endpoint and the clock. *)
Definition ep_acquire (q : Z) (ts : Z + Z) (e : ldms_rail_ep_s) : Z * ldms_rail_ep_s :=
  if negb (send_quota e =? LDMS_UNLIMITED) && (send_quota e <? q) then (ENOBUFS, e) else
  let '(rc, c) := rate_turn (rate_quota e) ts q in
  let e2 := lset l_rate_quota c (ep_take q e) in
  if rc =? 0 then (0, e2) else (rc, ep_give q e2).

Lemma runs_rep_quota_give q s :
  word64 q -> ep_ok (lget rep s) ->
  (send_quota (lget rep s) <> LDMS_UNLIMITED -> send_quota (lget rep s) + q < 2 ^ 64) ->
  runs (rep_quota_release rep q) (Conc s []) (fun _ c' =>
    c' = Conc (lset rep (ep_give q (lget rep s)) s) []).
Proof.
  intros Hq Hok Hov. unfold ep_give.
  destruct (Z.eqb_spec (send_quota (lget rep s)) LDMS_UNLIMITED) as [Eu|Eu].
  2: { eapply runs_mono; [apply runs_deposit; auto|]. by intros v c' (-> & _). }
  destruct Hok as (_ & Hd & _). unfold rep_quota_release. apply runs_bind.
  eapply runs_mono; [apply (runs_rep_quota_pay_debt rep); [done|done|by constructor]|].
  intros left c' (s1 & -> & -> & ->)%after_alone. cbv beta. apply runs_bind.
  unfold quota_release. load_alone. simpl. rewrite !lens_get_set. simpl. rewrite Eu, Z.eqb_refl.
  apply runs_ret, runs_ret. unfold set_quota_debt. by rewrite <- Eu.
Qed.

Lemma runs_quota_take q s :
  word64 q -> word64 (send_quota (lget rep s)) ->
  runs (quota_acquire (lens_comp rep l_send_quota) q) (Conc s []) (fun rc c' =>
    if negb (send_quota (lget rep s) =? LDMS_UNLIMITED) && (send_quota (lget rep s) <? q)
    then rc = ENOBUFS /\ c' = Conc s []
    else rc = 0 /\ c' = Conc (lset rep (ep_take q (lget rep s)) s) []).
Proof.
  intros Hq Hs. unfold ep_take.
  destruct (Z.eqb_spec (send_quota (lget rep s)) LDMS_UNLIMITED) as [Eu|Eu].
  - unfold quota_acquire. load_alone. simpl. rewrite Eu, Z.eqb_refl. apply runs_ret. simpl.
    by rewrite lens_set_get.
  - eapply runs_mono; [apply (runs_quota_acquire_alone (lens_comp rep l_send_quota));
      [unfold word64 in *; lia|done..]|].
    intros rc c'. cbn [lget lens_comp l_send_quota negb andb]. by destruct (_ <? q).
Qed.

Lemma runs_rate_turn q ts s :
  word64 q -> rate_ok (rate_quota (lget rep s)) -> lget clock s = ts ->
  runs (rate_quota_acquire (lens_comp rep l_rate_quota) clock q) (Conc s []) (fun rc c' =>
    rc = fst (rate_turn (rate_quota (lget rep s)) ts q) /\
    c' = Conc (lset rep (lset l_rate_quota (snd (rate_turn (rate_quota (lget rep s)) ts q)) (lget rep s)) s) []).
Proof.
  intros Hq Hr Hclk. unfold rate_turn.
  assert (forall e, lset l_rate_quota (rate_quota e) e = e) as Hid by (by intros []).
  destruct (Z.eqb_spec (rate (rate_quota (lget rep s))) LDMS_UNLIMITED) as [Eu|Eu].
  { unfold rate_quota_acquire. cbv zeta. load_alone. simpl. rewrite Eu. simpl. apply runs_ret.
    simpl. split; [done|]. rewrite <- (lens_set_get s) at 1. do 2 f_equal. symmetry. apply Hid. }
  destruct ts as [errno|now].
  - unfold rate_quota_acquire. cbv zeta. load_alone. simpl.
    rewrite (proj2 (Z.eqb_neq _ _) Eu). apply (runs_retries (fun _ c1 => c1 = Conc s [])); [done|].
    intros _ c1 ->. unfold rate_quota_round. cbv zeta. do 3 load_alone. rewrite Hclk.
    apply runs_ret. simpl. split; [done|].
    rewrite <- (lens_set_get s) at 1. do 2 f_equal. symmetry. apply Hid.
  - eapply runs_mono.
    { apply (runs_rate_quota_acquire (lens_comp rep l_rate_quota) clock q now); simpl;
        [unfold word64 in *; lia|done..]. }
    by intros rc c' (-> & ->).
Qed.

Lemma rate_turn_ok c ts n :
  0 <= n -> rate_ok c -> rate_ok (snd (rate_turn c ts n)).
Proof.
  intros Hn [[? ?] [? ?]]. unfold rate_turn, rate_after, rate_avail, rate_ok, word64.
  repeat case_match; simpl in *; lia.
Qed.

Lemma runs_rep_quota_acquire q ts s :
  word64 q -> ep_ok (lget rep s) ->
  (forall e s, lget clock (lset rep e s) = lget clock s) -> lget clock s = ts ->
  runs (rep_quota_acquire rep clock q) (Conc s []) (fun rc c' =>
    rc = fst (ep_acquire q ts (lget rep s)) /\
    c' = Conc (lset rep (snd (ep_acquire q ts (lget rep s))) s) []).
Proof.
  intros Hq Hok Hind Hclk. pose proof Hok as (Hs & Hd & Hr). unfold rep_quota_acquire, ep_acquire. cbv zeta.
  set (e := lget rep s) in *. assert (rate_quota (ep_take q e) = rate_quota e) as Hrq.
  { unfold ep_take. by case_match. }
  apply runs_bind. eapply runs_mono; [by apply runs_quota_take|].
  intros rc c'. cbv beta. fold e. case_match eqn:El; intros (-> & ->).
  { apply runs_ret. split; [done|]. simpl. unfold e. by rewrite lens_set_get. }
  apply runs_bind. eapply runs_mono.
  { apply (runs_rate_turn q ts); [done| |by rewrite Hind]. by rewrite lens_get_set, Hrq. }
  intros rc c' (-> & ->). cbv beta. rewrite !lens_get_set, !lens_set_set, Hrq.
  pose proof (rate_turn_ok (rate_quota e) ts q ltac:(unfold word64 in *; lia) Hr) as Hr'.
  destruct (rate_turn (rate_quota e) ts q) as [rc c] eqn:Er. cbn [fst snd] in *.
  destruct (Z.eqb_spec rc 0) as [->|Hne]; cbn [negb]; [by apply runs_ret|].
  apply runs_bind. eapply runs_mono.
  { apply runs_rep_quota_give; rewrite ?lens_get_set; [done| |];
      unfold ep_ok, ep_take, word64 in *; case_match; simpl in *; try (split_and!; lia || done); lia. }
  intros v c' ->. apply runs_ret. by rewrite lens_get_set, lens_set_set.
Qed.
End endpoint_alone.

(** The effect of an acquisition on an endpoint. *)
Lemma ep_acquire_effect q ts e rc e' :
  word64 q -> ep_ok e -> ep_acquire q ts e = (rc, e') ->
  (rc = 0 \/ rc = ENOBUFS \/ ts = inl rc) /\ ep_ok e' /\ sbuf_tq e' = sbuf_tq e /\
  (send_quota e <> LDMS_UNLIMITED ->
    send_quota e' <= send_quota e /\
    balance e' = balance e - (if rc =? 0 then q else 0) /\
    (rc = 0 -> send_quota e' = send_quota e - q) /\
    (send_quota e < q -> rc = ENOBUFS /\ e' = e)) /\
  (send_quota e = LDMS_UNLIMITED ->
    send_quota e' = LDMS_UNLIMITED /\
    send_quota_debt e' = send_quota_debt e - (if rc =? 0 then 0 else Z.min (send_quota_debt e) q)).
Proof.
  intros Hq (Hs & Hd & Hr) He. unfold ep_acquire in He. unfold balance.
  pose proof (rate_turn_ok (rate_quota e) ts q ltac:(unfold word64 in *; lia) Hr) as Hr'.
  destruct (rate_turn (rate_quota e) ts q) as [rc1 c1] eqn:Er.
  assert (rc1 = 0 \/ rc1 = ENOBUFS \/ ts = inl rc1) as Hrc.
  { unfold rate_turn, rate_after in Er. repeat case_match; simplify_eq; auto. }
  clear Er. unfold ep_ok, ep_take, ep_give, word64 in *. cbn [snd] in *.
  destruct (Z.eqb_spec (send_quota e) LDMS_UNLIMITED) as [Eu|Eu]; cbn [negb andb] in *.
  - destruct (Z.eqb_spec rc1 0) as [->|Hne]; simplify_eq; simpl in *.
    + split_and!; auto; lia.
    + rewrite Eu, Z.eqb_refl. simpl. rewrite (proj2 (Z.eqb_neq rc 0) Hne).
      unfold LDMS_UNLIMITED in *. split_and!; auto; lia.
  - destruct (Z.ltb_spec (send_quota e) q) as [El|El]; simplify_eq.
    { split_and!; auto; try lia; intros. split_and!; auto; unfold ENOBUFS; simpl; lia. }
    assert (send_quota e - q <> LDMS_UNLIMITED) as Hl by (unfold LDMS_UNLIMITED in *; lia).
    destruct (Z.eqb_spec rc1 0) as [->|Hne]; simplify_eq; simpl in *.
    + split_and!; auto; lia.
    + rewrite (proj2 (Z.eqb_neq _ _) Hl), (proj2 (Z.eqb_neq rc 0) Hne). simpl.
      split_and!; auto; lia.
Qed.

(** With a quota and a clock. *)
Lemma ep_acquire_balance q now e rc e' :
  word64 q -> ep_ok e -> send_quota e <> LDMS_UNLIMITED -> ep_acquire q (inr now) e = (rc, e') ->
  (rc = 0 \/ rc = ENOBUFS) /\ ep_ok e' /\ send_quota e' <= send_quota e /\
  balance e' = balance e - (if rc =? 0 then q else 0) /\ sbuf_tq e' = sbuf_tq e /\
  (rc = 0 -> send_quota e' = send_quota e - q).
Proof.
  intros Hq Hok Hlim He. destruct (ep_acquire_effect _ _ _ _ _ Hq Hok He) as (Hrc & Hok' & Htq & Hl & _).
  destruct (Hl Hlim) as (? & ? & ? & _). split_and!; try done.
  destruct Hrc as [?|[?|?]]; [by left|by right|done].
Qed.

(** ** Reconfiguration *)

(** Sizes for which the words of an endpoint cannot wrap around. *)
Definition ep_small (e : ldms_rail_ep_s) : Prop :=
  0 <= send_quota e < 2 ^ 63 /\ 0 <= send_quota_debt e < 2 ^ 63.

Lemma runs_rail_reconfig_ep add e :
  ep_small e -> add <> 0 -> - 2 ^ 63 < add < 2 ^ 63 ->
  runs (rail_reconfig_ep add) (Conc e []) (fun _ c' =>
    balance (shared c') = balance e + add /\ send_quota_debt e <= send_quota_debt (shared c') + Z.max 0 add).
Proof.
  intros (Hs & Hd) Hne Hadd. unfold rail_reconfig_ep, balance.
  assert (send_quota e <> LDMS_UNLIMITED) by (unfold LDMS_UNLIMITED; lia).
  assert (word64 (send_quota e) /\ word64 (send_quota_debt e)) as [Hws Hwd] by (unfold word64; lia).
  case_match eqn:Ea.
  - rewrite word64_u64 by (unfold word64; lia). apply runs_bind.
    eapply runs_mono; [apply (runs_rep_quota_release lens_id);
      [unfold word64; lia|done|by constructor]|].
    intros v c' (left & c1 & w & (s1 & -> & -> & ->)%after_alone & (s2 & -> & H2)%after_alone & _).
    apply runs_ret. simpl in *. destruct H2 as [(Hx & _)|(-> & ->)]; [by simpl in Hx|].
    simpl. rewrite word64_u64 by (unfold word64; lia). lia.
  - rewrite word64_u64 by (unfold word64; lia). apply runs_bind.
    eapply runs_mono; [apply (runs_quota_acquire_alone l_send_quota); [lia|done|done]|].
    intros rc c'. cbv beta. simpl. case_match eqn:El; intros (-> & ->); simpl.
    + apply runs_bind, runs_add_fetch. intros ? ? ?. alone. apply runs_ret. simpl.
      rewrite word64_u64 by (unfold word64; lia). lia.
    + apply runs_ret. simpl. lia.
Qed.

Lemma with_eps_eta r : with_eps (eps r) r = r.
Proof. by destruct r. Qed.

Lemma runs_for_eps (m : M (conc ldms_rail_ep_s) unit) (R : ldms_rail_ep_s -> ldms_rail_ep_s -> Prop) r :
  Forall (fun e => runs m (Conc e []) (fun _ c' => R e (shared c'))) (eps r) ->
  runs (for_eps 0 (length (eps r)) (fun i => on_ep i m)) r (fun _ r' =>
    exists l, Forall2 R (eps r) l /\ r' = with_eps l r).
Proof.
  intros Hall.
  cut (forall todo done0 r1, eps r1 = done0 ++ todo ->
    Forall (fun e => runs m (Conc e []) (fun _ c' => R e (shared c'))) todo ->
    runs (for_eps (length done0) (length todo) (fun i => on_ep i m)) r1 (fun _ r' =>
      exists l, Forall2 R todo l /\ r' = with_eps (done0 ++ l) r1)).
  { intros H. by apply (H (eps r) [] r). }
  clear Hall r. induction todo as [|e todo IH]; intros done0 r1 He Hall; simpl.
  { apply runs_ret. exists []. split; [constructor|]. by rewrite <- He, with_eps_eta. }
  apply Forall_cons in Hall as [(u & [e1 o] & Hm & HR) Hall]. simpl in HR.
  apply runs_bind. exists u, (with_eps (done0 ++ e1 :: todo) r1). split.
  { unfold on_ep. rewrite He, list_lookup_middle by done. simpl. rewrite Hm. simpl.
    rewrite insert_app_r_alt, Nat.sub_diag by done. done. }
  replace (S (length done0)) with (length (done0 ++ [e1])) by (rewrite length_app; simpl; lia).
  eapply runs_mono.
  { apply (IH (done0 ++ [e1]) (with_eps (done0 ++ e1 :: todo) r1)); [|done].
    simpl. by rewrite <- app_assoc. }
  intros _ r' (l & Hl & ->). exists (e1 :: l). split; [by constructor|].
  simpl. unfold with_eps. simpl. by rewrite <- app_assoc.
Qed.

Lemma runs_rail_process_quota_reconfig q r :
  0 <= q < 2 ^ 63 -> 0 <= r_send_quota r < 2 ^ 63 -> Forall ep_small (eps r) ->
  runs (rail_process_quota_reconfig q) r (fun _ r' =>
    r_send_quota r' = q /\
    Forall2 (fun e e' => q - balance e' = r_send_quota r - balance e) (eps r) (eps r')).
Proof.
  intros Hq Hr Hall. unfold rail_process_quota_reconfig. apply runs_bind, runs_get. cbv beta zeta.
  assert (s64 (u64 (q - r_send_quota r)) = q - r_send_quota r) as ->.
  { unfold wraps, wrapu. rewrite Zplus_mod_idemp_l. apply s64_small. lia. }
  apply runs_bind, runs_modify. case_match eqn:E0.
  - apply runs_ret. simpl. split; [done|]. apply Z.eqb_eq in E0.
    apply Forall2_same_length_lookup_2; [done|]. intros i e e' H1 H2.
    simpl in H2. assert (e = e') as -> by congruence. lia.
  - eapply runs_mono.
    { apply (runs_for_eps _ (fun e e' => q - balance e' = r_send_quota r - balance e)
        (with_send_quota q r)). simpl.
      eapply Forall_impl; [exact Hall|]. intros e He. cbv beta.
      eapply runs_mono; [apply runs_rail_reconfig_ep; [done|lia|lia]|].
      intros _ c' [H1 _]. lia. }
    intros _ r' (l & Hl & ->). done.
Qed.

(** ** The queue of forwarded messages *)

Fixpoint sum_len (l : list pending_sbuf) : Z :=
  match l with [] => 0 | p :: l => msg_len p + sum_len l end.

Lemma sum_len_app l k : sum_len (l ++ k) = sum_len l + sum_len k.
Proof. induction l; simpl; lia. Qed.

Section flush.
Context (op_ctxt_alloc : pending_sbuf -> bool) (rep_publish : pending_sbuf -> Z) (now : Z).

(** The quota that stays taken for the head [p] of the queue after a flush
    that ended with [rc]. *)
Definition flush_leak (rc : Z) (tq : list pending_sbuf) : Z :=
  match tq with
  | p :: _ => if (rc =? ENOMEM) && negb (op_ctxt_alloc p) then msg_len p else 0
  | [] => 0
  end.

Definition flushed (w : ep_world) (rc : Z) (w' : ep_world) : Prop :=
  exists pre, sbuf_tq (w_ep w) = pre ++ sbuf_tq (w_ep w') /\
    w_sent w' = w_sent w ++ pre /\
    (rc = 0 <-> sbuf_tq (w_ep w') = []) /\
    balance (w_ep w') = balance (w_ep w) - sum_len pre - flush_leak rc (sbuf_tq (w_ep w')).

Lemma ep_deposit_ok q e :
  word64 q -> ep_ok e -> send_quota e + q < 2 ^ 64 -> ep_ok (ep_deposit q e).
Proof. intros Hq (Hs & Hd & Hr) H. unfold ep_ok, word64 in *. simpl. split_and!; try done; lia. Qed.

Lemma runs_rep_flush_sbuf_tq w :
  ep_ok (w_ep w) -> send_quota (w_ep w) <> LDMS_UNLIMITED -> w_clock w = inr now ->
  Forall (fun p => word64 (msg_len p)) (sbuf_tq (w_ep w)) ->
  runs (rep_flush_sbuf_tq l_ep l_clock l_sent op_ctxt_alloc rep_publish) (Conc w [])
    (fun rc c' => flushed w rc (shared c')).
Proof.
  intros Hok Hlim Hclk Hlen. unfold rep_flush_sbuf_tq. apply runs_bind, runs_gets. cbv beta.
  apply (runs_loop (fun k _ c1 => exists w1 pre, c1 = Conc w1 [] /\
    k = length (sbuf_tq (w_ep w1)) /\ ep_ok (w_ep w1) /\
    send_quota (w_ep w1) <> LDMS_UNLIMITED /\ w_clock w1 = inr now /\
    Forall (fun p => word64 (msg_len p)) (sbuf_tq (w_ep w1)) /\
    sbuf_tq (w_ep w) = pre ++ sbuf_tq (w_ep w1) /\ w_sent w1 = w_sent w ++ pre /\
    balance (w_ep w1) = balance (w_ep w) - sum_len pre))
    with (n := length (sbuf_tq (w_ep w))); [|exists w, []|simpl; lia].
  2: { rewrite app_nil_r. simpl. split_and!; try done. lia. }
  clear Hok Hlim Hclk Hlen.
  intros k _ c1 (w1 & pre & -> & -> & Hok & Hlim & Hclk & Hlen & Htq & Hsent & Hbal).
  apply runs_bind, runs_gets. cbn [shared lget l_ep].
  destruct (sbuf_tq (w_ep w1)) as [|p tq] eqn:Etq.
  { apply runs_ret. exists pre. cbn [shared]. rewrite Etq. split_and!; try done. simpl. lia. }
  apply Forall_cons in Hlen as [Hp Hlen]. apply runs_bind. eapply runs_mono.
  { by apply (runs_rep_quota_acquire l_ep l_clock _ (inr now)). }
  intros rc c' (-> & ->). cbn [lget l_ep].
  destruct (ep_acquire (msg_len p) (inr now) (w_ep w1)) as [rc e'] eqn:Ea.
  apply ep_acquire_balance in Ea as (Hrc & Hok' & Hle & Hb & Hq & Hex); [|done..].
  cbn [fst snd]. destruct Hrc as [-> | ->].
  2: { apply runs_ret. exists pre. simpl. rewrite Hq, Etq. split_and!; try done. simpl in *. lia. }
  rewrite Z.eqb_refl in *. cbn [negb]. case_match eqn:Eal.
  { apply runs_ret. exists pre. simpl. rewrite Hq, Etq. split_and!; try done. simpl. rewrite Eal. lia. }
  destruct (Z.eqb_spec (rep_publish p) 0) as [Ep|Ep]; cbn [negb].
  - apply runs_bind, runs_gets, runs_bind, runs_modify, runs_bind, runs_modify, runs_ret.
    exists (length tq). split; [simpl; lia|].
    exists (EpWorld (lset l_sbuf_tq tq e') (w_clock w1) (w_sent w1 ++ [p])), (pre ++ [p]).
    assert (send_quota e' <> LDMS_UNLIMITED).
    { destruct Hok as ((? & ?) & _). unfold LDMS_UNLIMITED in *. lia. }
    unfold balance in *. simpl. rewrite sum_len_app, Hsent, Htq, <- !app_assoc. simpl.
    split_and!; try done. lia.
  - apply runs_bind. eapply runs_mono.
    { unfold balance in Hb. destruct Hok as ((? & ?) & _). apply (runs_deposit l_ep); simpl; [done|done| |].
      - unfold LDMS_UNLIMITED in *. lia.
      - specialize (Hex eq_refl). lia. }
    intros v c' (-> & _). apply runs_ret. exists pre. simpl. rewrite Hq, Etq.
    split_and!; [done|done|naive_solver|]. simpl. rewrite Eal, andb_false_r, balance_deposit. lia.
Qed.
End flush.

(** ** Properties *)

(** C18: [__quota_acquire] is lock-free and atomic: whatever finitely many
    changes other threads make to the quota word between its accesses, it
    returns, and its effect is that of one atomic step at its last access:
    it takes [n] from a word that holds at least [n] and returns 0, or sees
    the unlimited marker and returns 0 without a change, or sees less than
    [n] and returns ENOBUFS without a change. *)
Theorem quota_acquire_atomic {S} (q : lens S Z) (Hl : LensOk q) (n : Z) (c : conc S) :
  0 <= n -> word64 (lget q (shared c)) -> keeps_word q (others c) ->
  exists rc c', quota_acquire q n c = Some (rc, c') /\
    exists gs, others c = gs ++ others c' /\
      let s := run_others gs (shared c) in
      let s' := shared c' in
      (rc = 0 /\ n <= lget q s /\ s' = lset q (lget q s - n) s)
      \/ (rc = 0 /\ lget q s = LDMS_UNLIMITED /\ s' = s)
      \/ (rc = ENOBUFS /\ lget q s < n /\ s' = s).
Proof. intros. by apply runs_quota_acquire. Qed.

(** Another thread leaves 6 of 10 between the load and the exchange. *)
Lemma quota_acquire_atomic_witness :
  exists rc c', quota_acquire lens_id 3 (Conc 10 [fun v => v; fun _ => 6]) = Some (rc, c') /\
    exists gs, [fun v => v; fun _ => 6] = gs ++ others c' /\
      let s := run_others gs 10 in
      let s' := shared c' in
      (rc = 0 /\ 3 <= s /\ s' = s - 3) \/ (rc = 0 /\ s = LDMS_UNLIMITED /\ s' = s)
      \/ (rc = ENOBUFS /\ s < 3 /\ s' = s).
Proof.
  apply (quota_acquire_atomic lens_id _ 3 (Conc 10 [fun v => v; fun _ => 6])).
  - discriminate.
  - split; [discriminate|reflexivity].
  - constructor; [|constructor; [|constructor]]; intros s Hs; [exact Hs|].
    split; [discriminate|reflexivity].
Defined.

(** Rate limiting: requests served one after the other at non-decreasing
    clock readings are never granted more than [rate] bytes in any one
    second, and every request gets an answer. *)
Theorem rate_limit_per_second (c : ldms_rail_rate_quota_s) (reqs : list (Z * Z)) :
  word64 (quota c) -> word64 (rate c) -> rate c <> LDMS_UNLIMITED -> quota c <= rate c ->
  StronglySorted Z.le (tv_sec c :: map fst reqs) -> Forall (fun q => 0 <= snd q) reqs ->
  exists tr, rate_requests reqs c = Some tr /\ forall t, granted t tr <= rate c.
Proof.
  intros Hq Hr Hlim Hle Hs Hn.
  destruct (rate_requests_granted (rate c) reqs c) as (tr & Htr & H0 & H1 & H2);
    [done|by split|done..|].
  exists tr. split; [done|]. intros t. unfold word64 in *.
  destruct (Z.lt_trichotomy t (tv_sec c)) as [Hlt|[->|Hgt]]; [rewrite H1 by done; lia|lia|by apply H2].
Qed.

Lemma rate_limit_per_second_witness :
  exists tr, rate_requests [(5, 60); (5, 60); (6, 60); (6, 40); (6, 1)] (RateQuota 100 100 0) = Some tr
    /\ forall t, granted t tr <= 100.
Proof.
  apply (rate_limit_per_second (RateQuota 100 100 0)); simpl.
  - split; reflexivity || discriminate.
  - split; reflexivity || discriminate.
  - discriminate.
  - reflexivity || discriminate.
  - repeat constructor; discriminate.
  - repeat constructor; discriminate.
Defined.

(** The effect of a whole acquisition by another thread. *)
Definition other_acquire (n : Z) (s : rate_world) : rate_world :=
  match rate_quota_acquire l_fst l_snd n (Conc s []) with
  | Some (_, c) => shared c
  | None => s
  end.

(** Two threads can be granted twice the rate in one second: the quota
    of the past second is used up, a thread reads it, another thread starts
    the new second and takes all of its [rate] bytes, so that the word holds
    the value the first thread expects; its exchange resets the quota again
    and the bytes are granted a second time. *)
Theorem rate_limit_race :
  let s : rate_world := (RateQuota 0 100 5, inr 6) in
  exists s1 s2,
    rate_quota_acquire l_fst l_snd 100 (Conc s []) = Some (0, Conc s1 []) /\
    rate_quota_acquire l_fst l_snd 100
      (Conc s [fun s => s; fun s => s; fun s => s; fun s => s; fun s => s; other_acquire 100])
    = Some (0, Conc s2 []).
Proof. eexists _, _. split; vm_compute; reflexivity. Qed.

(** C19: acquiring send quota, on every branch of a run without
    interference: the routine returns, and its code is 0, ENOBUFS or the
    error of the clock.  With a quota, an endpoint that has less than [q]
    refuses with ENOBUFS and is unchanged; a grant takes exactly [q] from the
    balance (quota minus debt); a refusal by the rate limit or by a failing
    clock gives the quota back, so that the balance is unchanged.  An
    unlimited endpoint stays unlimited, and a refusal there pays up to [q]
    bytes of its debt although nothing was taken.  No word wraps around. *)
Theorem rep_quota_acquire_balance (q : Z) (w : ep_world) :
  word64 q -> ep_ok (w_ep w) ->
  exists rc w', rep_quota_acquire l_ep l_clock q (Conc w []) = Some (rc, Conc w' []) /\
    ep_ok (w_ep w') /\ (rc = 0 \/ rc = ENOBUFS \/ w_clock w = inl rc) /\
    (send_quota (w_ep w) <> LDMS_UNLIMITED ->
      (rc = 0 /\ q <= send_quota (w_ep w) /\ balance (w_ep w') = balance (w_ep w) - q) \/
      (rc <> 0 /\ balance (w_ep w') = balance (w_ep w) /\
       (send_quota (w_ep w) < q -> rc = ENOBUFS /\ w' = w))) /\
    (send_quota (w_ep w) = LDMS_UNLIMITED ->
      send_quota (w_ep w') = LDMS_UNLIMITED /\
      send_quota_debt (w_ep w') =
        send_quota_debt (w_ep w) - (if rc =? 0 then 0 else Z.min (send_quota_debt (w_ep w)) q)).
Proof.
  intros Hq Hok.
  destruct (runs_rep_quota_acquire l_ep l_clock q (w_clock w) w) as (rc & c' & Hrun & Hrc & ->); [done..|].
  eexists _, _. split; [exact Hrun|]. cbn [lget l_ep lset w_ep] in *.
  destruct (ep_acquire q (w_clock w) (w_ep w)) as [rc1 e1] eqn:Ea. cbn [fst snd] in *. subst rc1.
  destruct (ep_acquire_effect _ _ _ _ _ Hq Hok Ea) as (Hrc & Hok' & _ & Hl & Hu).
  split_and!; [done|done| |done]. intros Hlim. destruct (Hl Hlim) as (_ & Hb & Hex & Hlt).
  destruct (Z.eqb_spec rc 0) as [->|Hne]; [left|right].
  - destruct Hok' as ((? & ?) & _). specialize (Hex eq_refl). split_and!; [done|lia|done].
  - split_and!; [done|lia|]. intros Hx. destruct (Hlt Hx) as [-> ->]. split; [done|]. by destruct w.
Qed.

Definition ex_ep (q d : Z) (tq : list pending_sbuf) : ldms_rail_ep_s :=
  RailEp LDMS_RAIL_EP_CONNECTED 0 q d 1 (RateQuota 50 50 7) 0 0 tq.

Lemma rep_quota_acquire_balance_witness :
  let w := EpWorld (ex_ep 100 10 []) (inr 7) [] in
  exists rc w', rep_quota_acquire l_ep l_clock 60 (Conc w []) = Some (rc, Conc w' []) /\
    ep_ok (w_ep w') /\ (rc = 0 \/ rc = ENOBUFS \/ w_clock w = inl rc) /\
    (100 <> LDMS_UNLIMITED ->
      (rc = 0 /\ 60 <= 100 /\ balance (w_ep w') = 90 - 60) \/
      (rc <> 0 /\ balance (w_ep w') = 90 /\ (100 < 60 -> rc = ENOBUFS /\ w' = w))) /\
    (100 = LDMS_UNLIMITED ->
      send_quota (w_ep w') = LDMS_UNLIMITED /\
      send_quota_debt (w_ep w') = 10 - (if rc =? 0 then 0 else Z.min 10 60)).
Proof.
  apply (rep_quota_acquire_balance 60 (EpWorld (ex_ep 100 10 []) (inr 7) [])).
  - split; [discriminate|reflexivity].
  - repeat split; discriminate || reflexivity.
Defined.

(** C36: reconfiguring the quota between two limited quotas, with all the
    quantities below 2^63: when the peer announces [q] instead of the former
    quota, the bytes in use of every endpoint (granted quota minus balance)
    stay the same; what cannot be taken back becomes debt.  The unlimited
    marker is not such a quota: [reconfig_ignores_unlimited]. *)
Theorem quota_reconfig_keeps_use (q : Z) (r : ldms_rail_s) :
  0 <= q < 2 ^ 63 -> 0 <= r_send_quota r < 2 ^ 63 -> Forall ep_small (eps r) ->
  exists r', rail_process_quota_reconfig q r = Some (tt, r') /\ r_send_quota r' = q /\
    Forall2 (fun e e' => q - balance e' = r_send_quota r - balance e) (eps r) (eps r').
Proof.
  intros Hq Hr He.
  destruct (runs_rail_process_quota_reconfig q r Hq Hr He) as ([] & r' & Hrun & H1 & H2). eauto.
Qed.

Definition ex_rail (q : Z) (l : list ldms_rail_ep_s) : ldms_rail_s :=
  Rail true LDMS_RAIL_EP_CONNECTED l 0 0 q 0 1 [] [].

Lemma quota_reconfig_keeps_use_witness :
  exists r', rail_process_quota_reconfig 20 (ex_rail 100 [ex_ep 100 0 []; ex_ep 30 0 []]) = Some (tt, r') /\
    r_send_quota r' = 20 /\
    Forall2 (fun e e' => 20 - balance e' = 100 - balance e) [ex_ep 100 0 []; ex_ep 30 0 []] (eps r').
Proof.
  apply (quota_reconfig_keeps_use 20 (ex_rail 100 [ex_ep 100 0 []; ex_ep 30 0 []])).
  - split; [discriminate|reflexivity].
  - split; [discriminate|reflexivity].
  - repeat constructor; discriminate || reflexivity.
Defined.

(** The unlimited marker is not handled by the reconfiguration: going
    from a quota [q0] to unlimited leaves an idle endpoint with its old
    quota and a debt of [q0 + 1] bytes, and going from unlimited to a quota
    leaves the endpoint unlimited. *)
Theorem reconfig_ignores_unlimited (q0 q : Z) (e : ldms_rail_ep_s) (r : ldms_rail_s) :
  0 <= q0 < 2 ^ 63 - 1 -> 0 <= q < 2 ^ 62 ->
  (exists r', rail_process_quota_reconfig LDMS_UNLIMITED
      (with_send_quota q0 (with_eps [set_quota_debt q0 0 e] r)) = Some (tt, r') /\
    eps r' = [set_quota_debt q0 (q0 + 1) e]) /\
  (exists r', rail_process_quota_reconfig q
      (with_send_quota LDMS_UNLIMITED (with_eps [set_quota_debt LDMS_UNLIMITED 0 e] r)) = Some (tt, r') /\
    eps r' = [set_quota_debt LDMS_UNLIMITED 0 e]).
Proof.
  intros Hq0 Hq. split; unfold rail_process_quota_reconfig;
    unfold mbind, M_bind, get; cbn [r_send_quota with_send_quota with_eps eps].
  - assert (s64 (u64 (LDMS_UNLIMITED - q0)) = - (q0 + 1)) as ->.
    { unfold wraps, wrapu, LDMS_UNLIMITED. rewrite Zplus_mod_idemp_l.
      replace (_ - q0 + _) with (- (q0 + 1) + 2 ^ (64 - 1) + 1 * 2 ^ 64) by lia.
      rewrite Z_mod_plus_full. apply s64_small. lia. }
    rewrite (proj2 (Z.eqb_neq _ 0)) by lia. cbn [modify length for_eps].
    unfold mbind, M_bind, on_ep. cbn [eps with_send_quota with_eps lookup list_lookup mbind option_bind].
    unfold rail_reconfig_ep. rewrite (proj2 (Z.ltb_ge 0 _)) by lia.
    rewrite Z.opp_involutive, (word64_u64 (q0 + 1)) by (unfold word64; lia).
    unfold quota_acquire, load, atomic, mbind, M_bind. cbn [others shared lget l_send_quota send_quota set_quota_debt].
    unfold LDMS_UNLIMITED. rewrite (proj2 (Z.eqb_neq q0 _)) by lia.
    unfold retries, gets. cbn [others length Nat.add loopM].
    unfold mbind, M_bind, mret, M_ret.
    rewrite (proj2 (Z.ltb_lt q0 (q0 + 1))) by lia. cbn.
    rewrite word64_u64 by (unfold word64; lia).
    eexists. split; reflexivity.
  - assert (s64 (u64 (q - LDMS_UNLIMITED)) = q + 1) as ->.
    { unfold wraps, wrapu, LDMS_UNLIMITED. rewrite Zplus_mod_idemp_l.
      replace (q - _ + _) with (q + 1 + 2 ^ (64 - 1) + (-1) * 2 ^ 64) by lia.
      rewrite Z_mod_plus_full. apply s64_small. lia. }
    rewrite (proj2 (Z.eqb_neq _ 0)) by lia. cbn [modify length for_eps].
    unfold mbind, M_bind, on_ep. cbn [eps with_send_quota with_eps lookup list_lookup mbind option_bind].
    unfold rail_reconfig_ep. rewrite (proj2 (Z.ltb_lt 0 _)) by lia. eexists. split; reflexivity.
Qed.

Lemma reconfig_ignores_unlimited_witness :
  (exists r', rail_process_quota_reconfig LDMS_UNLIMITED
      (with_send_quota 1000 (with_eps [set_quota_debt 1000 0 (ex_ep 0 0 [])] (ex_rail 0 []))) = Some (tt, r') /\
    eps r' = [set_quota_debt 1000 (1000 + 1) (ex_ep 0 0 [])]) /\
  (exists r', rail_process_quota_reconfig 1000
      (with_send_quota LDMS_UNLIMITED
        (with_eps [set_quota_debt LDMS_UNLIMITED 0 (ex_ep 0 0 [])] (ex_rail 0 []))) = Some (tt, r') /\
    eps r' = [set_quota_debt LDMS_UNLIMITED 0 (ex_ep 0 0 [])]).
Proof.
  apply (reconfig_ignores_unlimited 1000 1000 (ex_ep 0 0 []) (ex_rail 0 []));
    (split; [discriminate|reflexivity]).
Defined.

(** Flushing the queue of messages to forward: a prefix of the queue is
    published, in order, and leaves it; the code is 0 exactly when the queue
    was emptied; the balance drops by the bytes published, and by the length
    of the next message when its profiling context could not be allocated
    (that quota is not given back). *)
Theorem flush_sbuf_tq_correct (op_ctxt_alloc : pending_sbuf -> bool) (rep_publish : pending_sbuf -> Z)
    (now : Z) (w : ep_world) :
  ep_ok (w_ep w) -> send_quota (w_ep w) <> LDMS_UNLIMITED -> w_clock w = inr now ->
  Forall (fun p => word64 (msg_len p)) (sbuf_tq (w_ep w)) ->
  exists rc c', rep_flush_sbuf_tq l_ep l_clock l_sent op_ctxt_alloc rep_publish (Conc w []) = Some (rc, c') /\
    let w' := shared c' in
    exists pre, sbuf_tq (w_ep w) = pre ++ sbuf_tq (w_ep w') /\
      w_sent w' = w_sent w ++ pre /\
      (rc = 0 <-> sbuf_tq (w_ep w') = []) /\
      balance (w_ep w') = balance (w_ep w) - sum_len pre - flush_leak op_ctxt_alloc rc (sbuf_tq (w_ep w')).
Proof. intros. by eapply runs_rep_flush_sbuf_tq. Qed.

Lemma flush_sbuf_tq_correct_witness :
  let w := EpWorld (ex_ep 100 0 [PendingSbuf 1 20; PendingSbuf 2 25; PendingSbuf 3 30]) (inr 7) [] in
  exists rc c', rep_flush_sbuf_tq l_ep l_clock l_sent (fun _ => true) (fun _ => 0) (Conc w []) = Some (rc, c') /\
    let w' := shared c' in
    exists pre, sbuf_tq (w_ep w) = pre ++ sbuf_tq (w_ep w') /\
      w_sent w' = w_sent w ++ pre /\
      (rc = 0 <-> sbuf_tq (w_ep w') = []) /\
      balance (w_ep w') = balance (w_ep w) - sum_len pre - flush_leak (fun _ => true) rc (sbuf_tq (w_ep w')).
Proof.
  intros w. apply (flush_sbuf_tq_correct (fun _ => true) (fun _ => 0) 7 w).
  - repeat split; discriminate || reflexivity.
  - discriminate.
  - reflexivity.
  - repeat constructor; discriminate || reflexivity.
Defined.

(** A send that fails gives back quota that was never taken. *)
Example failed_send_inflates_quota :
  rail_send 64 ENOMEM (ex_rail 100 [ex_ep 100 0 []]) =
  Some (ENOMEM, ex_rail 100 [ex_ep 164 0 []]).
Proof. reflexivity. Qed.
