(* ===== verification/CStr.v ===== *)
(** * C strings

    [strcmp] and [snprintf(buf, n, "%s", s)] on strings without the
    terminating zero. *)

From stdpp Require Import prelude strings.
From Stdlib Require Import Ascii String.
From S2P Require Import Prelude RbtIns.

Open Scope Z_scope.

Definition byte_of (c : ascii) : Z := Z.of_N (N_of_ascii c).

(** The sign of [strcmp]: bytes compare as [unsigned char]. *)
Fixpoint strcmp (a b : string) : Z :=
  match a, b with
  | EmptyString, EmptyString => 0
  | EmptyString, String _ _ => -1
  | String _ _, EmptyString => 1
  | String x a, String y b =>
      if byte_of x =? byte_of y then strcmp a b
      else if byte_of x <? byte_of y then -1 else 1
  end.

Fixpoint str_take (n : nat) (s : string) : string :=
  match n, s with
  | S n, String c s => String c (str_take n s)
  | _, _ => EmptyString
  end.

Definition strlen (s : string) : Z := Z.of_nat (String.length s).

(** The buffer after [snprintf] into [size] bytes, and its result. *)
Definition snprintf_s (size : Z) (s : string) : string * Z :=
  (str_take (Z.to_nat (size - 1)) s, strlen s).

Lemma byte_of_inj a b : byte_of a = byte_of b -> a = b.
Proof.
  unfold byte_of. intros H. apply N2Z.inj in H.
  rewrite <- (ascii_N_embedding a), <- (ascii_N_embedding b). by rewrite H.
Qed.

Lemma strcmp_eq a b : strcmp a b = 0 <-> a = b.
Proof.
  revert b. induction a as [|x a IH]; intros [|y b]; simpl; try done.
  destruct (Z.eqb_spec (byte_of x) (byte_of y)) as [H|H].
  - apply byte_of_inj in H as ->. rewrite IH. split; [by intros ->|by intros [= ->]].
  - split; [|by intros [= -> ->]]. case_match; done.
Qed.

#[export] Instance strcmp_comparator : Comparator strcmp.
Proof.
  split.
  - intros a. induction a as [|x a IH]; intros [|y b]; simpl; try lia.
    destruct (Z.eqb_spec (byte_of x) (byte_of y)) as [H|H].
    + rewrite <- H, Z.eqb_refl. apply IH.
    + rewrite (proj2 (Z.eqb_neq (byte_of y) (byte_of x))) by lia.
      repeat case_match; lia.
  - intros a. induction a as [|x a IH]; intros [|y b] [|z c]; simpl; try lia.
    destruct (Z.eqb_spec (byte_of x) (byte_of y)), (Z.eqb_spec (byte_of y) (byte_of z)),
      (Z.eqb_spec (byte_of x) (byte_of z)); try lia; try apply IH;
      repeat case_match; lia.
Qed.

Lemma str_take_id n s : (String.length s <= n)%nat -> str_take n s = s.
Proof.
  revert n. induction s as [|c s IH]; intros [|n] H; simpl in *; try done; [lia|].
  f_equal. apply IH. lia.
Qed.
