(* ===== verification/Qgroup.v ===== *)
(** * Quota groups: model

    src/ldms/src/core/ldms_qgroup.c, and the release of a received message in
    ldms_msg.c, its client.  The processes of a group share the quota that
    lets them give send quota back to their peers: each has a quota that a
    periodic routine resets, gives bytes back to its peers out of it, asks
    the other members for a donation when it runs low, and donates what it
    has above the mark.

    [qg->quota], [pending_ret_quota] and [in_eps_stq] are accessed with
    atomic operations outside the lock, so the functions that touch them are
    computations with interference; a section under the lock [qg->mutex] is
    one step on the fields the lock protects. *)

From stdpp Require Import prelude strings.
From Stdlib Require Import String.
From S2P Require Import Prelude Conc CStr RbtSpec RailQuota.

Open Scope Z_scope.

Record ldms_qgroup_cfg_s := QgroupCfg {
  cfg_quota : Z;
  ask_mark : Z;
  ask_amount : Z;
  ask_usec : Z;
  reset_usec : Z;
}.

Inductive ldms_qgroup_state_e :=
| LDMS_QGROUP_STATE_STOPPED
| LDMS_QGROUP_STATE_STOPPING
| LDMS_QGROUP_STATE_STARTED
| LDMS_QGROUP_STATE_BUSY.

Inductive ldms_qgroup_member_state_e :=
| LDMS_QGROUP_MEMBER_STATE_DISCONNECTED
| LDMS_QGROUP_MEMBER_STATE_CONNECTING
| LDMS_QGROUP_MEMBER_STATE_CONNECTED.

#[export] Instance qgroup_state_eq_dec : EqDecision ldms_qgroup_state_e.
Proof. solve_decision. Defined.
#[export] Instance qgroup_member_state_eq_dec : EqDecision ldms_qgroup_member_state_e.
Proof. solve_decision. Defined.

Abbreviation av_list := (list (string * string)).

(** [m_x] is the endpoint [m->x->eps[0]], [None] when [m->x] is NULL;
    [m_ref] counts the references to the member. *)
Record ldms_qgroup_member_s := Member {
  c_host : string;
  c_port : string;
  c_xprt : string;
  c_auth : string;
  c_auth_av_list : option av_list;
  m_x : option nat;
  m_state : ldms_qgroup_member_state_e;
  m_ref : Z;
}.

(** [q_rbt] is the contents of the tree [qg->rbt] as [RbtSpec] describes them,
    [q_eps_stq] the endpoints queued in [qg->eps_stq].  The events are
    recorded as scheduled or not. *)
Record ldms_qgroup_s := Qgroup {
  q_quota : Z;
  q_state : ldms_qgroup_state_e;
  q_cfg : ldms_qgroup_cfg_s;
  q_rbt : list (positive * ldms_qgroup_member_s);
  q_ask_oev : bool;
  q_reset_oev : bool;
  q_eps_stq : list nat;
}.

Definition with_q_quota v g := Qgroup v (q_state g) (q_cfg g) (q_rbt g) (q_ask_oev g) (q_reset_oev g) (q_eps_stq g).
Definition with_q_state v g := Qgroup (q_quota g) v (q_cfg g) (q_rbt g) (q_ask_oev g) (q_reset_oev g) (q_eps_stq g).
Definition with_q_cfg v g := Qgroup (q_quota g) (q_state g) v (q_rbt g) (q_ask_oev g) (q_reset_oev g) (q_eps_stq g).
Definition with_q_rbt v g := Qgroup (q_quota g) (q_state g) (q_cfg g) v (q_ask_oev g) (q_reset_oev g) (q_eps_stq g).
Definition with_q_oevs a r g := Qgroup (q_quota g) (q_state g) (q_cfg g) (q_rbt g) a r (q_eps_stq g).
Definition with_q_eps_stq v g := Qgroup (q_quota g) (q_state g) (q_cfg g) (q_rbt g) (q_ask_oev g) (q_reset_oev g) v.

Definition is_stopped (g : ldms_qgroup_s) : bool :=
  bool_decide (q_state g = LDMS_QGROUP_STATE_STOPPED).

(** ** Initialisation and configuration *)

Definition qgroup_init (quota : Z) : ldms_qgroup_s :=
  Qgroup quota LDMS_QGROUP_STATE_STOPPED (QgroupCfg 0 0 0 0 0) [] false false [].

(** [ldms_qgroup_new]: [quota] is the word [malloc] left in the structure,
    which [__qgroup_init] does not set. *)
Definition ldms_qgroup_new (cfg : option ldms_qgroup_cfg_s) (malloc_ok : bool) (quota : Z)
    : option ldms_qgroup_s :=
  match cfg with
  | None => None
  | Some _ => if malloc_ok then Some (qgroup_init quota) else None
  end.

Definition qgroup_cfg_set (cfg : ldms_qgroup_cfg_s) (g : ldms_qgroup_s) : Z * ldms_qgroup_s :=
  if negb (is_stopped g) then (EBUSY, g) else (0, with_q_cfg cfg g).

Definition qgroup_cfg_quota_set (v : Z) (g : ldms_qgroup_s) : Z * ldms_qgroup_s :=
  if negb (is_stopped g) then (EBUSY, g) else
  let c := q_cfg g in
  (0, with_q_cfg (QgroupCfg v (ask_mark c) (ask_amount c) (ask_usec c) (reset_usec c)) g).

Definition qgroup_cfg_ask_usec_set (v : Z) (g : ldms_qgroup_s) : Z * ldms_qgroup_s :=
  if negb (is_stopped g) then (EBUSY, g) else
  let c := q_cfg g in
  (0, with_q_cfg (QgroupCfg (cfg_quota c) (ask_mark c) (ask_amount c) v (reset_usec c)) g).

Definition qgroup_cfg_reset_usec_set (v : Z) (g : ldms_qgroup_s) : Z * ldms_qgroup_s :=
  if negb (is_stopped g) then (EBUSY, g) else
  let c := q_cfg g in
  (0, with_q_cfg (QgroupCfg (cfg_quota c) (ask_mark c) (ask_amount c) (ask_usec c) v) g).

Definition qgroup_cfg_ask_mark_set (v : Z) (g : ldms_qgroup_s) : Z * ldms_qgroup_s :=
  if negb (is_stopped g) then (EBUSY, g) else
  let c := q_cfg g in
  (0, with_q_cfg (QgroupCfg (cfg_quota c) v (ask_amount c) (ask_usec c) (reset_usec c)) g).

Definition qgroup_cfg_ask_amount_set (v : Z) (g : ldms_qgroup_s) : Z * ldms_qgroup_s :=
  if negb (is_stopped g) then (EBUSY, g) else
  let c := q_cfg g in
  (0, with_q_cfg (QgroupCfg (cfg_quota c) (ask_mark c) v (ask_usec c) (reset_usec c)) g).

Definition qgroup_cfg_get (g : ldms_qgroup_s) : ldms_qgroup_cfg_s := q_cfg g.

(** ** Members *)

Definition qgroup_rbt_cmp (tm m : ldms_qgroup_member_s) : Z :=
  let rc := strcmp (c_host tm) (c_host m) in
  if negb (rc =? 0) then rc else
  let rc := strcmp (c_port tm) (c_port m) in
  if negb (rc =? 0) then rc else 0.

(** [rbt_find] on the contents of the tree. *)
Definition member_find (m : ldms_qgroup_member_s) (l : list (positive * ldms_qgroup_member_s))
    : option (positive * ldms_qgroup_member_s) :=
  find (fun e => qgroup_rbt_cmp e.2 m =? 0) l.

(** A string copied into a field of [size] bytes: [None] stands for
    ENAMETOOLONG. *)
Definition copy_field (size : Z) (s : string) : option string :=
  let '(buf, len) := snprintf_s size s in
  if size <=? len then None else Some buf.

(** [node] is the address [malloc] returns, [None] when it fails; [av_copy]
    is the result of [av_copy], with the error number. *)
Definition qgroup_member_add (node : option positive) (av_copy : av_list -> av_list + Z)
    (xprt_name host port auth_name : option string) (auth_av_list : option av_list)
    (g : ldms_qgroup_s) : Z * ldms_qgroup_s :=
  if negb (is_stopped g) then (EBUSY, g) else
  match node with
  | None => (ENOMEM, g)
  | Some p =>
  match xprt_name with
  | None => (EINVAL, g)
  | Some xprt_name =>
  match copy_field 32 xprt_name with
  | None => (ENAMETOOLONG, g)
  | Some c_xprt =>
  match host with
  | None => (EINVAL, g)
  | Some host =>
  match copy_field 256 host with
  | None => (ENAMETOOLONG, g)
  | Some c_host =>
  match (match port with None => Some "411"%string | Some s => copy_field 32 s end) with
  | None => (ENAMETOOLONG, g)
  | Some c_port =>
  match (match auth_name with None => Some "none"%string | Some s => copy_field 32 s end) with
  | None => (ENAMETOOLONG, g)
  | Some c_auth =>
  match (match auth_av_list with
         | None => inl None
         | Some l => match av_copy l with inl l => inl (Some l) | inr e => inr e end
         end) with
  | inr e => (e, g)
  | inl avs =>
  let m := Member c_host c_port c_xprt c_auth avs None LDMS_QGROUP_MEMBER_STATE_DISCONNECTED 2 in
  match member_find m (q_rbt g) with
  | Some _ => (EEXIST, g)
  | None => (0, with_q_rbt (seq_ins qgroup_rbt_cmp (p, m) (q_rbt g)) g)
  end end end end end end end end end.

(** The member removed from the tree loses the references of the tree and of
    its creation. *)
Definition qgroup_member_del (host : string) (port : option string) (g : ldms_qgroup_s)
    : Z * ldms_qgroup_s :=
  if negb (is_stopped g) then (EBUSY, g) else
  let m := Member (snprintf_s 256 host).1 (snprintf_s 32 (default "411"%string port)).1
             EmptyString EmptyString None None LDMS_QGROUP_MEMBER_STATE_DISCONNECTED 0 in
  match member_find m (q_rbt g) with
  | None => (ENOENT, g)
  | Some (p, _) => (0, with_q_rbt (seq_del p (q_rbt g)) g)
  end.

(** ** The world of a process *)

Inductive qgroup_request :=
| SEND_QUOTA (quota rc : Z)
| QGROUP_ASK (q usec : Z)
| QGROUP_DONATE (q usec : Z)
| QGROUP_DONATE_BACK (q usec : Z).

#[export] Instance qgroup_request_eq_dec : EqDecision qgroup_request.
Proof. solve_decision. Defined.

(** [w_ts] is the clock, seconds and nanoseconds; [w_wire] the requests sent,
    with the endpoint. *)
Record qworld := QWorld {
  w_qg : ldms_qgroup_s;
  w_reps : list ldms_rail_ep_s;
  w_ts : Z * Z;
  w_wire : list (nat * qgroup_request);
}.

Definition l_qg : lens qworld ldms_qgroup_s :=
  Lens w_qg (fun g w => QWorld g (w_reps w) (w_ts w) (w_wire w)).
Definition l_q_quota : lens ldms_qgroup_s Z := Lens q_quota with_q_quota.
Definition l_wq_quota : lens qworld Z := lens_comp l_qg l_q_quota.
Definition l_ts : lens qworld (Z * Z) :=
  Lens w_ts (fun t w => QWorld (w_qg w) (w_reps w) t (w_wire w)).

#[export] Instance l_qg_ok : LensOk l_qg.
Proof. split; by intros; try destruct s. Qed.
#[export] Instance l_q_quota_ok : LensOk l_q_quota.
Proof. split; by intros; try destruct s. Qed.
#[export] Instance l_wq_quota_ok : LensOk l_wq_quota.
Proof. apply _. Qed.

(** The fields the lock protects. *)
Definition the_qg : M (conc qworld) ldms_qgroup_s := gets (fun c => w_qg (shared c)).
Definition upd_qg (f : ldms_qgroup_s -> ldms_qgroup_s) : M (conc qworld) unit :=
  modify (fun c => Conc (lset l_qg (f (w_qg (shared c))) (shared c)) (others c)).
Definition send_raw (ep : nat) (r : qgroup_request) : M (conc qworld) unit :=
  modify (fun c => let w := shared c in
    Conc (QWorld (w_qg w) (w_reps w) (w_ts w) (w_wire w ++ [(ep, r)])) (others c)).

(** An atomic access to a word of endpoint [i]; no such endpoint is stuck. *)
Definition on_rep {A} (i : nat) (f : ldms_rail_ep_s -> A * ldms_rail_ep_s) : M (conc qworld) A :=
  o ← atomic (fun w =>
    match w_reps w !! i with
    | Some e => let '(a, e') := f e in
                (Some a, QWorld (w_qg w) (<[i := e']> (w_reps w)) (w_ts w) (w_wire w))
    | None => (None, w)
    end);
  lift_opt o.

Definition clock_getusec : M (conc qworld) Z :=
  ts ← load l_ts;
  mret (u64 (ts.1 * 1000000 + ts.2 `quot` 1000)).

(** A division by zero is stuck. *)
Definition qgroup_usec_adj (usec : Z) : M (conc qworld) Z :=
  g ← the_qg;
  let r := reset_usec (q_cfg g) in
  if r =? 0 then stuck else mret (u64 (usec `div` r * r)).

(** ** Quota *)

Definition qgroup_quota_acquire (q : Z) : M (conc qworld) Z :=
  g ← the_qg;
  if is_stopped g then mret 0 else quota_acquire l_wq_quota q.

Definition qgroup_quota_release (q : Z) : M (conc qworld) Z :=
  v ← quota_release l_wq_quota q; mret (s32 v).

Definition ldms_qgroup_quota_probe : M (conc qworld) Z := load l_wq_quota.

(** [malloc_ok] tells whether the queue entry could be allocated. *)
Definition qgroup_add_rep (malloc_ok : bool) (i : nat) : M (conc qworld) Z :=
  if malloc_ok then upd_qg (fun g => with_q_eps_stq (q_eps_stq g ++ [i]) g);; mret 0
  else mret ENOMEM.

(** [__rail_ep_quota_return]: [int quota] goes into a 32-bit word. *)
Definition ep_quota_return (i : nat) (quota rc : Z) : M (conc qworld) unit :=
  send_raw i (SEND_QUOTA (u32 (s32 quota)) rc).

(** [__msg_buf_s_ref_free]: the last reference to a message of [q] bytes
    received on endpoint [i] is dropped. *)
Definition msg_buf_s_ref_free (malloc_ok : bool) (i : nat) (q : Z) : M (conc qworld) unit :=
  rc ← qgroup_quota_acquire q;
  if rc =? 0 then ep_quota_return i q 0 else
  on_rep i (fun e => (tt, lset l_pending_ret_quota (u64 (pending_ret_quota e + q)) e));;
  cond ← on_rep i (fun e =>
    if in_eps_stq e =? 0 then (true, lset l_in_eps_stq 1 e) else (false, e));
  if (cond : bool) then
    rc ← qgroup_add_rep malloc_ok i;
    if negb (rc =? 0) then on_rep i (fun e => (tt, lset l_in_eps_stq 0 e)) else mret tt
  else mret tt.

(** The loop of [__qgroup_reset] over the queue: [kept] are the entries passed
    over so far, [q] the quota not yet used.  [p] is an [int]; the comparison
    with [q] is unsigned. *)
Fixpoint qgroup_flush (kept ents : list nat) (q : Z) : M (conc qworld) Z :=
  match ents with
  | [] => mret q
  | i :: rest =>
      p ← on_rep i (fun e => (s32 (pending_ret_quota e), e));
      c_assert (0 <? p);;
      if q <? p then qgroup_flush (kept ++ [i]) rest q else
      upd_qg (with_q_eps_stq (kept ++ rest));;
      on_rep i (fun e => (tt, lset l_in_eps_stq 0 e));;
      ep_quota_return i p 0;;
      let q := u64 (q - p) in
      on_rep i (fun e => (tt, lset l_pending_ret_quota (u64 (pending_ret_quota e - p)) e));;
      qgroup_flush kept rest q
  end.

Definition qgroup_reset : M (conc qworld) unit :=
  store l_wq_quota 0;;
  g ← the_qg;
  q ← qgroup_flush [] (q_eps_stq g) (cfg_quota (q_cfg g));
  store l_wq_quota q.

(** ** Requests of other members; [ep] is the endpoint they came on *)

Definition qgroup_on_ask_event (ep : nat) (ask req_usec : Z) : M (conc qworld) unit :=
  usec ← clock_getusec;
  usec_adj ← qgroup_usec_adj usec;
  if negb (req_usec =? usec_adj) then mret tt else
  q ← load l_wq_quota;
  g ← the_qg;
  let mark := ask_mark (q_cfg g) in
  if q <=? mark then mret tt else
  let donate := Z.min (u64 (q - mark)) ask in
  rc ← quota_acquire l_wq_quota donate;
  if negb (rc =? 0) then mret tt else
  send_raw ep (QGROUP_DONATE donate usec_adj).

(** A round of [__qgroup_on_donate_event]: [None] leaves the function, [Some
    (rest, usec)] goes on to [release] with the bytes not used. *)
Definition qgroup_donate_round (q0 req_usec : Z) : M (conc qworld) (unit + option (Z * Z)) :=
  usec ← clock_getusec;
  usec_adj ← qgroup_usec_adj usec;
  if negb (usec_adj =? req_usec) then mret (inr None) else
  q ← load l_wq_quota;
  g ← the_qg;
  let quota := cfg_quota (q_cfg g) in
  if quota <=? q then mret (inr (Some (q0, usec_adj))) else
  let fill := if q0 <? u64 (quota - q) then q0 else u64 (quota - q) in
  let donate := u64 (q0 - fill) in
  '(succeed, _) ← cas l_wq_quota q (u64 (q + fill));
  mret (if (succeed : bool) then inr (Some (donate, usec_adj)) else inl tt).

Definition qgroup_on_donate_event (ep : nat) (q0 req_usec : Z) : M (conc qworld) unit :=
  k ← retries;
  r ← loopM k (fun _ => qgroup_donate_round q0 req_usec) tt;
  match r with
  | None => mret tt
  | Some (donate, usec_adj) =>
      if negb (donate =? 0) then send_raw ep (QGROUP_DONATE_BACK donate usec_adj) else mret tt
  end.

Definition qgroup_on_donate_back_event (donate req_usec : Z) : M (conc qworld) unit :=
  usec ← clock_getusec;
  usec_adj ← qgroup_usec_adj usec;
  if negb (usec_adj =? req_usec) then mret tt else
  _ ← add_fetch l_wq_quota donate; mret tt.

(** [__qgroup_req_recv]: any other command fails an assertion. *)
Definition qgroup_req_recv (ep : nat) (r : qgroup_request) : M (conc qworld) unit :=
  match r with
  | QGROUP_ASK q usec => qgroup_on_ask_event ep q usec
  | QGROUP_DONATE q usec => qgroup_on_donate_event ep q usec
  | QGROUP_DONATE_BACK q usec => qgroup_on_donate_back_event q usec
  | SEND_QUOTA _ _ => stuck
  end.

(** ** The periodic routine *)

Definition qgroup_member_do_ask (m : ldms_qgroup_member_s) : M (conc qworld) unit :=
  q ← load l_wq_quota;
  g ← the_qg;
  if ask_mark (q_cfg g) <=? q then mret tt else
  usec ← clock_getusec;
  usec_adj ← qgroup_usec_adj usec;
  ep ← lift_opt (m_x m);
  send_raw ep (QGROUP_ASK (ask_amount (q_cfg g)) usec_adj).

(** Replaces the member at node [p]. *)
Definition upd_member (p : positive) (f : ldms_qgroup_member_s -> ldms_qgroup_member_s)
    : M (conc qworld) unit :=
  upd_qg (fun g => with_q_rbt
    (map (fun e => if Pos.eqb e.1 p then (e.1, f e.2) else e) (q_rbt g)) g).

Definition set_member_x (x : option nat) m :=
  Member (c_host m) (c_port m) (c_xprt m) (c_auth m) (c_auth_av_list m) x (m_state m) (m_ref m).
Definition set_member_state s m :=
  Member (c_host m) (c_port m) (c_xprt m) (c_auth m) (c_auth_av_list m) (m_x m) s (m_ref m).
Definition add_member_ref d m :=
  Member (c_host m) (c_port m) (c_xprt m) (c_auth m) (c_auth_av_list m) (m_x m) (m_state m) (m_ref m + d).

(** [xprt_new] is the endpoint of the new transport, [None] when it cannot be
    made; [connect] what [ldms_xprt_connect_by_name] returns. *)
Definition qgroup_member_do_connect (xprt_new : option nat) (connect : Z) (p : positive)
    : M (conc qworld) unit :=
  upd_member p (set_member_x None);;
  match xprt_new with
  | None => mret tt
  | Some ep =>
      upd_member p (set_member_x (Some ep));;
      upd_member p (add_member_ref 1);;
      upd_member p (set_member_state LDMS_QGROUP_MEMBER_STATE_CONNECTING);;
      (if negb (connect =? 0) then
         upd_member p (set_member_x None);;
         upd_member p (set_member_state LDMS_QGROUP_MEMBER_STATE_DISCONNECTED)
       else upd_member p (add_member_ref 1));;
      upd_member p (add_member_ref (-1))
  end.

(** What the transport does for member [p] in this round. *)
Definition member_env : Type := positive -> option nat * Z.

Definition qgroup_member_routine (env : member_env) (e : positive * ldms_qgroup_member_s)
    : M (conc qworld) unit :=
  match m_state e.2 with
  | LDMS_QGROUP_MEMBER_STATE_DISCONNECTED =>
      qgroup_member_do_connect (env e.1).1 (env e.1).2 e.1
  | LDMS_QGROUP_MEMBER_STATE_CONNECTING => mret tt
  | LDMS_QGROUP_MEMBER_STATE_CONNECTED => qgroup_member_do_ask e.2
  end.

Fixpoint for_members (env : member_env) (l : list (positive * ldms_qgroup_member_s))
    : M (conc qworld) unit :=
  match l with
  | [] => mret tt
  | e :: l => qgroup_member_routine env e;; for_members env l
  end.

(** The first section of [__qgroup_ask_routine] under the lock: whether to go
    on. *)
Definition qgroup_ask_enter (g : ldms_qgroup_s) : option (bool * ldms_qgroup_s) :=
  match q_state g with
  | LDMS_QGROUP_STATE_STARTED => Some (true, with_q_state LDMS_QGROUP_STATE_BUSY g)
  | LDMS_QGROUP_STATE_STOPPED | LDMS_QGROUP_STATE_STOPPING => Some (false, g)
  | LDMS_QGROUP_STATE_BUSY => None
  end.

(** The last section under the lock, with its assertion. *)
Definition qgroup_ask_leave (g : ldms_qgroup_s) : option ldms_qgroup_s :=
  match q_state g with
  | LDMS_QGROUP_STATE_BUSY => Some (with_q_state LDMS_QGROUP_STATE_STARTED g)
  | _ => None
  end.

Definition qgroup_ask_routine (env : member_env) : M (conc qworld) unit :=
  g ← the_qg;
  '(go, g') ← lift_opt (qgroup_ask_enter g);
  upd_qg (fun _ => g');;
  if negb go then mret tt else
  for_members env (q_rbt g');;
  g ← the_qg;
  g' ← lift_opt (qgroup_ask_leave g);
  upd_qg (fun _ => g').

(** ** Start and stop *)

(** The checks of [__qgroup_start]: 0 when it may go on.  [once] is what
    [__qgroup_once] returns. *)
Definition qgroup_start_check (once : Z) (g : ldms_qgroup_s) : Z :=
  if negb (is_stopped g) then EBUSY else
  if negb (once =? 0) then once else
  let c := q_cfg g in
  if reset_usec c =? 0 then EINVAL else
  if ask_usec c =? 0 then EINVAL else
  if ask_amount c =? 0 then EINVAL else
  if ask_mark c =? 0 then EINVAL else
  if cfg_quota c =? 0 then EINVAL else 0.

(** [add_ask] and [add_reset] are what [ovis_scheduler_event_add] returns for
    the two events. *)
Definition qgroup_start (once add_ask add_reset : Z) : M (conc qworld) Z :=
  g ← the_qg;
  let rc := qgroup_start_check once g in
  if negb (rc =? 0) then mret rc else
  qgroup_reset;;
  if negb (add_ask =? 0) then mret add_ask else
  upd_qg (with_q_oevs true false);;
  if negb (add_reset =? 0) then
    upd_qg (with_q_oevs false false);; mret add_reset
  else
  upd_qg (with_q_oevs true true);;
  upd_qg (with_q_state LDMS_QGROUP_STATE_STARTED);;
  mret 0.

(** The first section of [__qgroup_stop] under the lock.  [None] is the wait
    on the condition while the routine is running. *)
Definition qgroup_stop_enter (g : ldms_qgroup_s) : option (Z * ldms_qgroup_s) :=
  match q_state g with
  | LDMS_QGROUP_STATE_STOPPED | LDMS_QGROUP_STATE_STOPPING => Some (EINVAL, g)
  | LDMS_QGROUP_STATE_BUSY => None
  | LDMS_QGROUP_STATE_STARTED =>
      Some (0, with_q_oevs false false (with_q_state LDMS_QGROUP_STATE_STOPPING g))
  end.

(** [__qgroup_member_disconnect]: whether the transport is closed. *)
Definition qgroup_member_disconnect (m : ldms_qgroup_member_s) : bool :=
  match m_state m with
  | LDMS_QGROUP_MEMBER_STATE_CONNECTED | LDMS_QGROUP_MEMBER_STATE_CONNECTING => true
  | LDMS_QGROUP_MEMBER_STATE_DISCONNECTED => false
  end.

(** The end of [__qgroup_stop]: the members are joined, that is, all of them
    are disconnected. *)
Definition qgroup_stop_leave (g : ldms_qgroup_s) : option ldms_qgroup_s :=
  if forallb (fun e => negb (qgroup_member_disconnect e.2)) (q_rbt g)
  then Some (with_q_state LDMS_QGROUP_STATE_STOPPED g) else None.

(** Transport events of a member; the quota requests go to the handlers. *)
Inductive member_event :=
| LDMS_XPRT_EVENT_CONNECTED
| LDMS_XPRT_EVENT_REJECTED
| LDMS_XPRT_EVENT_ERROR
| LDMS_XPRT_EVENT_DISCONNECTED
| LDMS_XPRT_EVENT_RECV
| LDMS_XPRT_EVENT_SET_DELETE
| LDMS_XPRT_EVENT_SEND_COMPLETE
| LDMS_XPRT_EVENT_SEND_QUOTA_DEPOSITED
| LDMS_XPRT_EVENT_QGROUP (r : qgroup_request).

Definition qgroup_member_xprt_cb (ep : nat) (p : positive) (ev : member_event) : M (conc qworld) unit :=
  g ← the_qg;
  m ← lift_opt (snd <$> find (fun e => Pos.eqb e.1 p) (q_rbt g));
  match ev with
  | LDMS_XPRT_EVENT_CONNECTED =>
      c_assert (bool_decide (m_state m = LDMS_QGROUP_MEMBER_STATE_CONNECTING));;
      upd_member p (set_member_state LDMS_QGROUP_MEMBER_STATE_CONNECTED);;
      qgroup_member_do_ask m
  | LDMS_XPRT_EVENT_REJECTED | LDMS_XPRT_EVENT_ERROR | LDMS_XPRT_EVENT_DISCONNECTED =>
      upd_member p (set_member_state LDMS_QGROUP_MEMBER_STATE_DISCONNECTED);;
      upd_member p (add_member_ref (-1))
  | LDMS_XPRT_EVENT_QGROUP r => qgroup_req_recv ep r
  | _ => mret tt
  end.

Definition ldms_qgroup_state_str (state : Z) : string :=
  if (0 <=? state) && (state <? 4) then
    nth (Z.to_nat state) ["STOPPED"; "STOPPING"; "STARTED"; "BUSY"]%string EmptyString
  else "__UNKNOWN_STATE__"%string.

Definition ldms_qgroup_member_state_str (state : Z) : string :=
  if (0 <=? state) && (state <? 3) then
    nth (Z.to_nat state) ["DISCONNECTED"; "CONNECTING"; "CONNECTED"]%string EmptyString
  else "__UNKNOWN_STATE__"%string.
