(* ===== verification/QgroupSpec.v ===== *)
(** * Quota groups: theorems about one process *)

From stdpp Require Import prelude strings.
From Stdlib Require Import String.
From S2P Require Import Prelude Conc CStr RbtIns RbtSpec RailQuota RailQuotaSpec Qgroup.

Open Scope Z_scope.

(** ** Accounting of the requests sent *)

Fixpoint sent_bytes (l : list (nat * qgroup_request)) : Z :=
  match l with
  | [] => 0
  | (_, SEND_QUOTA q _) :: l => q + sent_bytes l
  | _ :: l => sent_bytes l
  end.

Definition donation (r : qgroup_request) : Z :=
  match r with
  | QGROUP_DONATE q _ | QGROUP_DONATE_BACK q _ => q
  | _ => 0
  end.

(** The amount a request is about. *)
Definition amount (r : qgroup_request) : Z :=
  match r with
  | SEND_QUOTA q _ | QGROUP_ASK q _ | QGROUP_DONATE q _ | QGROUP_DONATE_BACK q _ => q
  end.

Fixpoint donated (l : list (nat * qgroup_request)) : Z :=
  match l with [] => 0 | (_, r) :: l => donation r + donated l end.

Lemma sent_bytes_nonneg l : Forall (fun r => 0 <= amount r.2) l -> 0 <= sent_bytes l.
Proof. induction 1 as [|[? []] l H Hl IH]; simpl in *; lia. Qed.

Lemma sent_bytes_app l k : sent_bytes (l ++ k) = sent_bytes l + sent_bytes k.
Proof. induction l as [|[? []] l IH]; simpl; lia. Qed.

Lemma donated_app l k : donated (l ++ k) = donated l + donated k.
Proof. induction l as [|[? r] l IH]; simpl; lia. Qed.

(** The quota word of a process that is limited. *)
Definition limited (v : Z) : Prop := 0 <= v < LDMS_UNLIMITED.

Lemma limited_word v : limited v -> word64 v /\ v <> LDMS_UNLIMITED.
Proof. unfold limited, word64, LDMS_UNLIMITED. lia. Qed.

(** [w'] is [w] after it sent [new] and its quota became [q]; the
    configuration and the state are the same. *)
Definition emits (w w' : qworld) (q : Z) (new : list (nat * qgroup_request)) : Prop :=
  w_wire w' = w_wire w ++ new /\ q_quota (w_qg w') = q /\
  q_cfg (w_qg w') = q_cfg (w_qg w) /\ q_state (w_qg w') = q_state (w_qg w) /\ w_ts w' = w_ts w.

Lemma emits_nil w : emits w w (q_quota (w_qg w)) [].
Proof. unfold emits. rewrite app_nil_r. done. Qed.

Lemma emits_trans w w1 w2 q q' l k :
  emits w w1 q l -> emits w1 w2 q' k -> emits w w2 q' (l ++ k).
Proof.
  intros (H1 & H2 & H3 & H4 & H5) (K1 & K2 & K3 & K4 & K5). unfold emits.
  rewrite K1, H1, app_assoc. split_and!; congruence.
Qed.

(** A step that keeps the quota. *)
Lemma emits_keep w w1 w2 q l k :
  emits w w1 q l -> emits w1 w2 (q_quota (w_qg w1)) k -> emits w w2 q (l ++ k).
Proof.
  intros H1 H2. pose proof H1 as (_ & Hq & _). rewrite Hq in H2. by eapply emits_trans.
Qed.

Lemma u32_s32 q : u32 (s32 q) = u32 q.
Proof.
  unfold wrapu, wraps. change (2 ^ (32 - 1)) with 2147483648. change (2 ^ 32) with 4294967296.
  rewrite <- (Z.mod_mod q) by lia.
  replace q with (q + 2147483648 - 2147483648) at 2 by lia.
  rewrite Zminus_mod_idemp_l. rewrite Z.mod_mod by lia. done.
Qed.

Lemma u32_le q : 0 <= q -> u32 q <= q.
Proof. intros. unfold wrapu. by apply Z.mod_le. Qed.

(** ** Steps of a process without interference *)

Section process.
Implicit Types (w : qworld).

Lemma holds_quota_acquire q w (Q : Z -> conc qworld -> Prop) :
  0 <= q -> limited (q_quota (w_qg w)) ->
  (q_quota (w_qg w) < q -> Q ENOBUFS (Conc w [])) ->
  (q <= q_quota (w_qg w) ->
   forall w', emits w w' (q_quota (w_qg w) - q) [] -> w_reps w' = w_reps w -> Q 0 (Conc w' [])) ->
  holds (quota_acquire l_wq_quota q) (Conc w []) Q.
Proof.
  intros Hq Hl Hf Ht. apply limited_word in Hl as [Hw Hu].
  apply holds_of_runs. eapply runs_mono; [by apply (runs_quota_acquire_alone l_wq_quota)|].
  intros rc c'. cbv beta. simpl. case_match; intros (-> & ->); [apply Hf; lia|].
  apply Ht; [lia| |done]. unfold emits. simpl. by rewrite app_nil_r.
Qed.

Lemma holds_on_rep {A} i (f : ldms_rail_ep_s -> A * ldms_rail_ep_s) w (Q : A -> conc qworld -> Prop) :
  (forall e w', w_reps w !! i = Some e -> emits w w' (q_quota (w_qg w)) [] ->
     w_qg w' = w_qg w -> w_reps w' = <[i := (f e).2]> (w_reps w) -> Q (f e).1 (Conc w' [])) ->
  holds (on_rep i f) (Conc w []) Q.
Proof.
  intros H. unfold on_rep. do 2 hstep. destruct (w_reps w !! i) as [e|] eqn:E; simpl.
  - destruct (f e) as [a e'] eqn:Ef. simpl. hstep. simplify_eq.
    specialize (H e (QWorld (w_qg w) (<[i:=e']> (w_reps w)) (w_ts w) (w_wire w))).
    rewrite Ef in H. apply H; [done| |done|done]. unfold emits. simpl. by rewrite app_nil_r.
  - hstep. done.
Qed.

Lemma holds_send_raw ep r w (Q : unit -> conc qworld -> Prop) :
  (forall w', emits w w' (q_quota (w_qg w)) [(ep, r)] -> w_qg w' = w_qg w -> w_reps w' = w_reps w ->
     Q tt (Conc w' [])) ->
  holds (send_raw ep r) (Conc w []) Q.
Proof. intros H. unfold send_raw. hstep. apply H; done. Qed.

(** Dropping a message returns at most what was taken from the quota. *)
Lemma holds_msg_buf_s_ref_free ok i q w :
  0 <= q -> limited (q_quota (w_qg w)) -> is_stopped (w_qg w) = false ->
  holds (msg_buf_s_ref_free ok i q) (Conc w []) (fun _ c' => exists w' q' new, c' = Conc w' [] /\
    emits w w' q' new /\ donated new = 0 /\ Forall (fun r => 0 <= amount r.2) new /\ 0 <= q' /\ q' + sent_bytes new <= q_quota (w_qg w)).
Proof.
  intros Hq Hl Hs. unfold msg_buf_s_ref_free, qgroup_quota_acquire, the_qg.
  repeat hstep. simpl. rewrite Hs. apply holds_quota_acquire; [done|done| |].
  - intros Hlt. simpl. hstep. apply holds_on_rep. intros e w1 _ E1 _ _. hstep.
    apply holds_on_rep. intros e1 w2 _ E2 _ _.
    assert (emits w w2 (q_quota (w_qg w)) []) as E3.
    { by apply (emits_keep w w1 w2 _ [] []). }
    assert (forall w3, emits w w3 (q_quota (w_qg w)) [] -> exists w' q' new,
      Conc w3 [] = Conc w' [] /\ emits w w' q' new /\ donated new = 0 /\ Forall (fun r => 0 <= amount r.2) new /\ 0 <= q' /\
      q' + sent_bytes new <= q_quota (w_qg w)) as Hdone.
    { intros w3 Hw3. exists w3, (q_quota (w_qg w)), []. unfold limited in Hl. simpl.
      split_and!; [done|done|done|constructor|lia|lia]. }
    case_match; [|hstep; auto]. unfold qgroup_add_rep. hstep. destruct ok.
    + unfold upd_qg. repeat hstep. simpl. hstep. apply Hdone.
      eapply (emits_keep w w2 _ _ [] []); [done|]. unfold emits. simpl. by rewrite app_nil_r.
    + hstep. simpl. apply holds_on_rep. intros e2 w3 _ E4 _ _. apply Hdone.
      by apply (emits_keep w w2 w3 _ [] []).
  - intros Hle w1 E1 _. simpl. unfold ep_quota_return. apply holds_send_raw. intros w2 E2 _ _.
    exists w2, (q_quota (w_qg w) - q), [(i, SEND_QUOTA (u32 (s32 q)) 0)].
    split_and!; [done|by apply (emits_keep w w1 w2 _ [] _)|done|repeat constructor|..];
    simpl; rewrite ?u32_s32; pose proof (u32_le q Hq); destruct (wrapu_range 32 q); lia.
Qed.

Lemma holds_upd_qg f w (Q : unit -> conc qworld -> Prop) :
  Q tt (Conc (QWorld (f (w_qg w)) (w_reps w) (w_ts w) (w_wire w)) []) ->
  holds (upd_qg f) (Conc w []) Q.
Proof. intros H. unfold upd_qg. hstep. done. Qed.

Lemma holds_qgroup_flush ents kept q w :
  word64 q ->
  holds (qgroup_flush kept ents q) (Conc w []) (fun q' c' => exists w' new, c' = Conc w' [] /\
    emits w w' (q_quota (w_qg w)) new /\ donated new = 0 /\ Forall (fun r => 0 <= amount r.2) new /\ 0 <= q' /\ q' + sent_bytes new = q).
Proof.
  revert kept q w. induction ents as [|i ents IH]; intros kept q w Hq; simpl.
  { hstep. exists w, []. unfold word64 in Hq. simpl. split_and!; [done|apply emits_nil|done|constructor|lia..]. }
  hstep. apply holds_on_rep. intros e w1 _ E1 _ _. simpl.
  set (p := s32 (pending_ret_quota e)). do 2 hstep. case_match eqn:Eq.
  { eapply holds_mono; [by apply IH|]. intros q' c' (w' & new & -> & E2 & ?).
    exists w', new. split; [done|]. split; [by apply (emits_keep w w1 w' _ [] new)|done]. }
  hstep. apply holds_upd_qg. hstep. apply holds_on_rep. intros e2 w2 _ E2 _ _. simpl in E2.
  hstep. apply holds_send_raw. intros w3 E3 _ _. hstep. apply holds_on_rep. intros e4 w4 _ E4 _ _.
  assert (-2147483648 <= p < 2147483648) by (apply (wraps_range 32); lia).
  assert (emits w w4 (q_quota (w_qg w)) [(i, SEND_QUOTA p 0)]) as E5.
  { rewrite (s32_small p), (u32_small p) in E3 by lia.
    apply (emits_keep w w3 w4 _ [_] []); [|done]. apply (emits_keep w w2 w3 _ [] [_]); [|done].
    destruct E1 as (? & ? & ? & ? & ?), E2 as (? & ? & ? & ? & ?). unfold emits. simpl in *.
    rewrite app_nil_r in *. split_and!; congruence. }
  eapply holds_mono.
  { apply IH. rewrite word64_u64; unfold word64 in *; lia. }
  intros q' c' (w' & new & -> & E6 & Hd & Hs & Hq' & Hsum). rewrite word64_u64 in Hsum by (unfold word64 in *; lia).
  exists w', ((i, SEND_QUOTA p 0) :: new). split; [done|].
  split; [by apply (emits_keep w w4 w' _ [_] new)|].
  split; [done|]. split; [constructor; [simpl; lia|done]|]. simpl. lia.
Qed.

Lemma holds_store_quota v w (Q : unit -> conc qworld -> Prop) :
  (forall w', emits w w' v [] -> Q tt (Conc w' [])) -> holds (store l_wq_quota v) (Conc w []) Q.
Proof. intros H. hstep. apply H. unfold emits. simpl. by rewrite app_nil_r. Qed.

(** What a reset leaves and sends is the configured quota. *)
Lemma holds_qgroup_reset w :
  word64 (cfg_quota (q_cfg (w_qg w))) ->
  holds qgroup_reset (Conc w []) (fun _ c' => exists w' q' new, c' = Conc w' [] /\
    emits w w' q' new /\ donated new = 0 /\ Forall (fun r => 0 <= amount r.2) new /\ 0 <= q' /\ q' + sent_bytes new = cfg_quota (q_cfg (w_qg w))).
Proof.
  intros Hc. unfold qgroup_reset. hstep. apply holds_store_quota. intros w1 E1. hstep. unfold the_qg. hstep.
  simpl. hstep. assert (q_cfg (w_qg w1) = q_cfg (w_qg w)) as -> by (by destruct E1 as (_ & _ & ? & _)).
  eapply holds_mono; [by apply holds_qgroup_flush|].
  intros q' c' (w2 & new & -> & E2 & Hrest). apply holds_store_quota. intros w3 E3.
  exists w3, q', new. split; [done|]. split; [|done].
  rewrite <- (app_nil_r new). eapply emits_trans; [|exact E3]. by apply (emits_keep w w1 w2 _ [] new).
Qed.

Lemma holds_clock_getusec w (Q : Z -> conc qworld -> Prop) :
  (forall u, word64 u -> Q u (Conc w [])) -> holds clock_getusec (Conc w []) Q.
Proof. intros H. unfold clock_getusec. repeat hstep. simpl. apply H. by apply wrapu_range. Qed.

Lemma holds_qgroup_usec_adj u w (Q : Z -> conc qworld -> Prop) :
  (forall a, Q a (Conc w [])) -> holds (qgroup_usec_adj u) (Conc w []) Q.
Proof. intros H. unfold qgroup_usec_adj, the_qg. repeat hstep. case_match; hstep. apply H. Qed.

Lemma holds_load_quota w (Q : Z -> conc qworld -> Prop) :
  Q (q_quota (w_qg w)) (Conc w []) -> holds (load l_wq_quota) (Conc w []) Q.
Proof. intros H. by hstep. Qed.

(** What a process sends and what is left of its quota: [gain] is what the
    request brought. *)
Definition conserves (w : qworld) (gain : Z) (c' : conc qworld) : Prop :=
  exists w' q' new, c' = Conc w' [] /\ emits w w' q' new /\ sent_bytes new = 0 /\
    Forall (fun r => 0 <= amount r.2) new /\
    0 <= q' /\ q' + donated new <= q_quota (w_qg w) + gain.

Lemma conserves_same w gain : limited (q_quota (w_qg w)) -> 0 <= gain -> conserves w gain (Conc w []).
Proof.
  intros [? ?] ?. exists w, (q_quota (w_qg w)), []. split_and!; [done|apply emits_nil|done|done|lia|simpl; lia].
Qed.

Ltac window := hstep; apply holds_clock_getusec; intros ? _; hstep; apply holds_qgroup_usec_adj; intros ?.

Lemma holds_qgroup_on_ask_event ep ask u w :
  limited (q_quota (w_qg w)) -> 0 <= ask -> 0 <= ask_mark (q_cfg (w_qg w)) ->
  holds (qgroup_on_ask_event ep ask u) (Conc w []) (fun _ c' => conserves w 0 c').
Proof.
  intros Hl Ha Hm. unfold qgroup_on_ask_event. window.
  case_match; [hstep; by apply conserves_same|]. hstep. apply holds_load_quota. hstep. unfold the_qg. hstep.
  simpl. case_match eqn:El; [hstep; by apply conserves_same|].
  set (d := Z.min _ ask). assert (0 <= d) as Hd.
  { unfold d. destruct (wrapu_range 64 (q_quota (w_qg w) - ask_mark (q_cfg (w_qg w)))); lia. }
  hstep. apply holds_quota_acquire; [done|done| |]; intros Hle; [simpl; hstep; by apply conserves_same|].
  intros w1 E1 _. simpl. apply holds_send_raw. intros w2 E2 _ _.
  eexists w2, (q_quota (w_qg w) - d), [(ep, QGROUP_DONATE d _)].
  split_and!; [done|by apply (emits_keep w w1 w2 _ [] [_])|done|by repeat constructor|lia|simpl; lia].
Qed.

Lemma holds_qgroup_donate_round q0 u w :
  limited (q_quota (w_qg w)) -> word64 q0 -> word64 (cfg_quota (q_cfg (w_qg w))) ->
  holds (qgroup_donate_round q0 u) (Conc w []) (fun r c' => exists w' q', c' = Conc w' [] /\
    emits w w' q' [] /\
    match r with
    | inl _ => False
    | inr None => q' = q_quota (w_qg w)
    | inr (Some (rest, _)) => 0 <= rest /\ q_quota (w_qg w) <= q' /\ q' + rest = q_quota (w_qg w) + q0
    end).
Proof.
  intros Hl Hq0 Hc. unfold qgroup_donate_round. window.
  case_match; [hstep; exists w, (q_quota (w_qg w)); split_and!; [done|apply emits_nil|done]|].
  hstep. apply holds_load_quota. hstep. unfold the_qg. hstep. simpl.
  case_match eqn:El.
  { hstep. exists w, (q_quota (w_qg w)). unfold word64 in *. split_and!; [done|apply emits_nil|lia|lia|done]. }
  unfold limited, word64 in *. rewrite (word64_u64 (_ - q_quota _)) by (unfold word64; lia).
  set (fill := if q0 <? _ then _ else _).
  assert (0 <= fill <= q0 /\ fill <= cfg_quota (q_cfg (w_qg w)) - q_quota (w_qg w)) as Hf.
  { unfold fill. case_match; lia. }
  hstep. unfold cas. hstep. simpl. rewrite Z.eqb_refl. simpl. hstep.
  rewrite !word64_u64 by (unfold word64; lia).
  eexists _, (q_quota (w_qg w) + fill). split; [done|].
  split; [unfold emits; simpl; by rewrite app_nil_r|]. lia.
Qed.

Lemma holds_qgroup_on_donate_event ep q0 u w :
  limited (q_quota (w_qg w)) -> word64 q0 -> word64 (cfg_quota (q_cfg (w_qg w))) ->
  holds (qgroup_on_donate_event ep q0 u) (Conc w []) (fun _ c' => conserves w q0 c').
Proof.
  intros Hl Hq0 Hc. unfold qgroup_on_donate_event, retries. do 3 hstep. cbn [others length Nat.add loopM].
  hstep. eapply holds_mono; [by apply holds_qgroup_donate_round|].
  intros r c' (w1 & q1 & -> & E1 & Hr). destruct r as [|[[rest ua]|]]; [done| |]; hstep.
  - destruct Hr as (Hrest & Hge & Hsum). unfold limited in Hl. case_match eqn:Ez.
    + apply holds_send_raw. intros w2 E2 _ _.
      exists w2, q1, [(ep, QGROUP_DONATE_BACK rest ua)].
      split_and!; [done|by apply (emits_keep w w1 w2 _ [] [_])|done|by repeat constructor|lia|simpl; lia].
    + hstep. apply negb_false_iff, Z.eqb_eq in Ez.
      exists w1, q1, []. split_and!; [done..|lia|simpl; lia].
  - hstep. subst q1. unfold limited, word64 in *.
    exists w1, (q_quota (w_qg w)), []. split_and!; [done..|lia|simpl; lia].
Qed.

Lemma holds_qgroup_on_donate_back_event d u w :
  limited (q_quota (w_qg w)) -> 0 <= d ->
  holds (qgroup_on_donate_back_event d u) (Conc w []) (fun _ c' => conserves w d c').
Proof.
  intros Hl Hd. unfold qgroup_on_donate_back_event. window.
  case_match; [hstep; by apply conserves_same|]. repeat hstep. simpl.
  unfold limited in Hl. pose proof (wrapu_range 64 (q_quota (w_qg w) + d)).
  assert (u64 (q_quota (w_qg w) + d) <= q_quota (w_qg w) + d) by (apply Z.mod_le; lia).
  eexists _, (u64 (q_quota (w_qg w) + d)), []. split; [done|].
  split_and!; [|done|done|lia|simpl; lia]. unfold emits. simpl. by rewrite app_nil_r.
Qed.

(** Every request a member receives. *)
Lemma holds_qgroup_req_recv ep r w :
  limited (q_quota (w_qg w)) -> word64 (cfg_quota (q_cfg (w_qg w))) -> 0 <= ask_mark (q_cfg (w_qg w)) ->
  0 <= amount r -> word64 (donation r) ->
  holds (qgroup_req_recv ep r) (Conc w []) (fun _ c' => conserves w (donation r) c').
Proof.
  intros Hl Hc Hm Ha Hr. destruct r; simpl in *; [hstep|..].
  - by apply holds_qgroup_on_ask_event.
  - by apply holds_qgroup_on_donate_event.
  - by apply holds_qgroup_on_donate_back_event.
Qed.

Lemma holds_qgroup_member_do_ask m w :
  limited (q_quota (w_qg w)) -> 0 <= ask_amount (q_cfg (w_qg w)) ->
  holds (qgroup_member_do_ask m) (Conc w []) (fun _ c' => conserves w 0 c').
Proof.
  intros Hl Ha. unfold qgroup_member_do_ask. hstep. apply holds_load_quota. hstep. unfold the_qg. hstep.
  simpl. case_match; [hstep; by apply conserves_same|]. window. do 2 hstep.
  apply holds_send_raw. intros w2 E2 _ _. unfold limited in Hl.
  eexists w2, _, _. split; [done|]. split; [done|]. simpl. split_and!; [done|by repeat constructor|lia|lia].
Qed.
End process.
