(* ===== verification/QgroupProps.v ===== *)
(** * Quota groups: the reset, the members and the life cycle *)

From stdpp Require Import prelude strings.
From Stdlib Require Import String.
From S2P Require Import Prelude Conc CStr RbtIns RbtSpec RailQuota RailQuotaSpec Qgroup QgroupSpec.

Open Scope Z_scope.

(** ** The reset gives pending quota back in queue order *)

(** Entries kept, entries served with their amounts, quota left. *)
Fixpoint flush_spec (pend : nat -> Z) (ents : list nat) (q : Z) : list nat * list (nat * Z) * Z :=
  match ents with
  | [] => ([], [], q)
  | i :: ents =>
      if q <? pend i then
        let '(k, s, q') := flush_spec pend ents q in (i :: k, s, q')
      else
        let '(k, s, q') := flush_spec pend ents (q - pend i) in (k, (i, pend i) :: s, q')
  end.

Definition pend_of (reps : list ldms_rail_ep_s) (i : nat) : Z :=
  match reps !! i with Some e => pending_ret_quota e | None => 0 end.

Definition clear_rep (e : ldms_rail_ep_s) : ldms_rail_ep_s :=
  lset l_pending_ret_quota 0 (lset l_in_eps_stq 0 e).

(** The endpoints served have nothing pending and are not queued. *)
Definition clear_reps (s : list (nat * Z)) (reps : list ldms_rail_ep_s) : list ldms_rail_ep_s :=
  fold_left (fun reps i => alter clear_rep i reps) s.*1 reps.

Definition quota_msgs (s : list (nat * Z)) : list (nat * qgroup_request) :=
  map (fun x => (x.1, SEND_QUOTA x.2 0)) s.

Lemma flush_spec_ext f g ents q :
  (forall i, i ∈ ents -> f i = g i) -> flush_spec f ents q = flush_spec g ents q.
Proof.
  revert q. induction ents as [|i ents IH]; intros q H; simpl; [done|].
  rewrite (H i) by set_solver. rewrite !IH by set_solver. done.
Qed.

Lemma flush_spec_props pend ents q k s q' :
  Forall (fun i => 0 < pend i) ents -> 0 <= q -> flush_spec pend ents q = (k, s, q') ->
  0 <= q' <= q /\ q' + sent_bytes (quota_msgs s) = q /\ Forall (fun i => q' < pend i) k.
Proof.
  revert q k s. induction ents as [|i ents IH]; intros q k s Hp Hq He; simpl in He.
  { simplify_eq. simpl. split_and!; try lia. constructor. }
  apply Forall_cons in Hp as [Hi Hp]. case_match eqn:El.
  - destruct (flush_spec pend ents q) as [[k1 s1] q1] eqn:E. simplify_eq.
    destruct (IH q k1 s) as (? & ? & ?); [done..|]. split_and!; [lia|lia|done|]. constructor; [lia|done].
  - destruct (flush_spec pend ents (q - pend i)) as [[k1 s1] q1] eqn:E. simplify_eq.
    destruct (IH (q - pend i) k s1) as (? & ? & ?); [done|lia|done|]. simpl. split_and!; [lia|lia|lia|done].
Qed.

Section reset.
Implicit Types (w : qworld).

Lemma runs_on_rep {A} i (f : ldms_rail_ep_s -> A * ldms_rail_ep_s) e w (Q : A -> conc qworld -> Prop) :
  w_reps w !! i = Some e ->
  Q (f e).1 (Conc (QWorld (w_qg w) (<[i := (f e).2]> (w_reps w)) (w_ts w) (w_wire w)) []) ->
  runs (on_rep i f) (Conc w []) Q.
Proof.
  intros He HQ. unfold on_rep. apply runs_bind, runs_atomic_alone. rewrite He.
  destruct (f e) as [a e']. by eexists _, _.
Qed.

(** Queued endpoints exist and have a positive pending quota that fits [int]. *)
Definition queue_ok (reps : list ldms_rail_ep_s) (ents : list nat) : Prop :=
  NoDup ents /\ forall i, i ∈ ents -> exists e, reps !! i = Some e /\ 0 < pending_ret_quota e < 2 ^ 31.

Lemma pend_of_insert_ne reps i j e : i <> j -> pend_of (<[i := e]> reps) j = pend_of reps j.
Proof. intros. unfold pend_of. by rewrite list_lookup_insert_ne. Qed.

Lemma queue_ok_skip reps i ents e :
  queue_ok reps (i :: ents) -> queue_ok (<[i := e]> reps) ents.
Proof.
  intros [Hnd Hall]. apply NoDup_cons in Hnd as [Hi Hnd]. split; [done|]. intros j Hj.
  destruct (Hall j) as (e' & ? & ?); [set_solver|]. exists e'. rewrite list_lookup_insert_ne by set_solver. done.
Qed.

Lemma runs_qgroup_flush ents kept q w :
  word64 q -> queue_ok (w_reps w) ents -> q_eps_stq (w_qg w) = kept ++ ents ->
  runs (qgroup_flush kept ents q) (Conc w []) (fun q' c' =>
    let '(k, s, q1) := flush_spec (pend_of (w_reps w)) ents q in
    q' = q1 /\ c' = Conc (QWorld (with_q_eps_stq (kept ++ k) (w_qg w)) (clear_reps s (w_reps w))
                            (w_ts w) (w_wire w ++ quota_msgs s)) []).
Proof.
  revert kept q w. induction ents as [|i ents IH]; intros kept q w Hq Hok Hstq.
  { simpl. apply runs_ret. split; [done|]. simpl. rewrite <- Hstq, app_nil_r. by destruct w as [[] ? ? ?]. }
  pose proof Hok as [Hnd Hall]. apply NoDup_cons in Hnd as [Hi Hnd].
  destruct (Hall i) as (e & He & Hp); [set_solver|].
  cbn [qgroup_flush]. apply runs_bind, (runs_on_rep _ _ e); [done|]. cbn [fst snd].
  rewrite (list_insert_id _ _ _ He). rewrite (s32_small (pending_ret_quota e)) by lia.
  apply runs_bind, runs_assert; [apply Z.ltb_lt; lia|]. cbn [flush_spec].
  assert (pend_of (w_reps w) i = pending_ret_quota e) as -> by (unfold pend_of; by rewrite He).
  case_match eqn:El.
  - eapply runs_mono; [apply (IH (kept ++ [i])); simpl|].
    + done.
    + split; [done|]. intros j Hj. apply Hall. set_solver.
    + by rewrite <- app_assoc.
    + intros q' c'. simpl. destruct (flush_spec _ ents q) as [[k s] q1]. rewrite <- app_assoc. simpl.
      by destruct w.
  - set (p := pending_ret_quota e) in *. unfold upd_qg. apply runs_bind, runs_modify. cbn [shared others lset l_qg w_reps w_ts w_wire w_qg].
    apply runs_bind, (runs_on_rep _ _ e); [done|]. cbn [fst snd w_reps w_ts w_wire w_qg].
    unfold ep_quota_return, send_raw. apply runs_bind, runs_modify. cbn [shared others w_reps w_ts w_wire w_qg].
    apply runs_bind. eapply runs_on_rep.
    { cbn [w_reps]. apply list_lookup_insert_eq. by eapply lookup_lt_Some. }
    cbn [fst snd w_reps w_ts w_wire w_qg]. rewrite list_insert_insert_eq.
    replace (u64 (pending_ret_quota (lset l_in_eps_stq 0 e) - p)) with 0.
    2: { simpl. unfold p. by rewrite Z.sub_diag. }
    fold (clear_rep e). rewrite (s32_small p), (u32_small p), (word64_u64 (q - p)) by (unfold word64 in *; lia).
    eapply runs_mono.
    { apply IH; cbn [w_reps w_qg].
      - unfold word64 in *. lia.
      - by apply queue_ok_skip.
      - done. }
    intros q' c'. cbn [w_reps w_qg w_ts w_wire].
    rewrite (flush_spec_ext _ (pend_of (w_reps w))).
    2: { intros j Hj. apply pend_of_insert_ne. set_solver. }
    destruct (flush_spec _ ents (q - p)) as [[k s] q1]. intros (-> & ->). split; [done|].
    f_equal. unfold quota_msgs, clear_reps. cbn [map fmap list_fmap fold_left fst snd].
    rewrite <- app_assoc. f_equal.
    f_equal. clear -He. revert i He. generalize (w_reps w) as l. induction l as [|x l IHl]; intros [|i] He; simpl in *; simplify_eq; [done|].
    f_equal. by apply IHl.
Qed.

Lemma runs_qgroup_reset w :
  word64 (cfg_quota (q_cfg (w_qg w))) -> queue_ok (w_reps w) (q_eps_stq (w_qg w)) ->
  runs qgroup_reset (Conc w []) (fun _ c' =>
    let '(k, s, q) := flush_spec (pend_of (w_reps w)) (q_eps_stq (w_qg w)) (cfg_quota (q_cfg (w_qg w))) in
    c' = Conc (QWorld (with_q_quota q (with_q_eps_stq k (w_qg w))) (clear_reps s (w_reps w))
                 (w_ts w) (w_wire w ++ quota_msgs s)) []).
Proof.
  intros Hc Hok. unfold qgroup_reset, store. apply runs_bind, runs_atomic_alone. cbn [fst snd].
  apply runs_bind, runs_gets. cbn [shared]. apply runs_bind. eapply runs_mono.
  { by apply (runs_qgroup_flush (q_eps_stq (w_qg w)) [] _ (lset l_wq_quota 0 w)). }
  intros q' c'. cbn [w_reps lset l_wq_quota lens_comp l_qg l_q_quota q_cfg w_qg with_q_quota q_eps_stq w_ts w_wire lget].
  destruct (flush_spec _ _ _) as [[k s] q]. intros (-> & ->). by apply runs_atomic_alone.
Qed.
End reset.

(** ** Members *)

Lemma copy_field_len size s b : 0 < size -> copy_field size s = Some b -> b = s /\ (snprintf_s size s).1 = s.
Proof.
  intros Hs. unfold copy_field, snprintf_s. case_match eqn:E; [done|]. intros [= <-].
  unfold strlen in E. rewrite str_take_id by lia. done.
Qed.

Lemma qgroup_rbt_cmp_key a m m' :
  c_host m = c_host m' -> c_port m = c_port m' -> qgroup_rbt_cmp a m = qgroup_rbt_cmp a m'.
Proof. intros H1 H2. unfold qgroup_rbt_cmp. by rewrite H1, H2. Qed.

Lemma qgroup_rbt_cmp_refl m : qgroup_rbt_cmp m m = 0.
Proof.
  unfold qgroup_rbt_cmp. rewrite (proj2 (strcmp_eq (c_host m) _) eq_refl).
  by rewrite (proj2 (strcmp_eq (c_port m) _) eq_refl).
Qed.

Lemma member_find_ins p m l :
  member_find m l = None -> member_find m (seq_ins qgroup_rbt_cmp (p, m) l) = Some (p, m).
Proof.
  unfold member_find. induction l as [|e l IH]; intros H; simpl in *.
  { by rewrite qgroup_rbt_cmp_refl. }
  case_match eqn:E; [done|]. destruct (0 <? qgroup_rbt_cmp e.2 m); simpl.
  - by rewrite qgroup_rbt_cmp_refl.
  - rewrite E. by apply IH.
Qed.

Lemma seq_del_ins p m l : p ∉ l.*1 -> seq_del p (seq_ins qgroup_rbt_cmp (p, m) l) = l.
Proof.
  unfold seq_del. intros Hp.
  assert (filter (fun e => e.1 <> p) l = l) as Hl.
  { clear -Hp. induction l as [|e l IH]; [done|]. rewrite filter_cons. simpl in *.
    case_decide; [f_equal; apply IH; set_solver|set_solver]. }
  revert Hl. induction l as [|e l IH]; intros Hl; simpl.
  { rewrite filter_cons. case_decide; done. }
  case_match.
  - rewrite filter_cons. case_decide; [done|]. done.
  - rewrite filter_cons. case_decide; [|set_solver].
    f_equal. apply IH; [set_solver|]. rewrite filter_cons in Hl. case_decide; [|done]. by simplify_eq.
Qed.

Lemma member_find_key m m' l :
  c_host m = c_host m' -> c_port m = c_port m' -> member_find m l = member_find m' l.
Proof.
  intros H1 H2. unfold member_find. induction l as [|e l IH]; simpl; [done|].
  rewrite (qgroup_rbt_cmp_key _ m m') by done. by rewrite IH.
Qed.

Lemma member_add_del node av_copy xprt host port auth avs g g' :
  (forall l e, av_copy l = inr e -> e <> 0) -> node ∉ (q_rbt g).*1 ->
  qgroup_member_add (Some node) av_copy xprt (Some host) port auth avs g = (0, g') ->
  qgroup_member_del host port g' = (0, g).
Proof.
  intros Hav Hn. unfold qgroup_member_add. destruct (is_stopped g) eqn:Est; simpl; [|done].
  destruct xprt as [xprt|]; [|done]. destruct (copy_field 32 xprt); [|done].
  destruct (copy_field 256 host) as [h|] eqn:Eh; [|done].
  apply copy_field_len in Eh as [-> Eh]; [|lia].
  destruct (match port with None => _ | Some s => _ end) as [c_port|] eqn:Ep; [|done].
  assert ((snprintf_s 32 (default "411"%string port)).1 = c_port) as Ep'.
  { destruct port as [port|]; [|by simplify_eq].
    apply copy_field_len in Ep as [-> Ep]; [done|lia]. }
  destruct (match auth with None => _ | Some s => _ end); [|done].
  destruct (match avs with None => _ | Some l => _ end) as [av|e] eqn:Eav.
  2: { intros [= -> <-]. destruct avs as [avs|]; [|done]. destruct (av_copy avs) eqn:E; simplify_eq.
       by apply Hav in E. }
  set (m := Member _ _ _ _ _ _ _ _). destruct (member_find m (q_rbt g)) eqn:Ef; [done|].
  intros [= <-]. unfold qgroup_member_del.
  change (is_stopped (with_q_rbt _ g)) with (is_stopped g). rewrite Est. cbn [negb q_rbt with_q_rbt].
  rewrite Ep', Eh. rewrite (member_find_key _ m) by done.
  rewrite member_find_ins by done. rewrite seq_del_ins by done. by destruct g.
Qed.

(** ** Life cycle

    The threads that use a group, interleaved at the sections under its lock:
    the scheduler thread runs the ask routine, any thread may start, stop or
    configure the group.  [in_routine]: the scheduler thread is between the
    two sections of the routine; [in_stop]: a thread is between the two
    sections of [__qgroup_stop].  A reset or a start is a step when it
    completes: one that fails the assertion of the reset ends the process. *)

Record lifecycle := Lifecycle {
  lc_world : qworld;
  in_routine : bool;
  in_stop : bool;
}.

Definition set_qg (g : ldms_qgroup_s) (w : qworld) : qworld :=
  QWorld g (w_reps w) (w_ts w) (w_wire w).

(** Calls that configure the group. *)
Definition config_call (f : ldms_qgroup_s -> Z * ldms_qgroup_s) : Prop :=
  (exists c, f = qgroup_cfg_set c) \/ (exists v, f = qgroup_cfg_quota_set v)
  \/ (exists v, f = qgroup_cfg_ask_usec_set v) \/ (exists v, f = qgroup_cfg_reset_usec_set v)
  \/ (exists v, f = qgroup_cfg_ask_mark_set v) \/ (exists v, f = qgroup_cfg_ask_amount_set v)
  \/ (exists n av x h p a l, f = qgroup_member_add n av x h p a l)
  \/ (exists h p, f = qgroup_member_del h p).

Inductive lc_step : lifecycle -> lifecycle -> Prop :=
| lc_config w r s f rc g :
    config_call f -> f (w_qg w) = (rc, g) -> lc_step (Lifecycle w r s) (Lifecycle (set_qg g w) r s)
| lc_start w r s once a1 a2 rc w' :
    qgroup_start once a1 a2 (Conc w []) = Some (rc, Conc w' []) ->
    lc_step (Lifecycle w r s) (Lifecycle w' r s)
| lc_ask_enter w s go g :
    qgroup_ask_enter (w_qg w) = Some (go, g) ->
    lc_step (Lifecycle w false s) (Lifecycle (set_qg g w) go s)
| lc_ask_leave w s g :
    qgroup_ask_leave (w_qg w) = Some g ->
    lc_step (Lifecycle w true s) (Lifecycle (set_qg g w) false s)
| lc_stop_enter w r s rc g :
    qgroup_stop_enter (w_qg w) = Some (rc, g) ->
    lc_step (Lifecycle w r s) (Lifecycle (set_qg g w) r (s || (rc =? 0)))
| lc_stop_leave w r g :
    qgroup_stop_leave (w_qg w) = Some g ->
    lc_step (Lifecycle w r true) (Lifecycle (set_qg g w) r false)
| lc_member w r s l :
    lc_step (Lifecycle w r s) (Lifecycle (set_qg (with_q_rbt l (w_qg w)) w) r s)
| lc_reset w r s w' :
    qgroup_reset (Conc w []) = Some (tt, Conc w' []) ->
    lc_step (Lifecycle w r s) (Lifecycle w' r s).

(** The events are scheduled exactly while the group runs. *)
Definition oevs_of (st : ldms_qgroup_state_e) : bool :=
  match st with
  | LDMS_QGROUP_STATE_STARTED | LDMS_QGROUP_STATE_BUSY => true
  | LDMS_QGROUP_STATE_STOPPED | LDMS_QGROUP_STATE_STOPPING => false
  end.

Definition lc_ok (x : lifecycle) : Prop :=
  let g := w_qg (lc_world x) in
  in_routine x = bool_decide (q_state g = LDMS_QGROUP_STATE_BUSY) /\
  in_stop x = bool_decide (q_state g = LDMS_QGROUP_STATE_STOPPING) /\
  q_ask_oev g = oevs_of (q_state g) /\ q_reset_oev g = oevs_of (q_state g).

(** Fields no quota step touches. *)
Definition same_life (w w' : qworld) : Prop :=
  q_state (w_qg w') = q_state (w_qg w) /\ q_cfg (w_qg w') = q_cfg (w_qg w) /\
  q_rbt (w_qg w') = q_rbt (w_qg w) /\
  q_ask_oev (w_qg w') = q_ask_oev (w_qg w) /\ q_reset_oev (w_qg w') = q_reset_oev (w_qg w).

Lemma same_life_trans w1 w2 w3 : same_life w1 w2 -> same_life w2 w3 -> same_life w1 w3.
Proof. unfold same_life. naive_solver congruence. Qed.

Lemma holds_flush_life ents kept q w :
  holds (qgroup_flush kept ents q) (Conc w []) (fun _ c' => exists w', c' = Conc w' [] /\ same_life w w').
Proof.
  revert kept q w. induction ents as [|i ents IH]; intros kept q w; simpl.
  { hstep. by exists w. }
  hstep. apply holds_on_rep. intros e w1 _ _ E1 _. simpl. do 2 hstep.
  assert (same_life w w1) as H1 by (unfold same_life; by rewrite E1).
  case_match.
  { eapply holds_mono; [apply IH|]. intros q' c' (w' & -> & H2). exists w'. eauto using same_life_trans. }
  hstep. apply holds_upd_qg. hstep. apply holds_on_rep. intros e2 w2 _ _ E2 _.
  hstep. apply holds_send_raw. intros w3 _ E3 _. hstep. apply holds_on_rep. intros e4 w4 _ _ E4 _.
  eapply holds_mono; [apply IH|]. intros q' c' (w' & -> & H2). exists w'. split; [done|].
  eapply same_life_trans; [|exact H2]. unfold same_life. rewrite E4, E3, E2. simpl. by rewrite E1.
Qed.

Lemma holds_reset_life w :
  holds qgroup_reset (Conc w []) (fun _ c' => exists w', c' = Conc w' [] /\ same_life w w').
Proof.
  unfold qgroup_reset, the_qg. do 3 hstep.  hstep. hstep. simpl.
  eapply holds_mono; [apply holds_flush_life|]. intros q c' (w' & -> & H). hstep.
  eexists. split; [done|]. exact H.
Qed.

Lemma holds_start_life once a1 a2 w :
  q_ask_oev (w_qg w) = oevs_of (q_state (w_qg w)) -> q_reset_oev (w_qg w) = oevs_of (q_state (w_qg w)) ->
  holds (qgroup_start once a1 a2) (Conc w []) (fun rc c' => exists w', c' = Conc w' [] /\
    q_cfg (w_qg w') = q_cfg (w_qg w) /\ q_rbt (w_qg w') = q_rbt (w_qg w) /\
    q_ask_oev (w_qg w') = oevs_of (q_state (w_qg w')) /\ q_reset_oev (w_qg w') = oevs_of (q_state (w_qg w')) /\
    (q_state (w_qg w') = q_state (w_qg w) \/
     q_state (w_qg w) = LDMS_QGROUP_STATE_STOPPED /\ q_state (w_qg w') = LDMS_QGROUP_STATE_STARTED)).
Proof.
  intros Ha Hr. unfold qgroup_start, the_qg. do 2 hstep. simpl.
  destruct (qgroup_start_check once (w_qg w) =? 0) eqn:Erc; simpl; [|hstep; exists w; naive_solver].
  assert (q_state (w_qg w) = LDMS_QGROUP_STATE_STOPPED) as Est.
  { apply Z.eqb_eq in Erc. unfold qgroup_start_check, is_stopped in Erc. by case_bool_decide. }
  hstep.
  eapply holds_mono; [apply holds_reset_life|]. intros [] c' (w1 & -> & Hs & Hc & Hrb & Ho1 & Ho2).
  rewrite Est in *. simpl in *.
  case_match; [hstep; exists w1; rewrite Hs; naive_solver congruence|].
  hstep. apply holds_upd_qg. case_match.
  - hstep.   apply holds_upd_qg. hstep. eexists. split; [done|]. simpl. rewrite Hs. naive_solver.
  - hstep. apply holds_upd_qg. hstep. apply holds_upd_qg. hstep. eexists. split; [done|]. simpl. naive_solver.
Qed.

Lemma config_call_life f g rc g' :
  config_call f -> f g = (rc, g') ->
  q_state g' = q_state g /\ q_ask_oev g' = q_ask_oev g /\ q_reset_oev g' = q_reset_oev g /\
  q_quota g' = q_quota g /\ (is_stopped g = false -> rc = EBUSY /\ g' = g).
Proof.
  intros Hc He. unfold config_call in Hc.
  repeat match goal with H : _ \/ _ |- _ => destruct H | H : exists _, _ |- _ => destruct H end; subst;
    unfold qgroup_cfg_set, qgroup_cfg_quota_set, qgroup_cfg_ask_usec_set, qgroup_cfg_reset_usec_set,
      qgroup_cfg_ask_mark_set, qgroup_cfg_ask_amount_set, qgroup_member_add, qgroup_member_del in He;
    destruct (is_stopped g); cbn [negb] in He; try (simplify_eq; done);
    repeat match type of He with
      | (match ?x with _ => _ end) = _ => destruct x
      | (let '(_, _) := ?x in _) = _ => destruct x
      end; simplify_eq; done.
Qed.

Lemma lc_step_ok x y : lc_ok x -> lc_step x y -> lc_ok y.
Proof.
  unfold lc_ok. intros (Hr & Hs & Ha & Ho) Hstep.
  destruct Hstep as [w r s f rc g Hf He|w r s once a1 a2 rc w' He|w s go g He|w s g He|w r s rc g He
    |w r g He|w r s l|w r s w' He]; simpl in *.
  - destruct (config_call_life _ _ _ _ Hf He) as (-> & -> & -> & _). done.
  - apply holds_start_life in He as (w1 & [= <-] & _ & _ & -> & -> & Hst); [|done..].
    destruct Hst as [->|[E1 E2]]; [done|]. rewrite E1, E2 in *. done.
  - unfold qgroup_ask_enter in He. destruct (q_state (w_qg w)) eqn:E; simplify_eq; simpl; rewrite ?E; done.
  - unfold qgroup_ask_leave in He. destruct (q_state (w_qg w)) eqn:E; simplify_eq; simpl; rewrite ?E; done.
  - unfold qgroup_stop_enter in He. destruct (q_state (w_qg w)) eqn:E; simplify_eq; simpl; rewrite ?E; simpl;
      rewrite ?orb_false_r, ?orb_true_r; done.
  - unfold qgroup_stop_leave in He. case_match; simplify_eq. simpl.
    symmetry in Hs. apply bool_decide_eq_true in Hs. rewrite Hs in *. done.
  - done.
  - apply holds_reset_life in He as (w1 & [= <-] & E1 & _ & _ & E2 & E3). rewrite E1, E2, E3. done.
Qed.

(** ** Properties *)

(** C14: life cycle of a quota group: in every interleaving of configuration
    calls, member changes, starts, stops, completed resets and the ask
    routine, at their sections under the lock, the routine is between its two
    sections exactly in state BUSY and a stop between its two sections
    exactly in state STOPPING, the periodic events are scheduled exactly in
    states STARTED and BUSY, the two assertions of the ask routine hold (it
    can always leave, and can always enter when it is not running), and
    while the group is not STOPPED no configuration call changes anything:
    each returns EBUSY.  The assertion of the reset is not among them: see
    [reset_race_asserts]. *)
Theorem qgroup_lifecycle_safe (w : qworld) (x : lifecycle) :
  w_qg w = qgroup_init (q_quota (w_qg w)) -> rtc lc_step (Lifecycle w false false) x ->
  let g := w_qg (lc_world x) in
  in_routine x = bool_decide (q_state g = LDMS_QGROUP_STATE_BUSY) /\
  in_stop x = bool_decide (q_state g = LDMS_QGROUP_STATE_STOPPING) /\
  q_ask_oev g = oevs_of (q_state g) /\ q_reset_oev g = oevs_of (q_state g) /\
  (if in_routine x then is_Some (qgroup_ask_leave g) else is_Some (qgroup_ask_enter g)) /\
  (q_state g <> LDMS_QGROUP_STATE_STOPPED ->
   forall f, config_call f -> f g = (EBUSY, g)).
Proof.
  intros Hw Hr. assert (lc_ok x) as (H1 & H2 & H3 & H4).
  { revert x Hr. apply (rtc_ind_r lc_ok).
    - unfold lc_ok. simpl. by rewrite Hw.
    - intros y z _ Hs Hy. by eapply lc_step_ok. }
  simpl. split_and!; try done.
  - rewrite H1. unfold qgroup_ask_leave, qgroup_ask_enter. destruct (q_state _); simpl; eauto.
  - intros Hst f Hf. destruct (f _) as [rc g'] eqn:He.
    destruct (config_call_life _ _ _ _ Hf He) as (_ & _ & _ & _ & Hb).
    destruct Hb as [-> ->]; [|done]. unfold is_stopped. by apply bool_decide_eq_false.
Qed.

Definition ex_qcfg : ldms_qgroup_cfg_s := QgroupCfg 100 20 50 1000000 1000000.
Definition ex_qrep (pend stq : Z) : ldms_rail_ep_s :=
  RailEp LDMS_RAIL_EP_CONNECTED 0 0 0 1 (RateQuota 0 0 0) pend stq [].
Definition ex_qworld (st : ldms_qgroup_state_e) (oev : bool) (reps : list ldms_rail_ep_s) (stq : list nat) : qworld :=
  QWorld (Qgroup 0 st ex_qcfg [] oev oev stq) reps (7, 0) [].

Definition ex_init : qworld := QWorld (qgroup_init 0) [] (7, 0) [].
Definition ex_running : lifecycle :=
  Lifecycle (QWorld (Qgroup 100 LDMS_QGROUP_STATE_BUSY ex_qcfg [] true true []) [] (7, 0) []) true false.

Lemma qgroup_lifecycle_safe_witness :
  let g := w_qg (lc_world ex_running) in
  in_routine ex_running = bool_decide (q_state g = LDMS_QGROUP_STATE_BUSY) /\
  in_stop ex_running = bool_decide (q_state g = LDMS_QGROUP_STATE_STOPPING) /\
  q_ask_oev g = oevs_of (q_state g) /\ q_reset_oev g = oevs_of (q_state g) /\
  (if in_routine ex_running then is_Some (qgroup_ask_leave g) else is_Some (qgroup_ask_enter g)) /\
  (q_state g <> LDMS_QGROUP_STATE_STOPPED ->
   forall f, config_call f -> f g = (EBUSY, g)).
Proof.
  apply (qgroup_lifecycle_safe ex_init ex_running); [reflexivity|].
  eapply rtc_l.
  { eapply (lc_config ex_init false false (qgroup_cfg_set ex_qcfg)); [left; eexists; reflexivity|reflexivity]. }
  eapply rtc_l; [eapply (lc_start _ _ _ 0 0 0); vm_compute; reflexivity|].
  eapply rtc_l; [eapply lc_ask_enter; vm_compute; reflexivity|]. apply rtc_refl.
Defined.

(** The reset of a quota group: the pending quotas are given back in
    queue order as long as the configured quota covers them; an entry that
    exceeds what is left is passed over and stays queued.  What is given
    back and the quota left add up to the configured quota, what is left is
    less than any entry kept, and the endpoints served have nothing pending
    and are not queued. *)
Theorem qgroup_reset_correct (w : qworld) :
  word64 (cfg_quota (q_cfg (w_qg w))) -> queue_ok (w_reps w) (q_eps_stq (w_qg w)) ->
  exists k s q, flush_spec (pend_of (w_reps w)) (q_eps_stq (w_qg w)) (cfg_quota (q_cfg (w_qg w))) = (k, s, q) /\
    qgroup_reset (Conc w []) =
      Some (tt, Conc (QWorld (with_q_quota q (with_q_eps_stq k (w_qg w))) (clear_reps s (w_reps w))
                        (w_ts w) (w_wire w ++ quota_msgs s)) []) /\
    0 <= q /\ q + sent_bytes (quota_msgs s) = cfg_quota (q_cfg (w_qg w)) /\
    Forall (fun i => q < pend_of (w_reps w) i) k.
Proof.
  intros Hc Hok. destruct (runs_qgroup_reset w Hc Hok) as ([] & c' & Hrun & Hc').
  destruct (flush_spec _ _ _) as [[k s] q] eqn:E. exists k, s, q. split; [done|]. rewrite Hrun, Hc'.
  split; [done|]. destruct Hok as [_ Hall].
  assert (Forall (fun i => 0 < pend_of (w_reps w) i) (q_eps_stq (w_qg w))) as Hp.
  { apply Forall_forall. intros i Hi. destruct (Hall i Hi) as (e & He & ? & _). unfold pend_of. by rewrite He. }
  destruct (flush_spec_props _ _ _ _ _ _ Hp (proj1 Hc) E) as ([? ?] & ? & ?). done.
Qed.

Lemma qgroup_reset_correct_witness :
  let w := ex_qworld LDMS_QGROUP_STATE_STARTED true [ex_qrep 60 1; ex_qrep 50 1; ex_qrep 40 1] [0; 1; 2]%nat in
  exists k s q, flush_spec (pend_of (w_reps w)) (q_eps_stq (w_qg w)) (cfg_quota (q_cfg (w_qg w))) = (k, s, q) /\
    qgroup_reset (Conc w []) =
      Some (tt, Conc (QWorld (with_q_quota q (with_q_eps_stq k (w_qg w))) (clear_reps s (w_reps w))
                        (w_ts w) (w_wire w ++ quota_msgs s)) []) /\
    0 <= q /\ q + sent_bytes (quota_msgs s) = cfg_quota (q_cfg (w_qg w)) /\
    Forall (fun i => q < pend_of (w_reps w) i) k.
Proof.
  intros w. apply (qgroup_reset_correct w).
  - split; [discriminate|reflexivity].
  - split; [apply (bool_decide_unpack _); vm_compute; exact I|]. intros i Hi.
    repeat (apply elem_of_cons in Hi as [-> | Hi];
      [eexists; split; [reflexivity|split; reflexivity]|]).
    by apply elem_of_nil in Hi.
Defined.

(** Adding a member and deleting it gives the group back as it was: a
    successful [ldms_qgroup_member_add] makes the member the one that
    [ldms_qgroup_member_del] finds under the same host and port, default port
    included, and its removal restores the tree. *)
Theorem member_add_del_roundtrip (node : positive) (av_copy : av_list -> av_list + Z)
    (xprt : option string) (host : string) (port auth : option string) (avs : option av_list)
    (g g' : ldms_qgroup_s) :
  (forall l e, av_copy l = inr e -> e <> 0) -> node ∉ (q_rbt g).*1 ->
  qgroup_member_add (Some node) av_copy xprt (Some host) port auth avs g = (0, g') ->
  qgroup_member_del host port g' = (0, g).
Proof. apply member_add_del. Qed.

Definition ex_group : ldms_qgroup_s :=
  (qgroup_member_add (Some 1%positive) inl (Some "sock") (Some "node1") None None None (qgroup_init 0)).2%string.

Lemma member_add_del_roundtrip_witness :
  qgroup_member_del "node0"%string (Some "10001"%string)
    (qgroup_member_add (Some 2%positive) inl (Some "sock") (Some "node0") (Some "10001") None None ex_group).2%string
  = (0, ex_group).
Proof.
  apply (member_add_del_roundtrip 2 inl (Some "sock") "node0" (Some "10001") None None ex_group)%string.
  - discriminate.
  - by apply (bool_decide_unpack _); vm_compute.
  - vm_compute. reflexivity.
Defined.

(** The release of a message by another thread, as one move. *)
Definition other_free (i : nat) (q : Z) (w : qworld) : qworld :=
  match msg_buf_s_ref_free true i q (Conc w []) with Some (_, c) => shared c | None => w end.

(** A release can be forgotten: while the reset serves an endpoint,
    another thread adds to its pending quota after the reset read it and
    before the reset takes the endpoint off the queue.  The thread sees the
    endpoint queued and does not queue it; afterwards 5 bytes are pending on
    an endpoint that no later reset serves. *)
Theorem reset_forgets_release :
  let w := ex_qworld LDMS_QGROUP_STATE_STARTED true [ex_qrep 10 1] [0]%nat in
  exists w1 w2,
    qgroup_reset (Conc w [fun w => w; fun w => w; other_free 0 5]) = Some (tt, Conc w1 []) /\
    w_reps w1 = [ex_qrep 5 0] /\ q_eps_stq (w_qg w1) = [] /\
    qgroup_reset (Conc w1 []) = Some (tt, Conc w2 []) /\ w_reps w2 = w_reps w1.
Proof.
  set (g := Qgroup 90 LDMS_QGROUP_STATE_STARTED ex_qcfg [] true true []).
  exists (QWorld g [ex_qrep 5 0] (7, 0) [(0%nat, SEND_QUOTA 10 0)]),
         (QWorld (with_q_quota 100 g) [ex_qrep 5 0] (7, 0) [(0%nat, SEND_QUOTA 10 0)]).
  split; [vm_compute; reflexivity|]. split; [reflexivity|]. split; [reflexivity|].
  split; [vm_compute; reflexivity|reflexivity].
Qed.

(** The moves of a release in the other order: the bytes are added, the flag
    is taken, the endpoint is queued under the lock. *)
Definition other_pending (i : nat) (q : Z) (w : qworld) : qworld :=
  QWorld (w_qg w) (alter (fun e => lset l_pending_ret_quota (u64 (pending_ret_quota e + q)) e) i (w_reps w))
    (w_ts w) (w_wire w).
Definition other_mark (i : nat) (w : qworld) : qworld :=
  QWorld (w_qg w) (alter (lset l_in_eps_stq 1) i (w_reps w)) (w_ts w) (w_wire w).

(** A release can make a later reset fail its assertion: another thread
    adds to the pending quota of an endpoint before the reset reads it, and
    takes the flag after the reset cleared it.  The reset gives the bytes
    back and takes them off, and when it leaves the lock the thread queues
    an endpoint with nothing pending, on which [assert(p > 0)] of the next
    reset fails. *)
Theorem reset_race_asserts :
  let w := ex_qworld LDMS_QGROUP_STATE_STARTED true [ex_qrep 10 1] [0]%nat in
  exists w1 w2,
    qgroup_reset (Conc w [fun w => w; other_pending 0 5; fun w => w; other_mark 0]) = Some (tt, Conc w1 []) /\
    w_reps w1 = [ex_qrep 0 1] /\
    qgroup_add_rep true 0 (Conc w1 []) = Some (0, Conc w2 []) /\
    qgroup_reset (Conc w2 []) = None.
Proof.
  set (g := Qgroup 85 LDMS_QGROUP_STATE_STARTED ex_qcfg [] true true []).
  exists (QWorld g [ex_qrep 0 1] (7, 0) [(0%nat, SEND_QUOTA 15 0)]),
         (QWorld (with_q_eps_stq [0%nat] g) [ex_qrep 0 1] (7, 0) [(0%nat, SEND_QUOTA 15 0)]).
  split; [vm_compute; reflexivity|]. split; [reflexivity|].
  split; [vm_compute; reflexivity|vm_compute; reflexivity].
Qed.

(** A process whose group is not configured (the initial state, a
    [reset_usec] of zero) divides by zero on any request of another member:
    none of the handlers returns. *)
Theorem unconfigured_request_traps (ep : nat) (r : qgroup_request) (c : conc qworld) :
  (forall g w, g ∈ others c -> reset_usec (q_cfg (w_qg (g w))) = reset_usec (q_cfg (w_qg w))) ->
  reset_usec (q_cfg (w_qg (shared c))) = 0 ->
  qgroup_req_recv ep r c = None.
Proof.
  intros Hg H0.
  assert (forall A (k : Z -> Z -> M (conc qworld) A),
    (usec ← clock_getusec; adj ← qgroup_usec_adj usec; k usec adj) c = None) as H.
  { intros A k. unfold clock_getusec, load, atomic, mbind, M_bind, mret, M_ret.
    destruct c as [w [|g gs]]; simpl in *; unfold qgroup_usec_adj, the_qg, gets, mbind, M_bind; simpl.
    - by rewrite H0.
    - rewrite Hg by set_solver. by rewrite H0. }
  destruct r; [done|apply H| |apply H].
  simpl. unfold qgroup_on_donate_event, retries, gets, mbind at 1, M_bind at 1.
  cbn [Nat.add loopM]. unfold mbind at 1, M_bind at 1, mbind at 1, M_bind at 1.
  by rewrite (H _ _ : qgroup_donate_round q usec c = None).
Qed.

Lemma unconfigured_request_traps_witness :
  qgroup_req_recv 0 (QGROUP_ASK 10 0) (Conc ex_init []) = None.
Proof.
  apply (unconfigured_request_traps 0 (QGROUP_ASK 10 0) (Conc ex_init [])).
  - intros g w Hg. by apply elem_of_nil in Hg.
  - reflexivity.
Defined.
