(* ===== verification/QgroupNet.v ===== *)
(** * Quota groups: a group of processes

    The processes of a quota group exchange requests over connections that
    can lose them.  A step of the group runs one of the functions of [Qgroup]
    at one process, from its configuration and start to its stop; what it
    sends is put in flight to the process at the other end of the endpoint.
    The functions of one process run one at a time.  The theorem is
    conservation: whatever the order of the steps, the bytes given back to
    peers never exceed the quota that the resets issued and the bytes that
    stopped members gave back without taking them from a quota. *)

From stdpp Require Import prelude strings.
From S2P Require Import Prelude Conc RailQuota RailQuotaSpec Qgroup QgroupSpec QgroupProps.

(** [flight] holds (process, endpoint, request); [issued] is the sum of the
    configured quotas over all resets, those of the starts included;
    [unmetered] the bytes given back while their process was stopped, which
    [__qgroup_quota_acquire] grants without looking at the quota. *)
Record net := Net {
  procs : list qworld;
  flight : list (nat * nat * qgroup_request);
  issued : Z;
  unmetered : Z;
}.

Section net.
(** Which process and endpoint an endpoint of a process is connected to. *)
Context (peer : nat -> nat -> nat * nat).

Definition route1 (p : nat) (x : nat * qgroup_request) : option (nat * nat * qgroup_request) :=
  match x.2 with
  | SEND_QUOTA _ _ => None
  | r => Some ((peer p x.1).1, (peer p x.1).2, r)
  end.

Definition route (p : nat) (l : list (nat * qgroup_request)) : list (nat * nat * qgroup_request) :=
  omap (route1 p) l.

(** Process [p] went from [w] to [w']. *)
Definition emit (p : nat) (w w' : qworld) (n : net) : net :=
  Net (<[p := w']> (procs n)) (flight n ++ route p (drop (length (w_wire w)) (w_wire w')))
    (issued n) (unmetered n).

Definition credit (i u : Z) (n : net) : net := Net (procs n) (flight n) (issued n + i) (unmetered n + u).
Definition with_flight (f : list (nat * nat * qgroup_request)) (n : net) : net :=
  Net (procs n) f (issued n) (unmetered n).

(** The words of a configuration. *)
Definition cfg_words (c : ldms_qgroup_cfg_s) : Prop :=
  word64 (cfg_quota c) /\ word64 (ask_mark c) /\ word64 (ask_amount c).

(** Sections under the lock that neither use quota nor send: the two of the
    ask routine, the two of the stop, and changes to the members. *)
Inductive locked_section (g : ldms_qgroup_s) : ldms_qgroup_s -> Prop :=
| section_ask_enter go g' : qgroup_ask_enter g = Some (go, g') -> locked_section g g'
| section_ask_leave g' : qgroup_ask_leave g = Some g' -> locked_section g g'
| section_stop_enter rc g' : qgroup_stop_enter g = Some (rc, g') -> locked_section g g'
| section_stop_leave g' : qgroup_stop_leave g = Some g' -> locked_section g g'
| section_members l : locked_section g (with_q_rbt l g)
| section_config f rc g' :
    config_call f -> f g = (rc, g') -> cfg_words (q_cfg g') -> locked_section g g'.

(** The quota a reset issues is a word. *)
Inductive net_step : net -> net -> Prop :=
| step_free n p w w' ok i q :
    procs n !! p = Some w -> 0 <= q ->
    msg_buf_s_ref_free ok i q (Conc w []) = Some (tt, Conc w' []) ->
    net_step n (emit p w w' (credit 0 (if is_stopped (w_qg w) then u32 q else 0) n))
| step_reset n p w w' :
    procs n !! p = Some w -> word64 (cfg_quota (q_cfg (w_qg w))) ->
    qgroup_reset (Conc w []) = Some (tt, Conc w' []) ->
    net_step n (emit p w w' (credit (cfg_quota (q_cfg (w_qg w))) 0 n))
| step_start n p w w' once add_ask add_reset rc :
    procs n !! p = Some w -> word64 (cfg_quota (q_cfg (w_qg w))) ->
    qgroup_start once add_ask add_reset (Conc w []) = Some (rc, Conc w' []) ->
    net_step n (emit p w w'
      (credit (if qgroup_start_check once (w_qg w) =? 0 then cfg_quota (q_cfg (w_qg w)) else 0) 0 n))
| step_section n p w g' :
    procs n !! p = Some w -> locked_section (w_qg w) g' ->
    net_step n (emit p w (set_qg g' w) n)
| step_ask n p w w' m :
    procs n !! p = Some w -> qgroup_member_do_ask m (Conc w []) = Some (tt, Conc w' []) ->
    net_step n (emit p w w' n)
| step_recv n p w w' f1 f2 ep r :
    procs n !! p = Some w -> flight n = f1 ++ (p, ep, r) :: f2 ->
    qgroup_req_recv ep r (Conc w []) = Some (tt, Conc w' []) ->
    net_step n (emit p w w' (with_flight (f1 ++ f2) n))
| step_lose n f1 f2 x :
    flight n = f1 ++ x :: f2 -> net_step n (with_flight (f1 ++ f2) n)
| step_tick n p w ts :
    procs n !! p = Some w ->
    net_step n (emit p w (QWorld (w_qg w) (w_reps w) ts (w_wire w)) n).

(** ** Conservation *)

Fixpoint sumz {A} (f : A -> Z) (l : list A) : Z :=
  match l with [] => 0 | x :: l => f x + sumz f l end.

Lemma sumz_app {A} (f : A -> Z) l k : sumz f (l ++ k) = sumz f l + sumz f k.
Proof. induction l; simpl; lia. Qed.

Lemma sumz_insert {A} (f : A -> Z) l p x y :
  l !! p = Some x -> sumz f (<[p := y]> l) = sumz f l - f x + f y.
Proof.
  revert p. induction l as [|z l IH]; intros [|p] H; simpl in *; simplify_eq; [lia|].
  rewrite (IH p H). lia.
Qed.

Lemma sumz_ge {A} (f : A -> Z) l x : Forall (fun x => 0 <= f x) l -> x ∈ l -> f x <= sumz f l.
Proof.
  induction 1 as [|y l Hy Hl IH]; [by intros ?%elem_of_nil|].
  intros [->|Hx]%elem_of_cons; simpl.
  - assert (0 <= sumz f l) by (clear IH; induction Hl; simpl; lia). lia.
  - specialize (IH Hx). lia.
Qed.

Lemma sumz_nonneg {A} (f : A -> Z) l : Forall (fun x => 0 <= f x) l -> 0 <= sumz f l.
Proof. induction 1; simpl; lia. Qed.

Definition held (w : qworld) : Z := q_quota (w_qg w) + sent_bytes (w_wire w).
Definition in_flight (x : nat * nat * qgroup_request) : Z := donation x.2.

(** Bytes given back to peers. *)
Definition returned (n : net) : Z := sumz (fun w => sent_bytes (w_wire w)) (procs n).
(** Bytes that can still be given back: in the processes and in flight. *)
Definition available (n : net) : Z :=
  sumz (fun w => q_quota (w_qg w)) (procs n) + sumz in_flight (flight n).

Definition proc_ok (w : qworld) : Prop :=
  0 <= q_quota (w_qg w) /\ 0 <= sent_bytes (w_wire w) /\ cfg_words (q_cfg (w_qg w)).

(** What was given back and not taken from a quota is part of what was given
    back. *)
Definition net_ok (n : net) : Prop :=
  Forall proc_ok (procs n) /\ Forall (fun x => 0 <= amount x.2) (flight n) /\
  sumz held (procs n) + sumz in_flight (flight n) <= issued n + unmetered n /\
  unmetered n <= returned n.

Lemma sumz_held l :
  sumz held l = sumz (fun w => q_quota (w_qg w)) l + sumz (fun w => sent_bytes (w_wire w)) l.
Proof. induction l; simpl; unfold held in *; lia. Qed.

Lemma route_in_flight p l : sumz in_flight (route p l) = donated l.
Proof.
  induction l as [|[ep r] l IH]; [done|]. destruct r; simpl in *; unfold in_flight in *; simpl; lia.
Qed.

Lemma route_amount p l :
  Forall (fun x => 0 <= amount x.2) l -> Forall (fun x => 0 <= amount x.2) (route p l).
Proof.
  induction 1 as [|[ep r] l H Hl IH]; [constructor|]. destruct r; simpl in *; try by constructor. done.
Qed.

Lemma donation_nonneg r : 0 <= amount r -> 0 <= donation r.
Proof. by destruct r. Qed.

Lemma net_ok_quota n :
  net_ok n -> sumz (fun w => q_quota (w_qg w)) (procs n) + sumz in_flight (flight n) <= issued n /\
    Forall (fun w => 0 <= q_quota (w_qg w)) (procs n) /\ Forall (fun x => 0 <= in_flight x) (flight n).
Proof.
  intros (Hp & Hf & Hsum & Hu). rewrite sumz_held in Hsum. unfold returned in Hu. split_and!; [lia| |].
  - eapply Forall_impl; [exact Hp|]. by intros w (? & _).
  - eapply Forall_impl; [exact Hf|]. intros x Hx. by apply donation_nonneg.
Qed.

Lemma net_ok_limited n p w :
  net_ok n -> issued n < LDMS_UNLIMITED -> procs n !! p = Some w ->
  proc_ok w /\ limited (q_quota (w_qg w)).
Proof.
  intros Hn Hi Hw. apply list_elem_of_lookup_2 in Hw.
  destruct (net_ok_quota n Hn) as (Hsum & Hq & Hf). destruct Hn as (Hp & _).
  split; [by apply (proj1 (Forall_forall _ _) Hp)|].
  pose proof (sumz_ge (fun w => q_quota (w_qg w)) _ w Hq Hw). pose proof (sumz_nonneg _ _ Hf).
  apply (proj1 (Forall_forall _ _) Hq) in Hw. unfold limited. simpl in *. lia.
Qed.

Lemma net_ok_flight n x :
  net_ok n -> issued n < LDMS_UNLIMITED -> x ∈ flight n -> 0 <= amount x.2 /\ word64 (donation x.2).
Proof.
  intros Hn Hi Hx. destruct (net_ok_quota n Hn) as (Hsum & Hq & Hf). destruct Hn as (_ & Ha & _).
  split; [by apply (proj1 (Forall_forall _ _) Ha)|].
  pose proof (sumz_ge in_flight _ x Hf Hx). pose proof (sumz_nonneg _ _ Hq).
  apply (proj1 (Forall_forall _ _) Hf) in Hx. unfold in_flight, word64, LDMS_UNLIMITED in *. lia.
Qed.

(** A process step keeps the invariant when it creates at most the quota [i]
    and the bytes [u] that it gives back. *)
Lemma net_ok_emit n p w w' q' new i u :
  net_ok n -> procs n !! p = Some w ->
  w_wire w' = w_wire w ++ new -> q_quota (w_qg w') = q' -> cfg_words (q_cfg (w_qg w')) ->
  0 <= q' -> Forall (fun r => 0 <= amount r.2) new -> u <= sent_bytes new ->
  q' + sent_bytes new + donated new <= q_quota (w_qg w) + i + u ->
  net_ok (emit p w w' (credit i u n)).
Proof.
  intros (Hp & Hf & Hsum & Hu) Hw Ew Eq Hc Hq' Hnew Hle Hbal.
  pose proof (sent_bytes_nonneg _ Hnew) as Hs'.
  destruct (proj1 (Forall_forall _ _) Hp w) as (Hq & Hs & _); [by eapply list_elem_of_lookup_2|].
  unfold net_ok, emit, credit, returned in *. simpl in *. rewrite Ew, drop_app_length. split_and!.
  - apply Forall_insert; [done|]. unfold proc_ok. rewrite Eq, Ew, sent_bytes_app. split_and!; try done; lia.
  - apply Forall_app. split; [done|]. by apply route_amount.
  - rewrite (sumz_insert held _ _ w w' Hw), sumz_app, route_in_flight. unfold held at 2 3.
    rewrite Ew, Eq, sent_bytes_app. lia.
  - rewrite (sumz_insert _ _ _ w w' Hw), Ew, sent_bytes_app. lia.
Qed.

Lemma net_ok_emits n p w w' q' new i u :
  net_ok n -> procs n !! p = Some w -> emits w w' q' new ->
  0 <= q' -> Forall (fun r => 0 <= amount r.2) new -> u <= sent_bytes new ->
  q' + sent_bytes new + donated new <= q_quota (w_qg w) + i + u ->
  net_ok (emit p w w' (credit i u n)).
Proof.
  intros Hn Hw (Ew & Eq & Ec & _) Hq' Hnew Hu Hle. eapply net_ok_emit; eauto. rewrite Ec.
  destruct Hn as (Hp & _). by destruct (proj1 (Forall_forall _ _) Hp w) as (_ & _ & ?);
    [eapply list_elem_of_lookup_2|].
Qed.

Lemma credit_0 n : credit 0 0 n = n.
Proof. destruct n. unfold credit. simpl. by rewrite !Z.add_0_r. Qed.

Lemma credit_cancel i n : credit i 0 (credit (- i) 0 n) = n.
Proof. destruct n. unfold credit. simpl. f_equal; lia. Qed.

Lemma net_step_issued n n' : net_step n n' -> issued n <= issued n'.
Proof. intros Hstep. destruct Hstep; simpl; try case_match; unfold word64 in *; lia. Qed.

Lemma net_ok_conserve n p w gain c' :
  net_ok (credit (- gain) 0 n) -> procs n !! p = Some w ->
  conserves w gain c' -> exists w', c' = Conc w' [] /\ net_ok (emit p w w' n).
Proof.
  intros Hn Hw (w' & q' & new & -> & He & Hs & Hf & Hq & Hle). exists w'. split; [done|].
  rewrite <- (credit_cancel gain n). eapply net_ok_emits; eauto; lia.
Qed.

Lemma net_ok_deliver n f1 x f2 :
  net_ok n -> flight n = f1 ++ x :: f2 -> net_ok (credit (- donation x.2) 0 (with_flight (f1 ++ f2) n)).
Proof.
  intros (Hp & Hf & Hsum & Hu) E. rewrite E in Hf, Hsum. apply Forall_app in Hf as [? Hf].
  apply Forall_cons in Hf as [? ?]. rewrite sumz_app in Hsum. simpl in Hsum.
  unfold net_ok, returned in *. simpl. split_and!; [done|by apply Forall_app| |lia].
  rewrite sumz_app. unfold in_flight at 2 in Hsum. lia.
Qed.

Lemma locked_section_quota g g' :
  locked_section g g' -> cfg_words (q_cfg g) -> q_quota g' = q_quota g /\ cfg_words (q_cfg g').
Proof.
  intros H Hc. destruct H as [go g' E|g' E|rc g' E|g' E|l|f rc g' Hf E Hc']; [..|done|].
  5: { by destruct (config_call_life _ _ _ _ Hf E) as (_ & _ & _ & -> & _). }
  all: unfold qgroup_ask_enter, qgroup_ask_leave, qgroup_stop_enter, qgroup_stop_leave in E;
    repeat case_match; simplify_eq; done.
Qed.

(** A release by a stopped member goes out without quota. *)
Lemma holds_free_stopped ok i q w :
  is_stopped (w_qg w) = true ->
  holds (msg_buf_s_ref_free ok i q) (Conc w []) (fun _ c' => exists w', c' = Conc w' [] /\
    emits w w' (q_quota (w_qg w)) [(i, SEND_QUOTA (u32 q) 0)]).
Proof.
  intros Hs. unfold msg_buf_s_ref_free, qgroup_quota_acquire, the_qg. repeat hstep. simpl. rewrite Hs.
  hstep. simpl. apply holds_send_raw. intros w' E _ _. rewrite u32_s32 in E. eauto.
Qed.

(** A start resets once its checks pass. *)
Lemma holds_qgroup_start once a1 a2 w :
  word64 (cfg_quota (q_cfg (w_qg w))) -> 0 <= q_quota (w_qg w) ->
  holds (qgroup_start once a1 a2) (Conc w []) (fun _ c' => exists w' new, c' = Conc w' [] /\
    w_wire w' = w_wire w ++ new /\ q_cfg (w_qg w') = q_cfg (w_qg w) /\ donated new = 0 /\
    Forall (fun r => 0 <= amount r.2) new /\ 0 <= q_quota (w_qg w') /\
    q_quota (w_qg w') + sent_bytes new <= q_quota (w_qg w) +
      (if qgroup_start_check once (w_qg w) =? 0 then cfg_quota (q_cfg (w_qg w)) else 0)).
Proof.
  intros Hc Hq. unfold qgroup_start, the_qg. do 2 hstep. simpl.
  destruct (qgroup_start_check once (w_qg w) =? 0); simpl.
  2: { hstep. exists w, []. rewrite app_nil_r. simpl. split_and!; try done; lia. }
  hstep. eapply holds_mono; [by apply holds_qgroup_reset|].
  intros [] c' (w1 & q1 & new & -> & (Ew & Eq & Ec & _) & Hd & Hf & Hq1 & Hsum).
  case_match; [hstep; exists w1, new; rewrite Eq; split_and!; try done; lia|].
  hstep. apply holds_upd_qg. case_match.
  - hstep. apply holds_upd_qg. hstep. eexists _, new. split; [done|]. simpl. rewrite Eq. split_and!; try done; lia.
  - hstep. apply holds_upd_qg. hstep. apply holds_upd_qg. hstep. eexists _, new. split; [done|].
    simpl. rewrite Eq. split_and!; try done; lia.
Qed.

Lemma net_step_ok n n' :
  net_ok n -> issued n < LDMS_UNLIMITED -> net_step n n' -> net_ok n'.
Proof.
  intros Hn Hi Hstep.
  destruct Hstep as [n p w w' ok i q Hw Hq Hr|n p w w' Hw Hcw Hr|n p w w' once a1 a2 rc Hw Hcw Hr
    |n p w g' Hw Hg|n p w w' m Hw Hr|n p w w' f1 f2 ep r Hw Hf Hr|n f1 f2 x Hf|n p w ts Hw];
    try (destruct (net_ok_limited n p w Hn Hi Hw) as [(Hq0 & Hs0 & Hc & Hm & Ha) Hl]; unfold limited in Hl).
  - destruct (is_stopped (w_qg w)) eqn:Est.
    + apply holds_free_stopped in Hr as (w1 & [= <-] & He); [|done].
      destruct (wrapu_range 32 q) as [? _]; [done|].
      eapply net_ok_emits; eauto; simpl; try lia; by repeat constructor.
    + apply holds_msg_buf_s_ref_free in Hr as (w1 & q1 & new & [= <-] & He & Hd & Hf & Hq1 & Hle); [|done..].
      eapply net_ok_emits; eauto; [by apply sent_bytes_nonneg|lia].
  - apply holds_qgroup_reset in Hr as (w1 & q1 & new & [= <-] & He & Hd & Hf & Hq1 & Hle); [|done].
    eapply net_ok_emits; eauto; [by apply sent_bytes_nonneg|lia].
  - apply holds_qgroup_start in Hr as (w1 & new & [= <-] & Ew & Ec & Hd & Hf & Hq1 & Hle); [|done..].
    eapply net_ok_emit; eauto; [by rewrite Ec|by apply sent_bytes_nonneg|lia].
  - destruct (locked_section_quota _ _ Hg) as [Eq Hc']; [done|]. rewrite <- (credit_0 n).
    eapply (net_ok_emit n p w (set_qg g' w) (q_quota (w_qg w)) []); simpl; try done; [by rewrite app_nil_r|..]; lia.
  - apply holds_qgroup_member_do_ask in Hr; [|done|by apply Ha].
    apply (net_ok_conserve n p w 0) in Hr as (w1 & [= <-] & Hn'); [done|by rewrite credit_0|done].
  - destruct (net_ok_flight n (p, ep, r) Hn Hi) as [Ha' Hd]; [rewrite Hf; set_solver|].
    apply holds_qgroup_req_recv in Hr; [|done|done|by apply Hm|done|done].
    destruct (net_ok_conserve _ p w (donation r) _ (net_ok_deliver n f1 (p, ep, r) f2 Hn Hf) Hw Hr)
      as (w1 & Hw1 & Hn'). by injection Hw1 as ->.
  - pose proof (net_ok_deliver n f1 x f2 Hn Hf) as (Hp & Hfl & Hsum & Hu). destruct Hn as (_ & Hfn & _).
    rewrite Hf in Hfn. apply Forall_app in Hfn as [_ Hfn]. apply Forall_cons in Hfn as [Hx _].
    apply donation_nonneg in Hx. unfold net_ok, returned in *. simpl in *. split_and!; try done; lia.
  - rewrite <- (credit_0 n).
    eapply (net_ok_emit n p w _ (q_quota (w_qg w)) []); simpl; try done; [by rewrite app_nil_r|..]; lia.
Qed.

Lemma net_reachable_ok n n' :
  rtc net_step n n' -> net_ok n -> issued n' < LDMS_UNLIMITED -> net_ok n'.
Proof.
  intros Hr Hn. revert n' Hr.
  apply (rtc_ind_r (fun n' => issued n' < LDMS_UNLIMITED -> net_ok n')); [done|].
  intros n1 n2 _ Hs IH Hi. pose proof (net_step_issued _ _ Hs). apply (net_step_ok n1); [apply IH; lia|lia|done].
Qed.
End net.

(** ** The group at start *)

(** The group of a process before it is configured: a static variable, no
    quota, nothing sent. *)
Definition fresh_proc (w : qworld) : Prop := w_qg w = qgroup_init 0 /\ w_wire w = [].

Lemma fresh_net_ok l : Forall fresh_proc l -> net_ok (Net l [] 0 0).
Proof.
  intros Hl. unfold net_ok, returned. simpl. split_and!; [|constructor|..].
  - eapply Forall_impl; [exact Hl|]. intros w (Hq & Hw). unfold proc_ok, cfg_words, word64.
    rewrite Hq, Hw. simpl. lia.
  - induction Hl as [|w l (Hq & Hw) Hl IH]; simpl; [lia|]. unfold held in *. rewrite Hq, Hw. simpl. lia.
  - induction Hl as [|w l (Hq & Hw) Hl IH]; simpl; [lia|]. rewrite Hw. simpl. lia.
Qed.

(** C5: conservation of quota in a group, whatever the connections between
    the members: from processes not yet configured, in whatever order they
    are configured, started, reset and stopped, release messages, ask,
    receive and lose requests and see their clocks change, the functions of
    each process running one at a time, the bytes given back to peers plus
    those still available (in the members and in donations in flight) never
    exceed what the resets issued plus what stopped members gave back, which
    the code does not take from any quota.  The quota issued is below 2^64 -
    1, the unlimited marker. *)
Theorem quota_group_conservation (peer : nat -> nat -> nat * nat) (l : list qworld) (n : net) :
  Forall fresh_proc l -> rtc (net_step peer) (Net l [] 0 0) n -> issued n < LDMS_UNLIMITED ->
  returned n + available n <= issued n + unmetered n /\ 0 <= available n <= issued n.
Proof.
  intros Hl Hr Hi. apply fresh_net_ok in Hl.
  pose proof (net_reachable_ok peer _ _ Hr Hl Hi) as Hn.
  destruct (net_ok_quota n Hn) as (Hav & Hq & Hf). destruct Hn as (_ & _ & Hsum & _).
  pose proof (sumz_nonneg _ _ Hq). pose proof (sumz_nonneg _ _ Hf).
  unfold returned, available. rewrite sumz_held in Hsum. lia.
Qed.

(** Two members with a quota of 100: a release before the start is given
    back without quota; both are configured and started, the first gives 90
    back to its peer, asks for 50 and gets a donation in flight. *)
Definition ex_cfg : ldms_qgroup_cfg_s := QgroupCfg 100 20 50 1000000 1000000.
Definition ex_world : qworld := QWorld (qgroup_init 0) [ex_ep 1000 0 []] (7, 5000) [].
Definition ex_member : ldms_qgroup_member_s :=
  Member EmptyString EmptyString EmptyString EmptyString None (Some 0%nat)
    LDMS_QGROUP_MEMBER_STATE_CONNECTED 2.
Definition ex_peer (p ep : nat) : nat * nat := (1 - p, ep)%nat.

Definition ran {A} (m : M (conc qworld) A) (w : qworld) : qworld :=
  match m (Conc w []) with Some (_, c) => shared c | None => w end.

Definition ex_configured (w : qworld) : qworld := set_qg (with_q_cfg ex_cfg (qgroup_init 0)) w.

Definition ex_w0 : qworld := ran (msg_buf_s_ref_free true 0 30) ex_world.
Definition ex_w1 : qworld := ran (qgroup_start 0 0 0) (ex_configured ex_w0).
Definition ex_v1 : qworld := ran (qgroup_start 0 0 0) (ex_configured ex_world).
Definition ex_w2 : qworld := ran (msg_buf_s_ref_free true 0 90) ex_w1.
Definition ex_w3 : qworld := ran (qgroup_member_do_ask ex_member) ex_w2.
Definition ex_v2 : qworld := ran (qgroup_on_ask_event 0 50 7000000) ex_v1.

Definition ex_net : net :=
  Net [ex_w3; ex_v2] [(0%nat, 0%nat, QGROUP_DONATE 50 7000000)] 200 30.

Lemma ex_config_section : locked_section (qgroup_init 0) (with_q_cfg ex_cfg (qgroup_init 0)).
Proof.
  apply (section_config _ (qgroup_cfg_set ex_cfg) 0); [left; by exists ex_cfg|done|].
  unfold cfg_words, word64. simpl. lia.
Qed.

Lemma ex_net_reachable : rtc (net_step ex_peer) (Net [ex_world; ex_world] [] 0 0) ex_net.
Proof.
  eapply rtc_l; [apply (step_free ex_peer _ 0%nat ex_world ex_w0 true 0%nat 30); [done|lia|vm_compute; reflexivity]|].
  eapply rtc_l; [apply (step_section ex_peer _ 0%nat ex_w0); [done|apply ex_config_section]|].
  eapply rtc_l; [apply (step_start ex_peer _ 0%nat (ex_configured ex_w0) ex_w1 0 0 0 0); [done|done|vm_compute; reflexivity]|].
  eapply rtc_l; [apply (step_section ex_peer _ 1%nat ex_world); [done|apply ex_config_section]|].
  eapply rtc_l; [apply (step_start ex_peer _ 1%nat (ex_configured ex_world) ex_v1 0 0 0 0); [done|done|vm_compute; reflexivity]|].
  eapply rtc_l; [apply (step_free ex_peer _ 0%nat ex_w1 ex_w2 true 0%nat 90); [done|lia|vm_compute; reflexivity]|].
  eapply rtc_l; [apply (step_ask ex_peer _ 0%nat ex_w2 ex_w3 ex_member); [done|vm_compute; reflexivity]|].
  eapply rtc_l; [apply (step_recv ex_peer _ 1%nat ex_v1 ex_v2 [] [] 0%nat (QGROUP_ASK 50 7000000));
    [done|vm_compute; reflexivity|vm_compute; reflexivity]|].
  apply (eq_rect _ (fun n => rtc (net_step ex_peer) n ex_net) (rtc_refl _ ex_net)). vm_compute. reflexivity.
Qed.

Lemma quota_group_conservation_witness :
  returned ex_net + available ex_net <= issued ex_net + unmetered ex_net /\
  0 <= available ex_net <= issued ex_net.
Proof.
  apply (quota_group_conservation ex_peer [ex_world; ex_world] ex_net).
  - repeat constructor.
  - apply ex_net_reachable.
  - reflexivity.
Defined.
