(* ===== verification/Bytes.v ===== *)
(** * Byte strings

    Bytes are integers in [0, 256).  Big-endian ([htobe32] and the like stored
    to memory) and little-endian (a host word stored to memory) encodings. *)

From stdpp Require Import prelude.
From S2P Require Import Prelude.

Abbreviation bytes := (list Z).

Fixpoint le_bytes (n : nat) (v : Z) : bytes :=
  match n with
  | O => []
  | S n => v mod 256 :: le_bytes n (v / 256)
  end.

Definition be_bytes (n : nat) (v : Z) : bytes := reverse (le_bytes n v).

Fixpoint le_value (l : bytes) : Z :=
  match l with
  | [] => 0
  | b :: l => b + 256 * le_value l
  end.

Definition be_value (l : bytes) : Z := le_value (reverse l).

(** [len] bytes at offset [off]; reading outside is [None]. *)
Definition read (off len : nat) (l : bytes) : option bytes :=
  if bool_decide (off + len <= length l)%nat then Some (take len (drop off l)) else None.

Lemma length_le_bytes n v : length (le_bytes n v) = n.
Proof. revert v. induction n; intros; simpl; auto. Qed.

Lemma length_be_bytes n v : length (be_bytes n v) = n.
Proof. unfold be_bytes. by rewrite length_reverse, length_le_bytes. Qed.

Lemma le_value_bytes n v : 0 <= v < 256 ^ Z.of_nat n -> le_value (le_bytes n v) = v.
Proof.
  revert v. induction n as [|n IH]; intros v Hv; simpl.
  - change (256 ^ Z.of_nat 0) with 1 in Hv. lia.
  - rewrite Nat2Z.inj_succ, Z.pow_succ_r in Hv by lia. rewrite IH.
    + rewrite Z.add_comm, <- Z.div_mod by lia. done.
    + split; [apply Z.div_pos; lia|apply Z.div_lt_upper_bound; lia].
Qed.

Lemma be_value_bytes n v : 0 <= v < 256 ^ Z.of_nat n -> be_value (be_bytes n v) = v.
Proof. intros. unfold be_value, be_bytes. rewrite reverse_involutive. by apply le_value_bytes. Qed.

Lemma le_bytes_inj n v w :
  0 <= v < 256 ^ Z.of_nat n -> 0 <= w < 256 ^ Z.of_nat n -> le_bytes n v = le_bytes n w -> v = w.
Proof. intros Hv Hw H. rewrite <- (le_value_bytes n v), <- (le_value_bytes n w) by done. by rewrite H. Qed.

(** Reading a field back from a concatenation. *)
Lemma read_app off len pre fld post :
  length pre = off -> length fld = len -> read off len (pre ++ fld ++ post) = Some fld.
Proof.
  intros <- <-. unfold read. rewrite bool_decide_true by (rewrite !length_app; lia).
  by rewrite drop_app_length, take_app_length.
Qed.

Lemma read_skip n off len a l : length a = n -> (n <= off)%nat -> read off len (a ++ l) = read (off - n) len l.
Proof.
  intros <- Hle. unfold read. rewrite length_app.
  rewrite drop_app_ge by lia.
  destruct (decide (off + len <= length a + length l)%nat);
    [rewrite !bool_decide_true by lia|rewrite !bool_decide_false by lia]; done.
Qed.

Lemma read_here len fld l : length fld = len -> read 0 len (fld ++ l) = Some fld.
Proof. intros. by apply (read_app 0 len [] fld l). Qed.

Lemma read_all len l : length l = len -> read 0 len l = Some l.
Proof. intros. rewrite <- (app_nil_r l) at 1. by apply read_here. Qed.

Lemma read_length off len l r : read off len l = Some r -> length r = len.
Proof.
  unfold read. destruct (bool_decide_reflect (off + len <= length l)%nat); intros; simplify_eq.
  rewrite length_take, length_drop. lia.
Qed.
