(* ===== verification/MsgPart.v ===== *)
(** * Messages on the wire: model

    src/ldms/src/core/ldms_msg.c: a published message is a header
    ([struct ldms_msg_full_s]), the tag and the data, sent in fragments that
    fit the transport's message size; the receiver collects the fragments of
    a message in a buffer found by source and generation number and delivers
    the message.  Structures that cross the wire are byte strings with the
    layout of the 64-bit ABI ([struct ldms_msg_full_s] has 384 bytes,
    [struct ldms_msg_part_param] 32 with its fields packed to 4 bytes), on a
    little-endian machine.  Assertions are enabled: one that fails ends the
    run. *)

From stdpp Require Import prelude.
From S2P Require Import Prelude Bytes.

(** ** Sending in fragments *)

(** A request with [LDMS_CMD_MSG]: [struct ldms_msg_part_param]. *)
Record msg_part := MsgPart {
  p_src : bytes;
  p_gn : Z;
  p_more : bool;
  p_first : bool;
  p_reserved : Z;
  p_msg : bytes;
}.

(** The local variables of [__part_send]; [ps_sent] are the requests handed to
    [__rail_rep_send_raw] so far. *)
Record part_state := PartState {
  ps_args : list bytes;
  ps_data : option bytes;
  ps_msg : bytes;
  ps_alen : Z;
  ps_first : bool;
  ps_more : bool;
  ps_sent : list msg_part;
}.

Inductive part_label := NEXT_PARAM | FILL_REQ | FLUSH_REQ.

Section part_send.
(** [zmax] is the largest message of the rail; [send k] what
    [__rail_rep_send_raw] returns for the [k]-th request; [reserved] what
    [malloc] left in the 30 bits of the request that are never set. *)
Context (src : bytes) (gn zmax reserved : Z) (send : nat -> Z).

(** [a_len] of an empty request: [zmax - sizeof(req->hdr) - sizeof(req->msg_part)]. *)
Definition part_cap : Z := zmax - 16 - 32.

(** One block of [__part_send] up to the next jump: the next label and state,
    or the return code. *)
Definition part_send_step (l : part_label) (s : part_state)
    : (part_label * part_state) + Z * list msg_part :=
  match l with
  | NEXT_PARAM =>
      match ps_args s with
      | [] => inl (FLUSH_REQ, PartState [] None (ps_msg s) (ps_alen s) (ps_first s) false (ps_sent s))
      | d :: args =>
          inl (if ps_alen s =? 0 then FLUSH_REQ else FILL_REQ,
               PartState args (Some d) (ps_msg s) (ps_alen s) (ps_first s) (ps_more s) (ps_sent s))
      end
  | FILL_REQ =>
      let data := default [] (ps_data s) in
      let data_len := Z.of_nat (length data) in
      if data_len <=? ps_alen s then
        inl (NEXT_PARAM, PartState (ps_args s) (ps_data s) (ps_msg s ++ data) (ps_alen s - data_len)
                           (ps_first s) (ps_more s) (ps_sent s))
      else
        (* a_len = 0; data += a_len; data_len -= a_len; *)
        let msg := ps_msg s ++ take (Z.to_nat (ps_alen s)) data in
        let a_len := 0 in
        inl (FLUSH_REQ, PartState (ps_args s) (Some (drop (Z.to_nat a_len) data)) msg a_len
                          (ps_first s) (ps_more s) (ps_sent s))
  | FLUSH_REQ =>
      let sent := ps_sent s ++ [MsgPart src gn (ps_more s) (ps_first s) reserved (ps_msg s)] in
      let rc := send (length (ps_sent s)) in
      if negb (rc =? 0) then inr (rc, sent) else
      match ps_data s with
      | None => inr (0, sent)
      | Some _ => inl (FILL_REQ, PartState (ps_args s) (ps_data s) [] part_cap false (ps_more s) sent)
      end
  end.

Fixpoint part_send_loop (fuel : nat) (l : part_label) (s : part_state) : option (Z * list msg_part) :=
  match fuel with
  | O => None
  | S fuel =>
      match part_send_step l s with
      | inl (l', s') => part_send_loop fuel l' s'
      | inr r => Some r
      end
  end.

Definition part_send_init (args : list bytes) : part_state :=
  PartState args None [] part_cap true true [].

(** [args] are the [data, len] pairs before the terminating [NULL], each
    shorter than 2^31; [malloc_ok] tells whether the request buffer could be
    allocated.  A buffer too small for the fixed part is written out of
    bounds: [None]. *)
Definition part_send (fuel : nat) (malloc_ok : bool) (args : list bytes) : option (Z * list msg_part) :=
  if negb malloc_ok then Some (ENOMEM, []) else
  if zmax <? 48 then None else
  part_send_loop fuel NEXT_PARAM (part_send_init args).
End part_send.

(** ** The header *)

Definition LDMS_MSG_MAX_PROFILE_HOPS : Z := 8.

(** Contents of the header in memory order, after the byte-order conversions. *)
Record ldms_msg_full_s := FullHdr {
  f_src : bytes;
  f_pad0 : bytes;
  f_reserve : bytes;
  f_gn : Z;
  f_len : Z;
  f_type : Z;
  f_uid : Z;
  f_gid : Z;
  f_perm : Z;
  f_hash : Z;
  f_hop_cnt : Z;
  f_pad1 : bytes;
  f_hops : bytes;
}.

Definition full_bytes (h : ldms_msg_full_s) : bytes :=
  f_src h ++ f_pad0 h ++ f_reserve h ++ be_bytes 8 (f_gn h) ++ be_bytes 4 (f_len h) ++
  be_bytes 4 (f_type h) ++ be_bytes 4 (f_uid h) ++ be_bytes 4 (f_gid h) ++ be_bytes 4 (f_perm h) ++
  le_bytes 4 (f_hash h) ++ be_bytes 4 (f_hop_cnt h) ++ f_pad1 h ++ f_hops h.

(** [htons] on the address family, the first two bytes. *)
Definition swap_family (src : bytes) : bytes :=
  match src with a :: b :: l => b :: a :: l | _ => src end.

(** A [struct timespec] after [timespec_hton]. *)
Definition timespec_hton (ts : Z * Z) : bytes := be_bytes 8 (u64 ts.1) ++ be_bytes 8 (u64 ts.2).

(** What the stack held in the parts of the header that are not set. *)
Record hdr_junk := HdrJunk { j_pad0 : bytes; j_reserve : bytes; j_pad1 : bytes; j_hops : bytes }.

(** [msg.hops] after the copy of the [hop_cnt] entries of [hops] and the entry
    for this hop; copying more than the array holds is [None]. *)
Definition publish_hops (junk : bytes) (hop_cnt : Z) (hops : option bytes) (recv_ts send_ts : Z * Z)
    : option bytes :=
  let room := 32 * (LDMS_MSG_MAX_PROFILE_HOPS + 1) in
  copied ←
    match hops with
    | Some h =>
        if hop_cnt =? 0 then Some junk else
        if room <? hop_cnt * 32 then None else
        h' ← read 0 (Z.to_nat (hop_cnt * 32)) h;
        Some (h' ++ drop (Z.to_nat (hop_cnt * 32)) junk)
    | None => Some junk
    end;
  if hop_cnt <=? LDMS_MSG_MAX_PROFILE_HOPS then
    let o := Z.to_nat (hop_cnt * 32) in
    Some (take o copied ++ timespec_hton recv_ts ++ timespec_hton send_ts ++ drop (o + 32) copied)
  else Some copied.

Record publish_args := PublishArgs {
  a_tag : bytes;
  a_hash : Z;
  a_type : Z;
  a_src : option bytes;
  a_gn : Z;
  a_uid : Z;
  a_gid : Z;
  a_perm : Z;
  a_hop_cnt : Z;
  a_hops : option bytes;
  a_data : bytes;
  a_recv_ts : Z * Z;
}.

(** The header [__rep_publish] makes; [tag_len] counts the terminating zero. *)
Definition publish_hdr (junk : hdr_junk) (send_ts : Z * Z) (a : publish_args) : option ldms_msg_full_s :=
  hops ← publish_hops (j_hops junk) (a_hop_cnt a) (a_hops a) (a_recv_ts a) send_ts;
  Some (FullHdr
    (match a_src a with Some s => swap_family s | None => repeat 0 20 end)
    (j_pad0 junk) (j_reserve junk)
    (a_gn a)
    (u32 (Z.of_nat (length (a_tag a)) + 1 + Z.of_nat (length (a_data a))))
    (a_type a) (a_uid a) (a_gid a) (a_perm a) (a_hash a) (a_hop_cnt a) (j_pad1 junk) hops).

Definition rep_publish (fuel : nat) (zmax reserved : Z) (send : nat -> Z) (malloc_ok : bool)
    (junk : hdr_junk) (send_ts : Z * Z) (a : publish_args) : option (Z * list msg_part) :=
  h ← publish_hdr junk send_ts a;
  part_send (f_src h) (a_gn a) zmax reserved send fuel malloc_ok [full_bytes h; a_tag a ++ [0]; a_data a].

(** ** Receiving *)

(** [struct __sbuf_key_s] (natural alignment: four bytes of padding, which
    [calloc] zeroed), and the first 32 bytes of [struct ldms_msg_part_param]
    (packed to 4), which the lookup passes for one. *)
Definition sbuf_key (src : bytes) (gn : Z) : bytes := src ++ [0; 0; 0; 0] ++ le_bytes 8 gn.

Definition part_key (src : bytes) (p : msg_part) : bytes :=
  src ++ le_bytes 8 (p_gn p) ++
  le_bytes 4 ((if p_more p then 1 else 0) + (if p_first p then 2 else 0) + 4 * p_reserved p).

(** [__msg_buf_cmp] of two keys is zero. *)
Definition msg_buf_eq (tree_key key : bytes) : bool := bool_decide (tree_key = key).

(** [sb_room] is what [calloc] left for [buf]; [sb_buf] the [off] bytes
    collected. *)
Record msg_buf_s := MsgBuf {
  sb_key : bytes;
  full_msg_len : Z;
  sb_room : Z;
  sb_buf : bytes;
}.

(** What the tree [sbuf_rbt] promises: [rbt_find] gives a buffer with the key
    when there is one; which, when several have it, depends on the shape. *)
Class SbufIndex := {
  sbuf_find : list msg_buf_s -> bytes -> option nat;
  sbuf_find_some l k i : sbuf_find l k = Some i -> exists sb, l !! i = Some sb /\ msg_buf_eq (sb_key sb) k = true;
  sbuf_find_none l k : sbuf_find l k = None -> forall sb, sb ∈ l -> msg_buf_eq (sb_key sb) k = false;
}.

(** What [__msg_deliver] is called with. *)
Record delivery := Delivery {
  d_src : bytes;
  d_gn : Z;
  d_tag : bytes;
  d_tag_len : Z;
  d_hash : Z;
  d_type : Z;
  d_uid : Z;
  d_gid : Z;
  d_perm : Z;
  d_data : bytes;
  d_data_len : Z;
  d_hop_cnt : Z;
  d_hops : bytes;
  d_msg_len : Z;
}.

(** The address of the peer, as [ldms_xprt_sockaddr] gives it. *)
Inductive peer_addr :=
| PEER_INET (port addr : bytes)
| PEER_INET6 (port addr : bytes)
| PEER_OTHER.

Definition is_loopback6 (addr : bytes) : bool :=
  bool_decide (addr = repeat 0 15 ++ [1]) ||
  bool_decide (addr = repeat 0 10 ++ [255; 255; 127; 0; 0; 1]).

(** The source of the fragment, resolved when its family is 0. *)
Definition resolve_src (peer : peer_addr) (src : bytes) : bytes :=
  if bool_decide (take 2 src = [0; 0]) then
    match peer with
    | PEER_INET port addr =>
        if bool_decide (head addr = Some 127) then src
        else [0; 2] ++ port ++ addr ++ drop 8 src
    | PEER_INET6 port addr =>
        if is_loopback6 addr then src else [0; 10] ++ port ++ addr
    | PEER_OTHER => src
    end
  else src.

(** The C string at the start of [l] and what follows its terminating zero;
    [None] when there is none. *)
Fixpoint c_string (l : bytes) : option (bytes * bytes) :=
  match l with
  | [] => None
  | b :: l => if b =? 0 then Some ([], l) else '(s, r) ← c_string l; Some (b :: s, r)
  end.

(** The header fields of a complete message converted to host order, and the
    call of [__msg_deliver]. *)
Definition full_delivery (src buf : bytes) : option delivery :=
  gn ← read 56 8 buf; len ← read 64 4 buf; ty ← read 68 4 buf;
  uid ← read 72 4 buf; gid ← read 76 4 buf; perm ← read 80 4 buf;
  hash ← read 84 4 buf; hop ← read 88 4 buf; hops ← read 96 288 buf;
  '(tag, data) ← c_string (drop 384 buf);
  let msg_len := be_value len in
  let tag_len := Z.of_nat (length tag) + 1 in
  let data_len := u32 (msg_len - tag_len) in
  data ← read 0 (Z.to_nat data_len) data;
  Some (Delivery (swap_family src) (be_value gn) tag tag_len (le_value hash) (be_value ty)
          (be_value uid) (be_value gid) (be_value perm) data data_len (u32 (be_value hop + 1)) hops msg_len).

(** The endpoint of the receiver: its buffers, the messages delivered, the
    [msg_len] of the buffers whose references [rbt] and [init] were dropped
    (their quota goes back in [__msg_buf_s_ref_free], file Qgroup), and the
    return codes sent with an empty quota return.  A failed assertion or an
    access out of bounds is [None]. *)
Record msg_ep := MsgEp {
  sbufs : list msg_buf_s;
  delivered : list delivery;
  dropped : list Z;
  notices : list Z;
}.

Section process_msg.
Context `{!SbufIndex}.

(** [enabled] is [ldms_msg_enabled]; [peer] is [None] when the address cannot
    be got; [alloc_ok] tells whether the buffer could be allocated; [allowed]
    is [__cred_allowed_as] on the peer's credential, [None] when it traps. *)
Context (enabled : bool) (peer : option peer_addr) (alloc_ok : bool) (allowed : Z -> Z -> option bool).

(** [collect] on the buffer [sb]; [rest] are the other buffers and [keep] puts
    the buffer back among them. *)
Definition msg_collect (p : msg_part) (src : bytes) (sb : msg_buf_s)
    (rest : list msg_buf_s) (keep : msg_buf_s -> list msg_buf_s) (ep : msg_ep) : option msg_ep :=
  let off := Z.of_nat (length (p_msg p)) + Z.of_nat (length (sb_buf sb)) in
  if full_msg_len sb <? off then None else
  if sb_room sb <? off then None else
  let buf := sb_buf sb ++ p_msg p in
  if p_more p then
    Some (MsgEp (keep (MsgBuf (sb_key sb) (full_msg_len sb) (sb_room sb) buf))
            (delivered ep) (dropped ep) (notices ep))
  else if negb (off =? full_msg_len sb) then None
  else
    d ← full_delivery src buf;
    ok ← allowed (d_uid d) (d_gid d);
    Some (MsgEp rest (if (ok : bool) then delivered ep ++ [d] else delivered ep)
            (dropped ep ++ [d_msg_len d]) (notices ep)).

Definition process_msg (p : msg_part) (ep : msg_ep) : option msg_ep :=
  if negb enabled then
    Some (if p_first p then MsgEp (sbufs ep) (delivered ep) (dropped ep) (notices ep ++ [ENOTSUP]) else ep)
  else
  match (if bool_decide (take 2 (p_src p) = [0; 0]) then peer else Some PEER_OTHER) with
  | None => Some ep
  | Some peer =>
      let src := resolve_src peer (p_src p) in
      match sbuf_find (sbufs ep) (part_key src p) with
      | Some i =>
          sb ← sbufs ep !! i;
          msg_collect p src sb (delete i (sbufs ep)) (fun sb => <[i := sb]> (sbufs ep)) ep
      | None =>
          if negb (p_first p) then None else
          len ← read 64 4 (p_msg p);
          if negb alloc_ok then Some ep else
          let flen := s32 (be_value len) in
          msg_collect p src
            (MsgBuf (sbuf_key src (p_gn p)) (u64 (flen + 384)) (flen + 384) [])
            (sbufs ep) (fun sb => sbufs ep ++ [sb]) ep
      end
  end.
End process_msg.

(** ** Credentials and endpoints *)

(** [getpwuid_r] fails with a code, finds no entry (it returns 0 and sets [pw]
    to [NULL]), or finds the user, whose group list [getgrouplist] gives. *)
Inductive pw_lookup := PW_ERROR (rc : Z) | PW_NONE | PW_GROUPS (grps : list Z).

(** [__cred_allowed_as]; [None] is the access through the null [pw]. *)
Definition cred_allowed_as (pw : pw_lookup) (malloc_ok : bool) (uid gid as_uid as_gid : Z) : option bool :=
  if uid =? 0 then Some true else
  if negb (uid =? as_uid) then Some false else
  if gid =? as_gid then Some true else
  match pw with
  | PW_ERROR _ => Some false
  | PW_NONE => None
  | PW_GROUPS grps =>
      if negb malloc_ok then Some false else Some (existsb (fun g => as_uid =? g) grps)
  end.

Definition FNV_32_PRIME : Z := 16777619.
Definition FNV_64_PRIME : Z := 1099511628211.

(** [h ^= *s] sign-extends the [char]. *)
Definition fnv_hash_a1_32 (str : bytes) (seed : Z) : Z :=
  fold_left (fun h c => u32 (Z.lxor h (u32 (s8 c)) * FNV_32_PRIME)) str (u32 seed).
Definition fnv_hash_a1_64 (str : bytes) (seed : Z) : Z :=
  fold_left (fun h c => u64 (Z.lxor h (u64 (s8 c)) * FNV_64_PRIME)) str (u64 seed).

Definition primer : Z := 1033.

(** The endpoint of the rail a message from [src] is forwarded on (the switch
    of [__remote_client_cb]): [src] has the address family in host order.  An
    unexpected family fails the assertion. *)
Definition forward_ep (tag_hash : Z) (src : bytes) (n_eps : Z) : option Z :=
  let addr_hash off :=
    addr ← read off 4 src;
    port ← read 2 2 src;
    let addr_port := Z.lor (Z.shiftl (be_value addr) 16) (be_value port) in
    let hash := Z.lor (u64 (Z.shiftl addr_port 32)) tag_hash in
    Some ((hash mod primer) mod n_eps) in
  family ← read 0 2 src;
  if le_value family =? 0 then Some ((tag_hash mod primer) mod n_eps)
  else if le_value family =? 2 then addr_hash 4%nat
  else if le_value family =? 10 then addr_hash 16%nat
  else None.
