(* ===== verification/MsgSpec.v ===== *)
(** * Messages on the wire: properties

    A message that fits one fragment is delivered with every field it was
    published with; the fragmenting loop ends when every parameter fits a
    request and otherwise goes on as long as the transport takes requests; a
    message whose data crosses the end of a request is not put together
    again, and a later fragment finds its buffer only for special generation
    numbers. *)

From stdpp Require Import prelude.
From S2P Require Import Prelude Bytes MsgPart.

(** A concrete index: the first buffer with the key. *)
Fixpoint first_match (l : list msg_buf_s) (k : bytes) : option nat :=
  match l with
  | [] => None
  | sb :: l => if msg_buf_eq (sb_key sb) k then Some O else S <$> first_match l k
  end.

#[export] Program Instance first_match_index : SbufIndex := { sbuf_find := first_match }.
Next Obligation.
  intros l k. induction l as [|sb l IH]; intros i; simpl; [done|].
  destruct (msg_buf_eq _ _) eqn:E; intros H; simplify_eq; [by exists sb|].
  apply fmap_Some in H as (j & Hj & ->). by apply IH.
Qed.
Next Obligation.
  intros l k. induction l as [|sb l IH]; simpl; intros H sb' Hin; [by apply not_elem_of_nil in Hin|].
  destruct (msg_buf_eq _ _) eqn:E; [done|]. apply fmap_None in H.
  apply elem_of_cons in Hin as [-> | Hin]; [done|]. by apply IH.
Qed.

(** ** Fragments *)

Section fragments.
Context (src : bytes) (gn zmax reserved : Z) (send : nat -> Z).
Hypothesis zmax_ok : 48 <= zmax.

Abbreviation cap := (part_cap zmax).
Abbreviation step := (part_send_step src gn zmax reserved send).
Abbreviation run := (part_send_loop src gn zmax reserved send).
Abbreviation blen l := (Z.of_nat (length l)).

(** More fuel does not change a result. *)
Lemma part_send_loop_more n m l s r : (n <= m)%nat -> run n l s = Some r -> run m l s = Some r.
Proof.
  revert m l s. induction n as [|n IH]; intros [|m] l s Hm; simpl; try done; try lia.
  destruct (step l s) as [[l' s']|]; [apply IH; lia|done].
Qed.

(** The blocks as equations. *)
Lemma run_next n d args data msg alen first more sent :
  run (S n) NEXT_PARAM (PartState (d :: args) data msg alen first more sent) =
  run n (if alen =? 0 then FLUSH_REQ else FILL_REQ) (PartState args (Some d) msg alen first more sent).
Proof. done. Qed.

Lemma run_fill_fits n d args msg alen first more sent :
  blen d <= alen ->
  run (S n) FILL_REQ (PartState args (Some d) msg alen first more sent) =
  run n NEXT_PARAM (PartState args (Some d) (msg ++ d) (alen - blen d) first more sent).
Proof. intros H. simpl. by rewrite (proj2 (Z.leb_le _ _)). Qed.

Lemma run_fill_part n d args msg alen first more sent :
  alen < blen d ->
  run (S n) FILL_REQ (PartState args (Some d) msg alen first more sent) =
  run n FLUSH_REQ (PartState args (Some d) (msg ++ take (Z.to_nat alen) d) 0 first more sent).
Proof. intros H. simpl. by rewrite (proj2 (Z.leb_gt _ _)). Qed.

(** A parameter that does not fit a request is at hand or still to come. *)
Definition never_fits (l : part_label) (s : part_state) : Prop :=
  ps_alen s <= cap /\
  let later := Exists (fun d => cap < blen d) (ps_args s) in
  match l with
  | NEXT_PARAM => later
  | _ => exists d, ps_data s = Some d /\ (cap < blen d \/ later)
  end.

Lemma never_fits_step l s :
  (forall k, send k = 0) -> never_fits l s -> exists l' s', step l s = inl (l', s') /\ never_fits l' s'.
Proof.
  intros Hsend [Hal H]. destruct l, s as [args data msg alen first more sent]; simpl in *.
  - destruct args as [|d args]; [by apply Exists_nil in H|].
    apply Exists_cons in H. destruct (alen =? 0); eexists _, _; (split; [reflexivity|]); split; simpl; eauto.
  - destruct H as (d & -> & H); simpl. destruct (Z.leb_spec (blen d) alen).
    + eexists _, _; split; [reflexivity|]. split; simpl; [lia|]. destruct H; [lia|done].
    + eexists _, _; split; [reflexivity|]. split; simpl; [unfold part_cap; lia|]. eauto.
  - destruct H as (d & -> & H). rewrite Hsend. eexists _, _; split; [reflexivity|].
    split; simpl; [lia|eauto].
Qed.

Lemma never_fits_runs fuel l s : (forall k, send k = 0) -> never_fits l s -> run fuel l s = None.
Proof.
  intros Hsend. revert l s. induction fuel as [|fuel IH]; intros l s Hs; simpl; [done|].
  destruct (never_fits_step l s Hsend Hs) as (l' & s' & -> & Hs'). by apply IH.
Qed.

(** A request is sent and its parameter, which fits the next one, taken. *)
Lemma run_flush n args d msg alen first more sent :
  blen d <= cap ->
  (exists r, run (2 + n) FLUSH_REQ (PartState args (Some d) msg alen first more sent) = Some r) \/
  exists sent', run (2 + n) FLUSH_REQ (PartState args (Some d) msg alen first more sent) =
    run n NEXT_PARAM (PartState args (Some d) d (cap - blen d) false more sent').
Proof.
  intros Hd. simpl. destruct (negb _); [left; eauto|]. right. eexists. simpl.
  rewrite (proj2 (Z.leb_le _ _)) by done. reflexivity.
Qed.

(** When every parameter fits a request the loop ends: at most four blocks
    for a parameter, and two for the end. *)
Lemma part_send_ends args data msg alen first more sent :
  Forall (fun d => blen d <= cap) args -> 0 <= alen ->
  exists r, run (4 * length args + 2) NEXT_PARAM (PartState args data msg alen first more sent) = Some r.
Proof.
  revert data msg alen first more sent.
  induction args as [|d args IH]; intros data msg alen first more sent Hall Hal.
  { simpl. destruct (negb _); eauto. }
  apply Forall_cons in Hall as [Hd Hall].
  assert (forall k m' al, (4 * length args + 4 <= k)%nat -> exists r,
    run k FLUSH_REQ (PartState args (Some d) m' al first more sent) = Some r) as Hflush.
  { intros k m' al Hk.
    destruct (run_flush (4 * length args + 2) args d m' al first more sent Hd) as [[r Hr]|[sent' Heq]].
    - exists r. eapply part_send_loop_more, Hr. lia.
    - destruct (IH (Some d) d (cap - blen d) false more sent' Hall ltac:(lia)) as [r Hr].
      exists r. eapply (part_send_loop_more (2 + (4 * length args + 2))); [lia|]. by rewrite Heq. }
  replace (4 * length (d :: args) + 2)%nat with (S (S (4 * length args + 4))) by (simpl; lia).
  rewrite run_next. destruct (alen =? 0); [apply Hflush; lia|].
  destruct (Z.leb_spec (blen d) alen).
  - rewrite run_fill_fits by done.
    destruct (IH (Some d) (msg ++ d) (alen - blen d) first more sent Hall ltac:(lia)) as [r Hr].
    exists r. eapply part_send_loop_more, Hr. lia.
  - rewrite run_fill_part by done. apply Hflush. lia.
Qed.

(** Parameters that fit together leave in one request: the room may be used
    up by the last one only. *)
Lemma part_send_fits args data msg alen first more sent :
  blen (concat args) <= alen -> (args <> [] -> blen (concat (removelast args)) < alen) ->
  run (2 * length args + 2) NEXT_PARAM (PartState args data msg alen first more sent) =
  Some (send (length sent), sent ++ [MsgPart src gn false first reserved (msg ++ concat args)]).
Proof.
  revert data msg alen. induction args as [|d args IH]; intros data msg alen Hlen Hroom.
  - simpl. rewrite app_nil_r. destruct (Z.eqb_spec (send (length sent)) 0) as [E|E]; simpl; [by rewrite E|done].
  - simpl in Hlen. rewrite length_app in Hlen. specialize (Hroom ltac:(done)).
    replace (2 * length (d :: args) + 2)%nat with (S (S (2 * length args + 2))) by (simpl; lia).
    rewrite run_next, (proj2 (Z.eqb_neq _ _)), run_fill_fits by lia.
    rewrite IH; [simpl; by rewrite <- app_assoc|lia|]. intros Hne.
    change (removelast (d :: args)) with (match args with [] => [] | _ => d :: removelast args end) in Hroom.
    destruct args; [done|]. cbn [concat] in Hroom. rewrite length_app in Hroom. lia.
Qed.
End fragments.

(** ** The header *)

(** The header fields have the sizes of the structure. *)
Definition hdr_ok (h : ldms_msg_full_s) : Prop :=
  length (f_src h) = 20%nat /\ length (f_pad0 h) = 4%nat /\ length (f_reserve h) = 32%nat /\
  length (f_pad1 h) = 4%nat /\ length (f_hops h) = 288%nat.

Definition word32 (z : Z) : Prop := 0 <= z < 4294967296.
Definition u32_fields (h : ldms_msg_full_s) : Prop :=
  word32 (f_len h) /\ word32 (f_type h) /\ word32 (f_uid h) /\ word32 (f_gid h) /\ word32 (f_perm h) /\
  word32 (f_hash h) /\ word32 (f_hop_cnt h) /\ 0 <= f_gn h < 18446744073709551616.

Ltac fld_len := rewrite ?length_be_bytes, ?length_le_bytes; first [eassumption | reflexivity].
Ltac rd := repeat (erewrite read_skip; [|fld_len|lia]; cbn [Nat.sub]); first [apply read_here; fld_len].

Lemma length_full_bytes h : hdr_ok h -> length (full_bytes h) = 384%nat.
Proof.
  intros (?&?&?&?&?). unfold full_bytes.
  rewrite !length_app, !length_be_bytes, !length_le_bytes. lia.
Qed.

(** The fields read back from the wire. *)
Lemma read_full h rest (buf := full_bytes h ++ rest) :
  hdr_ok h ->
  read 56 8 buf = Some (be_bytes 8 (f_gn h)) /\ read 64 4 buf = Some (be_bytes 4 (f_len h)) /\
  read 68 4 buf = Some (be_bytes 4 (f_type h)) /\ read 72 4 buf = Some (be_bytes 4 (f_uid h)) /\
  read 76 4 buf = Some (be_bytes 4 (f_gid h)) /\ read 80 4 buf = Some (be_bytes 4 (f_perm h)) /\
  read 84 4 buf = Some (le_bytes 4 (f_hash h)) /\ read 88 4 buf = Some (be_bytes 4 (f_hop_cnt h)) /\
  read 96 288 buf = Some (f_hops h).
Proof. intros (?&?&?&?&?). subst buf. unfold full_bytes. rewrite <- !app_assoc. split_and!; rd. Qed.

Lemma be4 v : word32 v -> be_value (be_bytes 4 v) = v.
Proof. intros H. apply be_value_bytes. exact H. Qed.

(** The tag and the data come back from the text after the header. *)
Lemma c_string_app tag rest : Forall (fun b => b <> 0) tag -> c_string (tag ++ 0 :: rest) = Some (tag, rest).
Proof.
  induction 1 as [|b tag Hb _ IH]; simpl; [done|].
  rewrite (proj2 (Z.eqb_neq _ _)) by done. by rewrite IH.
Qed.

Lemma full_delivery_full h src tag data :
  hdr_ok h -> u32_fields h -> Forall (fun b => b <> 0) tag ->
  f_len h = Z.of_nat (length tag) + 1 + Z.of_nat (length data) ->
  full_delivery src (full_bytes h ++ (tag ++ [0]) ++ data) =
  Some (Delivery (swap_family src) (f_gn h) tag (Z.of_nat (length tag) + 1) (f_hash h) (f_type h)
    (f_uid h) (f_gid h) (f_perm h) data (Z.of_nat (length data)) (u32 (f_hop_cnt h + 1)) (f_hops h) (f_len h)).
Proof.
  intros Hok (Hl&?&?&?&?&?&?&?) Htag Hlen. pose proof Hok as (?&?&?&?&?).
  assert (drop 384 (full_bytes h ++ (tag ++ [0]) ++ data) = tag ++ 0 :: data) as Hdrop.
  { rewrite <- (length_full_bytes h Hok), drop_app_length, <- app_assoc. done. }
  destruct (read_full h ((tag ++ [0]) ++ data) Hok) as (R1&R2&R3&R4&R5&R6&R7&R8&R9).
  unfold full_delivery. rewrite Hdrop, c_string_app, R1, R2, R3, R4, R5, R6, R7, R8, R9 by done.
  cbn [mbind option_bind]. rewrite !be4, be_value_bytes, le_value_bytes by done.
  replace (f_len h - (Z.of_nat (length tag) + 1)) with (Z.of_nat (length data)) by lia.
  rewrite u32_small by (unfold word32 in *; lia).
  rewrite Nat2Z.id, read_all by done. done.
Qed.

(** ** What is published *)

Definition junk_ok (j : hdr_junk) : Prop :=
  length (j_pad0 j) = 4%nat /\ length (j_reserve j) = 32%nat /\ length (j_pad1 j) = 4%nat /\
  length (j_hops j) = 288%nat.

(** The arguments of [__rep_publish] as its callers give them: a C string as
    tag, 32-bit fields, and the hop records of the message received. *)
Definition args_ok (a : publish_args) : Prop :=
  Forall (fun b => b <> 0) (a_tag a) /\ (forall s, a_src a = Some s -> length s = 20%nat) /\
  word32 (a_hash a) /\ word32 (a_type a) /\ word32 (a_uid a) /\ word32 (a_gid a) /\ word32 (a_perm a) /\
  word32 (a_hop_cnt a) /\ 0 <= a_gn a < 18446744073709551616 /\
  Z.of_nat (length (a_tag a)) + 1 + Z.of_nat (length (a_data a)) < 2147483648.

Lemma length_timespec_hton ts : length (timespec_hton ts) = 16%nat.
Proof. unfold timespec_hton. by rewrite length_app, !length_be_bytes. Qed.

Lemma length_publish_hops junk n hops r s l :
  length junk = 288%nat -> 0 <= n -> publish_hops junk n hops r s = Some l -> length l = 288%nat.
Proof.
  intros Hj Hn. unfold publish_hops.
  set (c := match hops with Some _ => _ | None => _ end).
  assert (forall x, c = Some x -> length x = 288%nat) as Hc.
  { subst c. destruct hops as [h|]; [|by intros; simplify_eq]. intros x.
    destruct (n =? 0); [by intros; simplify_eq|].
    destruct (Z.ltb_spec (32 * (LDMS_MSG_MAX_PROFILE_HOPS + 1)) (n * 32)) as [|Hb]; [done|].
    destruct (read _ _ h) as [h'|] eqn:E; simpl; intros; simplify_eq.
    apply read_length in E. rewrite length_app, length_drop, E, Hj.
    unfold LDMS_MSG_MAX_PROFILE_HOPS in Hb. lia. }
  destruct c as [x|]; cbn [mbind option_bind]; [|done]. specialize (Hc x eq_refl).
  destruct (Z.leb_spec n LDMS_MSG_MAX_PROFILE_HOPS) as [Hle|]; intros Heq; apply (inj Some) in Heq as <-; [|done].
  cbv zeta.
  pose proof (length_timespec_hton r). pose proof (length_timespec_hton s).
  rewrite length_app, length_take, length_app, length_app, length_drop, Hc.
  unfold LDMS_MSG_MAX_PROFILE_HOPS in Hle. lia.
Qed.

Lemma length_swap_family s : length (swap_family s) = length s.
Proof. by destruct s as [|? [|? ?]]. Qed.

Lemma swap_family_involutive s : swap_family (swap_family s) = s.
Proof. by destruct s as [|? [|? ?]]. Qed.

Lemma publish_hdr_ok j ts a h :
  junk_ok j -> args_ok a -> publish_hdr j ts a = Some h ->
  hdr_ok h /\ u32_fields h /\ f_len h = Z.of_nat (length (a_tag a)) + 1 + Z.of_nat (length (a_data a)).
Proof.
  intros (?&?&?&?) (?&Hsrc&?&?&?&?&?&Hhop&?&?) Hh. unfold publish_hdr in Hh.
  destruct (publish_hops _ _ _ _ _) as [hops|] eqn:E; simpl in Hh; simplify_eq.
  apply length_publish_hops in E; [|done|apply Hhop].
  rewrite u32_small by lia. split; [|split; [|done]].
  - unfold hdr_ok; cbn [f_src f_pad0 f_reserve f_pad1 f_hops]. split_and!; try done.
    destruct (a_src a) as [s|] eqn:Es; [|done]. by rewrite length_swap_family, (Hsrc s).
  - unfold u32_fields; cbn. split_and!; try done; unfold word32; lia.
Qed.

(** ** Keys and buffers *)

(** Every buffer was made by [__process_msg]. *)
Definition ep_wf (ep : msg_ep) : Prop :=
  Forall (fun sb => exists src gn, length src = 20%nat /\ sb_key sb = sbuf_key src gn) (sbufs ep).

Lemma key_match src gn src' p :
  length src = 20%nat -> length src' = 20%nat -> sbuf_key src gn = part_key src' p ->
  p_gn p mod 4294967296 = 0.
Proof.
  intros Hs Hs' H. unfold sbuf_key, part_key in H.
  apply app_inj_1 in H as [_ H]; [|by rewrite Hs, Hs'].
  simpl in H. injection H as H0 H1 H2 H3 _ _ _ _ _ _ _ _.
  rewrite !Z.div_div in * by lia. Z.to_euclidean_division_equations. lia.
Qed.

Lemma length_resolve_src peer src :
  length src = 20%nat ->
  (forall port addr, peer = PEER_INET port addr -> length port = 2%nat /\ length addr = 4%nat) ->
  (forall port addr, peer = PEER_INET6 port addr -> length port = 2%nat /\ length addr = 16%nat) ->
  length (resolve_src peer src) = 20%nat.
Proof.
  intros Hs H4 H6. unfold resolve_src. case_bool_decide; [|done].
  destruct peer as [port addr|port addr|]; [| |done].
  - destruct (H4 _ _ eq_refl) as [Hp Ha]. case_bool_decide; [done|].
    rewrite !length_app, length_drop, Hp, Ha, Hs. done.
  - destruct (H6 _ _ eq_refl) as [Hp Ha]. destruct (is_loopback6 _); [done|].
    rewrite !length_app, Hp, Ha. done.
Qed.
