(* ===== verification/MsgProps.v ===== *)
(** * Messages on the wire: the theorems

    Publishing and receiving composed, on top of the lemmas of MsgSpec. *)

From stdpp Require Import prelude.
From S2P Require Import Prelude Bytes MsgPart MsgSpec.

Definition peer_ok (peer : peer_addr) : Prop :=
  match peer with
  | PEER_INET port addr => length port = 2%nat /\ length addr = 4%nat
  | PEER_INET6 port addr => length port = 2%nat /\ length addr = 16%nat
  | PEER_OTHER => True
  end.

(** The hop records handed to [__rep_publish] fit the header. *)
Definition hops_ok (a : publish_args) : Prop :=
  match a_hops a with
  | Some l => a_hop_cnt a <= 9 /\ 32 * a_hop_cnt a <= Z.of_nat (length l)
  | None => True
  end.

Lemma publish_hdr_some j ts a :
  args_ok a -> hops_ok a -> exists h, publish_hdr j ts a = Some h /\
    publish_hops (j_hops j) (a_hop_cnt a) (a_hops a) (a_recv_ts a) ts = Some (f_hops h).
Proof.
  intros (?&?&?&?&?&?&?&[Hh _]&_) Hok. unfold publish_hdr, publish_hops. unfold hops_ok in Hok.
  destruct (a_hops a) as [l|]; [|destruct (_ <=? _); cbn [mbind option_bind]; eauto].
  destruct (a_hop_cnt a =? 0); [destruct (_ <=? _); cbn [mbind option_bind]; eauto|].
  unfold LDMS_MSG_MAX_PROFILE_HOPS. rewrite (proj2 (Z.ltb_ge _ _)) by lia.
  unfold read. rewrite bool_decide_true by lia. cbn [mbind option_bind].
  destruct (_ <=? _); cbn [mbind option_bind]; eauto.
Qed.

Section receiver.
Context `{!SbufIndex} (peer : peer_addr) (alloc_ok : bool) (allowed : Z -> Z -> option bool).
Hypothesis Hpeer : peer_ok peer.

Lemma resolve_length src : length src = 20%nat -> length (resolve_src peer src) = 20%nat.
Proof.
  intros Hs. apply length_resolve_src; [done| |]; intros port addr ->; apply Hpeer.
Qed.

(** A source that is set is left alone, so the peer may be taken as got. *)
Lemma process_msg_enabled p ep (src := resolve_src peer (p_src p)) :
  process_msg true (Some peer) alloc_ok allowed p ep =
  match sbuf_find (sbufs ep) (part_key src p) with
  | Some i =>
      sb ← sbufs ep !! i;
      msg_collect allowed p src sb (delete i (sbufs ep)) (fun sb => <[i := sb]> (sbufs ep)) ep
  | None =>
      if negb (p_first p) then None else
      len ← read 64 4 (p_msg p);
      if negb alloc_ok then Some ep else
      let flen := s32 (be_value len) in
      msg_collect allowed p src (MsgBuf (sbuf_key src (p_gn p)) (u64 (flen + 384)) (flen + 384) [])
        (sbufs ep) (fun sb => sbufs ep ++ [sb]) ep
  end.
Proof.
  subst src. unfold process_msg, resolve_src. simpl. by case_bool_decide.
Qed.

(** The key of the lookup has the generation number where the tree has the
    padding: it matches nothing unless its low half is zero. *)
Lemma find_none p ep src :
  ep_wf ep -> length src = 20%nat -> p_gn p mod 4294967296 <> 0 ->
  sbuf_find (sbufs ep) (part_key src p) = None.
Proof.
  intros Hwf Hs Hgn. destruct (sbuf_find _ _) as [i|] eqn:E; [|done].
  apply sbuf_find_some in E as (sb & Hi & Heq). apply bool_decide_eq_true in Heq.
  apply (Forall_lookup_1 _ _ _ _ Hwf) in Hi as (s & g & Hl & Hk).
  rewrite Hk in Heq. by apply key_match in Heq.
Qed.

(** Nor does it match a buffer of another source. *)
Lemma find_other p ep src :
  Forall (fun sb => take 20 (sb_key sb) <> src) (sbufs ep) -> length src = 20%nat ->
  sbuf_find (sbufs ep) (part_key src p) = None.
Proof.
  intros Hall Hs. destruct (sbuf_find _ _) as [i|] eqn:E; [|done].
  apply sbuf_find_some in E as (sb & Hi & Heq). apply bool_decide_eq_true in Heq.
  apply (Forall_lookup_1 _ _ _ _ Hall) in Hi. destruct Hi. rewrite Heq. unfold part_key.
  rewrite <- Hs. apply take_app_length.
Qed.

Lemma collect_wf p src sb rest keep ep ep' :
  ep_wf ep -> Forall (fun sb => exists src gn, length src = 20%nat /\ sb_key sb = sbuf_key src gn) rest ->
  (forall sb', sb_key sb' = sb_key sb ->
     Forall (fun sb => exists src gn, length src = 20%nat /\ sb_key sb = sbuf_key src gn) (keep sb')) ->
  msg_collect allowed p src sb rest keep ep = Some ep' -> ep_wf ep'.
Proof.
  intros Hwf Hrest Hkeep. unfold msg_collect.
  destruct (_ <? _); [done|]. destruct (_ <? _); [done|].
  destruct (p_more p); [intros; simplify_eq; by apply Hkeep|].
  destruct (negb _); [done|]. destruct (full_delivery _ _) as [d|]; simpl; [|done].
  destruct (allowed _ _); simpl; intros; by simplify_eq.
Qed.

Lemma process_wf p ep ep' :
  ep_wf ep -> length (p_src p) = 20%nat ->
  process_msg true (Some peer) alloc_ok allowed p ep = Some ep' -> ep_wf ep'.
Proof.
  intros Hwf Hs. rewrite process_msg_enabled.
  destruct (sbuf_find _ _) as [i|].
  - destruct (sbufs ep !! i) as [sb|] eqn:Hi; simpl; [|done].
    pose proof (Forall_lookup_1 _ _ _ _ Hwf Hi) as Hsb. apply collect_wf; [done| |].
    + by apply Forall_delete.
    + intros sb' Hk. apply Forall_insert; [done|]. by rewrite Hk.
  - destruct (negb (p_first p)); [done|]. destruct (read _ _ _) as [len|]; simpl; [|done].
    destruct (negb alloc_ok); [by intros; simplify_eq|]. apply collect_wf; [done|done|].
    intros sb' Hk. apply Forall_app. split; [done|]. apply Forall_singleton. simpl in Hk.
    eexists _, _. split; [|exact Hk]. by apply resolve_length.
Qed.

(** The request that holds a whole message. *)
Lemma process_whole gn reserved h tag data ep ok
    (p := MsgPart (f_src h) gn false true reserved (full_bytes h ++ (tag ++ [0]) ++ data)) :
  hdr_ok h -> u32_fields h -> Forall (fun b => b <> 0) tag ->
  f_len h = Z.of_nat (length tag) + 1 + Z.of_nat (length data) -> f_len h < 2147483648 ->
  alloc_ok = true -> allowed (f_uid h) (f_gid h) = Some ok ->
  sbuf_find (sbufs ep) (part_key (resolve_src peer (f_src h)) p) = None ->
  exists d, full_delivery (resolve_src peer (f_src h)) (p_msg p) = Some d /\
  process_msg true (Some peer) alloc_ok allowed p ep =
  Some (MsgEp (sbufs ep) (delivered ep ++ (if ok then [d] else [])) (dropped ep ++ [f_len h]) (notices ep)).
Proof.
  intros Hh Hf Ht Hlen Hlt Halloc Hcred Hnone.
  eexists. split; [by apply full_delivery_full|].
  rewrite process_msg_enabled. change (p_src p) with (f_src h). rewrite Hnone.
  cbn [p p_first p_msg negb].
  destruct (read_full h ((tag ++ [0]) ++ data) Hh) as (_&R2&_). rewrite R2. cbn [mbind option_bind].
  rewrite be4 by apply Hf. rewrite Halloc. cbn [negb]. cbv zeta.
  rewrite s32_small, u64_small by lia.
  unfold msg_collect. cbn [p_msg p p_more full_msg_len sb_buf sb_room app length].
  assert (Z.of_nat (length (full_bytes h ++ (tag ++ [0]) ++ data)) = f_len h + 384) as Hl.
  { rewrite !length_app, (length_full_bytes h Hh). simpl. lia. }
  rewrite Hl, Z.add_0_r, Z.ltb_irrefl, Z.eqb_refl. cbn [negb].
  rewrite full_delivery_full by done. cbn [mbind option_bind d_uid d_gid d_msg_len].
  rewrite Hcred. cbn [mbind option_bind]. destruct ok; by rewrite ?app_nil_r.
Qed.
End receiver.

(** The length of a message on the wire. *)
Definition wire_len (a : publish_args) : Z :=
  384 + Z.of_nat (length (a_tag a)) + 1 + Z.of_nat (length (a_data a)).

(** The message fits one request, exactly or with room; the header and the
    tag alone leave room for the data. *)
Definition fits_request (zmax : Z) (a : publish_args) : Prop :=
  wire_len a <= zmax - 48 /\ 384 + Z.of_nat (length (a_tag a)) + 1 < zmax - 48.

(** The source of a message on the wire. *)
Definition wire_src (a : publish_args) : bytes :=
  match a_src a with Some s => swap_family s | None => repeat 0 20 end.

Lemma rep_publish_whole zmax reserved send j ts a h :
  junk_ok j -> args_ok a -> publish_hdr j ts a = Some h -> fits_request zmax a ->
  rep_publish 8 zmax reserved send true j ts a =
  Some (send O, [MsgPart (f_src h) (a_gn a) false true reserved
                   (full_bytes h ++ (a_tag a ++ [0]) ++ a_data a)]).
Proof.
  intros Hj Ha Hh [Hfit Hroom]. destruct (publish_hdr_ok _ _ _ _ Hj Ha Hh) as (Hok & _ & _).
  unfold rep_publish. rewrite Hh. cbn [mbind option_bind]. unfold part_send. cbn [negb].
  unfold wire_len in Hfit. rewrite (proj2 (Z.ltb_ge _ _)) by lia. unfold part_send_init.
  change 8%nat with (2 * length [full_bytes h; a_tag a ++ [0%Z]; a_data a] + 2)%nat.
  rewrite part_send_fits; [by rewrite (app_nil_l (concat _)); simpl; rewrite app_nil_r|..];
    cbn [concat removelast]; rewrite !length_app, (length_full_bytes h Hok); simpl; unfold part_cap; lia.
Qed.

(** A message of one parameter too many: the header and the tag fit the first
    request and the data does not fit what is left of it. *)
Definition straddles (zmax : Z) (a : publish_args) : Prop :=
  384 + Z.of_nat (length (a_tag a)) + 1 < zmax - 48 < wire_len a /\
  Z.of_nat (length (a_data a)) <= zmax - 48.

Lemma rep_publish_straddles zmax reserved send j ts a h :
  junk_ok j -> args_ok a -> publish_hdr j ts a = Some h -> straddles zmax a -> (forall k, send k = 0) ->
  exists room, 0 < room /\ rep_publish 10 zmax reserved send true j ts a =
  Some (0, [MsgPart (f_src h) (a_gn a) true true reserved
              (full_bytes h ++ (a_tag a ++ [0]) ++ take (Z.to_nat room) (a_data a));
            MsgPart (f_src h) (a_gn a) false false reserved (a_data a)]) /\
  room < Z.of_nat (length (a_data a)).
Proof.
  intros Hj Ha Hh [[H1 H2] H3] Hsend. destruct (publish_hdr_ok _ _ _ _ Hj Ha Hh) as (Hok & _ & _).
  pose proof (length_full_bytes h Hok) as Hl. unfold wire_len in H2.
  exists (zmax - 48 - 384 - (Z.of_nat (length (a_tag a)) + 1)). split; [lia|]. split; [|lia].
  unfold rep_publish. rewrite Hh. cbn [mbind option_bind]. unfold part_send. cbn [negb].
  rewrite (proj2 (Z.ltb_ge _ _)) by lia. unfold part_send_init, part_cap.
  rewrite run_next, (proj2 (Z.eqb_neq _ _)), run_fill_fits by lia.
  rewrite run_next, (proj2 (Z.eqb_neq _ _)), run_fill_fits by (rewrite ?length_app; simpl; lia).
  rewrite run_next, (proj2 (Z.eqb_neq _ _)), run_fill_part by (rewrite ?length_app; simpl; lia).
  replace (zmax - 16 - 32 - Z.of_nat (length (full_bytes h)) - Z.of_nat (length (a_tag a ++ [0])))
    with (zmax - 48 - 384 - (Z.of_nat (length (a_tag a)) + 1)) by (rewrite length_app; simpl; lia).
  rewrite app_nil_l, <- app_assoc.
  cbn [part_send_loop part_send_step ps_sent ps_data ps_args ps_msg ps_alen ps_first ps_more length app].
  rewrite !Hsend. cbn -[full_bytes take Z.to_nat part_cap]. unfold part_cap.
  rewrite (proj2 (Z.leb_le _ _)) by lia. cbn -[full_bytes take Z.to_nat]. by rewrite Hsend.
Qed.

(** ** A message and its surroundings *)

Definition ex_junk : hdr_junk := HdrJunk (repeat 7 4) (repeat 7 32) (repeat 7 4) (repeat 7 288).
Definition ex_args (data : bytes) : publish_args :=
  PublishArgs [102; 111; 111] 77 1 (Some ([2; 0; 1; 187; 10; 0; 0; 1] ++ repeat 0 12)) 5 1000 100 384
    0 None data (1, 2).
Definition ex_msg_ep : msg_ep := MsgEp [] [] [] [].

Lemma ex_junk_ok : junk_ok ex_junk.
Proof. done. Qed.
Lemma ex_args_ok data : (length data < 1000)%nat -> args_ok (ex_args data).
Proof.
  intros. unfold args_ok, word32; simpl. split_and!; try lia.
  - repeat (constructor; [lia|]); constructor.
  - by intros s [= <-].
Qed.

(** ** The theorems *)

(** C6: a message whose header, tag and data fit one request, exactly or with
    room to spare, the data not starting a new one, is published as one
    request, and the receiver delivers it with the generation number, tag,
    hash, type, credential, permission, data and hop records it was published
    with, the hop count raised by one and, when it was set, the same source;
    nothing of it stays behind, and its length is given back.  The receiver
    may hold any unfinished messages; when the low half of the generation
    number is zero, none of the same source (its lookup could take the
    request for a part of one).  The message carries at most nine hop records
    and the receiver allows its credential. *)
Theorem msg_publish_deliver `{!SbufIndex} zmax reserved send j ts a peer allowed ep :
  junk_ok j -> args_ok a -> hops_ok a -> peer_ok peer -> ep_wf ep ->
  a_gn a mod 4294967296 <> 0 \/
    Forall (fun sb => take 20 (sb_key sb) <> resolve_src peer (wire_src a)) (sbufs ep) ->
  fits_request zmax a -> send O = 0 -> allowed (a_uid a) (a_gid a) = Some true ->
  exists p d, rep_publish 8 zmax reserved send true j ts a = Some (0, [p]) /\
    process_msg true (Some peer) true allowed p ep =
      Some (MsgEp (sbufs ep) (delivered ep ++ [d]) (dropped ep ++ [wire_len a - 384]) (notices ep)) /\
    d_gn d = a_gn a /\ d_tag d = a_tag a /\ d_hash d = a_hash a /\ d_type d = a_type a /\
    d_uid d = a_uid a /\ d_gid d = a_gid a /\ d_perm d = a_perm a /\ d_data d = a_data a /\
    d_tag_len d = Z.of_nat (length (a_tag a)) + 1 /\ d_data_len d = Z.of_nat (length (a_data a)) /\
    d_hop_cnt d = u32 (a_hop_cnt a + 1) /\
    publish_hops (j_hops j) (a_hop_cnt a) (a_hops a) (a_recv_ts a) ts = Some (d_hops d) /\
    (forall s, a_src a = Some s -> take 2 s <> [0; 0] -> d_src d = s).
Proof.
  intros Hj Ha Hhops Hp Hwf Hgn Hfit Hsend Hcred.
  destruct (publish_hdr_some j ts a Ha Hhops) as (h & Hh & Hf).
  destruct (publish_hdr_ok _ _ _ _ Hj Ha Hh) as (Hok & Hu & Hlen).
  rewrite (rep_publish_whole _ _ _ _ _ _ _ Hj Ha Hh Hfit), Hsend.
  assert (f_len h = wire_len a - 384) as Hw by (unfold wire_len; lia).
  pose proof Ha as (Htag&Hsrc&_&_&_&_&_&_&_&Hl).
  pose proof Hh as Heq. unfold publish_hdr in Heq.
  destruct (publish_hops _ _ _ _ _) as [hops|]; cbn [mbind option_bind] in Heq; [|done].
  apply (inj Some) in Heq.
  edestruct (process_whole peer true allowed (a_gn a) reserved h (a_tag a) (a_data a) ep true) as (d & Hd & Hproc);
    [done|done|done|done|lia|done|by rewrite <- Heq| |].
  { destruct Hgn as [Hgn|Hno].
    - apply find_none; [done|apply resolve_length; [done|apply Hok]|done].
    - assert (f_src h = wire_src a) as Hsw by (by rewrite <- Heq). rewrite <- Hsw in Hno.
      apply find_other; [done|]. apply resolve_length; [done|apply Hok]. }
  eexists _, d. split; [reflexivity|]. rewrite <- Hw. split; [exact Hproc|].
  cbn [p_msg] in Hd. rewrite full_delivery_full in Hd by done. apply (inj Some) in Hd. subst d.
  rewrite Hf, <- Heq. cbn. split_and!; try done.
  intros s Hs Hne. rewrite Hs. unfold resolve_src. rewrite bool_decide_false; [apply swap_family_involutive|].
  destruct s as [|x [|y s]]; simpl in *; try done. intros [= -> ->]. done.
Qed.

(** The endpoint's buffers stay well formed whatever request comes in. *)
Theorem process_msg_preserves `{!SbufIndex} peer alloc_ok allowed p ep ep' :
  peer_ok peer -> ep_wf ep -> length (p_src p) = 20%nat ->
  process_msg true (Some peer) alloc_ok allowed p ep = Some ep' -> ep_wf ep'.
Proof. intros. by eapply process_wf. Qed.

(** A request that is not the first of its message runs into the
    assertion "Bad message", whatever the receiver has collected, unless the
    low half of its generation number is zero: the lookup compares the
    request, packed to four bytes, with keys aligned to eight. *)
Theorem later_fragment_refused `{!SbufIndex} peer alloc_ok allowed p ep :
  peer_ok peer -> ep_wf ep -> length (p_src p) = 20%nat -> p_first p = false ->
  p_gn p mod 4294967296 <> 0 ->
  process_msg true (Some peer) alloc_ok allowed p ep = None.
Proof.
  intros Hp Hwf Hs Hfirst Hgn. rewrite process_msg_enabled, find_none, Hfirst; [done|done| |done].
  by apply resolve_length.
Qed.

(** C30: sending ends when every parameter fits a request, within four blocks
    for each parameter and two more, and for no bound when one does not and
    the transport takes every request: the same bytes are sent for ever. *)
Theorem part_send_terminates src gn zmax reserved send args :
  48 <= zmax ->
  (Forall (fun d => Z.of_nat (length d) <= part_cap zmax) args ->
   is_Some (part_send src gn zmax reserved send (4 * length args + 2) true args)) /\
  ((forall k, send k = 0) -> Exists (fun d => part_cap zmax < Z.of_nat (length d)) args ->
   forall fuel, part_send src gn zmax reserved send fuel true args = None).
Proof.
  intros Hz. unfold part_send. cbn [negb]. rewrite (proj2 (Z.ltb_ge _ _)) by lia.
  split.
  - intros Hall. destruct (part_send_ends src gn zmax reserved send args None [] (part_cap zmax) true true []
      Hall ltac:(unfold part_cap; lia)) as [r Hr]. unfold part_send_init. by rewrite Hr.
  - intros Hsend Hex fuel. apply never_fits_runs; [done|done|]. split; simpl; [lia|done].
Qed.

(** C38: the data of a message that crosses the end of a request is sent
    again from its start in the next one, so the receiver never puts such a
    message together: it takes the first request and fails an assertion on
    the second. *)
Theorem straddling_message_fails `{!SbufIndex} zmax reserved send j ts a peer allowed ep :
  junk_ok j -> args_ok a -> hops_ok a -> peer_ok peer -> sbufs ep = [] -> straddles zmax a ->
  (forall k, send k = 0) ->
  exists p1 p2 ep1, rep_publish 10 zmax reserved send true j ts a = Some (0, [p1; p2]) /\
    p_msg p2 = a_data a /\
    process_msg true (Some peer) true allowed p1 ep = Some ep1 /\ delivered ep1 = delivered ep /\
    process_msg true (Some peer) true allowed p2 ep1 = None.
Proof.
  intros Hj Ha Hhops Hp Hempty Hstr Hsend.
  destruct (publish_hdr_some j ts a Ha Hhops) as (h & Hh & _).
  destruct (publish_hdr_ok _ _ _ _ Hj Ha Hh) as (Hok & Hu & Hlen).
  destruct (rep_publish_straddles zmax reserved send j ts a h Hj Ha Hh Hstr Hsend) as (room & Hr & -> & Hlt).
  pose proof Ha as (_&_&_&_&_&_&_&_&_&Hl).
  set (rest := (a_tag a ++ [0]) ++ take (Z.to_nat room) (a_data a)).
  assert (Z.of_nat (length (full_bytes h ++ rest)) = 384 + Z.of_nat (length (a_tag a)) + 1 + room) as Hlr.
  { subst rest. rewrite !length_app, (length_full_bytes h Hok), length_take. simpl. lia. }
  eexists _, _, _. split; [reflexivity|]. split; [done|].
  split; [|split].
  - rewrite process_msg_enabled, find_other, Hempty; [|by rewrite Hempty; constructor|apply resolve_length; [done|apply Hok]]. cbn [p_first negb p_msg].
    destruct (read_full h rest Hok) as (_&R2&_). rewrite R2. cbn [mbind option_bind].
    rewrite be4 by apply Hu. cbv zeta. rewrite s32_small, u64_small by lia.
    unfold msg_collect. cbn [p_msg p_more full_msg_len sb_buf sb_room app length].
    rewrite Hlr, (proj2 (Z.ltb_ge _ _)) by lia. reflexivity.
  - done.
  - rewrite process_msg_enabled. cbn [sbufs app p_first negb].
    destruct (sbuf_find _ _) as [i|] eqn:E; [|done].
    apply sbuf_find_some in E as (sb & Hi & _).
    destruct i as [|i]; [|done]. simpl in Hi. injection Hi as <-.
    cbn [mbind option_bind lookup list_lookup].
    unfold msg_collect. cbn [full_msg_len sb_buf p_msg].
    rewrite Hlr, (proj2 (Z.ltb_lt _ _)) by lia. done.
Qed.

(** A message that has been forwarded more than nine times is copied
    past the hop records of the header on the stack. *)
Theorem hop_records_overrun fuel zmax reserved send ok j ts a l :
  a_hops a = Some l -> 9 < a_hop_cnt a ->
  rep_publish fuel zmax reserved send ok j ts a = None.
Proof.
  intros Hh Hn. unfold rep_publish, publish_hdr, publish_hops. rewrite Hh.
  rewrite (proj2 (Z.eqb_neq _ _)) by lia. unfold LDMS_MSG_MAX_PROFILE_HOPS.
  by rewrite (proj2 (Z.ltb_lt _ _)) by lia.
Qed.

(** A user who publishes with a group they belong to, other than the one
    of the connection, is refused unless their user id happens to be the
    number of one of their groups; the group asked for plays no part. *)
Theorem cred_group_not_checked grps uid gid as_gid :
  uid <> 0 -> gid <> as_gid ->
  cred_allowed_as (PW_GROUPS grps) true uid gid uid as_gid = Some (bool_decide (uid ∈ grps)).
Proof.
  intros Hu Hg. unfold cred_allowed_as.
  rewrite (proj2 (Z.eqb_neq uid 0)), Z.eqb_refl, (proj2 (Z.eqb_neq gid as_gid)) by done. simpl. f_equal.
  induction grps as [|g grps IH]; [done|]. simpl. rewrite IH.
  destruct (Z.eqb_spec uid g) as [<-|Hne]; simpl.
  - by rewrite bool_decide_true by set_solver.
  - apply bool_decide_ext. set_solver.
Qed.

(** Shifting the address and the port into the upper half of the hash keeps
    the lower half of the address only. *)
Lemma addr_port_high A P :
  u64 (Z.shiftl (Z.lor (Z.shiftl A 16) P) 32) =
  u64 (Z.shiftl (Z.lor (Z.shiftl (A mod 65536) 16) P) 32).
Proof.
  unfold wrapu. apply Z.bits_inj'. intros n Hn. destruct (Z.ltb_spec n 64).
  - rewrite !Z.mod_pow2_bits_low by done. rewrite !Z.shiftl_spec, !Z.lor_spec by done.
    destruct (Z.ltb_spec (n - 32) 0); [by rewrite !Z.testbit_neg_r|].
    rewrite !Z.shiftl_spec by done. f_equal.
    destruct (Z.ltb_spec (n - 32 - 16) 0); [by rewrite !Z.testbit_neg_r|].
    change 65536 with (2 ^ 16). by rewrite Z.mod_pow2_bits_low by lia.
  - by rewrite !Z.mod_pow2_bits_high by lia.
Qed.

(** Forwarding picks an endpoint of the rail, and messages of one tag
    from peers whose IPv4 addresses agree in the last two bytes and in the
    port always take the same one: the first two bytes are shifted out. *)
Theorem forward_ep_ignores_network tag_hash n_eps p1 p2 a b a' b' c d rest :
  0 < n_eps -> 0 <= c < 256 -> 0 <= d < 256 ->
  exists i, 0 <= i < n_eps /\
    forward_ep tag_hash ([2; 0; p1; p2; a; b; c; d] ++ rest) n_eps = Some i /\
    forward_ep tag_hash ([2; 0; p1; p2; a'; b'; c; d] ++ rest) n_eps = Some i.
Proof.
  intros Hn Hc Hd.
  assert (forall x y, be_value [x; y; c; d] mod 65536 = 256 * c + d) as Hlow.
  { intros x y. unfold be_value. cbn [reverse rev_append le_value].
    replace (d + 256 * (c + 256 * (y + 256 * (x + 256 * 0)))) with (256 * c + d + (y + 256 * x) * 65536) by lia.
    rewrite Z.mod_add by lia. apply Z.mod_small. lia. }
  eexists. split; [|split; [reflexivity|]]; [by apply Z.mod_pos_bound|].
  unfold forward_ep. cbn [read bool_decide decide]. simpl.
  by rewrite addr_port_high, Hlow, (addr_port_high (be_value [a; b; c; d])), Hlow.
Qed.

(** ** Witnesses *)

Definition ex_frag (first : bool) : msg_part :=
  MsgPart (repeat 0 20) 5 false first 0 (repeat 1 10).
Definition ex_allowed : Z -> Z -> option bool := fun uid gid => cred_allowed_as PW_NONE true 1000 100 uid gid.

Lemma ex_ep_wf : ep_wf ex_msg_ep.
Proof. constructor. Qed.

(** The message fills the request. *)
Lemma ex_fits : fits_request 439 (ex_args [1; 2; 3]).
Proof. by unfold fits_request. Qed.

Lemma msg_publish_deliver_witness :
  exists p d, rep_publish 8 439 0 (fun _ => 0) true ex_junk (3, 4) (ex_args [1; 2; 3]) = Some (0, [p]) /\
    process_msg true (Some PEER_OTHER) true ex_allowed p ex_msg_ep = Some (MsgEp [] [d] [7] []) /\
    d_tag d = [102; 111; 111] /\ d_data d = [1; 2; 3].
Proof.
  destruct (msg_publish_deliver 439 0 (fun _ => 0) ex_junk (3, 4) (ex_args [1; 2; 3]) PEER_OTHER
    ex_allowed ex_msg_ep ex_junk_ok (ex_args_ok [1; 2; 3] ltac:(simpl; lia)) I I ex_ep_wf
    (or_intror (Forall_nil_2 _)) ex_fits eq_refl eq_refl) as (p & d & H1 & H2 & _ & H3 & _ & _ & _ & _ & _ & H4 & _).
  exists p, d. split_and!; assumption.
Defined.

Lemma process_msg_preserves_witness :
  exists ep', process_msg true (Some PEER_OTHER) false ex_allowed
    (MsgPart (repeat 0 20) 5 true true 0 (repeat 1 400)) ex_msg_ep = Some ep' /\ ep_wf ep'.
Proof.
  eexists. split; [vm_compute; reflexivity|].
  eapply (process_msg_preserves PEER_OTHER false ex_allowed (MsgPart (repeat 0 20) 5 true true 0 (repeat 1 400)));
    [exact I|exact ex_ep_wf|reflexivity|vm_compute; reflexivity].
Defined.

Lemma later_fragment_refused_witness :
  process_msg true (Some PEER_OTHER) true ex_allowed (ex_frag false) ex_msg_ep = None.
Proof.
  apply (later_fragment_refused PEER_OTHER true ex_allowed (ex_frag false) ex_msg_ep);
    [exact I|exact ex_ep_wf|reflexivity|reflexivity|vm_compute; discriminate].
Defined.

Lemma part_send_terminates_witness :
  is_Some (part_send [] 0 50 0 (fun _ => 0) 6 true [[1; 2]]) /\
  forall fuel, part_send [] 0 50 0 (fun _ => 0) fuel true [[1; 2; 3]] = None.
Proof.
  split.
  - apply (proj1 (part_send_terminates [] 0 50 0 (fun _ => 0) [[1; 2]] ltac:(lia))).
    repeat constructor. vm_compute. discriminate.
  - apply (proj2 (part_send_terminates [] 0 50 0 (fun _ => 0) [[1; 2; 3]] ltac:(lia)));
      [reflexivity|]. apply Exists_cons_hd. vm_compute. reflexivity.
Defined.

Lemma straddling_message_fails_witness :
  exists p1 p2 ep1,
    rep_publish 10 440 0 (fun _ => 0) true ex_junk (3, 4) (ex_args [1; 2; 3; 4; 5]) = Some (0, [p1; p2]) /\
    p_msg p2 = [1; 2; 3; 4; 5] /\
    process_msg true (Some PEER_OTHER) true ex_allowed p1 ex_msg_ep = Some ep1 /\ delivered ep1 = [] /\
    process_msg true (Some PEER_OTHER) true ex_allowed p2 ep1 = None.
Proof.
  apply (straddling_message_fails 440 0 (fun _ => 0) ex_junk (3, 4) (ex_args [1; 2; 3; 4; 5]) PEER_OTHER
    ex_allowed ex_msg_ep ex_junk_ok (ex_args_ok [1; 2; 3; 4; 5] ltac:(simpl; lia)) I I eq_refl);
    [repeat split; vm_compute; first [reflexivity|discriminate]|reflexivity].
Defined.

Lemma hop_records_overrun_witness :
  rep_publish 8 1024 0 (fun _ => 0) true ex_junk (3, 4)
    (PublishArgs [102] 77 1 None 5 1000 100 384 10 (Some (repeat 0 320)) [1] (1, 2)) = None.
Proof.
  apply (hop_records_overrun 8 1024 0 (fun _ => 0) true ex_junk (3, 4)
    (PublishArgs [102] 77 1 None 5 1000 100 384 10 (Some (repeat 0 320)) [1] (1, 2)) (repeat 0 320));
    [reflexivity|simpl; lia].
Defined.

Lemma cred_group_not_checked_witness :
  cred_allowed_as (PW_GROUPS [100; 200]) true 1000 100 1000 200 = Some false.
Proof. apply (cred_group_not_checked [100; 200] 1000 100 200); discriminate. Defined.

Lemma forward_ep_ignores_network_witness :
  exists i, 0 <= i < 8 /\
    forward_ep 77 [2; 0; 1; 187; 10; 0; 0; 1] 8 = Some i /\
    forward_ep 77 [2; 0; 1; 187; 192; 168; 0; 1] 8 = Some i.
Proof. apply (forward_ep_ignores_network 77 8 1 187 10 0 192 168 0 1 []); lia. Defined.
