(* ===== verification/MsgSend.v ===== *)
(** * Publishing and forwarding a message

    src/ldms/src/core/ldms_msg.c, [ldms_msg_publish] and the callback
    [__remote_client_cb] that forwards what a peer subscribed to: the choice
    of the endpoint, the quotas taken and given back on every branch, and the
    queue of messages that wait for quota.  Written over the quota words of
    RailQuota, so that other threads may run between two accesses. *)

From stdpp Require Import prelude.
From S2P Require Import Prelude Conc RailQuota RailQuotaSpec Bytes MsgPart.

(** The event given to the callback; [ev_msg] names the message and
    [ev_has_sbuf] tells whether it came from a peer ([_ev->sbuf]). *)
Record recv_event := RecvEvent {
  ev_close : bool;
  ev_is_rail : bool;
  ev_src : bytes;
  ev_tag_hash : Z;
  ev_tag_len : Z;
  ev_data_len : Z;
  ev_msg : pending_sbuf;
  ev_has_sbuf : bool;
}.

Section send.
Context {S : Type}.

(** [reps i] is the [i]-th endpoint of the rail, [cli_rate] the rate quota of
    the client, [sent] the messages published, [gn] the counter [__msg_gn]. *)
Context (n_eps : Z) (reps : Z -> lens S ldms_rail_ep_s) (cli_rate : lens S ldms_rail_rate_quota_s)
  (clock : lens S (Z + Z)) (sent : lens S (list pending_sbuf)) (gn : lens S Z).

(** Outcomes of the calls outside: the allocation of profiling contexts, what
    [__rep_publish] returns for a message, [malloc] of a queue entry, and
    [ldms_access_check] of the peer. *)
Context (op_ctxt_alloc : pending_sbuf -> bool) (rep_publish : pending_sbuf -> Z)
  (malloc_ok access_ok : bool).

Definition append {A} (l : lens S (list A)) (x : A) : M (conc S) unit :=
  modify (fun c => Conc (lset l (lget l (shared c) ++ [x]) (shared c)) (others c)).

Definition remote_client_cb (ev : recv_event) : M (conc S) Z :=
  if ev_close ev then mret 0 else
  if negb (ev_is_rail ev) then mret ENOTSUP else
  match forward_ep (ev_tag_hash ev) (ev_src ev) n_eps with
  | None => fun _ => None
  | Some i =>
      let rep := reps i in
      _ ← rep_flush_sbuf_tq rep clock sent op_ctxt_alloc rep_publish;
      if negb access_ok then mret 0 else
      rc ← rate_quota_acquire cli_rate clock (ev_data_len ev);
      if negb (rc =? 0) then mret rc else
      rc ← rep_quota_acquire rep clock (u32 (ev_tag_len ev + ev_data_len ev));
      if negb (rc =? 0) then
        rate_quota_release cli_rate clock (ev_data_len ev);;
        if negb (ev_has_sbuf ev) then mret rc else
        if negb malloc_ok then mret rc else
        append (lens_comp rep l_sbuf_tq) (ev_msg ev);;
        mret rc
      else if negb (op_ctxt_alloc (ev_msg ev)) then mret ENOMEM
      else
        let rc := rep_publish (ev_msg ev) in
        if negb (rc =? 0) then
          rate_quota_release cli_rate clock (ev_data_len ev);;
          mret rc
        else append sent (ev_msg ev);; mret 0
  end.

(** [cred_rc] is [__publish_cred_check] of the credential given, 0 when there
    is none; [x] the transport given, with its kind and [peer_msg_enabled];
    [deliver] the result of [__msg_deliver] to the clients of this process. *)
Definition ldms_msg_publish (enabled : bool) (cred_rc : Z) (x : option (bool * bool)) (deliver : Z)
    (tag : bytes) (data_len : Z) (msg : pending_sbuf) : M (conc S) Z :=
  if negb enabled then mret ENOTSUP else
  _ ← add_fetch gn 1;
  if negb (cred_rc =? 0) then mret cred_rc else
  let hash := fnv_hash_a1_32 tag FNV_32_PRIME in
  match x with
  | Some (is_rail, peer_msg_enabled) =>
      if negb is_rail then mret ENOTSUP else
      if negb peer_msg_enabled then mret ENOTSUP else
      let rep := reps ((hash mod primer) mod n_eps) in
      _ ← rep_flush_sbuf_tq rep clock sent op_ctxt_alloc rep_publish;
      rc ← rep_quota_acquire rep clock (Z.of_nat (length tag) + 1 + data_len);
      if negb (rc =? 0) then mret rc else
      if negb (op_ctxt_alloc msg) then mret ENOMEM else
      let rc := rep_publish msg in
      if negb (rc =? 0) then mret rc else append sent msg;; mret 0
  | None => mret deliver
  end.
End send.

(** ** The state around one endpoint *)

Record send_world := SendWorld {
  sw_ep : ldms_rail_ep_s;
  sw_clock : Z + Z;
  sw_sent : list pending_sbuf;
  sw_cli : ldms_rail_rate_quota_s;
  sw_gn : Z;
}.

Definition l_sw_ep : lens send_world ldms_rail_ep_s :=
  Lens sw_ep (fun v w => SendWorld v (sw_clock w) (sw_sent w) (sw_cli w) (sw_gn w)).
Definition l_sw_clock : lens send_world (Z + Z) :=
  Lens sw_clock (fun v w => SendWorld (sw_ep w) v (sw_sent w) (sw_cli w) (sw_gn w)).
Definition l_sw_sent : lens send_world (list pending_sbuf) :=
  Lens sw_sent (fun v w => SendWorld (sw_ep w) (sw_clock w) v (sw_cli w) (sw_gn w)).
Definition l_sw_cli : lens send_world ldms_rail_rate_quota_s :=
  Lens sw_cli (fun v w => SendWorld (sw_ep w) (sw_clock w) (sw_sent w) v (sw_gn w)).
Definition l_sw_gn : lens send_world Z :=
  Lens sw_gn (fun v w => SendWorld (sw_ep w) (sw_clock w) (sw_sent w) (sw_cli w) v).

#[export] Instance l_sw_ep_ok : LensOk l_sw_ep.
Proof. split; by intros; try destruct s. Qed.
#[export] Instance l_sw_gn_ok : LensOk l_sw_gn.
Proof. split; by intros; try destruct s. Qed.

(** Nothing waits, no rate limit for the client, and the words of the endpoint
    are in range. *)
Definition send_ready (now : Z) (w : send_world) : Prop :=
  sbuf_tq (sw_ep w) = [] /\ ep_ok (sw_ep w) /\ send_quota (sw_ep w) <> LDMS_UNLIMITED /\
  rate (sw_cli w) = LDMS_UNLIMITED /\ sw_clock w = inr now.

Section accounting.
Context (op_ctxt_alloc : pending_sbuf -> bool) (rep_publish : pending_sbuf -> Z).

Abbreviation flush := (rep_flush_sbuf_tq l_sw_ep l_sw_clock l_sw_sent op_ctxt_alloc rep_publish).

Lemma runs_flush_empty w (Q : Z -> conc send_world -> Prop) :
  sbuf_tq (sw_ep w) = [] -> Q 0 (Conc w []) -> runs flush (Conc w []) Q.
Proof.
  intros Hq HQ. unfold rep_flush_sbuf_tq. apply runs_bind, runs_gets. cbn. rewrite Hq.
  apply runs_bind, runs_bind, runs_gets. cbn. rewrite Hq. by do 2 apply runs_ret.
Qed.

(** What one message of [q] bytes may do to the world. *)
Definition accounted (q : Z) (msg : pending_sbuf) (queue : bool) (rc : Z) (w w' : send_world) : Prop :=
  (rc = 0 /\ balance (sw_ep w') = balance (sw_ep w) - q /\ sw_sent w' = sw_sent w ++ [msg] /\
   sbuf_tq (sw_ep w') = []) \/
  (rc = ENOBUFS /\ balance (sw_ep w') = balance (sw_ep w) /\ sw_sent w' = sw_sent w /\
   sbuf_tq (sw_ep w') = if queue then [msg] else []) \/
  ((op_ctxt_alloc msg = false /\ rc = ENOMEM \/ rc = rep_publish msg /\ rc <> 0) /\
   balance (sw_ep w') = balance (sw_ep w) - q /\ sw_sent w' = sw_sent w /\ sbuf_tq (sw_ep w') = []).

(** Taking the quota of the endpoint. *)
Lemma runs_take q now w Q :
  word64 q -> send_ready now w ->
  (forall rc w', ep_acquire q (inr now) (sw_ep w) = (rc, sw_ep w') ->
     w' = lset l_sw_ep (sw_ep w') w -> Q rc (Conc w' [])) ->
  runs (rep_quota_acquire l_sw_ep l_sw_clock q) (Conc w []) Q.
Proof.
  intros Hq (Htq & Hok & Hlim & Hcli & Hclk) HQ.
  eapply runs_mono; [by apply (runs_rep_quota_acquire l_sw_ep l_sw_clock q (inr now) w)|].
  intros rc c' (-> & ->). apply HQ; simpl; [by destruct (ep_acquire _ _ _)|done].
Qed.

(** The client has no rate limit. *)
Lemma runs_cli_acquire n w Q :
  rate (sw_cli w) = LDMS_UNLIMITED -> Q 0 (Conc w []) ->
  runs (rate_quota_acquire l_sw_cli l_sw_clock n) (Conc w []) Q.
Proof.
  intros Hr HQ. unfold rate_quota_acquire. cbv zeta. load_alone. simpl. rewrite Hr, Z.eqb_refl.
  by apply runs_ret.
Qed.

Lemma runs_cli_release n w Q :
  rate (sw_cli w) = LDMS_UNLIMITED -> Q tt (Conc w []) ->
  runs (rate_quota_release l_sw_cli l_sw_clock n) (Conc w []) Q.
Proof.
  intros Hr HQ. unfold rate_quota_release. cbv zeta. load_alone. simpl. rewrite Hr, Z.eqb_refl.
  by apply runs_ret.
Qed.
End accounting.

(** Forwarding a message either publishes it and takes its bytes from
    the balance of the endpoint picked, or finds too little quota, leaves the
    balance alone and queues the message when it came from a peer; when the
    profiling context cannot be allocated or publishing fails, the bytes are
    taken although nothing was sent, and are not given back. *)
Theorem forward_accounting alloc publish malloc_ok n_eps ev i now w :
  send_ready now w -> ev_close ev = false -> ev_is_rail ev = true ->
  forward_ep (ev_tag_hash ev) (ev_src ev) n_eps = Some i ->
  0 <= ev_tag_len ev + ev_data_len ev < 4294967296 ->
  runs (remote_client_cb n_eps (fun _ => l_sw_ep) l_sw_cli l_sw_clock l_sw_sent alloc publish malloc_ok true ev)
    (Conc w []) (fun rc c' => exists w', c' = Conc w' [] /\
      accounted alloc publish (ev_tag_len ev + ev_data_len ev) (ev_msg ev) (ev_has_sbuf ev && malloc_ok) rc w w').
Proof.
  intros Hready Hc Hr Hep Hlen. pose proof Hready as (Htq & Hok & Hlim & Hcli & Hclk).
  unfold remote_client_cb. rewrite Hc, Hr, Hep. cbn [negb]. cbv zeta.
  apply runs_bind, runs_flush_empty; [done|]. cbn [negb].
  apply runs_bind, runs_cli_acquire; [done|]. cbn [negb Z.eqb].
  rewrite u32_small by done. apply runs_bind, (runs_take _ now); [unfold word64; lia|done|].
  intros rc w' Hacq Hw'. apply ep_acquire_balance in Hacq as (Hrc & _ & _ & Hb & Hs & _);
    [|unfold word64; lia|done..].
  assert (sw_cli w' = sw_cli w /\ sw_sent w' = sw_sent w) as [Hcli' Hsent] by (by rewrite Hw').
  rewrite Htq in Hs. unfold accounted. destruct Hrc as [-> | ->].
  - cbn in *. destruct (alloc (ev_msg ev)) eqn:Ea; cbn [negb].
    2: { apply runs_ret. exists w'. split; [done|]. right; right. auto. }
    destruct (Z.eqb_spec (publish (ev_msg ev)) 0) as [Hp|Hp]; cbn [negb].
    + apply runs_bind, runs_modify, runs_ret. eexists. split; [done|]. left. by rewrite <- Hsent.
    + apply runs_bind, runs_cli_release; [by rewrite Hcli'|]. apply runs_ret.
      exists w'. split; [done|]. right; right. auto.
  - cbn in *. rewrite Z.sub_0_r in Hb. apply runs_bind, runs_cli_release; [by rewrite Hcli'|].
    destruct (ev_has_sbuf ev); cbn [negb andb];
      [|apply runs_ret; exists w'; split; [done|]; right; left; done].
    destruct malloc_ok; cbn [negb]; [|apply runs_ret; exists w'; split; [done|]; right; left; done].
    apply runs_bind, runs_modify, runs_ret. eexists. split; [done|]. right; left.
    cbn. by rewrite Hs.
Qed.

(** Publishing to a peer takes a new generation number even when it then
    fails, and accounts for the message as forwarding does, except that a
    message that finds too little quota is not queued: the caller gets
    [ENOBUFS]. *)
Theorem publish_accounting alloc publish n_eps deliver tag data_len msg now w :
  send_ready now w -> 0 <= data_len -> Z.of_nat (length tag) + 1 + data_len < 2 ^ 64 ->
  runs (ldms_msg_publish n_eps (fun _ => l_sw_ep) l_sw_clock l_sw_sent l_sw_gn alloc publish
          true 0 (Some (true, true)) deliver tag data_len msg)
    (Conc w []) (fun rc c' => exists w', c' = Conc w' [] /\ sw_gn w' = u64 (sw_gn w + 1) /\
      accounted alloc publish (Z.of_nat (length tag) + 1 + data_len) msg false rc w w').
Proof.
  intros Hready Hd Hlen. unfold ldms_msg_publish. cbn [negb].
  apply runs_bind, runs_add_fetch. intros hs rest Hm. alone. cbn [negb Z.eqb]. cbv zeta.
  set (w1 := lset l_sw_gn (u64 (lget l_sw_gn w + 1)) w).
  assert (send_ready now w1) as Hready1 by exact Hready.
  pose proof Hready as (Htq & Hok & Hlim & Hcli & Hclk).
  apply runs_bind, runs_flush_empty; [done|].
  apply runs_bind, (runs_take _ now); [unfold word64; lia|done|].
  intros rc w' Hacq Hw'. apply ep_acquire_balance in Hacq as (Hrc & _ & _ & Hb & Hs & _);
    [|unfold word64; lia|done..].
  assert (sw_gn w' = u64 (sw_gn w + 1) /\ sw_sent w' = sw_sent w) as [Hgn Hsent] by (by rewrite Hw').
  cbn in Hs. rewrite Htq in Hs. unfold accounted. destruct Hrc as [-> | ->].
  - cbn in Hb. cbn [negb Z.eqb]. destruct (alloc msg) eqn:Ea; cbn [negb].
    2: { apply runs_ret. exists w'. split_and!; [done|done|]. right; right. auto. }
    destruct (Z.eqb_spec (publish msg) 0) as [Hp|Hp]; cbn [negb].
    + apply runs_bind, runs_modify, runs_ret. eexists. split_and!; [done|done|]. left. by rewrite <- Hsent.
    + apply runs_ret. exists w'. split_and!; [done|done|]. right; right. auto.
  - cbn in Hb. rewrite Z.sub_0_r in Hb. cbn [negb Z.eqb]. apply runs_ret. exists w'.
    split_and!; [done|done|]. right; left. done.
Qed.

(** ** Witnesses *)

Definition ex_world (q : Z) : send_world :=
  SendWorld (ex_ep q 0 []) (inr 10) [] (RateQuota 0 LDMS_UNLIMITED 0) 41.
Definition ex_event : recv_event :=
  RecvEvent false true (repeat 0 20) 77 4 10 (PendingSbuf 1 14) true.

Lemma ex_world_ready : send_ready 10 (ex_world 100).
Proof. vm_compute. intuition congruence. Qed.

Lemma forward_accounting_witness :
  runs (remote_client_cb 2 (fun _ => l_sw_ep) l_sw_cli l_sw_clock l_sw_sent (fun _ => true) (fun _ => EINVAL)
          true true ex_event)
    (Conc (ex_world 100) []) (fun rc c' => exists w', c' = Conc w' [] /\
      accounted (fun _ => true) (fun _ => EINVAL) 14 (PendingSbuf 1 14) true rc (ex_world 100) w').
Proof.
  apply (forward_accounting (fun _ => true) (fun _ => EINVAL) true 2 ex_event 1 10 (ex_world 100) ex_world_ready);
    [reflexivity|reflexivity|vm_compute; reflexivity|simpl; lia].
Defined.

Lemma publish_accounting_witness :
  runs (ldms_msg_publish 2 (fun _ => l_sw_ep) l_sw_clock l_sw_sent l_sw_gn (fun _ => true) (fun _ => 0)
          true 0 (Some (true, true)) 0 [102; 111; 111] 10 (PendingSbuf 1 14))
    (Conc (ex_world 100) []) (fun rc c' => exists w', c' = Conc w' [] /\ sw_gn w' = u64 (41 + 1) /\
      accounted (fun _ => true) (fun _ => 0) 14 (PendingSbuf 1 14) false rc (ex_world 100) w').
Proof.
  apply (publish_accounting (fun _ => true) (fun _ => 0) 2 0 [102; 111; 111] 10 (PendingSbuf 1 14)
    10 (ex_world 100) ex_world_ready); [lia|simpl; lia].
Defined.
