(* ===== verification/Mem.v ===== *)
(** * Byte memory

    One allocation of bytes at an address of the machine: what [mm_alloc]
    returns and what a metric set lives in.  A load or a store outside of the
    allocation is undefined and gets stuck.  Words are stored in little-endian
    order, the byte order of the host and of the metric-set format. *)

From stdpp Require Import prelude.
From S2P Require Import Prelude Bytes.

(** [lia] with quotients and remainders. *)
Ltac dlia := Z.to_euclidean_division_equations; lia.

Record mem := Mem { base : Z; cells : bytes }.

Definition msize (m : mem) : Z := Z.of_nat (length (cells m)).

(** The [n] bytes from [p] belong to the allocation. *)
Definition inside (m : mem) (p n : Z) : Prop :=
  base m <= p /\ 0 <= n /\ p + n <= base m + msize m.

#[export] Instance inside_dec m p n : Decision (inside m p n).
Proof. unfold inside. apply _. Defined.

(** The allocation with [bs] written at [p]. *)
Definition upd (m : mem) (p : Z) (bs : bytes) : mem :=
  let k := Z.to_nat (p - base m) in
  Mem (base m) (take k (cells m) ++ bs ++ drop (k + length bs) (cells m)).

Definition peek (p n : Z) : M mem bytes := fun m =>
  if decide (inside m p n)
  then Some (take (Z.to_nat n) (drop (Z.to_nat (p - base m)) (cells m)), m)
  else None.

Definition poke (p : Z) (bs : bytes) : M mem unit := fun m =>
  if decide (inside m p (Z.of_nat (length bs))) then Some (tt, upd m p bs) else None.

(** Loads and stores of [w]-byte words. *)
Definition ldw (w : nat) (p : Z) : M mem Z := bs ← peek p (Z.of_nat w); mret (le_value bs).
Definition stw (w : nat) (p v : Z) : M mem unit := poke p (le_bytes w v).

(** [memcpy] and [memset]. *)
Definition memcpy (dst src n : Z) : M mem unit := bs ← peek src n; poke dst bs.
Definition memset (dst c n : Z) : M mem unit := poke dst (replicate (Z.to_nat n) (c mod 256)).

(** ** Contents

    [has m p bs]: the bytes [bs] are in the memory at [p]. *)

Definition has (m : mem) (p : Z) (bs : bytes) : Prop :=
  exists pre post, cells m = pre ++ bs ++ post /\ p = base m + Z.of_nat (length pre).

Abbreviation zlen l := (Z.of_nat (length l)).

(** Two ranges that do not meet. *)
Definition apart (p n q k : Z) : Prop := p + n <= q \/ q + k <= p.

Section contents.
Implicit Types (m : mem) (bs old new : bytes).

Lemma has_inside m p bs : has m p bs -> inside m p (zlen bs).
Proof.
  intros (pre & post & Hc & ->). unfold inside, msize. rewrite Hc, !length_app. lia.
Qed.

Lemma inside_has m p n :
  inside m p n -> has m p (take (Z.to_nat n) (drop (Z.to_nat (p - base m)) (cells m))).
Proof.
  unfold inside, msize. intros (? & ? & ?).
  exists (take (Z.to_nat (p - base m)) (cells m)),
    (drop (Z.to_nat n) (drop (Z.to_nat (p - base m)) (cells m))).
  rewrite !take_drop, length_take. split; [done|lia].
Qed.

Lemma inside_has_ex m p n : inside m p n -> exists bs, has m p bs /\ zlen bs = n.
Proof.
  intros H. eexists. split; [by apply inside_has|].
  rewrite length_take, length_drop. unfold inside, msize in H. lia.
Qed.

Lemma has_app m p a b : has m p (a ++ b) <-> has m p a /\ has m (p + zlen a) b.
Proof.
  split.
  - intros (pre & post & Hc & ->). split.
    + exists pre, (b ++ post). by rewrite Hc, <- !app_assoc.
    + exists (pre ++ a), post. rewrite Hc, length_app, <- !app_assoc. split; [done|lia].
  - intros [(pre & post & Hc & ->) (pre' & post' & Hc' & Hp)].
    exists pre, post'. split; [|done].
    rewrite Hc in Hc'. rewrite app_assoc in Hc'. apply app_inj_1 in Hc' as [_ ->].
    + by rewrite Hc, <- app_assoc.
    + rewrite length_app. lia.
Qed.

Lemma has_sub m p bs k n :
  has m p bs -> 0 <= k -> 0 <= n -> k + n <= zlen bs ->
  has m (p + k) (take (Z.to_nat n) (drop (Z.to_nat k) bs)).
Proof.
  intros H ? ? ?. rewrite <- (take_drop (Z.to_nat k) bs) in H.
  apply has_app in H as [_ H]. rewrite length_take in H.
  rewrite <- (take_drop (Z.to_nat n) (drop (Z.to_nat k) bs)) in H.
  apply has_app in H as [H _]. replace (p + k) with (p + Z.of_nat (Z.to_nat k `min` length bs)) by lia.
  done.
Qed.

Lemma has_inj m p a b : has m p a -> has m p b -> length a = length b -> a = b.
Proof.
  intros (pre & post & Hc & ->) (pre' & post' & Hc' & Hp) Hlen.
  rewrite Hc in Hc'. apply app_inj_1 in Hc' as [<- Hc']; [|lia].
  by apply app_inj_1 in Hc' as [<- _].
Qed.

(** ** Writes *)

Lemma upd_has_same m p bs : inside m p (zlen bs) -> has (upd m p bs) p bs.
Proof.
  unfold inside, msize. intros (? & ? & ?).
  exists (take (Z.to_nat (p - base m)) (cells m)), (drop (Z.to_nat (p - base m) + length bs) (cells m)).
  split; [done|]. rewrite length_take. cbn [upd base]. lia.
Qed.

Lemma upd_split m pre old post bs :
  cells m = pre ++ old ++ post -> length bs = length old ->
  upd m (base m + zlen pre) bs = Mem (base m) (pre ++ bs ++ post).
Proof.
  intros Hc Hl. unfold upd. f_equal. replace (Z.to_nat (base m + zlen pre - base m)) with (length pre) by lia.
  rewrite Hc, take_app_length, Hl, <- drop_drop, drop_app_length, drop_app_length. done.
Qed.

Lemma upd_has_other m p bs q cs :
  inside m p (zlen bs) -> has m q cs -> apart p (zlen bs) q (zlen cs) ->
  has (upd m p bs) q cs.
Proof.
  intros (old & (pre & post & Hc & Hp) & Hl)%inside_has_ex Hq Hap.
  apply Nat2Z.inj in Hl. rewrite Hp, (upd_split m pre old post bs) by done.
  destruct Hq as (pre' & post' & Hc' & Hq). rewrite Hc in Hc'.
  destruct Hap as [Hap|Hap].
  - (* the write comes first *)
    assert (length (pre ++ old) <= length pre')%nat by (rewrite length_app; lia).
    assert (exists mid, pre' = (pre ++ old) ++ mid) as [mid ->].
    { exists (drop (length (pre ++ old)) pre').
      rewrite app_assoc in Hc'. apply (f_equal (take (length (pre ++ old)))) in Hc'.
      rewrite take_app_length, take_app_le in Hc' by lia.
      rewrite Hc' at 1. by rewrite take_drop. }
    exists (pre ++ bs ++ mid), post'. cbn [cells base]. split.
    + rewrite <- !app_assoc in Hc'. do 2 apply app_inv_head in Hc'.
      rewrite Hc', <- !app_assoc. done.
    + rewrite Hq, !length_app. lia.
  - assert (length (pre' ++ cs) <= length pre)%nat by (rewrite length_app; lia).
    assert (exists mid, pre = (pre' ++ cs) ++ mid) as [mid ->].
    { exists (drop (length (pre' ++ cs)) pre).
      rewrite (app_assoc pre' cs) in Hc'. apply (f_equal (take (length (pre' ++ cs)))) in Hc'.
      rewrite take_app_length, take_app_le in Hc' by lia.
      rewrite <- Hc' at 1. by rewrite take_drop. }
    exists pre', (mid ++ bs ++ post). cbn [cells base]. split; [|done]. by rewrite <- !app_assoc.
Qed.

Lemma base_upd m p bs : base (upd m p bs) = base m.
Proof. done. Qed.

Lemma msize_upd m p bs : inside m p (zlen bs) -> msize (upd m p bs) = msize m.
Proof.
  unfold inside, msize, upd. cbn [cells]. intros (? & ? & ?).
  rewrite !length_app, length_take, length_drop. lia.
Qed.

Lemma inside_upd m p bs q n : inside m p (zlen bs) -> inside (upd m p bs) q n <-> inside m q n.
Proof. intros H. apply msize_upd in H. unfold inside. by rewrite base_upd, H. Qed.

Lemma inside_sub m p n q k : inside m p n -> p <= q -> 0 <= k -> q + k <= p + n -> inside m q k.
Proof. unfold inside. lia. Qed.

(** Every cell is a byte. *)
Definition bytes_ok (bs : bytes) : Prop := Forall (fun b => 0 <= b < 256) bs.

Lemma bytes_ok_app a b : bytes_ok (a ++ b) <-> bytes_ok a /\ bytes_ok b.
Proof. apply Forall_app. Qed.

Lemma bytes_ok_has m p bs : bytes_ok (cells m) -> has m p bs -> bytes_ok bs.
Proof. intros H (pre & post & Hc & _). rewrite Hc, !bytes_ok_app in H. by destruct H as (_ & ? & _). Qed.

Lemma bytes_ok_upd m p bs : bytes_ok (cells m) -> bytes_ok bs -> bytes_ok (cells (upd m p bs)).
Proof.
  intros. unfold upd. cbn [cells]. rewrite !bytes_ok_app. split_and!; [by apply Forall_take|done|by apply Forall_drop].
Qed.

Lemma bytes_ok_le w v : bytes_ok (le_bytes w v).
Proof.
  revert v. induction w as [|w IH]; intros v; [constructor|]. simpl.
  constructor; [apply Z.mod_pos_bound; lia|apply IH].
Qed.

Lemma bytes_ok_zeros n : bytes_ok (replicate n 0).
Proof. apply Forall_replicate. lia. Qed.

Lemma le_value_range bs : bytes_ok bs -> 0 <= le_value bs < 256 ^ zlen bs.
Proof.
  induction 1 as [|b bs Hb _ IH]; simpl le_value; cbn [length]; [done|].
  rewrite Nat2Z.inj_succ, Z.pow_succ_r by lia. lia.
Qed.

Lemma le_value_bytes_mod w v : le_value (le_bytes w v) = v mod 256 ^ Z.of_nat w.
Proof.
  revert v. induction w as [|w IH]; intros v; simpl le_bytes; simpl le_value.
  - change (256 ^ Z.of_nat 0) with 1. by rewrite Z.mod_1_r.
  - rewrite IH, Nat2Z.inj_succ, Z.pow_succ_r by lia. rewrite Z.rem_mul_r by lia. lia.
Qed.

Lemma le_bytes_value bs : bytes_ok bs -> le_bytes (length bs) (le_value bs) = bs.
Proof.
  induction 1 as [|b bs Hb _ IH]; [done|]. simpl.
  rewrite (Z.mul_comm 256), Z.mod_add, Z.mod_small, Z.div_add, Z.div_small, Z.add_0_l, IH by lia. done.
Qed.

(** ** Computations *)

Lemma runs_peek m p bs n (Q : bytes -> mem -> Prop) :
  has m p bs -> n = zlen bs -> Q bs m -> runs (peek p n) m Q.
Proof.
  intros H -> HQ. pose proof (has_inside _ _ _ H) as Hi. exists bs, m. split; [|done].
  unfold peek. rewrite decide_True by done. f_equal. f_equal.
  apply (has_inj m p); [by apply inside_has|done|].
  rewrite length_take, length_drop. unfold inside, msize in Hi. lia.
Qed.

Lemma runs_poke m p bs (Q : unit -> mem -> Prop) :
  inside m p (zlen bs) -> Q tt (upd m p bs) -> runs (poke p bs) m Q.
Proof. intros. exists tt, (upd m p bs). split; [|done]. unfold poke. by rewrite decide_True. Qed.

Lemma runs_ldw w m p bs (Q : Z -> mem -> Prop) :
  has m p bs -> length bs = w -> Q (le_value bs) m -> runs (ldw w p) m Q.
Proof. intros H <- HQ. apply runs_bind. eapply runs_peek; [done..|]. by apply runs_ret. Qed.

(** The common case: a word that was stored. *)
Lemma runs_ld_word w m p v (Q : Z -> mem -> Prop) :
  has m p (le_bytes w v) -> 0 <= v < 256 ^ Z.of_nat w -> Q v m -> runs (ldw w p) m Q.
Proof.
  intros H Hv HQ. eapply runs_ldw; [done|by rewrite length_le_bytes|]. by rewrite le_value_bytes.
Qed.

Lemma runs_stw w m p v (Q : unit -> mem -> Prop) :
  inside m p (Z.of_nat w) -> Q tt (upd m p (le_bytes w v)) -> runs (stw w p v) m Q.
Proof. intros. apply runs_poke; [by rewrite length_le_bytes|done]. Qed.

End contents.
