(* ===== verification/MemFrame.v ===== *)
(** * Reasoning about writes

    A write changes the bytes of one range and no others: [frame m m' p n].
    The tactics step through a sequence of loads and stores and carry what is
    known about the memory across the stores. *)

From stdpp Require Import prelude.
From S2P Require Import Prelude Bytes Mem.

Open Scope Z_scope.

(** Only the [n] bytes at [p] may differ. *)
Record frame (m m' : mem) (p n : Z) : Prop := Frame {
  fr_base : base m' = base m;
  fr_size : msize m' = msize m;
  fr_bytes : bytes_ok (cells m) -> bytes_ok (cells m');
  fr_has q bs : has m q bs -> apart p n q (zlen bs) -> has m' q bs
}.

Section frame.
Implicit Types (m : mem).

Lemma frame_inside m m' p n q k : frame m m' p n -> inside m' q k <-> inside m q k.
Proof. intros [Hb Hs _ _]. unfold inside. by rewrite Hb, Hs. Qed.

Lemma frame_refl m p n : frame m m p n.
Proof. by constructor. Qed.

Lemma frame_trans m1 m2 m3 p n : frame m1 m2 p n -> frame m2 m3 p n -> frame m1 m3 p n.
Proof.
  intros [Hb1 Hs1 Ho1 Hh1] [Hb2 Hs2 Ho2 Hh2]. constructor; [congruence|congruence|auto|].
  intros q bs H Ha. by apply Hh2, Ha; apply Hh1, Ha.
Qed.

Lemma frame_sub m m' p n p' n' :
  frame m m' p n -> p' <= p -> p + n <= p' + n' -> frame m m' p' n'.
Proof.
  intros [Hb Hs Ho Hh] Hp Hn. constructor; [done..|]. intros q bs H Ha. apply Hh; [done|].
  unfold apart in *. lia.
Qed.

Lemma frame_upd m p bs : inside m p (zlen bs) -> bytes_ok bs -> frame m (upd m p bs) p (zlen bs).
Proof.
  intros Hi Hb. constructor; [done|by apply msize_upd|intros; by apply bytes_ok_upd|].
  intros. by apply upd_has_other.
Qed.

Lemma frame_has m m' p n q bs : frame m m' p n -> has m q bs -> apart p n q (zlen bs) -> has m' q bs.
Proof. intros H. apply H. Qed.

Lemma runs_poke' m p bs n (Q : unit -> mem -> Prop) :
  inside m p n -> zlen bs = n -> bytes_ok bs ->
  (forall m', has m' p bs -> frame m m' p n -> Q tt m') -> runs (poke p bs) m Q.
Proof.
  intros Hi <- Hb HQ. apply runs_poke; [done|]. apply HQ; [by apply upd_has_same|by apply frame_upd].
Qed.

Lemma runs_stw' w m p v n (Q : unit -> mem -> Prop) :
  n = Z.of_nat w -> inside m p n ->
  (forall m', has m' p (le_bytes w v) -> frame m m' p n -> Q tt m') -> runs (stw w p v) m Q.
Proof.
  intros -> Hi HQ. eapply runs_poke'; [done|by rewrite length_le_bytes|apply bytes_ok_le|done].
Qed.

(** A load from initialised memory yields some word. *)
Lemma runs_ldw_any w m p n (Q : Z -> mem -> Prop) :
  n = Z.of_nat w -> inside m p n -> bytes_ok (cells m) ->
  (forall v, has m p (le_bytes w v) -> 0 <= v < 256 ^ n -> Q v m) -> runs (ldw w p) m Q.
Proof.
  intros -> Hi Hb HQ. destruct (inside_has_ex _ _ _ Hi) as (bs & Hh & Hl). apply Nat2Z.inj in Hl.
  pose proof (bytes_ok_has _ _ _ Hb Hh) as Hok.
  eapply runs_ldw; [done|done|]. apply HQ.
  - by rewrite <- Hl, le_bytes_value.
  - rewrite <- Hl. by apply le_value_range.
Qed.

(** A copy of [n] bytes carries what the source contains. *)
Lemma runs_memcpy m dst src n (Q : unit -> mem -> Prop) :
  inside m dst n -> inside m src n -> bytes_ok (cells m) ->
  (forall m', (forall off bs, has m (src + off) bs -> 0 <= off -> off + zlen bs <= n -> has m' (dst + off) bs) ->
     frame m m' dst n -> Q tt m') ->
  runs (memcpy dst src n) m Q.
Proof.
  intros Hd Hs Hb HQ. destruct (inside_has_ex _ _ _ Hs) as (bs & Hbs & Hl).
  apply runs_bind. eapply runs_peek; [exact Hbs|by symmetry|].
  eapply runs_poke'; [exact Hd|exact Hl|by eapply bytes_ok_has|]. intros m' Hm' F. apply HQ; [|done].
  intros off cs Hcs Hlo Hhi. apply (has_sub _ _ _ off (zlen cs)) in Hm'; [|lia..].
  apply (has_sub _ _ _ off (zlen cs)) in Hbs; [|lia..].
  rewrite (has_inj m (src + off) _ _ Hcs Hbs) ; [done|]. rewrite length_take, length_drop. lia.
Qed.

End frame.

(** Writes to two ranges. *)
Record frame2 (m m' : mem) (p n q k : Z) : Prop := Frame2 {
  fr2_base : base m' = base m;
  fr2_size : msize m' = msize m;
  fr2_bytes : bytes_ok (cells m) -> bytes_ok (cells m');
  fr2_has a bs : has m a bs -> apart p n a (zlen bs) -> apart q k a (zlen bs) -> has m' a bs
}.

Section frame2.
Implicit Types (m : mem).

Lemma frame2_refl m p n q k : frame2 m m p n q k.
Proof. by constructor. Qed.

Lemma frame2_l m m' p n p1 n1 q k :
  frame m m' p1 n1 -> p <= p1 -> p1 + n1 <= p + n -> frame2 m m' p n q k.
Proof.
  intros [Hb Hs Ho Hh] Hp Hn. constructor; [done..|]. intros a bs H Ha _. apply Hh; [done|].
  unfold apart in *. lia.
Qed.

Lemma frame2_r m m' p n q1 k1 q k :
  frame m m' q1 k1 -> q <= q1 -> q1 + k1 <= q + k -> frame2 m m' p n q k.
Proof.
  intros [Hb Hs Ho Hh] Hp Hn. constructor; [done..|]. intros a bs H _ Ha. apply Hh; [done|].
  unfold apart in *. lia.
Qed.

Lemma frame2_trans m1 m2 m3 p n q k :
  frame2 m1 m2 p n q k -> frame2 m2 m3 p n q k -> frame2 m1 m3 p n q k.
Proof.
  intros [Hb1 Hs1 Ho1 Hh1] [Hb2 Hs2 Ho2 Hh2]. constructor; [congruence|congruence|auto|].
  intros a bs H Ha Hb. apply Hh2; [|done..]. by apply Hh1.
Qed.

Lemma frame2_sub m m' p n q k p' n' q' k' :
  frame2 m m' p n q k -> p' <= p -> p + n <= p' + n' -> q' <= q -> q + k <= q' + k' ->
  frame2 m m' p' n' q' k'.
Proof.
  intros [Hb Hs Ho Hh] ? ? ? ?. constructor; [done..|]. intros a bs Ha ? ?. apply Hh; [done|..];
    unfold apart in *; lia.
Qed.

Lemma frame2_inside m m' p n q k a c : frame2 m m' p n q k -> inside m' a c <-> inside m a c.
Proof. intros [Hb Hs _ _]. unfold inside. by rewrite Hb, Hs. Qed.

Lemma frame2_join m m' p n q k p' n' :
  frame2 m m' p n q k -> p' <= p -> p + n <= p' + n' -> p' <= q -> q + k <= p' + n' -> frame m m' p' n'.
Proof.
  intros [Hb Hs Ho Hh] ? ? ? ?. constructor; [done..|]. intros a bs Ha ?. apply Hh; [done|..];
    unfold apart in *; lia.
Qed.

End frame2.

(** Writes to a list of ranges. *)
Record framel (m m' : mem) (rs : list (Z * Z)) : Prop := Framel {
  frl_base : base m' = base m;
  frl_size : msize m' = msize m;
  frl_bytes : bytes_ok (cells m) -> bytes_ok (cells m');
  frl_has a bs : has m a bs -> Forall (fun r => apart r.1 r.2 a (zlen bs)) rs -> has m' a bs
}.

Section framel.
Implicit Types (m : mem) (rs : list (Z * Z)).

Lemma framel_refl m rs : framel m m rs.
Proof. by constructor. Qed.

Lemma framel_trans m1 m2 m3 rs : framel m1 m2 rs -> framel m2 m3 rs -> framel m1 m3 rs.
Proof.
  intros [Hb1 Hs1 Ho1 Hh1] [Hb2 Hs2 Ho2 Hh2]. constructor; [congruence|congruence|auto|].
  intros a bs H Ha. apply Hh2; [|done]. by apply Hh1.
Qed.

Lemma framel_mono m m' rs rs' : framel m m' rs -> rs ⊆ rs' -> framel m m' rs'.
Proof.
  intros [Hb Hs Ho Hh] Hsub. constructor; [done..|]. intros a bs H Ha. apply Hh; [done|].
  rewrite Forall_forall in *. auto.
Qed.

Lemma framel_of_frame m m' p n q k rs :
  frame m m' p n -> (q, k) ∈ rs -> q <= p -> p + n <= q + k -> framel m m' rs.
Proof.
  intros [Hb Hs Ho Hh] Hin ? ?. constructor; [done..|]. intros a bs Hq Ha. apply Hh; [done|].
  rewrite Forall_forall in Ha. specialize (Ha _ Hin). unfold apart in *. simpl in Ha. lia.
Qed.

Lemma framel_inside m m' rs a c : framel m m' rs -> inside m' a c <-> inside m a c.
Proof. intros [Hb Hs _ _]. unfold inside. by rewrite Hb, Hs. Qed.

End framel.

Lemma zlen_le w v : zlen (le_bytes w v) = Z.of_nat w.
Proof. by rewrite length_le_bytes. Qed.
Lemma zlen_zeros n : zlen (replicate n 0) = Z.of_nat n.
Proof. by rewrite length_replicate. Qed.
Lemma zlen_app (a b : bytes) : zlen (a ++ b) = zlen a + zlen b.
Proof. rewrite length_app. lia. Qed.
Lemma zlen_cons (a : Z) (b : bytes) : zlen (a :: b) = 1 + zlen b.
Proof. cbn [length]. lia. Qed.
Lemma zlen_nil : zlen ([] : bytes) = 0.
Proof. done. Qed.

Create Rewrite HintDb zlen.
#[export] Hint Rewrite zlen_le zlen_zeros zlen_app zlen_cons zlen_nil : zlen.

(** Arithmetic on ranges. *)
Ltac range := unfold apart, inside in *; autorewrite with zlen in *; lia.

(** The contents of a memory from those of an earlier one. *)
Ltac from_before :=
  match goal with
  | H : has ?m ?p ?bs |- has ?m ?p ?bs => exact H
  | F : frame ?m ?m' _ _ |- has ?m' _ _ => eapply (frame_has m m'); [exact F|from_before|try range]
  | F : frame2 ?m ?m' _ _ _ _ |- has ?m' _ _ => eapply (fr2_has m m'); [exact F|from_before|try range|try range]
  | F : framel ?m ?m' _ |- has ?m' _ _ =>
      eapply (frl_has m m'); [exact F|from_before|repeat (apply Forall_cons; split); cbn [fst snd]; try apply Forall_nil; try range]
  end.

(** Being inside is not changed by writes. *)
Ltac in_range :=
  match goal with
  | F : frame ?m ?m' _ _ |- inside ?m' _ _ => apply (proj2 (frame_inside _ _ _ _ _ _ F)); in_range
  | F : frame2 ?m ?m' _ _ _ _ |- inside ?m' _ _ => apply (proj2 (frame2_inside _ _ _ _ _ _ _ _ F)); in_range
  | F : framel ?m ?m' _ |- inside ?m' _ _ => apply (proj2 (framel_inside _ _ _ _ _ F)); in_range
  | _ => range
  end.

(** The writes of a sequence stay in one range. *)
Ltac frames :=
  match goal with
  | |- frame ?m ?m _ _ => apply frame_refl
  | F : frame ?m _ _ _ |- frame ?m _ _ _ =>
      eapply frame_trans; [eapply frame_sub; [exact F|range..]|clear F; frames]
  end.

(** One store of a sequence. *)
Ltac st_step m' H F :=
  apply runs_bind; eapply runs_stw'; [reflexivity| |intros m' H F].
