(* ===== verification/Reloc.v ===== *)
(** * Moving memory

    A computation on one block of bytes, and the same computation on a larger
    memory that contains a copy of the block at another address: [sim] says
    that whenever the first returns the second does, with the corresponding
    result and the copy changed in the same way.  It is what makes a structure
    whose links are offsets survive [memcpy]. *)

From stdpp Require Import prelude.
From S2P Require Import Prelude Bytes Mem MemFrame.

Open Scope Z_scope.

Section reloc.
Context (d lo : Z) (pre post : bytes) (Hlo : 0 < lo).

(** The memory [m2] holds the bytes of [m1] moved by [d].  Addresses close to
    NULL are outside of [m1]. *)
Record moved (m1 m2 : mem) : Prop := Moved {
  mv_cells : cells m2 = pre ++ cells m1 ++ post;
  mv_base : base m1 + d = base m2 + zlen pre;
  mv_null : 64 <= base m1;
  mv_bytes : bytes_ok (cells m1)
}.

Definition sim {A B} (R : A -> B -> Prop) (c1 : M mem A) (c2 : M mem B) : Prop :=
  forall m1 m2 a m1', moved m1 m2 -> c1 m1 = Some (a, m1') ->
    exists b m2', c2 m2 = Some (b, m2') /\ R a b /\ moved m1' m2'.

(** ** Rules *)

Lemma sim_ret {A B} (R : A -> B -> Prop) a b : R a b -> sim R (mret a) (mret b).
Proof. intros HR m1 m2 a' m1' Hm [= <- <-]. by exists b, m2. Qed.

Lemma sim_bind {A1 A2 B1 B2} (R : A1 -> A2 -> Prop) (R' : B1 -> B2 -> Prop) c1 c2 f1 f2 :
  sim R c1 c2 -> (forall a b, R a b -> sim R' (f1 a) (f2 b)) -> sim R' (c1 ≫= f1) (c2 ≫= f2).
Proof.
  intros Hc Hf m1 m2 b1 m1' Hm. unfold mbind, M_bind. destruct (c1 m1) as [[a n1]|] eqn:E; [|done].
  intros Hr. destruct (Hc m1 m2 a n1 Hm E) as (b & n2 & -> & HR & Hn). by apply (Hf a b HR n1 n2).
Qed.

Lemma sim_stuck {A B} (R : A -> B -> Prop) c : sim R stuck c.
Proof. by intros ? ? ? ?. Qed.

Lemma sim_assert (b : bool) : sim eq (c_assert b) (c_assert b).
Proof. destruct b; [by apply sim_ret|apply sim_stuck]. Qed.

Lemma sim_if {A B} (R : A -> B -> Prop) (b1 b2 : bool) t1 t2 e1 e2 :
  b2 = b1 -> sim R t1 t2 -> sim R e1 e2 -> sim R (if b1 then t1 else e1) (if b2 then t2 else e2).
Proof. intros ->. by destruct b1. Qed.

Lemma sim_lift {A} (o : option A) : sim eq (lift_opt o) (lift_opt o).
Proof. intros m1 m2 a m1' Hm H. unfold lift_opt in *. destruct o; [|done]. injection H as <- <-. by eexists _, m2. Qed.

Lemma sim_mono {A B} (R R' : A -> B -> Prop) c1 c2 : sim R c1 c2 -> (forall a b, R a b -> R' a b) -> sim R' c1 c2.
Proof. intros H HR m1 m2 a m1' Hm Hc. destruct (H m1 m2 a m1' Hm Hc) as (b & m2' & ? & ? & ?). exists b, m2'. auto. Qed.

(** Loops, with at least the fuel of the first. *)
Lemma sim_loop {A1 A2 B1 B2} (I : A1 -> A2 -> Prop) (R : B1 -> B2 -> Prop) f1 f2 body1 body2 a1 a2 :
  (forall a b, I a b -> sim (fun x y => match x, y with inl a, inl b => I a b | inr a, inr b => R a b | _, _ => False end)
     (body1 a) (body2 b)) ->
  I a1 a2 -> (f1 <= f2)%nat -> sim R (loopM f1 body1 a1) (loopM f2 body2 a2).
Proof.
  intros Hb. revert f2 a1 a2. induction f1 as [|f1 IH]; intros f2 a1 a2 HI Hf; [apply sim_stuck|].
  destruct f2 as [|f2]; [lia|]. cbn [loopM]. eapply sim_bind; [by apply Hb|].
  intros [x|x] [y|y] Hxy; try done; [apply IH; [done|lia]|by apply sim_ret].
Qed.

(** ** Pointers *)

Definition sh (p : Z) : Z := if p =? 0 then 0 else p + d.

(** NULL, or an address that is at least [lo] on both sides. *)
Definition ptr_ok (p : Z) : Prop := p = 0 \/ lo <= p /\ lo <= p + d.

Lemma sh_null p : ptr_ok p -> (sh p =? 0) = (p =? 0).
Proof. unfold sh. intros [->|[? ?]]; [done|]. destruct (Z.eqb_spec p 0); [lia|]. apply Z.eqb_neq. lia. Qed.

Lemma sh_eqb p q : ptr_ok p -> ptr_ok q -> (sh p =? sh q) = (p =? q).
Proof using Hlo.
  unfold sh, ptr_ok. intros. destruct (Z.eqb_spec p 0), (Z.eqb_spec q 0); subst; try done;
    repeat match goal with |- context [?a =? ?b] => destruct (Z.eqb_spec a b) end; try done; lia.
Qed.

Lemma sh_pos p : 0 < p -> sh p = p + d.
Proof. intros. unfold sh. rewrite (proj2 (Z.eqb_neq _ _)) by lia. done. Qed.

(** ** Loads and stores *)

Lemma moved_inside m1 m2 p n : moved m1 m2 -> inside m1 p n -> inside m2 (p + d) n.
Proof.
  intros [Hc Hb _ _]. unfold inside, msize. rewrite Hc, !length_app. lia.
Qed.

Lemma sim_peek p n : sim (fun a b => b = a /\ bytes_ok a /\ zlen a = n) (peek p n) (peek (p + d) n).
Proof.
  intros m1 m2 a m1' Hm. unfold peek. destruct (decide (inside m1 p n)) as [Hi|]; [|done]. intros [= <- <-].
  rewrite decide_True by (by eapply moved_inside). eexists _, m2. split; [done|]. split; [|done].
  pose proof Hi as Hi'. unfold inside, msize in Hi'. pose proof Hm as [Hc Hb Hn Hby]. split_and!.
  - rewrite Hc. replace (Z.to_nat (p + d - base m2)) with (length pre + Z.to_nat (p - base m1))%nat by lia.
    rewrite <- drop_drop, drop_app_length, drop_app_le, take_app_le; [done| |lia]. rewrite length_drop. lia.
  - by apply Forall_take, Forall_drop.
  - rewrite length_take, length_drop. lia.
Qed.

Lemma moved_upd m1 m2 p bs :
  moved m1 m2 -> bytes_ok bs -> inside m1 p (zlen bs) -> moved (upd m1 p bs) (upd m2 (p + d) bs).
Proof.
  intros Hm Hbs Hi. pose proof Hi as Hi'. unfold inside, msize in Hi'. pose proof Hm as [Hc Hb Hn Hby]. constructor.
  - unfold upd. cbn [cells]. rewrite Hc. replace (Z.to_nat (p + d - base m2)) with (length pre + Z.to_nat (p - base m1))%nat by lia.
    rewrite take_app_add, take_app_le by lia. rewrite <- !app_assoc. do 3 f_equal.
    rewrite <- Nat.add_assoc, <- drop_drop, drop_app_length, drop_app_le by lia. done.
  - done.
  - done.
  - by apply bytes_ok_upd.
Qed.

Lemma sim_poke p bs : bytes_ok bs -> sim eq (poke p bs) (poke (p + d) bs).
Proof.
  intros Hb m1 m2 a m1' Hm. unfold poke. destruct (decide (inside m1 p (zlen bs))) as [Hi|]; [|done]. intros [= <- <-].
  rewrite decide_True by (by eapply moved_inside). eexists _, _. split; [done|]. split; [done|]. by apply moved_upd.
Qed.

(** Loaded words are the same, and are not negative. *)
Definition same_word (w : nat) (a b : Z) : Prop := b = a /\ 0 <= a < 256 ^ Z.of_nat w.

Lemma sim_ldw_at w p : sim (same_word w) (ldw w p) (ldw w (p + d)).
Proof.
  eapply sim_bind; [apply sim_peek|]. intros a b (-> & Hb & Hl). apply sim_ret. split; [done|].
  rewrite <- Hl. by apply le_value_range.
Qed.

Lemma sim_stw_at w p v : sim eq (stw w p v) (stw w (p + d) v).
Proof. apply sim_poke, bytes_ok_le. Qed.

(** A field of an object; a NULL object is stuck. *)
Lemma sim_null {A B} (R : A -> B -> Prop) n p (f : bytes -> M mem A) c : p < 64 -> sim R (peek p n ≫= f) c.
Proof.
  intros Hp m1 m2 a m1' [_ _ Hn _]. unfold mbind, M_bind, peek.
  rewrite decide_False; [done|]. unfold inside. lia.
Qed.

Lemma sim_field w p f : ptr_ok p -> 0 <= f < 64 -> sim (same_word w) (ldw w (p + f)) (ldw w (sh p + f)).
Proof.
  intros Hp Hf. destruct (decide (p = 0)) as [->|Hne]; [apply sim_null; lia|].
  rewrite sh_pos by (unfold ptr_ok in Hp; lia). replace (p + d + f) with (p + f + d) by lia. apply sim_ldw_at.
Qed.

Lemma sim_field0 w p : ptr_ok p -> sim (same_word w) (ldw w p) (ldw w (sh p)).
Proof. intros Hp. rewrite <- (Z.add_0_r p) at 1. rewrite <- (Z.add_0_r (sh p)). apply sim_field; [done|lia]. Qed.

Lemma sim_set_field w p f v : ptr_ok p -> 0 <= f < 64 -> sim eq (stw w (p + f) v) (stw w (sh p + f) v).
Proof.
  intros Hp Hf. destruct (decide (p = 0)) as [->|Hne].
  - intros m1 m2 a m1' [_ _ Hn _]. unfold stw, poke. rewrite decide_False; [done|]. unfold inside. lia.
  - rewrite sh_pos by (unfold ptr_ok in Hp; lia). replace (p + d + f) with (p + f + d) by lia. apply sim_stw_at.
Qed.

Lemma sim_set_field0 w p v : ptr_ok p -> sim eq (stw w p v) (stw w (sh p) v).
Proof. intros Hp. rewrite <- (Z.add_0_r p) at 1. rewrite <- (Z.add_0_r (sh p)). apply sim_set_field; [done|lia]. Qed.

End reloc.
