(* ===== verification/CFloat.v ===== *)
(** * Arithmetic conversions of C

    The values the code converts between: integers of a width, IEEE 754
    single and double precision numbers (as [spec_float]), and the implicit
    conversions of C on them.  Converting a floating-point number to an
    integer type that cannot represent its truncation is undefined. *)

From stdpp Require Import prelude.
From Stdlib Require Import Floats.SpecFloat.
From S2P Require Import Prelude.

Open Scope Z_scope.

(** An IEEE 754 number from its bits: [mw] mantissa and [ew] exponent bits. *)
Definition float_of_bits (mw ew x : Z) : spec_float :=
  let s := Z.testbit x (mw + ew) in
  let e := Z.shiftr x mw mod 2 ^ ew in
  let m := x mod 2 ^ mw in
  let emin := 3 - 2 ^ (ew - 1) - (mw + 1) in
  if e =? 0 then
    match m with Z.pos p => S754_finite s p emin | _ => S754_zero s end
  else if e =? 2 ^ ew - 1 then
    if m =? 0 then S754_infinity s else S754_nan
  else
    match m + 2 ^ mw with Z.pos p => S754_finite s p (e + emin - 1) | _ => S754_nan end.

Definition f32_of_bits : Z -> spec_float := float_of_bits 23 8.
Definition f64_of_bits : Z -> spec_float := float_of_bits 52 11.

(** Integer to floating point, rounding to nearest even. *)
Definition f32_of_Z (z : Z) : spec_float := binary_normalize 24 128 z 0 false.
Definition f64_of_Z (z : Z) : spec_float := binary_normalize 53 1024 z 0 false.

(** Conversion between the formats. *)
Definition round_to (prec emax : Z) (f : spec_float) : spec_float :=
  match f with
  | S754_finite s m e => binary_round prec emax s m e
  | f => f
  end.
Definition f32_of_f64 : spec_float -> spec_float := round_to 24 128.
Definition f64_of_f32 : spec_float -> spec_float := round_to 53 1024.

Definition f32_sub : spec_float -> spec_float -> spec_float := SFsub 24 128.
Definition f64_add : spec_float -> spec_float -> spec_float := SFadd 53 1024.
Definition f64_sub : spec_float -> spec_float -> spec_float := SFsub 53 1024.
Definition f64_mul : spec_float -> spec_float -> spec_float := SFmul 53 1024.

(** The constants [1e6] and [1e-6] of type [double]. *)
Definition f64_1e6 : spec_float := f64_of_Z 1000000.
Definition f64_1em6 : spec_float := SFdiv 53 1024 (f64_of_Z 1) f64_1e6.

(** The integer part; [None] for infinities and NaN. *)
Definition truncate (f : spec_float) : option Z :=
  match f with
  | S754_zero _ => Some 0
  | S754_finite s m e =>
      let n := if 0 <=? e then Z.pos m * 2 ^ e else Z.pos m / 2 ^ (- e) in
      Some (if s then - n else n)
  | _ => None
  end.

(** A C arithmetic value and its type. *)
Inductive cval :=
| CInt (z : Z)
| CFlt (f : spec_float)
| CDbl (f : spec_float).

(** The integer types: width in bits and signedness. *)
Record ity := Ity { it_bits : Z; it_signed : bool }.

Definition it_min (t : ity) : Z := if it_signed t then - 2 ^ (it_bits t - 1) else 0.
Definition it_max (t : ity) : Z := if it_signed t then 2 ^ (it_bits t - 1) - 1 else 2 ^ it_bits t - 1.
Definition it_in (t : ity) (z : Z) : Prop := it_min t <= z <= it_max t.

#[export] Instance it_in_dec t z : Decision (it_in t z).
Proof. unfold it_in. apply _. Defined.

Definition wrap (t : ity) (z : Z) : Z :=
  if it_signed t then wraps (it_bits t) z else wrapu (it_bits t) z.

(** Conversion to an integer type. *)
Definition to_int (t : ity) (c : cval) : option Z :=
  match c with
  | CInt z => Some (wrap t z)
  | CFlt f | CDbl f => z ← truncate f; if decide (it_in t z) then Some z else None
  end.

Definition to_f32 (c : cval) : spec_float :=
  match c with CInt z => f32_of_Z z | CFlt f => f | CDbl f => f32_of_f64 f end.

Definition to_f64 (c : cval) : spec_float :=
  match c with CInt z => f64_of_Z z | CFlt f => f64_of_f32 f | CDbl f => f end.

Lemma wrap_in t z : 0 < it_bits t -> it_in t (wrap t z).
Proof.
  intros H. destruct t as [w []]; unfold it_in, wrap, it_min, it_max; cbn [it_bits it_signed] in *.
  - pose proof (wraps_range w z H). lia.
  - pose proof (wrapu_range w z ltac:(lia)). lia.
Qed.

Lemma wrap_id t z : 0 < it_bits t -> it_in t z -> wrap t z = z.
Proof.
  intros H. destruct t as [w []]; unfold it_in, wrap, it_min, it_max; cbn [it_bits it_signed] in *; intros.
  - apply wraps_small; lia.
  - apply wrapu_small; lia.
Qed.

(** The value a conversion yields belongs to the type. *)
Lemma to_int_in t c z : 0 < it_bits t -> to_int t c = Some z -> it_in t z.
Proof.
  intros H. destruct c; simpl; [intros [= <-]; by apply wrap_in|..];
    (destruct (truncate f); simpl; [case_decide; by intros [= <-]|done]).
Qed.
