(* ===== verification/Ev.v ===== *)
(** * Event workers: lib/src/ovis_ev/ev.c and evw.c

    A worker is a thread that calls actors for the events posted to it.
    Events without a timeout wait in a list, events with one in a red-black
    tree ordered by it (rbt.c, see Rbt).  An event is reference counted; its
    queue entry holds a reference.  The parts of a function between taking
    and releasing a worker's lock are definitions of their own, since other
    threads run in between.

    The tree's key is the address of [e_to]; [e_to] is written only by the
    thread that posts the event, before the event is in a tree, and the model
    copies it into the node.  The results of [malloc], [sem_init],
    [pthread_create] and the clock are inputs. *)

From stdpp Require Import prelude gmap strings.
From Stdlib Require Import Floats.SpecFloat.
From S2P Require Import Prelude Rbt CFloat.

Open Scope Z_scope.

(** ** Time *)

Record timespec := Ts { tv_sec : Z; tv_nsec : Z }.

#[global] Instance timespec_eq_dec : EqDecision timespec.
Proof. solve_decision. Defined.

Definition ev_time_cmp (tsa tsb : timespec) : Z :=
  if tv_sec tsa <? tv_sec tsb then -1 else
  if tv_sec tsb <? tv_sec tsa then 1 else
  if tv_nsec tsa <? tv_nsec tsb then -1 else
  if tv_nsec tsb <? tv_nsec tsa then 1 else 0.

Definition f64_1e9 : spec_float := f64_of_Z 1000000000.

Definition ev_time_diff (tsa tsb : timespec) : spec_float :=
  let diff := f64_of_Z (s64 (tv_sec tsa - tv_sec tsb)) in
  let diff := f64_add diff (SFdiv 53 1024 (f64_of_Z (tv_sec tsa)) f64_1e9) in
  f64_sub diff (SFdiv 53 1024 (f64_of_Z (tv_sec tsb)) f64_1e9).

(** [ev_sched_to] with the clock's time. *)
Definition ev_sched_to (clock : timespec) (secs nsecs : Z) : timespec :=
  Ts (s64 (tv_sec clock + secs)) (s64 (tv_nsec clock + nsecs)).

(** ** Data *)

Inductive ev_status_t := EV_OK | EV_FLUSH.

#[global] Instance ev_status_eq_dec : EqDecision ev_status_t.
Proof. solve_decision. Defined.

Inductive evw_state := EV_WORKER_STOPPED | EV_WORKER_RUNNING | EV_WORKER_FLUSHING.

#[global] Instance evw_state_eq_dec : EqDecision evw_state.
Proof. solve_decision. Defined.

Record ev_type_s := EvType { t_name : string; t_id : Z; t_size : Z }.

Record ev__s := Ev {
  e_src : option loc;
  e_dst : option loc;
  e_type : loc;
  e_refcount : Z;
  e_posted : Z;
  e_status : ev_status_t;
  e_to : timespec
}.

Record ev_worker_s := Evw {
  w_name : string;
  w_actor : option loc;
  w_state : evw_state;
  w_sem_wait : timespec;
  w_sem : Z;
  w_dispatch : option (list (option loc));
  w_dispatch_len : Z;
  w_event_tree : rbt timespec;
  w_event_list : list loc;
  w_ev_list_len : Z
}.

(** The objects of the library and its two directories. *)
Record evs := Evs {
  events : gmap loc ev__s;
  types : gmap loc ev_type_s;
  workers : gmap loc ev_worker_s;
  type_tree : gmap string loc;
  worker_tree : gmap string loc;
  next_type_id : Z
}.

Definition set_events (f : gmap loc ev__s -> gmap loc ev__s) (s : evs) : evs :=
  Evs (f (events s)) (types s) (workers s) (type_tree s) (worker_tree s) (next_type_id s).
Definition set_workers (f : gmap loc ev_worker_s -> gmap loc ev_worker_s) (s : evs) : evs :=
  Evs (events s) (types s) (f (workers s)) (type_tree s) (worker_tree s) (next_type_id s).

Definition ld_e (p : loc) : M evs ev__s := fun s => (., s) <$> events s !! p.
Definition ld_t (p : loc) : M evs ev_type_s := fun s => (., s) <$> types s !! p.
Definition ld_w (p : loc) : M evs ev_worker_s := fun s => (., s) <$> workers s !! p.
Definition st_e (p : loc) (f : ev__s -> ev__s) : M evs unit :=
  e ← ld_e p; modify (set_events (insert p (f e))).
Definition st_w (p : loc) (f : ev_worker_s -> ev_worker_s) : M evs unit :=
  w ← ld_w p; modify (set_workers (insert p (f w))).

Definition set_refcount n (e : ev__s) := Ev (e_src e) (e_dst e) (e_type e) n (e_posted e) (e_status e) (e_to e).
Definition set_posted n (e : ev__s) := Ev (e_src e) (e_dst e) (e_type e) (e_refcount e) n (e_status e) (e_to e).
Definition set_status c (e : ev__s) := Ev (e_src e) (e_dst e) (e_type e) (e_refcount e) (e_posted e) c (e_to e).

Definition set_state x (w : ev_worker_s) := Evw (w_name w) (w_actor w) x (w_sem_wait w) (w_sem w)
  (w_dispatch w) (w_dispatch_len w) (w_event_tree w) (w_event_list w) (w_ev_list_len w).
Definition set_sem_wait x (w : ev_worker_s) := Evw (w_name w) (w_actor w) (w_state w) x (w_sem w)
  (w_dispatch w) (w_dispatch_len w) (w_event_tree w) (w_event_list w) (w_ev_list_len w).
Definition set_sem x (w : ev_worker_s) := Evw (w_name w) (w_actor w) (w_state w) (w_sem_wait w) x
  (w_dispatch w) (w_dispatch_len w) (w_event_tree w) (w_event_list w) (w_ev_list_len w).
Definition set_dispatch t n (w : ev_worker_s) := Evw (w_name w) (w_actor w) (w_state w) (w_sem_wait w) (w_sem w)
  t n (w_event_tree w) (w_event_list w) (w_ev_list_len w).
Definition set_tree t (w : ev_worker_s) := Evw (w_name w) (w_actor w) (w_state w) (w_sem_wait w) (w_sem w)
  (w_dispatch w) (w_dispatch_len w) t (w_event_list w) (w_ev_list_len w).
Definition set_list l n (w : ev_worker_s) := Evw (w_name w) (w_actor w) (w_state w) (w_sem_wait w) (w_sem w)
  (w_dispatch w) (w_dispatch_len w) (w_event_tree w) l n.

Definition is_state (x y : evw_state) : bool := bool_decide (x = y).

(** An operation on a worker's tree. *)
Definition on_tree {A} (w : loc) (m : M (rbt timespec) A) : M evs A :=
  k ← ld_w w;
  '(a, t) ← lift_opt (m (w_event_tree k));
  st_w w (set_tree t);;
  mret a.

(** ** Types and workers *)

(** [evt] and [name] tell whether the allocations succeed. *)
Definition ev_type_new (evt : option loc) (name_ok : bool) (name : string) (size : Z) : M evs (option loc) :=
  match evt with
  | None => mret None
  | Some p =>
      if negb name_ok then mret None else
      id ← gets next_type_id;
      modify (fun s => Evs (events s) (types s) (workers s) (type_tree s) (worker_tree s) (u32 (next_type_id s + 1)));;
      rbn ← gets (fun s => type_tree s !! name);
      match rbn with
      | Some _ => mret None
      | None =>
          modify (fun s => Evs (events s) (<[p := EvType name id size]> (types s)) (workers s)
            (<[name := p]> (type_tree s)) (worker_tree s) (next_type_id s));;
          mret (Some p)
      end
  end.

(** The second component is [errno] when it is set. *)
Definition ev_type_get (name : string) : M evs (option loc * option Z) :=
  rbn ← gets (fun s => type_tree s !! name);
  mret (match rbn with Some p => (Some p, None) | None => (None, Some ENOENT) end).

Definition ev_type (ev : loc) : M evs loc := e ← ld_e ev; mret (e_type e).
Definition ev_type_id (t : loc) : M evs Z := ty ← ld_t t; mret (u32 (t_id ty)).
Definition ev_type_name (t : loc) : M evs string := ty ← ld_t t; mret (t_name ty).

(** [w], [name_ok], [sem_rc] and [thr_rc] are the results of [calloc],
    [strdup], [sem_init] and [pthread_create].  After a failure of the last
    two the function unlocks a mutex that it does not hold. *)
Definition ev_worker_new (w : option loc) (name_ok : bool) (sem_rc thr_rc : Z) (name : string) (actor_fn : option loc)
    : M evs (option loc * Z) :=
  match w with
  | None => mret (None, ENOMEM)
  | Some p =>
      if negb name_ok then mret (None, ENOMEM) else
      if negb (sem_rc =? 0) then stuck else
      rbn ← gets (fun s => worker_tree s !! name);
      match rbn with
      | Some _ => mret (None, EEXIST)
      | None =>
          modify (fun s => Evs (events s) (types s)
            (<[p := Evw name actor_fn EV_WORKER_STOPPED (Ts 0 0) 0 None 0 (rbt_init ∅) [] 0]> (workers s))
            (type_tree s) (<[name := p]> (worker_tree s)) (next_type_id s));;
          if negb (thr_rc =? 0) then stuck else mret (Some p, 0)
      end
  end.

Definition ev_worker_get (name : string) : M evs (option loc * option Z) :=
  rbn ← gets (fun s => worker_tree s !! name);
  mret (match rbn with Some p => (Some p, None) | None => (None, Some ENOENT) end).

Definition ev_worker_name (w : loc) : M evs string := k ← ld_w w; mret (w_name k).

Definition EV_DISPATCH_TBL_SIZE : Z := 100.

(** The table with [fn] at [i]; a NULL table or a bad index is stuck. *)
Definition dispatch_store (w : loc) (i : Z) (fn : option loc) : M evs unit :=
  k ← ld_w w;
  match w_dispatch k with
  | Some t =>
      if (0 <=? i) && (i <? Z.of_nat (length t)) then
        st_w w (set_dispatch (Some (<[Z.to_nat i := fn]> t)) (w_dispatch_len k))
      else stuck
  | None => stuck
  end.

(** Room for the type [id] in the table; [mem_ok] tells whether [calloc] or
    [realloc] succeeds. *)
Definition dispatch_room (mem_ok : bool) (w : loc) (id : Z) : M evs Z :=
  k ← ld_w w;
  match w_dispatch k with
  | None =>
      let size := if id <? EV_DISPATCH_TBL_SIZE then EV_DISPATCH_TBL_SIZE else u64 (Z.shiftl id 1) in
      if negb mem_ok then mret ENOMEM else
      st_w w (set_dispatch (Some (replicate (Z.to_nat size) None)) size);; mret 0
  | Some tbl =>
      if w_dispatch_len k <=? id then
        let new_len := s32 (Z.shiftl id 1) in
        if negb mem_ok then st_w w (set_dispatch None (w_dispatch_len k));; mret ENOMEM else
        st_w w (set_dispatch (Some (resize (Z.to_nat new_len) None tbl)) new_len);; mret 0
      else mret 0
  end.

Definition ev_dispatch (mem_ok : bool) (w t : loc) (fn : option loc) : M evs Z :=
  ty ← ld_t t;
  rc ← dispatch_room mem_ok w (t_id ty);
  if negb (rc =? 0) then mret rc else
  dispatch_store w (t_id ty) fn;;
  mret 0.

(** ** Events *)

(** [malloc] leaves the other fields with whatever was there. *)
Definition ev_new (e : option loc) (garbage : ev__s) (evt : loc) : M evs (option loc) :=
  match e with
  | None => mret None
  | Some p =>
      _ ← ld_t evt;
      modify (set_events (insert p
        (Ev (e_src garbage) (e_dst garbage) evt 1 0 (e_status garbage) (e_to garbage))));;
      mret (Some p)
  end.

Definition ev_put (ev : loc) : M evs unit :=
  e ← ld_e ev;
  c_assert (negb (e_refcount e =? 0));;
  let n := u32 (e_refcount e - 1) in
  if n =? 0 then modify (set_events (delete ev)) else st_e ev (set_refcount n).

Definition ev_get (ev : loc) : M evs unit :=
  e ← ld_e ev;
  st_e ev (set_refcount (u32 (e_refcount e + 1)));;
  c_assert (0 <? e_refcount e).

Definition ev_posted (ev : loc) : M evs Z := e ← ld_e ev; mret (e_posted e).
Definition ev_canceled (ev : loc) : M evs bool := e ← ld_e ev; mret (bool_decide (e_status e = EV_FLUSH)).

Definition sem_post (w : loc) : M evs unit := k ← ld_w w; st_w w (set_sem (w_sem k + 1)).

(** [ev_post] before it takes the lock: the compare-and-swap that claims the
    event, and the stores that follow. *)
Definition ev_post_claim (src : option loc) (dst ev : loc) (to : option timespec) : M evs bool :=
  e ← ld_e ev;
  if negb (e_posted e =? 0) then mret false else
  st_e ev (fun e => Ev src (Some dst) (e_type e) (e_refcount e) 1 EV_OK (default (Ts 0 0) to));;
  mret true.

(** ... and while it holds the lock.  The second result tells whether to wake
    the worker. *)
Definition ev_post_enqueue (dst ev : loc) (timed : bool) : M evs (Z * bool) :=
  k ← ld_w dst;
  if is_state (w_state k) EV_WORKER_FLUSHING then
    st_e ev (set_posted 0);;
    mret (EBUSY, false)
  else
    ev_get ev;;
    e ← ld_e ev;
    (if timed then on_tree dst (rbt_add ev_time_cmp ev (e_to e))
     else st_w dst (set_list (w_event_list k ++ [ev]) (w_ev_list_len k + 1)));;
    mret (0, ev_time_cmp (e_to e) (w_sem_wait k) <=? 0).

Definition ev_post (src : option loc) (dst ev : loc) (to : option timespec) : M evs Z :=
  claimed ← ev_post_claim src dst ev to;
  if negb claimed then mret EBUSY else
  '(rc, wake) ← ev_post_enqueue dst ev (match to with Some _ => true | None => false end);
  (if (wake : bool) then sem_post dst else mret tt);;
  mret rc.

(** [ev_cancel] returns 0 at once for an event that has been cancelled. *)
Definition ev_cancel_check (ev : loc) : M evs bool :=
  e ← ld_e ev;
  c ← ev_canceled ev;
  mret ((e_posted e =? 0) && c).

(** The part with the lock of the event's worker. *)
Definition ev_cancel_locked (ev : loc) (now : timespec) : M evs Z :=
  e ← ld_e ev;
  dst ← lift_opt (e_dst e);
  st_e ev (set_status EV_FLUSH);;
  if SFltb (ev_time_diff (e_to e) now) (f64_of_Z 1) then mret EBUSY else
  on_tree dst (rbt_del (Some ev));;
  k ← ld_w dst;
  st_w dst (set_list (w_event_list k ++ [ev]) (w_ev_list_len k + 1));;
  mret 0.

Definition ev_cancel (ev : loc) (now : timespec) : M evs Z :=
  done ← ev_cancel_check ev;
  if (done : bool) then mret 0 else
  rc ← ev_cancel_locked ev now;
  e ← ld_e ev;
  dst ← lift_opt (e_dst e);
  (if rc =? 0 then sem_post dst else mret tt);;
  mret rc.

Definition ev_flush (w : loc) : M evs unit :=
  st_w w (set_state EV_WORKER_FLUSHING);;
  sem_post w.

Definition ev_pending (w : loc) : M evs Z :=
  k ← ld_w w;
  c ← on_tree w rbt_card;
  mret (s32 (c + w_ev_list_len k)).

(** ** The worker thread *)

(** The actor of an event's type, or the default one. *)
Definition choose_actor (w ev : loc) : M evs loc :=
  k ← ld_w w;
  e ← ld_e ev;
  ty ← ld_t (e_type e);
  actor ← (if t_id ty <? w_dispatch_len k then
             t ← lift_opt (w_dispatch k); lift_opt (t !! Z.to_nat (t_id ty))
           else mret None);
  lift_opt (match actor with Some a => Some a | None => w_actor k end).

(** The first event of the list, taken off it. *)
Definition take_immediate (w : loc) : M evs (option loc) :=
  k ← ld_w w;
  match w_event_list k with
  | [] => mret None
  | e :: l =>
      st_w w (set_list l (w_ev_list_len k - 1));;
      st_e e (set_posted 0);;
      (if is_state (w_state k) EV_WORKER_FLUSHING then st_e e (set_status EV_FLUSH) else mret tt);;
      mret (Some e)
  end.

(** The first event of the tree: taken off it when it is due ([inl]), or what
    [process_to_events] returns. *)
Definition take_timed (w : loc) (now : timespec) : M evs (loc + option loc) :=
  rbn ← on_tree w rbt_min;
  match rbn with
  | None => mret (inr None)
  | Some p =>
      k ← ld_w w;
      e ← ld_e p;
      let flushing := is_state (w_state k) EV_WORKER_FLUSHING in
      (if flushing then st_e p (set_status EV_FLUSH) else mret tt);;
      if negb flushing && (0 <? ev_time_cmp (e_to e) now) then mret (inr (Some p)) else
      on_tree w (rbt_del (Some p));;
      st_e p (set_posted 0);;
      mret (inl p)
  end.

(** [call fn src dst status ev] is what happens while the worker has released
    its lock to call the actor. *)
Definition deliver (call : loc -> option loc -> option loc -> ev_status_t -> loc -> M evs unit) (w ev : loc) : M evs unit :=
  actor ← choose_actor w ev;
  e ← ld_e ev;
  call actor (e_src e) (e_dst e) (e_status e) ev;;
  ev_put ev.

Definition process_immediate_events (fuel : nat) (call : loc -> option loc -> option loc -> ev_status_t -> loc -> M evs unit)
    (w : loc) : M evs unit :=
  loopM fuel (fun _ =>
    r ← take_immediate w;
    match r with
    | None => mret (inr tt)
    | Some e => deliver call w e;; mret (inl tt)
    end) tt.

Definition process_to_events (fuel : nat) (call : loc -> option loc -> option loc -> ev_status_t -> loc -> M evs unit)
    (w : loc) (now : timespec) : M evs (option loc) :=
  loopM fuel (fun _ =>
    r ← take_timed w now;
    match r with
    | inr e => mret (inr e)
    | inl e => deliver call w e;; mret (inl tt)
    end) tt.

(** The end of a round of [worker_proc]: when to wake up next. *)
Definition worker_finish (w : loc) (r : option loc) (clock : timespec) : M evs unit :=
  to ← match r with
    | Some p => e ← ld_e p; mret (e_to e)
    | None => mret (ev_sched_to clock 10 0)
    end;
  st_w w (set_sem_wait to);;
  k ← ld_w w;
  if is_state (w_state k) EV_WORKER_FLUSHING then st_w w (set_state EV_WORKER_RUNNING) else mret tt.

(** One round of [worker_proc]; [now] and [clock] are the times read in
    [process_to_events] and afterwards. *)
Definition worker_round (fuel : nat) (call : loc -> option loc -> option loc -> ev_status_t -> loc -> M evs unit)
    (w : loc) (now clock : timespec) : M evs unit :=
  process_immediate_events fuel call w;;
  r ← process_to_events fuel call w now;
  worker_finish w r clock.

(** The start of [worker_proc]. *)
Definition worker_start (w : loc) (clock : timespec) : M evs unit :=
  st_w w (set_state EV_WORKER_RUNNING);;
  st_w w (set_sem_wait (ev_sched_to clock 0 0)).
