(* ===== verification/EvSys.v ===== *)
(** * Threads around event workers

    The clients and the workers of lib/src/ovis_ev as a transition system.
    A step is what a thread does between two points where others can run: an
    atomic operation, or a section that holds a worker's lock.  Besides the
    objects of the library a state has what the threads remember: where each
    worker is, the references the clients hold, the calls of [ev_post] that
    have claimed their event and not queued it yet, and the calls of
    [sem_post] that are due after a lock was released. *)

From stdpp Require Import prelude gmap strings.
From Stdlib Require Import Floats.SpecFloat.
From S2P Require Import Prelude Rbt CFloat Ev.

Open Scope Z_scope.

(** Which loop a worker is in. *)
Inductive phase := PhImm | PhTo (now : timespec).

(** Where a worker is: waiting for its semaphore, about to take its lock,
    about to call the actor of an event, or back from it. *)
Inductive wpc := PWait | PLock (ph : phase) | PCall (e : loc) (ph : phase) | PPut (e : loc) (ph : phase).

Record sys := Sys {
  objs : evs;
  pcs : gmap loc wpc;
  held : gmap loc nat;
  posting : gmap loc (loc * bool);
  waking : gmap loc nat;
  clock : timespec
}.

Definition held_of (s : sys) (e : loc) : nat := default O (held s !! e).
Definition waking_of (s : sys) (w : loc) : nat := default O (waking s !! w).

Definition in_hand (pc : wpc) : option loc :=
  match pc with PCall e _ | PPut e _ => Some e | _ => None end.

(** The workers in a given place. *)
Definition count_pc (P : wpc -> bool) (m : gmap loc wpc) : nat := size (filter (fun x => P x.2 = true) m).

(** The workers that have taken the event and not put it yet. *)
Definition hands (pcs : gmap loc wpc) (e : loc) : nat := count_pc (fun pc => bool_decide (in_hand pc = Some e)) pcs.

(** A client may use an event it has a reference to, and an actor the event
    it was called with. *)
Definition usable (s : sys) (e : loc) : Prop := (0 < held_of s e)%nat \/ (0 < hands (pcs s) e)%nat.

Definition nonneg (t : timespec) : Prop := ev_time_cmp (Ts 0 0) t <= 0.

Definition clock_ok (c : timespec) : Prop := 0 <= tv_sec c < 2 ^ 62 /\ 0 <= tv_nsec c < 2 ^ 62.

(** ** Steps *)

(** What a step shows: an event accepted by [ev_post], an actor called, a
    reference taken or put, a cancellation; the other steps show nothing. *)
Inductive event :=
  | LPosted (e : loc)
  | LActor (w e : loc) (c : ev_status_t)
  | LGet (e : loc)
  | LPut (e : loc)
  | LCancel (e : loc)
  | LTau.

(** A section of the worker with its lock. *)
Definition timed_section (w : loc) (now clock : timespec) : M evs wpc :=
  r ← take_timed w now;
  match r with
  | inl e => mret (PCall e (PhTo now))
  | inr r => worker_finish w r clock;; mret PWait
  end.

Definition locked_section (w : loc) (ph : phase) (clock : timespec) : M evs wpc :=
  match ph with
  | PhImm =>
      r ← take_immediate w;
      match r with
      | Some e => mret (PCall e PhImm)
      | None => timed_section w clock clock
      end
  | PhTo now => timed_section w now clock
  end.

Definition with_objs (o : evs) (s : sys) : sys := Sys o (pcs s) (held s) (posting s) (waking s) (clock s).
Definition with_pc (w : loc) (pc : wpc) (s : sys) : sys :=
  Sys (objs s) (<[w := pc]> (pcs s)) (held s) (posting s) (waking s) (clock s).
Definition with_held (e : loc) (n : nat) (s : sys) : sys :=
  Sys (objs s) (pcs s) (<[e := n]> (held s)) (posting s) (waking s) (clock s).
Definition with_posting (f : gmap loc (loc * bool) -> gmap loc (loc * bool)) (s : sys) : sys :=
  Sys (objs s) (pcs s) (held s) (f (posting s)) (waking s) (clock s).
Definition with_waking (w : loc) (n : nat) (s : sys) : sys :=
  Sys (objs s) (pcs s) (held s) (posting s) (<[w := n]> (waking s)) (clock s).

Inductive step (s : sys) : event -> sys -> Prop :=
  | step_new p g t o :
      events (objs s) !! p = None -> ev_new (Some p) g t (objs s) = Some (Some p, o) ->
      step s LTau (with_held p 1 (with_objs o s))
  | step_get e o :
      usable s e -> ev_get e (objs s) = Some (tt, o) ->
      step s (LGet e) (with_held e (S (held_of s e)) (with_objs o s))
  | step_put e n o :
      held_of s e = S n -> ev_put e (objs s) = Some (tt, o) ->
      step s (LPut e) (with_held e n (with_objs o s))
  | step_busy src dst e to o :
      usable s e -> ev_post_claim src dst e to (objs s) = Some (false, o) ->
      step s LTau (with_objs o s)
  | step_claim src dst e to o :
      usable s e -> is_Some (workers (objs s) !! dst) -> nonneg (default (Ts 0 0) to) ->
      ev_post_claim src dst e to (objs s) = Some (true, o) ->
      step s LTau (with_posting (insert e (dst, match to with Some _ => true | None => false end)) (with_objs o s))
  | step_refused e dst timed wake o :
      posting s !! e = Some (dst, timed) -> ev_post_enqueue dst e timed (objs s) = Some ((EBUSY, wake), o) ->
      step s LTau (with_posting (delete e) (with_objs o s))
  | step_enqueue e dst timed (wake : bool) o :
      posting s !! e = Some (dst, timed) ->
      ev_post_enqueue dst e timed (objs s) = Some ((0, wake), o) ->
      step s (LPosted e) (with_waking dst (if wake then S (waking_of s dst) else waking_of s dst)
        (with_posting (delete e) (with_objs o s)))
  | step_wake w n o :
      waking_of s w = S n -> sem_post w (objs s) = Some (tt, o) ->
      step s LTau (with_waking w n (with_objs o s))
  | step_cancel e x w rc o :
      usable s e -> events (objs s) !! e = Some x -> e_dst x = Some w ->
      ev_cancel_locked e (clock s) (objs s) = Some (rc, o) ->
      step s (LCancel e) (with_waking w (if rc =? 0 then S (waking_of s w) else waking_of s w) (with_objs o s))
  | step_flush w o :
      st_w w (set_state EV_WORKER_FLUSHING) (objs s) = Some (tt, o) ->
      step s LTau (with_waking w (S (waking_of s w)) (with_objs o s))
  | step_dispatch w t fn rc o :
      ev_dispatch true w t fn (objs s) = Some (rc, o) -> step s LTau (with_objs o s)
  | step_clock c :
      ev_time_cmp (clock s) c <= 0 -> clock_ok c -> step s LTau (Sys (objs s) (pcs s) (held s) (posting s) (waking s) c)
  | step_start w o :
      pcs s !! w = None -> worker_start w (clock s) (objs s) = Some (tt, o) ->
      step s LTau (with_pc w PWait (with_objs o s))
  | step_sem w k o :
      pcs s !! w = Some PWait -> workers (objs s) !! w = Some k -> 0 < w_sem k ->
      st_w w (set_sem (w_sem k - 1)) (objs s) = Some (tt, o) ->
      step s LTau (with_pc w (PLock PhImm) (with_objs o s))
  | step_timeout w :
      pcs s !! w = Some PWait -> step s LTau (with_pc w (PLock PhImm) s)
  | step_lock w ph pc o :
      pcs s !! w = Some (PLock ph) -> locked_section w ph (clock s) (objs s) = Some (pc, o) ->
      step s LTau (with_pc w pc (with_objs o s))
  | step_call w e ph a x :
      pcs s !! w = Some (PCall e ph) -> choose_actor w e (objs s) = Some (a, objs s) ->
      events (objs s) !! e = Some x ->
      step s (LActor w e (e_status x)) (with_pc w (PPut e ph) s)
  | step_put_hand w e ph o :
      pcs s !! w = Some (PPut e ph) -> ev_put e (objs s) = Some (tt, o) ->
      step s (LPut e) (with_pc w (PLock ph) (with_objs o s)).

(** Runs in which every step respects [ok]. *)
Inductive reach (ok : sys -> event -> Prop) : sys -> list event -> sys -> Prop :=
  | reach_nil s : reach ok s [] s
  | reach_snoc s tr s1 l s2 : reach ok s tr s1 -> ok s1 l -> step s1 l s2 -> reach ok s (tr ++ [l]) s2.

(** ** The discipline of the clients

    What the library relies on and does not check. *)

(** The reference a call of [ev_post] relies on is not put before it returns. *)
Definition may_put (s : sys) (e : loc) : Prop :=
  forall x, events (objs s) !! e = Some x -> is_Some (posting s !! e) -> 1 < e_refcount x.

(** An event is cancelled when no call of [ev_post] for it is under way and,
    when its time is a second or more away, while it is posted and has not
    been cancelled before: it waits in the tree, and no flush took it after
    [ev_cancel] looked at [e_posted]. *)
Definition may_cancel (s : sys) (e : loc) (x : ev__s) : Prop :=
  exists w k, e_dst x = Some w /\ workers (objs s) !! w = Some k /\ posting s !! e = None /\
    (SFltb (ev_time_diff (e_to x) (clock s)) (f64_of_Z 1) = false ->
     e_posted x = 1 /\ e ∉ w_event_list k).

(** A counter does not reach its width. *)
Definition no_wrap (s : sys) (e : loc) : Prop :=
  forall x, events (objs s) !! e = Some x -> e_refcount x < 2 ^ 32 - 1.

Definition disciplined (s : sys) (l : event) : Prop :=
  match l with
  | LPosted e | LGet e => no_wrap s e
  | LPut e => may_put s e
  | LCancel e => forall x, events (objs s) !! e = Some x -> may_cancel s e x
  | LActor _ _ _ | LTau => True
  end.

(** ** Queues *)

(** The events of a tree, as its traversal visits them. *)
Definition tree_events (t : rbt timespec) : list loc :=
  match rbt_traverse (fun n _ l => (0, l ++ match n with Some p => [p] | None => [] end)) [] t with
  | Some ((_, l), _) => l
  | None => []
  end.

(** The events queued to a worker, in its list and in its tree. *)
Definition queue_of (k : ev_worker_s) : list loc := w_event_list k ++ tree_events (w_event_tree k).

(** How many times the event is in the queues of the workers. *)
Definition occurrences (e : loc) (l : list loc) : nat := length (filter (fun p => p = e) l).
Definition in_queues (s : sys) (e : loc) : nat :=
  map_fold (fun _ k n => occurrences e (queue_of k) + n)%nat O (workers (objs s)).

(** ** The start: new workers, no events *)

Definition new_worker (k : ev_worker_s) : Prop :=
  exists name actor, k = Evw name (Some actor) EV_WORKER_STOPPED (Ts 0 0) 0 None 0 (rbt_init ∅) [] 0.

Record initial (s : sys) : Prop := {
  init_events : events (objs s) = ∅;
  init_workers w k : workers (objs s) !! w = Some k -> new_worker k;
  init_types t ty : types (objs s) !! t = Some ty -> 0 <= t_id ty < 2 ^ 30;
  init_pcs : pcs s = ∅;
  init_held : held s = ∅;
  init_posting : posting s = ∅;
  init_waking : waking s = ∅;
  init_clock : clock_ok (clock s)
}.
