(* ===== verification/EvInv.v ===== *)
(** * Invariants of event workers

    What holds in every state that the threads around lib/src/ovis_ev reach:
    the references of each event are accounted for, an event is queued at
    most once, and a waiting worker will wake up for what is queued. *)

From stdpp Require Import prelude gmap strings.
From Stdlib Require Import Floats.SpecFloat.
From S2P Require Import Prelude Rbt RbtRep RbtIns RbtSpec CFloat Ev EvSys.

Open Scope Z_scope.

(** ** Time *)

Ltac tlia :=
  unfold nonneg, clock_ok, ev_time_cmp in *; cbn [tv_sec tv_nsec] in *;
  repeat match goal with
  | H : context [?a <? ?b] |- _ => destruct (Z.ltb_spec a b)
  | |- context [?a <? ?b] => destruct (Z.ltb_spec a b)
  end; lia.

#[export] Instance ev_time_comparator : Comparator ev_time_cmp.
Proof. constructor; intros; tlia. Qed.

Lemma sched_now c : clock_ok c -> ev_sched_to c 0 0 = c.
Proof. intros [? ?]. destruct c. unfold ev_sched_to. cbn in *. rewrite !Z.add_0_r, !s64_small by lia. done. Qed.

Lemma sched_later c : clock_ok c -> nonneg (ev_sched_to c 10 0).
Proof. intros [? ?]. unfold ev_sched_to. rewrite !s64_small by lia. tlia. Qed.

(** ** Counting workers *)

Section count.
Context (P : wpc -> bool).

Lemma count_pc_insert m w pc :
  count_pc P (<[w := pc]> m) = ((if P pc then 1 else 0) + count_pc P (delete w m))%nat.
Proof.
  unfold count_pc. rewrite <- insert_delete_eq. destruct (P pc) eqn:E.
  - rewrite map_filter_insert_True by done. rewrite map_size_insert_None; [done|].
    apply map_lookup_filter_None_2. left. apply lookup_delete_eq.
  - rewrite map_filter_insert_False by (cbn; congruence). by rewrite delete_delete_eq.
Qed.

Lemma count_pc_lookup m w pc :
  m !! w = Some pc -> count_pc P m = ((if P pc then 1 else 0) + count_pc P (delete w m))%nat.
Proof. intros H. by rewrite <- count_pc_insert, insert_id. Qed.

Lemma count_pc_absent m w : m !! w = None -> count_pc P (delete w m) = count_pc P m.
Proof. intros H. by rewrite delete_id. Qed.

Lemma count_pc_empty : count_pc P ∅ = O.
Proof. unfold count_pc. by rewrite map_filter_empty, map_size_empty. Qed.
End count.

(** ** The invariant

    [T w] are the events of the tree of [w] in order. *)

Section inv.
Implicit Types (s : sys) (o : evs) (T : loc -> list (loc * timespec)).

Definition queued o T (e w : loc) : Prop :=
  exists k, workers o !! w = Some k /\ (e ∈ w_event_list k \/ e ∈ (T w).*1).

Definition refs (x : ev__s) (n : nat) : Prop := e_refcount x = Z.of_nat n /\ 0 < e_refcount x < 2 ^ 32.

(** A call of [ev_post] has claimed the event for [w]. *)
Definition claimed s T (e : loc) (x : ev__s) (w : loc) (timed : bool) : Prop :=
  e_posted x = 1 /\ refs x (held_of s e + hands (pcs s) e) /\ e_dst x = Some w /\ is_Some (workers (objs s) !! w) /\
  (timed = false -> e_to x = Ts 0 0) /\ nonneg (e_to x) /\ forall w', ~ queued (objs s) T e w'.

Definition idle s T (e : loc) (x : ev__s) : Prop :=
  e_posted x = 0 /\ refs x (held_of s e + hands (pcs s) e) /\ forall w', ~ queued (objs s) T e w'.

(** The event is in one queue, which has a reference. *)
Definition waiting s T (e : loc) (x : ev__s) : Prop :=
  e_posted x = 1 /\ refs x (S (held_of s e + hands (pcs s) e)) /\ nonneg (e_to x) /\
  exists w, e_dst x = Some w /\ queued (objs s) T e w /\ (forall w', queued (objs s) T e w' -> w' = w) /\
    forall t, (e, t) ∈ T w -> t = e_to x.

Definition dead s T (e : loc) : Prop :=
  held_of s e = O /\ hands (pcs s) e = O /\ posting s !! e = None /\ forall w, ~ queued (objs s) T e w.

Definition ev_ok s T (e : loc) : Prop :=
  match events (objs s) !! e with
  | None => dead s T e
  | Some x =>
      is_Some (types (objs s) !! e_type x) /\
      match posting s !! e with
      | Some (w, timed) => claimed s T e x w timed
      | None => idle s T e x \/ waiting s T e x
      end
  end.

Definition disp_ok (k : ev_worker_s) : Prop :=
  is_Some (w_actor k) /\ w_dispatch_len k = Z.of_nat (length (default [] (w_dispatch k))) /\
  (w_dispatch k = None \/ 0 < w_dispatch_len k).

(** A semaphore post has been made or is due. *)
Definition will_wake s (w : loc) (k : ev_worker_s) : Prop := 0 < w_sem k + Z.of_nat (waking_of s w).

Definition wake_ok s (l : list (loc * timespec)) (w : loc) (k : ev_worker_s) : Prop :=
  match pcs s !! w with
  | Some PWait =>
      will_wake s w k \/
      w_event_list k = [] /\ w_state k <> EV_WORKER_FLUSHING /\
      forall e t, (e, t) ∈ l -> ev_time_cmp (w_sem_wait k) t <= 0 \/ ev_time_cmp (w_sem_wait k) (clock s) <= 0
  | Some (PLock PhImm | PCall _ PhImm | PPut _ PhImm) => True
  | _ => will_wake s w k \/ w_event_list k = []
  end.

Definition wk_ok s (l : list (loc * timespec)) (w : loc) (k : ev_worker_s) : Prop :=
  models ev_time_cmp l (w_event_tree k) /\ NoDup (w_event_list k) /\
  (forall e, e ∈ w_event_list k -> e ∉ l.*1) /\ w_ev_list_len k = Z.of_nat (length (w_event_list k)) /\
  0 <= w_sem k /\ nonneg (w_sem_wait k) /\ disp_ok k /\ wake_ok s l w k.

Record inv s T : Prop := {
  inv_ev e : ev_ok s T e;
  inv_wk w k : workers (objs s) !! w = Some k -> wk_ok s (T w) w k;
  inv_pc w pc : pcs s !! w = Some pc -> is_Some (workers (objs s) !! w);
  inv_types t ty : types (objs s) !! t = Some ty -> 0 <= t_id ty < 2 ^ 30;
  inv_clock : clock_ok (clock s)
}.

(** ** Frames *)

(** What [ev_ok] looks at is the same for [e]. *)
Record same_ev s T s' T' (e : loc) : Prop := {
  se_ev : events (objs s') !! e = events (objs s) !! e;
  se_types : types (objs s') = types (objs s);
  se_held : held_of s' e = held_of s e;
  se_hands : hands (pcs s') e = hands (pcs s) e;
  se_posting : posting s' !! e = posting s !! e;
  se_queued w : queued (objs s') T' e w <-> queued (objs s) T e w;
  se_time w t : (e, t) ∈ T' w -> (e, t) ∈ T w;
  se_workers w : is_Some (workers (objs s) !! w) -> is_Some (workers (objs s') !! w)
}.

Lemma ev_ok_frame s T s' T' e : same_ev s T s' T' e -> ev_ok s T e -> ev_ok s' T' e.
Proof.
  intros [Hev Hty Hhe Hha Hp Hq Ht Hw]. unfold ev_ok, dead, claimed, idle, waiting. rewrite Hev, Hty, Hhe, Hha, Hp.
  destruct (events (objs s) !! e) as [x|]; [|intros (? & ? & ? & Hn); split_and!; try done; by setoid_rewrite Hq].
  intros [Hx H]. split; [done|]. destruct (posting s !! e) as [[w timed]|].
  - destruct H as (? & ? & ? & ? & ? & ? & ?). split_and!; try done; [by apply Hw|by setoid_rewrite Hq].
  - destruct H as [(? & ? & ?)|(? & ? & ? & w & ? & ? & ? & ?)].
    + left. split_and!; try done. by setoid_rewrite Hq.
    + right. split_and!; try done. exists w. split_and!; [done|by apply Hq|by setoid_rewrite Hq|eauto].
Qed.

(** What [wk_ok] looks at is the same for [w], except for more wake-ups and a
    later clock. *)
Lemma wk_ok_frame s s' l w k :
  pcs s' !! w = pcs s !! w -> (waking_of s w <= waking_of s' w)%nat -> ev_time_cmp (clock s) (clock s') <= 0 ->
  wk_ok s l w k -> wk_ok s' l w k.
Proof.
  intros Hpc Hwa Hc (? & ? & ? & ? & ? & ? & ? & H). split_and!; try done. revert H.
  unfold wake_ok, will_wake. rewrite Hpc.
  assert (0 < w_sem k + Z.of_nat (waking_of s w) -> 0 < w_sem k + Z.of_nat (waking_of s' w)) as Hww by lia.
  destruct (pcs s !! w) as [[|[]|e []|e []]|]; try (intros [?|?]; [left; auto|by right]); try done.
  intros [?|(Hl & Hs & He)]; [left; auto|]. right. split_and!; try done. intros e t Het.
  destruct (He e t Het); [by left|right]. eapply cmp_trans; done.
Qed.

(** A step that concerns the event [e0] and the worker [w0]. *)
Lemma inv_step s T s' T' e0 w0 :
  inv s T ->
  (forall e, e <> e0 -> same_ev s T s' T' e) -> ev_ok s' T' e0 ->
  (forall w, w <> w0 -> workers (objs s') !! w = workers (objs s) !! w /\ T' w = T w /\ pcs s' !! w = pcs s !! w /\
     (waking_of s w <= waking_of s' w)%nat) ->
  (forall k, workers (objs s') !! w0 = Some k -> wk_ok s' (T' w0) w0 k) ->
  (is_Some (pcs s' !! w0) -> is_Some (workers (objs s') !! w0)) ->
  types (objs s') = types (objs s) -> ev_time_cmp (clock s) (clock s') <= 0 -> clock_ok (clock s') ->
  inv s' T'.
Proof.
  intros Hinv Hes He0 Hws Hw0 Hpc0 Hty Hc Hck. constructor.
  - intros e. destruct (decide (e = e0)) as [->|Hne]; [done|]. eapply ev_ok_frame; [by apply Hes|apply Hinv].
  - intros w k Hk. destruct (decide (w = w0)) as [->|Hne]; [by apply Hw0|].
    destruct (Hws w Hne) as (Hw & HT & Hpc & Hwa). rewrite HT. eapply wk_ok_frame; [done|done|done|].
    apply Hinv. by rewrite <- Hw.
  - intros w pc Hpc. destruct (decide (w = w0)) as [->|Hne]; [by apply Hpc0|].
    destruct (Hws w Hne) as (Hw & _ & Hpc' & _). rewrite Hw. rewrite Hpc' in Hpc. by eapply (inv_pc s T Hinv).
  - rewrite Hty. apply Hinv.
  - done.
Qed.

Lemma inv_ev_some s T e x : inv s T -> events (objs s) !! e = Some x ->
  is_Some (types (objs s) !! e_type x) /\
  match posting s !! e with
  | Some (w, timed) => claimed s T e x w timed
  | None => idle s T e x \/ waiting s T e x
  end.
Proof. intros [He _ _ _ _] Hx. specialize (He e). unfold ev_ok in He. by rewrite Hx in He. Qed.

Lemma ev_refs s T e x : inv s T -> events (objs s) !! e = Some x -> 0 < e_refcount x < 2 ^ 32.
Proof.
  intros Hinv Hx. destruct (inv_ev_some s T e x Hinv Hx) as [_ H].
  destruct (posting s !! e) as [[w b]|]; [apply H|destruct H as [H|H]; apply H].
Qed.

(** A used event exists. *)
Lemma usable_event s T e : inv s T -> usable s e -> exists x, events (objs s) !! e = Some x.
Proof.
  intros [He _ _ _ _] Hu. specialize (He e). unfold ev_ok, dead in He. destruct (events (objs s) !! e) as [x|]; [eauto|].
  unfold usable in Hu. lia.
Qed.

(** ** Changes of one event *)

Definition put_event (e : loc) (x : ev__s) (o : evs) : evs := set_events (insert e x) o.

(** The fields other than the counters and the status. *)
Definition same_fields (x x' : ev__s) : Prop :=
  e_type x' = e_type x /\ e_dst x' = e_dst x /\ e_to x' = e_to x /\ e_posted x' = e_posted x.

(** Taking or giving back references. *)
Lemma inv_recount s T e x x' s' :
  inv s T -> events (objs s) !! e = Some x -> same_fields x x' ->
  e_refcount x' - e_refcount x = Z.of_nat (held_of s' e + hands (pcs s') e) - Z.of_nat (held_of s e + hands (pcs s) e) ->
  0 < e_refcount x' < 2 ^ 32 -> objs s' = put_event e x' (objs s) -> posting s' = posting s ->
  ev_ok s' T e.
Proof.
  intros Hinv Hx (Hty & Hd & Hto & Hpo) Hn Hr Ho Hp. unfold ev_ok. rewrite Ho, Hp. cbn [put_event set_events events].
  rewrite lookup_insert_eq. destruct (inv_ev_some s T e x Hinv Hx) as [Ht H]. cbn [types set_events put_event]. rewrite Hty.
  split; [done|]. destruct (posting s !! e) as [[w b]|].
  - destruct H as (? & [? ?] & ? & ? & ? & ? & ?). unfold claimed, refs. rewrite Hd, Hto, Hpo, Ho. split_and!; try done; lia.
  - destruct H as [(? & [? ?] & ?)|(? & [? ?] & ? & w & ? & ? & ? & ?)].
    + left. unfold idle, refs. rewrite Hpo, Ho. split_and!; try done; lia.
    + right. unfold waiting, refs. rewrite Hd, Hto, Hpo, Ho. split_and!; try done; [lia|lia|lia|]. exists w. split_and!; done.
Qed.

(** ** Deliveries due

    An event in a queue, and one whose actor a worker is about to call. *)

(** The event is posted and no call of [ev_post] for it is under way: it is
    then in a queue ([in_queues_flag]). *)
Definition in_queue s (e : loc) : bool :=
  match events (objs s) !! e, posting s !! e with
  | Some x, None => e_posted x =? 1
  | _, _ => false
  end.

Definition calling (e : loc) (pc : wpc) : bool := match pc with PCall e' _ => bool_decide (e' = e) | _ => false end.

Definition due s (e : loc) : nat := count_pc (calling e) (pcs s) + (if in_queue s e then 1 else 0).

Lemma calls_hands m e : (count_pc (calling e) m <= hands m e)%nat.
Proof.
  unfold hands. induction m as [|w pc m Hw IH] using map_ind; [by rewrite !count_pc_empty|].
  rewrite !count_pc_insert, !count_pc_absent by done. destruct pc as [|?|e' ?|e' ?]; cbn; repeat case_bool_decide; simplify_eq; lia.
Qed.
End inv.
