(* ===== verification/EvSteps.v ===== *)
(** * Every step keeps the invariant of event workers *)

From Stdlib Require Import Floats.SpecFloat.
From stdpp Require Import prelude gmap strings functions.
From S2P Require Import Prelude Rbt RbtRep RbtIns RbtSpec CFloat Ev EvSys EvInv.

Open Scope Z_scope.

#[local] Arguments wrapu : simpl never.
#[local] Arguments wraps : simpl never.
#[local] Arguments ev_time_cmp : simpl never.
#[local] Arguments ev_time_diff : simpl never.
#[local] Arguments SFltb : simpl never.
#[local] Arguments ev_sched_to : simpl never.
#[local] Arguments Z.add : simpl never.
#[local] Arguments Z.sub : simpl never.
#[local] Arguments Z.of_nat : simpl never.

(** What a computation that returned has done. *)
Ltac returned H :=
  unfold st_e, st_w, ld_e, ld_w, ld_t, modify, gets, get, put, lift_opt, c_assert, stuck, mbind, M_bind, mret, M_ret, fmap, option_fmap, option_map in H;
  cbn in H;
  repeat (case_match; try (cbn in H); simplify_eq; try done).

Ltac look := rewrite ?lookup_insert_eq, ?lookup_delete_eq, ?lookup_insert_ne, ?lookup_delete_ne by congruence.

(** Nothing that an unconcerned event or worker sees has changed. *)
Ltac same_event :=
  constructor; unfold held_of, waking_of, put_event;
  cbn [objs pcs held posting waking clock with_objs with_held with_pc with_posting with_waking set_events set_workers
       events types workers]; look; try done.
Ltac same_worker :=
  unfold held_of, waking_of; cbn [objs pcs held posting waking clock with_objs with_held with_pc with_posting with_waking set_events set_workers
       events types workers]; intros; look; try done.

Section client.
Context (s : sys) (T : loc -> list (loc * timespec)) (Hinv : inv s T).

Lemma still w : forall k, workers (objs s) !! w = Some k -> wk_ok s (T w) w k.
Proof. apply Hinv. Qed.

Lemma time_cmp_refl t : ev_time_cmp t t <= 0.
Proof. tlia. Qed.

(** Steps that change only the event [e] and what clients hold of it. *)
Lemma inv_client e s' :
  (forall e', e' <> e -> same_ev s T s' T e') -> ev_ok s' T e ->
  workers (objs s') = workers (objs s) -> types (objs s') = types (objs s) -> pcs s' = pcs s ->
  (forall w, waking_of s' w = waking_of s w) -> clock s' = clock s -> inv s' T.
Proof.
  intros Hes He Hw Hty Hpc Hwa Hc. apply (inv_step s T s' T e 1%positive); try done.
  - intros w _. by rewrite Hw, Hpc, Hwa.
  - intros k Hk. rewrite Hw in Hk. eapply wk_ok_frame; [..|by apply Hinv]; [by rewrite Hpc|by rewrite Hwa|].
    rewrite Hc. apply time_cmp_refl.
  - rewrite Hpc, Hw. intros [pc Hp]. by eapply (inv_pc s T Hinv).
  - rewrite Hc. apply time_cmp_refl.
  - rewrite Hc. apply Hinv.
Qed.

Lemma inv_new p g t o :
  events (objs s) !! p = None -> ev_new (Some p) g t (objs s) = Some (Some p, o) ->
  inv (with_held p 1 (with_objs o s)) T.
Proof.
  intros Hp Hrun. unfold ev_new in Hrun. returned Hrun.
  pose proof (inv_ev s T Hinv p) as Hd. unfold ev_ok in Hd. rewrite Hp in Hd. destruct Hd as (Hh & Hha & Hpo & Hq).
  apply (inv_client p); try done; [intros e' He; by same_event|].
  unfold ev_ok. cbn. rewrite lookup_insert_eq, Hpo. split; [by eexists|]. left. unfold idle, refs, held_of. cbn.
  rewrite lookup_insert_eq. cbn. rewrite Hha. split_and!; try done; lia.
Qed.

Lemma inv_get e o :
  usable s e -> no_wrap s e -> ev_get e (objs s) = Some (tt, o) ->
  inv (with_held e (S (held_of s e)) (with_objs o s)) T.
Proof.
  intros Hu Hw Hrun. unfold ev_get in Hrun. returned Hrun.
  match goal with H : events (objs s) !! e = Some ?x |- _ => rename H into Hx; pose proof (ev_refs s T e x Hinv Hx); specialize (Hw x Hx) end.
  apply (inv_client e); try done; [intros e' He; by same_event|].
  eapply inv_recount; [exact Hinv|exact Hx| | | |reflexivity|reflexivity]; cbn; try done.
  - unfold held_of. cbn. rewrite lookup_insert_eq. cbn. rewrite u32_small by lia. lia.
  - rewrite u32_small; lia.
Qed.

(** Putting a reference that the client or a worker had. *)
Lemma inv_ev_put e s' :
  may_put s e -> ev_put e (objs s) = Some (tt, objs s') ->
  (S (held_of s' e + hands (pcs s') e) = held_of s e + hands (pcs s) e)%nat -> posting s' = posting s ->
  ev_ok s' T e.
Proof.
  intros Hm Hrun Hn Hp. unfold ev_put in Hrun. returned Hrun;
    match goal with H : events (objs s) !! e = Some ?x |- _ => rename H into Hx; pose proof (ev_refs s T e x Hinv Hx) as Hr;
      pose proof (Hm x Hx) as Hm'; destruct (inv_ev_some s T e x Hinv Hx) as [_ Hev] end.
  - match goal with H : (u32 _ =? 0) = true |- _ => apply Z.eqb_eq in H; rewrite u32_small in H by lia end.
    unfold ev_ok, dead. rewrite <- Hrun. cbn. rewrite lookup_delete_eq, Hp.
    destruct (posting s !! e); [specialize (Hm' ltac:(eauto)); lia|].
    destruct Hev as [(_ & [? ?] & ?)|(_ & [? ?] & _)]; [|lia]. split_and!; try done; lia.
  - match goal with H : (u32 _ =? 0) = false |- _ => apply Z.eqb_neq in H; rewrite u32_small in * by lia end.
    eapply inv_recount; [exact Hinv|exact Hx| | | |symmetry; exact Hrun|done]; cbn; try done; lia.
Qed.

Lemma same_put e e' o : e' <> e -> ev_put e (objs s) = Some (tt, o) -> events o !! e' = events (objs s) !! e' /\
  workers o = workers (objs s) /\ types o = types (objs s).
Proof. intros He Hrun. unfold ev_put in Hrun. returned Hrun; split_and!; cbn; by look. Qed.

Lemma inv_put e n o :
  held_of s e = S n -> may_put s e -> ev_put e (objs s) = Some (tt, o) -> inv (with_held e n (with_objs o s)) T.
Proof.
  intros Hh Hm Hrun. pose proof (fun e' He => same_put e e' o He Hrun) as Hsame.
  assert (workers o = workers (objs s) /\ types o = types (objs s)) as [Hw Hty].
  { destruct (Hsame (e + 1)%positive ltac:(lia)) as (_ & ? & ?). done. }
  apply (inv_client e); try done.
  - intros e' He. destruct (Hsame e' He) as (? & _). same_event. all: unfold queued; rewrite ?Hw; done.
  - apply inv_ev_put; try done. unfold held_of in *. cbn. rewrite lookup_insert_eq. cbn. lia.
Qed.

(** Changes of the fields of an event that is not queued. *)
Lemma inv_claim src dst e to o :
  usable s e -> is_Some (workers (objs s) !! dst) -> nonneg (default (Ts 0 0) to) ->
  ev_post_claim src dst e to (objs s) = Some (true, o) ->
  inv (with_posting (insert e (dst, match to with Some _ => true | None => false end)) (with_objs o s)) T.
Proof.
  intros Hu Hd Hto Hrun. set (timed := match to with Some _ => true | None => false end).
  assert (timed = false -> default (Ts 0 0) to = Ts 0 0) as Htimed by (by destruct to). clearbody timed.
  unfold ev_post_claim in Hrun. returned Hrun.
  match goal with H : events (objs s) !! e = Some ?x |- _ => rename H into Hx; destruct (inv_ev_some s T e x Hinv Hx) as [Hty Hev] end.
  match goal with H : negb _ = false |- _ => apply negb_false_iff, Z.eqb_eq in H; rename H into H0 end.
  assert (posting s !! e = None /\ idle s T e e0) as [Hp (_ & Hr & Hq)].
  { destruct (posting s !! e) as [[? ?]|]; [destruct Hev; congruence|]. destruct Hev as [?|[? _]]; [done|congruence]. }
  apply (inv_client e); try done; [intros e' He; by same_event|].
  unfold ev_ok. cbn. rewrite !lookup_insert_eq. split; [done|]. by split_and!.
Qed.

Lemma inv_refused e dst timed wake o :
  posting s !! e = Some (dst, timed) -> ev_post_enqueue dst e timed (objs s) = Some ((EBUSY, wake), o) ->
  inv (with_posting (delete e) (with_objs o s)) T.
Proof.
  intros Hp Hrun. unfold ev_post_enqueue in Hrun.
  assert (exists x, events (objs s) !! e = Some x /\ o = put_event e (set_posted 0 x) (objs s)) as (x & Hx & ->)
    by (destruct timed; returned Hrun; by eexists).
  destruct (inv_ev_some s T e x Hinv Hx) as [Hty Hev]. rewrite Hp in Hev. destruct Hev as (_ & Hr & _ & _ & _ & _ & Hq).
  apply (inv_client e); try done; [intros e' He; by same_event|].
  unfold ev_ok. cbn. rewrite lookup_insert_eq, lookup_delete_eq. split; [done|]. by left.
Qed.
End client.

(** ** Queues *)

(** What an operation on a tree did, from what it does on a tree with the
    events [l]. *)
Lemma on_tree_inv {A} w (m : M (rbt timespec) A) o a o' k (Q : A -> rbt timespec -> Prop) :
  workers o !! w = Some k -> runs m (w_event_tree k) Q -> on_tree w m o = Some (a, o') ->
  exists t, Q a t /\ o' = set_workers (insert w (set_tree t k)) o.
Proof.
  intros Hk (a' & t & Hm & HQ) Hrun. unfold on_tree in Hrun.
  unfold st_w, ld_w, lift_opt, modify, mbind, M_bind, mret, M_ret in Hrun. cbn in Hrun. rewrite Hk in Hrun. cbn in Hrun.
  rewrite Hm in Hrun. cbn in Hrun. rewrite Hk in Hrun. cbn in Hrun. simplify_eq. eauto.
Qed.

Lemma runs_on_tree {A} w (m : M (rbt timespec) A) o k (Q : A -> rbt timespec -> Prop) :
  workers o !! w = Some k -> runs m (w_event_tree k) Q ->
  runs (on_tree w m) o (fun a o' => exists t, Q a t /\ o' = set_workers (insert w (set_tree t k)) o).
Proof.
  intros Hk (a & t & Hm & HQ). eexists a, _. split; [|by exists t].
  unfold on_tree, st_w, ld_w, lift_opt, modify, mbind, M_bind, mret, M_ret. cbn. rewrite Hk. cbn.
  rewrite Hm. cbn. by rewrite Hk.
Qed.

(** Steps that change the worker [w] and the event [e]. *)
Section move.
Context (s : sys) (T : loc -> list (loc * timespec)) (Hinv : inv s T).

Definition member (k : ev_worker_s) (l : list (loc * timespec)) (e : loc) : Prop := e ∈ w_event_list k \/ e ∈ l.*1.

Lemma queued_move o' w k k' l' e v :
  workers (objs s) !! w = Some k -> workers o' = <[w := k']> (workers (objs s)) ->
  (member k' l' e <-> member k (T w) e) -> queued o' (<[w := l']> T) e v <-> queued (objs s) T e v.
Proof.
  intros Hk Hw Hm. unfold queued. rewrite Hw. destruct (decide (v = w)) as [->|Hne].
  - rewrite lookup_insert_eq, fn_lookup_insert. unfold member in Hm. split; intros (k1 & Hk1 & H); simplify_eq; eauto.
    all: eexists; split; [done|]; by apply Hm.
  - by rewrite lookup_insert_ne, fn_lookup_insert_ne.
Qed.

Lemma queued_at o' w k' l' e :
  workers o' = <[w := k']> (workers (objs s)) -> queued o' (<[w := l']> T) e w <-> member k' l' e.
Proof.
  intros Hw. unfold queued. rewrite Hw, lookup_insert_eq, fn_lookup_insert. unfold member.
  split; [intros (k1 & ? & ?); by simplify_eq|eauto].
Qed.

Lemma queued_other o' w k' l' e v :
  v <> w -> workers o' = <[w := k']> (workers (objs s)) -> queued o' (<[w := l']> T) e v <-> queued (objs s) T e v.
Proof. intros Hne Hw. unfold queued. by rewrite Hw, lookup_insert_ne, fn_lookup_insert_ne. Qed.

Lemma inv_move s' e w k k' l' :
  workers (objs s) !! w = Some k -> workers (objs s') = <[w := k']> (workers (objs s)) ->
  types (objs s') = types (objs s) -> clock s' = clock s ->
  (forall e', e' <> e -> events (objs s') !! e' = events (objs s) !! e' /\ held_of s' e' = held_of s e' /\
     hands (pcs s') e' = hands (pcs s) e' /\ posting s' !! e' = posting s !! e') ->
  (forall e', e' <> e -> (member k' l' e' <-> member k (T w) e') /\ forall t, (e', t) ∈ l' -> (e', t) ∈ T w) ->
  (forall v, v <> w -> pcs s' !! v = pcs s !! v /\ (waking_of s v <= waking_of s' v)%nat) ->
  ev_ok s' (<[w := l']> T) e -> wk_ok s' l' w k' -> inv s' (<[w := l']> T).
Proof.
  intros Hk Hw Hty Hc Hev Hmem Hv He Hok. apply (inv_step s T s' _ e w); try done.
  - intros e' Hne. destruct (Hev e' Hne) as (? & ? & ? & ?). destruct (Hmem e' Hne) as [Hm Ht]. constructor; try done.
    + intros v. by eapply queued_move.
    + intros v t. destruct (decide (v = w)) as [->|]; [|by rewrite fn_lookup_insert_ne]. rewrite fn_lookup_insert. apply Ht.
    + intros v [kv Hkv]. rewrite Hw. destruct (decide (v = w)) as [->|]; [rewrite lookup_insert_eq|rewrite lookup_insert_ne by done]; eauto.
  - intros v Hne. rewrite Hw, lookup_insert_ne, fn_lookup_insert_ne by done. destruct (Hv v Hne). done.
  - intros k1. rewrite Hw, lookup_insert_eq, fn_lookup_insert. by intros [= <-].
  - rewrite Hw, lookup_insert_eq. eauto.
  - rewrite Hc. apply time_cmp_refl.
  - rewrite Hc. apply Hinv.
Qed.

(** An event that goes into a queue of [w]. *)
Lemma queue_event s' e x x' w k k' l' :
  events (objs s) !! e = Some x -> posting s !! e = Some (w, true) \/ posting s !! e = Some (w, false) ->
  workers (objs s') = <[w := k']> (workers (objs s)) -> types (objs s') = types (objs s) ->
  events (objs s') !! e = Some x' -> posting s' !! e = None -> same_fields x x' ->
  e_refcount x' = e_refcount x + 1 -> e_refcount x < 2 ^ 32 - 1 -> held_of s' e = held_of s e -> pcs s' = pcs s ->
  member k' l' e -> (forall t, (e, t) ∈ l' -> t = e_to x) -> workers (objs s) !! w = Some k ->
  ev_ok s' (<[w := l']> T) e.
Proof.
  intros Hx Hp Hw Hty Hx' Hp' (Hf1 & Hf2 & Hf3 & Hf4) Hn Hlt Hh Hpc Hm Ht Hk. unfold ev_ok. rewrite Hx', Hp', Hty, Hf1.
  destruct (inv_ev_some s T e x Hinv Hx) as [? Hev]. split; [done|].
  assert (claimed s T e x w true \/ claimed s T e x w false) as Hcl.
  { destruct Hp as [Hp|Hp]; rewrite Hp in Hev; [by left|by right]. }
  assert (e_posted x = 1 /\ refs x (held_of s e + hands (pcs s) e) /\ e_dst x = Some w /\ nonneg (e_to x) /\
    forall w', ~ queued (objs s) T e w') as (? & [? ?] & ? & ? & Hnq)
    by (destruct Hcl as [(? & ? & ? & ? & ? & ? & ?)|(? & ? & ? & ? & ? & ? & ?)]; done).
  right. unfold waiting, refs. rewrite Hf2, Hf3, Hf4, Hh, Hpc. split_and!; try done; [lia|lia|lia|]. exists w.
  split_and!; [done|by eapply queued_at| |].
  - intros v Hv. destruct (decide (v = w)) as [|Hne]; [done|]. exfalso. by eapply Hnq, queued_other.
  - intros t. rewrite fn_lookup_insert. apply Ht.
Qed.

(** ** Posting *)

(** The worker after an event went into its queue. *)
Lemma wk_ok_queued e to w k k' l' n :
  workers (objs s) !! w = Some k -> e ∉ w_event_list k -> e ∉ (T w).*1 ->
  models ev_time_cmp l' (w_event_tree k') -> disp_ok k' -> w_sem k' = w_sem k -> w_sem_wait k' = w_sem_wait k ->
  w_state k' = w_state k ->
  w_event_list k' = w_event_list k /\ w_ev_list_len k' = w_ev_list_len k /\ l' = seq_ins ev_time_cmp (e, to) (T w) \/
  w_event_list k' = w_event_list k ++ [e] /\ w_ev_list_len k' = w_ev_list_len k + 1 /\ l' = T w /\
    ev_time_cmp to (w_sem_wait k) <= 0 ->
  (waking_of s w + (if (ev_time_cmp to (w_sem_wait k) <=? 0)%Z then 1 else 0) <= n)%nat ->
  forall s', pcs s' = pcs s -> waking_of s' w = n -> clock s' = clock s -> wk_ok s' l' w k'.
Proof.
  intros Hk Hl Ht Hm Hd Hsem Hsw Hst Hq Hn s' Hpc Hwa Hc.
  destruct (inv_wk s T Hinv w k Hk) as (Hm0 & Hnd & Hdis & Hlen & Hs & Hsn & _ & Hwk). split_and!; try done.
  - destruct Hq as [(-> & _)|(-> & _)]; [done|]. apply NoDup_app_disj. split_and!; [done|set_solver|apply NoDup_singleton].
  - intros e'. destruct Hq as [(-> & _ & ->)|(-> & _ & -> & _)].
    + intros He'. rewrite list_elem_of_fmap. intros ([e1 t1] & -> & H1). apply elem_of_seq_ins in H1 as [[= -> ->]|H1]; [done|].
      apply (Hdis e1 He'). by apply (list_elem_of_fmap_2' fst _ _ _ H1).
    + intros [?| ->%list_elem_of_singleton]%elem_of_app; [by apply Hdis|done].
  - destruct Hq as [(-> & -> & _)|(-> & -> & _)]; [done|]. rewrite length_app. cbn. lia.
  - by rewrite Hsem.
  - by rewrite Hsw.
  - unfold wake_ok, will_wake in *. rewrite Hpc, Hsem, Hwa, Hsw, Hst, Hc. destruct (Z.leb_spec (ev_time_cmp to (w_sem_wait k)) 0) as [Hle|Hgt].
    { destruct (pcs s !! w) as [[|[]|? []|? []]|]; try done; left; lia. }
    destruct Hq as [(Hl' & _ & ->)|(_ & _ & _ & ?)]; [|lia]. rewrite Hl'.
    destruct (pcs s !! w) as [[|[]|? []|? []]|]; try done; destruct Hwk as [?|Hwk]; try (left; lia); try by right.
    right. destruct Hwk as (? & ? & Hwk). split_and!; try done. intros e1 t1 [[= -> ->]|H1]%elem_of_seq_ins; [|by eapply Hwk].
    left. tlia.
Qed.

Lemma queue_member e to k k' l' l :
  w_event_list k' = w_event_list k /\ l' = seq_ins ev_time_cmp (e, to) l \/
  w_event_list k' = w_event_list k ++ [e] /\ l' = l ->
  (forall e', member k' l' e' <-> e' = e \/ member k l e') /\ forall e' t, (e', t) ∈ l' -> (e', t) = (e, to) \/ (e', t) ∈ l.
Proof.
  assert (forall e', e' ∈ (seq_ins ev_time_cmp (e, to) l).*1 <-> e' = e \/ e' ∈ l.*1) as Hins.
  { intros e'. rewrite !list_elem_of_fmap. setoid_rewrite elem_of_seq_ins. split.
    - intros ([e1 t1] & -> & [[= -> ->]|H]); [by left|]. right. by exists (e1, t1).
    - intros [->|([e1 t1] & -> & H)]; [by exists (e, to); auto|exists (e1, t1); auto]. }
  unfold member. intros [[-> ->]|[-> ->]]; split.
  - intros e'. rewrite Hins. tauto.
  - intros e' t H. by apply elem_of_seq_ins in H.
  - intros e'. rewrite elem_of_app, list_elem_of_singleton. tauto.
  - auto.
Qed.

(** What queueing a claimed event does: it is refused while the worker is
    being flushed. *)
Definition queued_effect e x w k (wake : bool) o : Prop :=
  exists k' l', o = set_workers (insert w k') (put_event e (set_refcount (e_refcount x + 1) x) (objs s)) /\
    wake = (ev_time_cmp (e_to x) (w_sem_wait k) <=? 0) /\
    models ev_time_cmp l' (w_event_tree k') /\ disp_ok k' /\ w_sem k' = w_sem k /\ w_sem_wait k' = w_sem_wait k /\
    w_state k' = w_state k /\
    (w_event_list k' = w_event_list k /\ w_ev_list_len k' = w_ev_list_len k /\ l' = seq_ins ev_time_cmp (e, e_to x) (T w) \/
     w_event_list k' = w_event_list k ++ [e] /\ w_ev_list_len k' = w_ev_list_len k + 1 /\ l' = T w /\
       ev_time_cmp (e_to x) (w_sem_wait k) <= 0).

Lemma runs_enqueue e dst timed x k :
  posting s !! e = Some (dst, timed) -> events (objs s) !! e = Some x -> e_refcount x < 2 ^ 32 - 1 ->
  workers (objs s) !! dst = Some k -> e ∉ (T dst).*1 ->
  runs (ev_post_enqueue dst e timed) (objs s) (fun r o =>
    if is_state (w_state k) EV_WORKER_FLUSHING then r = (EBUSY, false)
    else r.1 = 0 /\ queued_effect e x dst k r.2 o).
Proof.
  intros Hp Hx Hnw Hk Hnt. destruct (inv_ev_some s T e x Hinv Hx) as [_ Hev]. rewrite Hp in Hev.
  destruct Hev as (_ & [_ Hr] & _ & _ & Hto & _ & _).
  destruct (inv_wk s T Hinv dst k Hk) as (Hm0 & _ & _ & _ & _ & Hsn & Hdisp & _).
  unfold ev_post_enqueue. apply runs_bind. exists k, (objs s). split; [unfold ld_w; by rewrite Hk|].
  destruct (is_state _ _).
  { apply runs_bind. eexists tt, _. split; [|by apply runs_ret]. unfold st_e, ld_e, mbind, M_bind. rewrite Hx. done. }
  set (x' := set_refcount (e_refcount x + 1) x). set (o1 := put_event e x' (objs s)).
  apply runs_bind. exists tt, o1. split.
  { unfold ev_get, st_e, ld_e, mbind, M_bind. rewrite Hx. cbn. rewrite Hx. cbn. rewrite u32_small by lia.
    unfold c_assert. rewrite (proj2 (Z.ltb_lt _ _)) by lia. done. }
  apply runs_bind. exists x', o1. split; [unfold ld_e; cbn; by rewrite lookup_insert_eq|]. apply runs_bind.
  destruct timed.
  - eapply runs_mono; [eapply (runs_on_tree dst _ o1 k); [done|by apply (models_add ev_time_cmp (T dst))]|].
    intros _ o' (t & Hm & ->). apply runs_ret. split; [done|]. exists (set_tree t k), (seq_ins ev_time_cmp (e, e_to x) (T dst)).
    split_and!; try done. by left.
  - specialize (Hto eq_refl). eexists tt, _. split; [unfold st_w, ld_w, mbind, M_bind; cbn; by rewrite Hk|]. apply runs_ret. split; [done|].
    eexists (set_list (w_event_list k ++ [e]) (w_ev_list_len k + 1) k), (T dst). split_and!; try done. right.
    split_and!; try done. rewrite Hto. apply Hsn.
Qed.

Lemma inv_enqueue e dst timed (wake : bool) o :
  posting s !! e = Some (dst, timed) -> no_wrap s e ->
  ev_post_enqueue dst e timed (objs s) = Some ((0, wake), o) ->
  exists T', inv (with_waking dst (if wake then S (waking_of s dst) else waking_of s dst)
    (with_posting (delete e) (with_objs o s))) T'.
Proof.
  intros Hp Hnw Hrun. pose proof (inv_ev s T Hinv e) as He. unfold ev_ok, dead in He.
  destruct (events (objs s) !! e) as [x|] eqn:Hx; [|rewrite Hp in He; naive_solver]. specialize (Hnw x Hx).
  rewrite Hp in He. destruct He as (_ & _ & _ & _ & [k Hk] & _ & _ & Hnq).
  assert (e ∉ w_event_list k /\ e ∉ (T dst).*1) as [Hnl Hnt].
  { split; intros ?; apply (Hnq dst); exists k; auto. }
  pose proof (runs_inv _ _ _ _ _ Hrun (runs_enqueue e dst timed x k Hp Hx Hnw Hk Hnt)) as Heff. cbn [fst snd] in Heff.
  destruct (is_state _ _); [done|]. destruct Heff as (_ & k' & l' & -> & -> & Hm & Hd & Hs1 & Hs2 & Hs3 & Hq).
  exists (<[dst := l']> T).
  destruct (queue_member e (e_to x) k k' l' (T dst)) as [Hmem Helem]; [naive_solver|].
  eapply (inv_move _ e dst k k' l'); try done.
  - intros e' Hne. unfold held_of. cbn. by look.
  - intros e' Hne. rewrite Hmem. split; [naive_solver|]. intros t [[= -> ->]|?]%Helem; done.
  - intros v Hne. unfold waking_of. cbn. by look.
  - eapply (queue_event _ e x (set_refcount (e_refcount x + 1) x) dst k k' l'); try done; cbn; [|apply lookup_insert_eq|apply lookup_delete_eq|by apply Hmem; left|].
    + destruct timed; [by left|by right].
    + intros t [[= ->]|Ht]%Helem; [done|]. destruct Hnt. by apply (list_elem_of_fmap_2' fst _ _ _ Ht).
  - eapply (wk_ok_queued e (e_to x) dst k k' l'); try done. unfold waking_of. cbn. rewrite lookup_insert_eq. cbn. case_match; lia.
Qed.

(** ** Steps that change only a worker *)

(** What [wk_ok] says apart from the wake-ups. *)
Lemma wk_ok_intro s' w k k' :
  workers (objs s) !! w = Some k ->
  w_event_tree k' = w_event_tree k -> w_event_list k' = w_event_list k -> w_ev_list_len k' = w_ev_list_len k ->
  0 <= w_sem k' -> nonneg (w_sem_wait k') -> disp_ok k' -> wake_ok s' (T w) w k' -> wk_ok s' (T w) w k'.
Proof.
  intros Hk Ht Hl Hn Hs Hsn Hd Hwk. destruct (inv_wk s T Hinv w k Hk) as (? & ? & ? & ? & _).
  split_and!; try done; by rewrite ?Ht, ?Hl, ?Hn.
Qed.

Lemma inv_worker s' w k k' :
  workers (objs s) !! w = Some k -> workers (objs s') = <[w := k']> (workers (objs s)) ->
  events (objs s') = events (objs s) -> types (objs s') = types (objs s) -> held s' = held s -> posting s' = posting s ->
  clock s' = clock s -> (forall e, hands (pcs s') e = hands (pcs s) e) -> w_event_list k' = w_event_list k ->
  (forall v, v <> w -> pcs s' !! v = pcs s !! v /\ (waking_of s v <= waking_of s' v)%nat) ->
  wk_ok s' (T w) w k' -> inv s' T.
Proof.
  intros Hk Hw He Hty Hh Hp Hc Hha Hl Hv Hok.
  assert (forall e, same_ev s T s' T e) as Hsame.
  { intros e. constructor; try done; [by rewrite He|unfold held_of; by rewrite Hh|by rewrite Hp| |].
    - intros v. unfold queued. rewrite Hw. destruct (decide (v = w)) as [->|]; [|by rewrite lookup_insert_ne].
      rewrite lookup_insert_eq, Hk. split; intros (? & [= <-] & ?); eexists; (split; [done|]); by rewrite Hl in *.
    - intros v [kv Hkv]. rewrite Hw. destruct (decide (v = w)) as [->|]; [rewrite lookup_insert_eq|rewrite lookup_insert_ne by done]; eauto. }
  apply (inv_step s T s' T 1%positive w); try done.
  - eapply ev_ok_frame; [apply Hsame|apply Hinv].
  - intros v Hne. rewrite Hw, lookup_insert_ne by done. destruct (Hv v Hne). done.
  - intros k1. rewrite Hw, lookup_insert_eq. by intros [= <-].
  - rewrite Hw, lookup_insert_eq. eauto.
  - rewrite Hc. apply time_cmp_refl.
  - rewrite Hc. apply Hinv.
Qed.

Lemma inv_wake w n o :
  waking_of s w = S n -> sem_post w (objs s) = Some (tt, o) -> inv (with_waking w n (with_objs o s)) T.
Proof.
  intros Hn Hrun. unfold sem_post in Hrun. returned Hrun.
  match goal with H : workers (objs s) !! w = Some ?y |- _ => rename H into Hk; rename y into k end.
  pose proof (inv_wk s T Hinv w k Hk) as (_ & _ & _ & _ & ? & ? & ? & Hwk).
  eapply inv_worker; [exact Hk|reflexivity|done..| |].
  - intros v Hne. unfold waking_of. cbn. by look.
  - eapply wk_ok_intro; [exact Hk|done|done|done|cbn; lia|done|done|]. revert Hwk.
    unfold wake_ok, will_wake, waking_of in *. cbn. rewrite lookup_insert_eq, Hn. cbn.
    destruct (pcs s !! w) as [[|[]|? []|? []]|]; try done; intros [?|?]; (left; lia) || by right.
Qed.

Lemma inv_flush w o :
  st_w w (set_state EV_WORKER_FLUSHING) (objs s) = Some (tt, o) ->
  inv (with_waking w (S (waking_of s w)) (with_objs o s)) T.
Proof.
  intros Hrun. returned Hrun.
  match goal with H : workers (objs s) !! w = Some ?y |- _ => rename H into Hk; rename y into k end.
  pose proof (inv_wk s T Hinv w k Hk) as (_ & _ & _ & _ & ? & ? & ? & Hwk).
  eapply inv_worker; [exact Hk|reflexivity|done..| |].
  - intros v Hne. unfold waking_of. cbn. by look.
  - eapply wk_ok_intro; [exact Hk|done|done|done|done|done|done|]. revert Hwk.
    unfold wake_ok, will_wake, waking_of in *. cbn. rewrite lookup_insert_eq. cbn.
    destruct (pcs s !! w) as [[|[]|? []|? []]|]; try done; intros [?|?]; left; lia.
Qed.

(** Loads and stores of a worker. *)
Lemma runs_ld_w w k o (Q : ev_worker_s -> evs -> Prop) : workers o !! w = Some k -> Q k o -> runs (ld_w w) o Q.
Proof. intros Hk HQ. exists k, o. split; [|done]. unfold ld_w. by rewrite Hk. Qed.

Lemma runs_st_w w k f o (Q : unit -> evs -> Prop) :
  workers o !! w = Some k -> Q tt (set_workers (insert w (f k)) o) -> runs (st_w w f) o Q.
Proof. intros Hk HQ. eexists tt, _. split; [|exact HQ]. unfold st_w, ld_w, mbind, M_bind. by rewrite Hk. Qed.

Lemma runs_ld_e e x o (Q : ev__s -> evs -> Prop) : events o !! e = Some x -> Q x o -> runs (ld_e e) o Q.
Proof. intros Hx HQ. exists x, o. split; [|done]. unfold ld_e. by rewrite Hx. Qed.

Lemma runs_st_e e x f o (Q : unit -> evs -> Prop) :
  events o !! e = Some x -> Q tt (put_event e (f x) o) -> runs (st_e e f) o Q.
Proof. intros Hx HQ. eexists tt, _. split; [|exact HQ]. unfold st_e, ld_e, mbind, M_bind. by rewrite Hx. Qed.

(** [ev_dispatch] gives the type its actor; the table grows when it must. *)
Lemma runs_dispatch_room w id k :
  workers (objs s) !! w = Some k -> 0 <= id < 2 ^ 30 ->
  runs (dispatch_room true w id) (objs s) (fun rc o => rc = 0 /\ exists tb,
    o = set_workers (insert w (set_dispatch (Some tb) (Z.of_nat (length tb)) k)) (objs s) /\
    (Z.to_nat id < length tb)%nat /\
    forall i, default None (tb !! i) = default None (default [] (w_dispatch k) !! i)).
Proof.
  intros Hk Hid. destruct (inv_wk s T Hinv w k Hk) as (_ & _ & _ & _ & _ & _ & (_ & Hlen & Hpos) & _).
  unfold dispatch_room. apply runs_bind. apply (runs_ld_w _ k); [done|]. cbn [negb].
  destruct (w_dispatch k) as [tbl|] eqn:Hd; cbn in Hlen; cbn [default].
  - destruct (Z.leb_spec (w_dispatch_len k) id) as [Hle|Hgt].
    + assert (s32 (Z.shiftl id 1) = 2 * id) as -> by (rewrite Z.shiftl_mul_pow2 by lia; change (2 ^ 1) with 2; rewrite s32_small by lia; lia).
      apply runs_bind. apply (runs_st_w _ k); [done|]. apply runs_ret. split; [done|]. exists (resize (Z.to_nat (2 * id)) None tbl). split_and!.
      * rewrite length_resize, Z2Nat.id by lia. done.
      * rewrite length_resize. destruct Hpos; [done|lia].
      * intros i. destruct (decide (i < length tbl)%nat).
        -- rewrite lookup_resize by lia. done.
        -- rewrite (lookup_ge_None_2 tbl) by lia. destruct (decide (i < Z.to_nat (2 * id))%nat).
           ++ by rewrite lookup_resize_new by lia.
           ++ by rewrite lookup_ge_None_2 by (rewrite length_resize; lia).
    + apply runs_ret. split; [done|]. exists tbl. split_and!; [|lia|done].
      rewrite <- Hlen, <- Hd. destruct (objs s) as [ev ty wk tt wt n]. unfold set_workers. cbn in *. f_equal.
      rewrite insert_id; [done|]. rewrite Hk. by destruct k.
  - set (size := if id <? EV_DISPATCH_TBL_SIZE then _ else _).
    assert (id < size) as Hsz.
    { unfold size. destruct (Z.ltb_spec id EV_DISPATCH_TBL_SIZE); [done|]. unfold EV_DISPATCH_TBL_SIZE in *.
      rewrite Z.shiftl_mul_pow2 by lia. change (2 ^ 1) with 2. rewrite u64_small by lia. lia. }
    apply runs_bind. apply (runs_st_w _ k); [done|]. apply runs_ret. split; [done|]. exists (replicate (Z.to_nat size) None). split_and!.
    + rewrite length_replicate, Z2Nat.id by lia. done.
    + rewrite length_replicate. lia.
    + intros i. rewrite lookup_nil. cbn. destruct (decide (i < Z.to_nat size)%nat).
      * by rewrite lookup_replicate_2.
      * by rewrite lookup_ge_None_2 by (rewrite length_replicate; lia).
Qed.

Lemma runs_dispatch w t fn k ty :
  workers (objs s) !! w = Some k -> types (objs s) !! t = Some ty ->
  runs (ev_dispatch true w t fn) (objs s) (fun rc o => rc = 0 /\ exists tb,
    o = set_workers (insert w (set_dispatch (Some tb) (Z.of_nat (length tb)) k)) (objs s) /\
    tb !! Z.to_nat (t_id ty) = Some fn /\
    forall i, i <> Z.to_nat (t_id ty) -> default None (tb !! i) = default None (default [] (w_dispatch k) !! i)).
Proof.
  intros Hk Hty. pose proof (inv_types s T Hinv t ty Hty) as Hid. unfold ev_dispatch. apply runs_bind.
  exists ty, (objs s). split; [unfold ld_t; by rewrite Hty|]. apply runs_bind.
  eapply runs_mono; [by apply (runs_dispatch_room w _ k)|]. intros rc o (-> & tb & -> & Hlt & Hsame). cbn [Z.eqb negb].
  apply runs_bind. unfold dispatch_store. apply runs_bind. eapply runs_ld_w; [cbn; apply lookup_insert_eq|]. cbn [w_dispatch set_dispatch].
  rewrite (proj2 (Z.leb_le _ _)), (proj2 (Z.ltb_lt _ _)) by lia. cbn [andb].
  eapply runs_st_w; [cbn; apply lookup_insert_eq|]. apply runs_ret. split; [done|].
  exists (<[Z.to_nat (t_id ty) := fn]> tb). split_and!.
  - unfold set_workers. cbn. rewrite insert_insert_eq, length_insert. done.
  - by apply list_lookup_insert_eq.
  - intros i Hne. by rewrite list_lookup_insert_ne.
Qed.

Lemma inv_dispatch w t fn rc o : ev_dispatch true w t fn (objs s) = Some (rc, o) -> inv (with_objs o s) T.
Proof.
  intros Hrun. assert (exists ty, types (objs s) !! t = Some ty) as [ty Hty].
  { unfold ev_dispatch, ld_t, mbind, M_bind in Hrun. destruct (types (objs s) !! t); [eauto|done]. }
  assert (exists k, workers (objs s) !! w = Some k) as [k Hk].
  { unfold ev_dispatch, dispatch_room, ld_t, ld_w, mbind, M_bind in Hrun. rewrite Hty in Hrun. cbn in Hrun.
    destruct (workers (objs s) !! w); [eauto|done]. }
  pose proof (runs_inv _ _ _ _ _ Hrun (runs_dispatch w t fn k ty Hk Hty)) as (_ & tb & -> & Hfn & _).
  pose proof (inv_wk s T Hinv w k Hk) as (_ & _ & _ & _ & ? & ? & Hd & ?).
  eapply inv_worker; [exact Hk|reflexivity|done..|].
  eapply wk_ok_intro; [exact Hk|done|done|done|done|done| |done].
  apply lookup_lt_Some in Hfn. split_and!; [apply Hd|done|right; cbn; lia].
Qed.

Lemma inv_tick c :
  ev_time_cmp (clock s) c <= 0 -> clock_ok c -> inv (Sys (objs s) (pcs s) (held s) (posting s) (waking s) c) T.
Proof.
  intros Hc Hok. constructor; [|..|done]; [|intros w k Hk|apply Hinv|apply Hinv].
  - intros e. apply Hinv.
  - eapply wk_ok_frame; [..|by apply Hinv]; done.
Qed.

(** Moves of a worker that has no event in its hands. *)
Lemma hands_move w pc pc' e :
  default None (in_hand <$> (pcs s !! w)) = in_hand pc' -> pc = pcs s !! w ->
  hands (<[w := pc']> (pcs s)) e = hands (pcs s) e.
Proof.
  intros Heq ->. unfold hands. rewrite count_pc_insert. destruct (pcs s !! w) as [pc|] eqn:E; cbn in Heq.
  - rewrite (count_pc_lookup _ (pcs s) w pc E), Heq. done.
  - rewrite count_pc_absent by done. by rewrite <- Heq.
Qed.

Lemma inv_start w o :
  pcs s !! w = None -> worker_start w (clock s) (objs s) = Some (tt, o) -> inv (with_pc w PWait (with_objs o s)) T.
Proof.
  intros Hpc Hrun. unfold worker_start in Hrun. returned Hrun.
  match goal with H : workers (objs s) !! w = Some ?y |- _ => rename H into Hk; rename y into k end.
  match goal with H : _ !! w = Some e0 |- _ => cbn in H; rewrite lookup_insert_eq in H; simplify_eq end.
  pose proof (inv_wk s T Hinv w k Hk) as (_ & _ & _ & _ & ? & ? & ? & Hwk).
  eapply inv_worker; [exact Hk|cbn; by rewrite insert_insert_eq|done..| | | |].
  - intros e. eapply hands_move; [|done]. by rewrite Hpc.
  - done.
  - intros v Hne. cbn. by look.
  - eapply wk_ok_intro; [exact Hk|done|done|done|done| |done|]; cbn.
    + rewrite sched_now by apply Hinv. destruct (inv_clock s T Hinv). tlia.
    + revert Hwk. unfold wake_ok, will_wake, waking_of. cbn. rewrite Hpc, lookup_insert_eq.
      intros [?|?]; [by left|]. right. split_and!; try done. intros. right. rewrite sched_now by apply Hinv. apply time_cmp_refl.
Qed.

Lemma inv_sem w k o :
  pcs s !! w = Some PWait -> workers (objs s) !! w = Some k -> 0 < w_sem k ->
  st_w w (set_sem (w_sem k - 1)) (objs s) = Some (tt, o) -> inv (with_pc w (PLock PhImm) (with_objs o s)) T.
Proof.
  intros Hpc Hk Hsem Hrun. unfold st_w, ld_w, mbind, M_bind in Hrun. rewrite Hk in Hrun. cbn in Hrun. injection Hrun as <-.
  pose proof (inv_wk s T Hinv w k Hk) as (_ & _ & _ & _ & ? & ? & ? & _).
  eapply inv_worker; [exact Hk|reflexivity|done..| | | |].
  - intros e. eapply hands_move; [|done]. by rewrite Hpc.
  - done.
  - intros v Hne. cbn. by look.
  - eapply wk_ok_intro; [exact Hk|done|done|done|cbn; lia|done|done|]. unfold wake_ok. cbn. by rewrite lookup_insert_eq.
Qed.

Lemma inv_timeout w : pcs s !! w = Some PWait -> inv (with_pc w (PLock PhImm) s) T.
Proof.
  intros Hpc. destruct (inv_pc s T Hinv w PWait Hpc) as [k Hk].
  pose proof (inv_wk s T Hinv w k Hk) as (_ & _ & _ & _ & ? & ? & ? & _).
  eapply inv_worker; [exact Hk|cbn; by rewrite insert_id|done..| | | |].
  - intros e. eapply hands_move; [|done]. by rewrite Hpc.
  - done.
  - intros v Hne. cbn. by look.
  - eapply wk_ok_intro; [exact Hk|done..|]. unfold wake_ok. cbn. by rewrite lookup_insert_eq.
Qed.
End move.
