(* ===== verification/EvWork.v ===== *)
(** * The steps of a worker, and cancellation *)

From Stdlib Require Import Floats.SpecFloat.
From stdpp Require Import prelude gmap strings functions sorting.
From S2P Require Import Prelude Rbt RbtRep RbtIns RbtOps RbtSpec CFloat Ev EvSys EvInv EvSteps.

Open Scope Z_scope.

#[local] Arguments wrapu : simpl never.
#[local] Arguments wraps : simpl never.
#[local] Arguments ev_time_cmp : simpl never.
#[local] Arguments ev_time_diff : simpl never.
#[local] Arguments SFltb : simpl never.
#[local] Arguments ev_sched_to : simpl never.
#[local] Arguments Z.add : simpl never.
#[local] Arguments Z.sub : simpl never.
#[local] Arguments Z.of_nat : simpl never.

Lemma runs_on_tree_read {A} w (m : M (rbt timespec) A) o k (P : A -> Prop) :
  workers o !! w = Some k -> runs m (w_event_tree k) (fun a t => t = w_event_tree k /\ P a) ->
  runs (on_tree w m) o (fun a o' => o' = o /\ P a).
Proof.
  intros Hk Hm. eapply runs_mono; [by eapply runs_on_tree|]. cbn. intros a o' (t & (-> & HP) & ->). split; [|done].
  destruct o as [ev ty wk tt wt n]. unfold set_workers. cbn in *. f_equal. rewrite insert_id; [done|]. rewrite Hk. by destruct k.
Qed.

Lemma elem_of_del_fst e e' (l : list (loc * timespec)) : e' ∈ (seq_del e l).*1 <-> e' <> e /\ e' ∈ l.*1.
Proof.
  rewrite !list_elem_of_fmap. setoid_rewrite elem_of_seq_del. split.
  - intros ([e1 t1] & -> & ? & ?). cbn in *. split; [done|]. by exists (e1, t1).
  - intros (? & [e1 t1] & -> & ?). cbn in *. by exists (e1, t1).
Qed.

Section work.
Context (s : sys) (T : loc -> list (loc * timespec)) (Hinv : inv s T).

(** ** Cancelling *)

Lemma runs_cancel e x w k :
  events (objs s) !! e = Some x -> e_dst x = Some w -> workers (objs s) !! w = Some k ->
  (SFltb (ev_time_diff (e_to x) (clock s)) (f64_of_Z 1) = false -> e ∈ (T w).*1) ->
  runs (ev_cancel_locked e (clock s)) (objs s) (fun rc o =>
    rc = EBUSY /\ o = put_event e (set_status EV_FLUSH x) (objs s) \/
    rc = 0 /\ e ∈ (T w).*1 /\ exists t, models ev_time_cmp (seq_del e (T w)) t /\
      o = set_workers (insert w (set_list (w_event_list k ++ [e]) (w_ev_list_len k + 1) (set_tree t k)))
            (put_event e (set_status EV_FLUSH x) (objs s))).
Proof.
  intros Hx Hd Hk Hin. unfold ev_cancel_locked. apply runs_bind, (runs_ld_e e x); [done|]. rewrite Hd.
  apply runs_bind. exists w, (objs s). split; [done|]. apply runs_bind, (runs_st_e e x); [done|].
  destruct (SFltb _ _); [apply runs_ret; by left|]. specialize (Hin eq_refl). apply runs_bind.
  eapply runs_mono; [eapply (runs_on_tree w _ _ k); [done|]; apply (models_del ev_time_cmp (T w)); [apply Hinv, Hk|done]|].
  intros _ o (t & Hm & ->). apply runs_bind. eapply runs_ld_w; [cbn; apply lookup_insert_eq|]. apply runs_bind.
  eapply runs_st_w; [cbn; apply lookup_insert_eq|]. apply runs_ret. right. split_and!; try done. exists t. split; [done|].
  unfold set_workers. cbn. by rewrite insert_insert_eq.
Qed.

Lemma cancel_queued e x w k :
  events (objs s) !! e = Some x -> e_dst x = Some w -> workers (objs s) !! w = Some k -> may_cancel s e x ->
  SFltb (ev_time_diff (e_to x) (clock s)) (f64_of_Z 1) = false -> e ∈ (T w).*1 /\ waiting s T e x.
Proof.
  intros Hx Hd Hk (w' & k' & Hd' & Hk' & Hp & Hc) Hlt. rewrite Hd in Hd'. simplify_eq. destruct (Hc Hlt) as [Hpo Hnl].
  destruct (inv_ev_some s T e x Hinv Hx) as [_ Hev]. rewrite Hp in Hev. destruct Hev as [[? _]|Hwait]; [congruence|].
  split; [|done]. destruct Hwait as (_ & _ & _ & v & Hv & (kv & Hkv & Hq) & _). simplify_eq. by destruct Hq.
Qed.

Lemma inv_cancel e x w rc o :
  usable s e -> events (objs s) !! e = Some x -> e_dst x = Some w -> may_cancel s e x ->
  ev_cancel_locked e (clock s) (objs s) = Some (rc, o) ->
  exists T', inv (with_waking w (if rc =? 0 then S (waking_of s w) else waking_of s w) (with_objs o s)) T'.
Proof.
  intros Hu Hx Hd Hmay Hrun. pose proof Hmay as (w' & k & Hd' & Hk & Hp & _). rewrite Hd in Hd'. simplify_eq.
  pose proof (runs_inv _ _ _ _ _ Hrun (runs_cancel e x w' k Hx Hd Hk
    (fun H => proj1 (cancel_queued e x w' k Hx Hd Hk Hmay H)))) as [(-> & ->)|(-> & Hin & t & Hm & ->)].
  { exists T. apply (inv_client s T Hinv e); try done.
    - intros e' He. same_event.
    - eapply inv_recount; [exact Hinv|exact Hx| | | |reflexivity|reflexivity]; [done| |exact (ev_refs s T e x Hinv Hx)].
      unfold held_of. cbn. lia.
    - intros v. unfold waking_of. cbn. destruct (decide (v = w')) as [->|]; by look. }
  destruct (inv_ev_some s T e x Hinv Hx) as [Hty Hev]. rewrite Hp in Hev.
  assert (waiting s T e x) as (Hpo & Hr & Hto & v & Hv & Hq & Huniq & _).
  { destruct Hev as [(_ & _ & Hn)|?]; [|done]. destruct (Hn w'). exists k. auto. }
  rewrite Hd in Hv. injection Hv as <-. destruct (inv_wk s T Hinv w' k Hk) as (Hm0 & Hnd & Hdis & Hlen & ? & ? & ? & Hwk).
  exists (<[w' := seq_del e (T w')]> T). eapply (inv_move s T Hinv _ e w' k); try done.
  - intros e' Hne. unfold held_of. cbn. by look.
  - intros e' Hne. unfold member. cbn. rewrite elem_of_app, list_elem_of_singleton, elem_of_del_fst. split; [tauto|].
    intros t'. rewrite elem_of_seq_del. tauto.
  - intros u Hne. unfold waking_of. cbn. by look.
  - unfold ev_ok. cbn. rewrite lookup_insert_eq, Hp. split; [done|]. right. split_and!; try done. exists w'. split_and!; try done.
    + eapply queued_at; [done|]. left. cbn. set_solver.
    + intros u Hu'. destruct (decide (u = w')) as [|Hne]; [done|]. apply Huniq. eapply queued_other; [exact Hne| |exact Hu']. done.
    + intros t'. rewrite fn_lookup_insert, elem_of_seq_del. cbn. tauto.
  - split_and!; try done; cbn.
    + apply NoDup_app_disj. split_and!; [done| |apply NoDup_singleton]. intros e' He' ->%list_elem_of_singleton. by eapply Hdis.
    + intros e'. rewrite elem_of_app, list_elem_of_singleton, elem_of_del_fst. intros [He'| ->]; [|tauto]. intros [_ ?]. by eapply Hdis.
    + rewrite length_app. cbn. lia.
    + unfold wake_ok, will_wake, waking_of. cbn. rewrite lookup_insert_eq. cbn.
      destruct (pcs s !! w') as [[|[]|? []|? []]|]; try done; left; lia.
Qed.

(** ** Taking an event *)

(** The worker [w] takes the event [e] out of its queue. *)
Lemma inv_take e x x' w k k' l' pc0 ph o :
  pcs s !! w = Some pc0 -> in_hand pc0 = None -> events (objs s) !! e = Some x -> workers (objs s) !! w = Some k ->
  member k (T w) e -> x' = set_posted 0 x \/ x' = set_posted 0 (set_status EV_FLUSH x) ->
  o = set_workers (insert w k') (put_event e x' (objs s)) ->
  (forall e', member k' l' e' <-> e' <> e /\ member k (T w) e') -> (forall e' t, (e', t) ∈ l' -> (e', t) ∈ T w) ->
  wk_ok (with_pc w (PCall e ph) (with_objs o s)) l' w k' ->
  inv (with_pc w (PCall e ph) (with_objs o s)) (<[w := l']> T).
Proof.
  intros Hpc Hh Hx Hk Hmem Hx' -> Hmem' Hel Hok.
  destruct (inv_ev_some s T e x Hinv Hx) as [Hty Hev].
  assert (queued (objs s) T e w) as Hq by (exists k; auto).
  assert (posting s !! e = None /\ waiting s T e x) as [Hp (Hpo & [Hr1 Hr2] & Hto & v & Hv & _ & Huniq & _)].
  { destruct (posting s !! e) as [[? ?]|]; [destruct Hev as (_ & _ & _ & _ & _ & _ & Hn); by destruct (Hn w)|].
    destruct Hev as [(_ & _ & Hn)|?]; [by destruct (Hn w)|done]. }
  assert (forall e', hands (<[w := PCall e ph]> (pcs s)) e' = ((if decide (e' = e) then 1 else 0) + hands (pcs s) e')%nat) as Hhands.
  { intros e'. unfold hands. rewrite count_pc_insert, (count_pc_lookup _ _ _ _ Hpc), Hh. cbn.
    destruct (decide (e' = e)) as [->|]; [by rewrite bool_decide_true|by rewrite bool_decide_false by congruence]. }
  eapply (inv_move s T Hinv _ e w k); try done.
  - intros e' Hne. unfold held_of. cbn. rewrite Hhands, decide_False by done. by look.
  - intros e' Hne. rewrite Hmem'. split; [tauto|apply Hel].
  - intros u Hne. cbn. by look.
  - unfold ev_ok. cbn. rewrite lookup_insert_eq, Hp. split; [by destruct Hx' as [-> | ->]|]. left. unfold idle, refs, held_of in *. cbn.
    rewrite Hhands, decide_True by done. split_and!; [by destruct Hx' as [-> | ->]|destruct Hx' as [-> | ->]; cbn; lia|
      destruct Hx' as [-> | ->]; cbn; lia|destruct Hx' as [-> | ->]; cbn; lia|].
    intros u Hu. destruct (decide (u = w)) as [->|Hne].
    + eapply queued_at in Hu; [|done]. apply Hmem' in Hu. tauto.
    + exfalso. apply Hne. transitivity v; [|symmetry; by apply Huniq]. apply Huniq. eapply queued_other; [exact Hne| |exact Hu]. done.
Qed.

Lemma runs_take_immediate w k :
  workers (objs s) !! w = Some k ->
  runs (take_immediate w) (objs s) (fun r o =>
    match w_event_list k with
    | [] => r = None /\ o = objs s
    | e :: l => r = Some e /\ exists x x', events (objs s) !! e = Some x /\
        (x' = set_posted 0 x \/ x' = set_posted 0 (set_status EV_FLUSH x)) /\
        o = set_workers (insert w (set_list l (w_ev_list_len k - 1) k)) (put_event e x' (objs s))
    end).
Proof.
  intros Hk. unfold take_immediate. apply runs_bind, (runs_ld_w _ k); [done|].
  destruct (w_event_list k) as [|e l] eqn:Hl; [by apply runs_ret|].
  assert (exists x, events (objs s) !! e = Some x) as [x Hx].
  { pose proof (inv_ev s T Hinv e) as He. unfold ev_ok, dead in He. destruct (events (objs s) !! e) as [x|]; [eauto|].
    destruct He as (_ & _ & _ & Hn). destruct (Hn w). exists k. split; [done|]. left. rewrite Hl. left. }
  apply runs_bind, (runs_st_w _ k); [done|]. apply runs_bind. eapply (runs_st_e e x); [done|]. apply runs_bind.
  destruct (is_state _ _).
  - eapply runs_st_e; [cbn; apply lookup_insert_eq|]. apply runs_ret. split; [done|].
    exists x, (set_posted 0 (set_status EV_FLUSH x)). split_and!; [done|by right|].
    unfold put_event, set_workers, set_events. cbn. by rewrite insert_insert_eq.
  - apply runs_ret, runs_ret. split; [done|]. exists x, (set_posted 0 x). split_and!; [done|by left|done].
Qed.

(** ** The end of a round *)

Lemma inv_finish w k k' pc0 o :
  pcs s !! w = Some pc0 -> in_hand pc0 = None -> workers (objs s) !! w = Some k ->
  o = set_workers (insert w k') (objs s) ->
  w_event_tree k' = w_event_tree k -> w_event_list k' = w_event_list k -> w_ev_list_len k' = w_ev_list_len k ->
  w_sem k' = w_sem k -> disp_ok k' -> nonneg (w_sem_wait k') -> w_state k' <> EV_WORKER_FLUSHING ->
  (forall e t, (e, t) ∈ T w -> ev_time_cmp (w_sem_wait k') t <= 0) ->
  will_wake s w k \/ w_event_list k = [] ->
  inv (with_pc w PWait (with_objs o s)) T.
Proof.
  intros Hpc Hh Hk -> Ht Hl Hn Hs Hd Hsw Hst Hto Hwk.
  pose proof (inv_wk s T Hinv w k Hk) as (_ & _ & _ & _ & ? & _).
  eapply (inv_worker s T Hinv); [exact Hk|reflexivity|done..| | | |].
  - intros e. apply (hands_move s w (pcs s !! w) PWait e); [by rewrite Hpc|done].
  - done.
  - intros v Hne. cbn. by look.
  - eapply (wk_ok_intro s T Hinv); [exact Hk|done|done|done|by rewrite Hs|done|done|].
    unfold wake_ok, will_wake, waking_of in *. cbn. rewrite lookup_insert_eq, Hs, Hl.
    destruct Hwk as [?|?]; [by left|]. right. split_and!; try done. intros e t He. left. by eapply Hto.
Qed.

Lemma runs_finish w k pc0 r :
  pcs s !! w = Some pc0 -> in_hand pc0 = None -> workers (objs s) !! w = Some k ->
  match r with
  | Some p => w_state k <> EV_WORKER_FLUSHING /\ exists t l, T w = (p, t) :: l
  | None => T w = []
  end ->
  will_wake s w k \/ w_event_list k = [] ->
  runs (worker_finish w r (clock s)) (objs s) (fun _ o => inv (with_pc w PWait (with_objs o s)) T /\ events o = events (objs s)).
Proof.
  intros Hpc Hh Hk Hr Hwk. pose proof (inv_wk s T Hinv w k Hk) as (Hm & _ & _ & _ & _ & _ & Hd & _).
  assert (exists to, nonneg to /\ (forall e t, (e, t) ∈ T w -> ev_time_cmp to t <= 0) /\
    runs (match r with Some p => e ← ld_e p; mret (e_to e) | None => mret (ev_sched_to (clock s) 10 0) end) (objs s)
      (fun a o => a = to /\ o = objs s)) as (to & Hto & Hle & Hrun).
  { destruct r as [p|].
    - destruct Hr as (_ & t & l & HT). pose proof (inv_ev s T Hinv p) as He. unfold ev_ok, dead in He.
      assert (queued (objs s) T p w) as Hq. { exists k. split; [done|]. right. rewrite HT. left. }
      destruct (events (objs s) !! p) as [x|] eqn:Hx; [|naive_solver]. destruct He as [_ He].
      destruct (posting s !! p) as [[? ?]|]; [destruct He as (_ & _ & _ & _ & _ & _ & Hn); by destruct (Hn w)|].
      destruct He as [(_ & _ & Hn)|(_ & _ & Hx2 & v & Hv & _ & Huniq & Hte)]; [by destruct (Hn w)|].
      rewrite (Huniq w Hq) in *. assert (t = e_to x) as -> by (apply Hte; rewrite HT; left).
      exists (e_to x). split_and!; [done| |].
      + intros e1 t1. rewrite HT. intros [[= -> ->]|Hin]%elem_of_cons; [apply time_cmp_refl|].
        destruct Hm as (_ & _ & _ & Hs). rewrite HT in Hs. apply StronglySorted_inv in Hs as [_ Hs].
        rewrite Forall_forall in Hs. apply (Hs (e1, t1) Hin).
      + apply runs_bind, (runs_ld_e p x); [done|]. by apply runs_ret.
    - exists (ev_sched_to (clock s) 10 0). split_and!; [apply sched_later, Hinv|rewrite Hr; set_solver|by apply runs_ret]. }
  unfold worker_finish. apply runs_bind. eapply runs_mono; [exact Hrun|]. cbn. intros a o [-> ->].
  apply runs_bind, (runs_st_w _ k); [done|]. apply runs_bind. eapply runs_ld_w; [cbn; apply lookup_insert_eq|].
  unfold is_state. cbn [w_state set_sem_wait]. case_bool_decide as Hfl.
  - eapply runs_st_w; [cbn; apply lookup_insert_eq|]. split; [|done]. apply (inv_finish w k (set_state EV_WORKER_RUNNING (set_sem_wait to k)) pc0); try done.
    unfold set_workers. cbn. by rewrite insert_insert_eq.
  - apply runs_ret. split; [|done]. by apply (inv_finish w k (set_sem_wait to k) pc0).
Qed.

(** ** Sections with the lock *)

Definition keeps_inv (w : loc) (pc : wpc) (o : evs) : Prop :=
  (exists T', inv (with_pc w pc (with_objs o s)) T') /\ forall e, due (with_pc w pc (with_objs o s)) e = due s e.

Lemma take_due e x x' w k k' pc0 ph o :
  pcs s !! w = Some pc0 -> in_hand pc0 = None -> events (objs s) !! e = Some x -> workers (objs s) !! w = Some k ->
  member k (T w) e -> e_posted x' = 0 -> o = set_workers (insert w k') (put_event e x' (objs s)) ->
  forall e', due (with_pc w (PCall e ph) (with_objs o s)) e' = due s e'.
Proof.
  intros Hpc Hh Hx Hk Hmem Hx' -> e'. unfold due, in_queue. cbn [pcs with_pc objs with_objs posting set_workers put_event set_events events].
  rewrite count_pc_insert, (count_pc_lookup _ (pcs s) w pc0 Hpc).
  assert (calling e' pc0 = false) as -> by (by destruct pc0). cbn [calling]. case_bool_decide as He.
  - subst e'. destruct (inv_ev_some s T e x Hinv Hx) as [_ Hev]. assert (queued (objs s) T e w) as Hq by (exists k; auto).
    rewrite lookup_insert_eq, Hx. destruct (posting s !! e) as [[? ?]|]; [destruct Hev as (_ & _ & _ & _ & _ & _ & Hn); by destruct (Hn w)|].
    destruct Hev as [(_ & _ & Hn)|(-> & _)]; [by destruct (Hn w)|]. rewrite Hx'. cbn. lia.
  - by rewrite lookup_insert_ne.
Qed.

Lemma finish_due w pc0 o :
  pcs s !! w = Some pc0 -> in_hand pc0 = None -> events o = events (objs s) ->
  forall e, due (with_pc w PWait (with_objs o s)) e = due s e.
Proof.
  intros Hpc Hh Ho e. unfold due, in_queue. cbn [pcs with_pc objs with_objs posting]. rewrite Ho.
  rewrite count_pc_insert, (count_pc_lookup _ (pcs s) w pc0 Hpc). by destruct pc0.
Qed.

Lemma tree_event w k p t l :
  workers (objs s) !! w = Some k -> T w = (p, t) :: l ->
  exists x, events (objs s) !! p = Some x /\ e_to x = t.
Proof.
  intros Hk HT. pose proof (inv_ev s T Hinv p) as He. unfold ev_ok, dead in He.
  assert (queued (objs s) T p w) as Hq. { exists k. split; [done|]. right. rewrite HT. left. }
  destruct (events (objs s) !! p) as [x|]; [|naive_solver]. exists x. split; [done|]. destruct He as [_ He].
  destruct (posting s !! p) as [[? ?]|]; [destruct He as (_ & _ & _ & _ & _ & _ & Hn); by destruct (Hn w)|].
  destruct He as [(_ & _ & Hn)|(_ & _ & _ & v & _ & _ & Huniq & Ht)]; [by destruct (Hn w)|].
  rewrite <- (Huniq w Hq) in Ht. symmetry. apply Ht. rewrite HT. left.
Qed.

Lemma runs_take_due w k pc0 now p t l x x1 o1 (Q : loc + option loc -> evs -> Prop) :
  pcs s !! w = Some pc0 -> in_hand pc0 = None -> workers (objs s) !! w = Some k ->
  will_wake s w k \/ w_event_list k = [] -> T w = (p, t) :: l -> events (objs s) !! p = Some x ->
  x1 = x \/ x1 = set_status EV_FLUSH x -> o1 = put_event p x1 (objs s) ->
  (forall o, keeps_inv w (PCall p (PhTo now)) o -> Q (inl p) o) ->
  runs (on_tree w (rbt_del (Some p));; st_e p (set_posted 0);; mret (inl p)) o1 Q.
Proof.
  intros Hpc Hh Hk Hwk HT Hx Hx1 -> HQ. pose proof (inv_wk s T Hinv w k Hk) as (Hm & Hnd & Hdis & ? & ? & ? & ? & _).
  apply runs_bind. eapply runs_mono; [eapply (runs_on_tree w _ _ k); [done|]; apply (models_del ev_time_cmp (T w) _ p); [done|rewrite HT; left]|].
  intros _ o (t' & Hm' & ->). apply runs_bind. eapply runs_st_e; [cbn; apply lookup_insert_eq|]. apply runs_ret, HQ.
  split; [exists (<[w := seq_del p (T w)]> T)|eapply (take_due p x (set_posted 0 x1) w k (set_tree t' k) pc0); try done].
  2: { right. rewrite HT. left. }
  2: { unfold put_event, set_workers, set_events. cbn. by rewrite insert_insert_eq. }
  eapply (inv_take p x (set_posted 0 x1) w k (set_tree t' k) _ pc0); try done.
  - right. rewrite HT. left.
  - by destruct Hx1 as [-> | ->]; [left|right].
  - unfold put_event, set_workers, set_events. cbn. by rewrite insert_insert_eq.
  - intros e'. unfold member. cbn. rewrite elem_of_del_fst. split; [|tauto].
    intros [He'|?]; [|tauto]. split; [|by left]. intros ->. apply (Hdis p He'). rewrite HT. left.
  - intros e' t1. rewrite elem_of_seq_del. tauto.
  - split_and!; try done; [intros e' He'; rewrite elem_of_del_fst; intros [_ ?]; by apply (Hdis e' He')|].
    unfold wake_ok. cbn. by rewrite lookup_insert_eq.
Qed.

Lemma runs_timed_section w k now pc0 :
  pcs s !! w = Some pc0 -> in_hand pc0 = None -> workers (objs s) !! w = Some k ->
  will_wake s w k \/ w_event_list k = [] ->
  runs (timed_section w now (clock s)) (objs s) (fun pc o => keeps_inv w pc o).
Proof.
  intros Hpc Hh Hk Hwk. pose proof (inv_wk s T Hinv w k Hk) as (Hm & Hnd & Hdis & ? & ? & ? & ? & _).
  unfold timed_section, take_timed. apply runs_bind, runs_bind.
  eapply runs_mono; [eapply (runs_on_tree_read w _ _ k); [done|by apply (models_min ev_time_cmp (T w))]|].
  cbn. intros r o [-> ->]. destruct (T w) as [|[p t] l] eqn:HT; cbn [fmap option_fmap option_map head fst].
  - apply runs_ret, runs_bind. eapply runs_mono; [by apply (runs_finish w k pc0 None)|]. intros ? o [Ho Hev]. apply runs_ret. split; [by exists T|by eapply finish_due].
  - destruct (tree_event w k p t l Hk HT) as (x & Hx & Hto). apply runs_bind, (runs_ld_w w k); [done|]. apply runs_bind, (runs_ld_e p x); [done|].
    unfold is_state. case_bool_decide as Hfl; cbn [negb andb].
    + apply runs_bind, (runs_st_e p x); [done|]. eapply runs_take_due; try done; [by right|]. intros o Ho. by apply runs_ret.
    + apply runs_bind, runs_ret. destruct (Z.ltb_spec 0 (ev_time_cmp (e_to x) now)) as [Hlt|Hge].
      * apply runs_ret, runs_bind. eapply runs_mono; [apply (runs_finish w k pc0 (Some p)); rewrite ?HT; eauto|]. intros ? o [Ho Hev]. apply runs_ret. split; [by exists T|by eapply finish_due].
      * eapply runs_take_due; try done; [by left| |].
        -- unfold put_event, set_events. destruct (objs s). cbn in *. by rewrite insert_id.
        -- intros o Ho. by apply runs_ret.
Qed.

Lemma runs_locked_section w ph :
  pcs s !! w = Some (PLock ph) -> runs (locked_section w ph (clock s)) (objs s) (keeps_inv w).
Proof.
  intros Hpc. destruct (inv_pc s T Hinv w _ Hpc) as [k Hk].
  pose proof (inv_wk s T Hinv w k Hk) as (Hm & Hnd & Hdis & Hlen & ? & ? & ? & Hwk). unfold wake_ok in Hwk. rewrite Hpc in Hwk.
  destruct ph as [|now]; cbn [locked_section]; [|by eapply runs_timed_section].
  apply runs_bind. eapply runs_mono; [by apply (runs_take_immediate w k)|]. cbn. intros r o. destruct (w_event_list k) as [|e l] eqn:Hl.
  - intros [-> ->]. eapply runs_timed_section; try done. by right.
  - intros (-> & x & x' & Hx & Hx' & ->). apply runs_ret. apply NoDup_cons in Hnd as [Hnl Hnd].
    split; [exists (<[w := T w]> T)|eapply (take_due e x x' w k); try done; [left; rewrite Hl; left|by destruct Hx' as [-> | ->]]].
    eapply (inv_take e x x' w k (set_list l (w_ev_list_len k - 1) k) (T w) (PLock PhImm)); try done.
    + left. rewrite Hl. left.
    + intros e'. unfold member. cbn. rewrite Hl, elem_of_cons. split; [|tauto].
      intros [He'|He']; (split; [|tauto]); intros ->; [done|]. apply (Hdis e); [left|done].
    + split_and!; try done; cbn.
      * intros e' He'. apply Hdis. by right.
      * rewrite Hlen. cbn. lia.
      * unfold wake_ok. cbn. by rewrite lookup_insert_eq.
Qed.

(** ** Calling the actor and putting the event *)

Lemma hand_usable w pc e : pcs s !! w = Some pc -> in_hand pc = Some e -> (0 < hands (pcs s) e)%nat.
Proof.
  intros Hpc Hh. unfold hands. rewrite (count_pc_lookup _ _ _ _ Hpc), Hh, bool_decide_true by done. lia.
Qed.

Lemma runs_choose_actor w e ph :
  pcs s !! w = Some (PCall e ph) -> runs (choose_actor w e) (objs s) (fun _ o => o = objs s).
Proof.
  intros Hpc. destruct (inv_pc s T Hinv w _ Hpc) as [k Hk].
  pose proof (inv_wk s T Hinv w k Hk) as (_ & _ & _ & _ & _ & _ & ([a Ha] & Hlen & _) & _).
  destruct (usable_event s T e Hinv) as [x Hx]; [right; by eapply hand_usable|].
  destruct (inv_ev_some s T e x Hinv Hx) as [[ty Hty] _]. pose proof (inv_types s T Hinv _ ty Hty) as Hid.
  unfold choose_actor. apply runs_bind, (runs_ld_w w k); [done|]. apply runs_bind, (runs_ld_e e x); [done|].
  apply runs_bind. exists ty, (objs s). split; [unfold ld_t; by rewrite Hty|]. apply runs_bind.
  assert (forall (b : option loc), runs (lift_opt (match b with Some a => Some a | None => w_actor k end)) (objs s) (fun _ o => o = objs s)) as Hend.
  { intros b. rewrite Ha. destruct b; by eexists _, _. }
  destruct (Z.ltb_spec (t_id ty) (w_dispatch_len k)) as [Hlt|]; [|apply runs_ret; apply (Hend None)].
  destruct (w_dispatch k) as [tb|]; cbn in Hlen; [|lia].
  apply runs_bind. eexists tb, _. split; [done|]. destruct (lookup_lt_is_Some_2 tb (Z.to_nat (t_id ty))) as [b Hb]; [lia|].
  eexists b, _. split; [by rewrite Hb|]. apply (Hend b).
Qed.

Lemma inv_call w e ph : pcs s !! w = Some (PCall e ph) -> inv (with_pc w (PPut e ph) s) T.
Proof.
  intros Hpc. destruct (inv_pc s T Hinv w _ Hpc) as [k Hk].
  pose proof (inv_wk s T Hinv w k Hk) as (_ & _ & _ & _ & ? & ? & ? & Hwk).
  eapply (inv_worker s T Hinv); [exact Hk|cbn; by rewrite insert_id|done..| | | |].
  - intros e'. apply (hands_move s w (pcs s !! w) (PPut e ph) e'); [by rewrite Hpc|done].
  - done.
  - intros v Hne. cbn. by look.
  - eapply (wk_ok_intro s T Hinv); [exact Hk|done..|]. revert Hwk. unfold wake_ok. cbn. rewrite Hpc, lookup_insert_eq. done.
Qed.
End work.
