(* ===== verification/EvProps.v ===== *)
(** * Event workers: what holds whatever the threads do *)

From Stdlib Require Import Floats.SpecFloat.
From stdpp Require Import prelude gmap strings functions sorting.
From S2P Require Import Prelude Rbt RbtRep RbtIns RbtOps RbtSearch RbtSpec CFloat Ev EvSys EvInv EvSteps EvWork.

Open Scope Z_scope.

#[local] Arguments wrapu : simpl never.
#[local] Arguments wraps : simpl never.
#[local] Arguments ev_time_cmp : simpl never.
#[local] Arguments ev_sched_to : simpl never.
#[local] Arguments Z.add : simpl never.
#[local] Arguments Z.sub : simpl never.
#[local] Arguments Z.of_nat : simpl never.

(** ** Every step keeps the invariant *)

Section steps.
Context (s : sys) (T : loc -> list (loc * timespec)) (Hinv : inv s T).

Lemma hands_put w e ph e' :
  pcs s !! w = Some (PPut e ph) ->
  hands (pcs s) e' = ((if decide (e' = e) then 1 else 0) + hands (<[w := PLock ph]> (pcs s)) e')%nat.
Proof.
  intros Hpc. unfold hands. rewrite count_pc_insert, (count_pc_lookup _ _ _ _ Hpc). cbn.
  destruct (decide (e' = e)) as [->|]; [by rewrite bool_decide_true|by rewrite bool_decide_false by congruence].
Qed.

Lemma inv_put_hand w e ph o :
  pcs s !! w = Some (PPut e ph) -> may_put s e -> ev_put e (objs s) = Some (tt, o) ->
  inv (with_pc w (PLock ph) (with_objs o s)) T.
Proof.
  intros Hpc Hm Hrun. pose proof (fun e' He => same_put s e e' o He Hrun) as Hsame.
  assert (workers o = workers (objs s) /\ types o = types (objs s)) as [Hw Hty].
  { destruct (Hsame (e + 1)%positive ltac:(lia)) as (_ & ? & ?). done. }
  destruct (inv_pc s T Hinv w _ Hpc) as [k Hk].
  apply (inv_step s T _ T e w); try done; cbn [objs with_pc with_objs pcs clock].
  - intros e' He. destruct (Hsame e' He) as (? & _). constructor; cbn; try done.
    + rewrite (hands_put w e ph e' Hpc), decide_False by done. done.
    + unfold queued. cbn. by rewrite Hw.
    + by rewrite Hw.
  - eapply (inv_ev_put s T Hinv e); try done. cbn. rewrite (hands_put w e ph e Hpc), decide_True by done. unfold held_of. cbn. lia.
  - intros v Hne. rewrite Hw. by look.
  - intros k'. rewrite Hw, Hk. intros [= <-]. destruct (inv_wk s T Hinv w k Hk) as (? & ? & ? & ? & ? & ? & ? & Hwk).
    split_and!; try done. revert Hwk. unfold wake_ok. cbn. rewrite Hpc, lookup_insert_eq. by destruct ph.
  - rewrite Hw. eauto.
  - apply time_cmp_refl.
  - apply Hinv.
Qed.

Lemma inv_any_step l s' : disciplined s l -> step s l s' -> exists T', inv s' T'.
Proof.
  intros Hok Hst. destruct Hst; cbn [disciplined] in Hok.
  - exists T. by eapply inv_new.
  - exists T. by eapply inv_get.
  - exists T. by eapply inv_put.
  - exists T. match goal with H : ev_post_claim _ _ _ _ _ = Some (false, _) |- _ => unfold ev_post_claim in H; returned H end. by destruct s.
  - exists T. by eapply inv_claim.
  - exists T. by eapply inv_refused.
  - by eapply inv_enqueue.
  - exists T. by eapply inv_wake.
  - eapply inv_cancel; eauto.
  - exists T. by eapply inv_flush.
  - exists T. by eapply inv_dispatch.
  - exists T. by apply inv_tick.
  - exists T. by eapply inv_start.
  - exists T. by eapply inv_sem.
  - exists T. by eapply inv_timeout.
  - match goal with H : locked_section _ _ _ _ = Some _, Hp : pcs s !! _ = Some _ |- _ =>
      pose proof (runs_inv _ _ _ _ _ H (runs_locked_section s T Hinv _ _ Hp)) as [? _] end. done.
  - exists T. by eapply inv_call.
  - exists T. by eapply inv_put_hand.
Qed.
End steps.

Lemma inv_initial s : initial s -> inv s (fun _ => []).
Proof.
  intros [He Hw Ht Hp Hh Hpo Hwa Hc]. constructor; try done.
  - intros e. unfold ev_ok, dead, held_of, hands, queued. rewrite He, Hp, Hh, Hpo, !lookup_empty, count_pc_empty. split_and!; try done.
    intros w (k & Hk & Hq). destruct (Hw w k Hk) as (? & ? & ->). cbn in Hq. set_solver.
  - intros w k Hk. destruct (Hw w k Hk) as (n & a & ->). unfold wk_ok. cbn. split; [apply models_empty|].
    split; [constructor|]. split; [set_solver|]. split_and!; try done; [unfold disp_ok; split_and!; [by eexists|done|by left]|].
    unfold wake_ok. rewrite Hp, lookup_empty. by right.
  - intros w pc. by rewrite Hp, lookup_empty.
Qed.

Lemma inv_reach s0 tr s : initial s0 -> reach disciplined s0 tr s -> exists T, inv s T.
Proof.
  intros Hi Hr. induction Hr as [s|s tr s1 l s2 _ IH Hok Hst]; [eexists; by apply inv_initial|].
  destruct (IH Hi) as [T Hinv]. by eapply inv_any_step.
Qed.

(** ** Deliveries *)

Definition posted_in (e : loc) (l : event) : nat := match l with LPosted e' => if decide (e' = e) then 1 else 0 | _ => 0 end.
Definition acted_in (e : loc) (l : event) : nat := match l with LActor _ e' _ => if decide (e' = e) then 1 else 0 | _ => 0 end.

(** The calls of [ev_post] that accepted the event, and the calls of its actors. *)
Definition posts (e : loc) (tr : list event) : nat := sum_list_with (posted_in e) tr.
Definition calls (e : loc) (tr : list event) : nat := sum_list_with (acted_in e) tr.

Section due.
Context (s : sys) (T : loc -> list (loc * timespec)) (Hinv : inv s T).

(** Steps that leave the queue state of every event alone. *)
Lemma due_same s' :
  (forall e, in_queue s' e = in_queue s e) -> (forall e, count_pc (calling e) (pcs s') = count_pc (calling e) (pcs s)) ->
  forall e, due s' e = due s e.
Proof. intros Hq Hc e. unfold due. by rewrite Hq, Hc. Qed.

Lemma in_queue_events s' e0 x' :
  posting s' = posting s -> (forall e, e <> e0 -> events (objs s') !! e = events (objs s) !! e) ->
  events (objs s') !! e0 = Some x' -> match events (objs s) !! e0 with Some x => e_posted x' = e_posted x | None => e_posted x' = 0 end ->
  forall e, in_queue s' e = in_queue s e.
Proof.
  intros Hp Hne He0 Hx e. unfold in_queue. rewrite Hp. destruct (decide (e = e0)) as [->|]; [|by rewrite Hne].
  rewrite He0. destruct (events (objs s) !! e0); [by rewrite Hx|]. destruct (posting s !! e0); [done|]. by rewrite Hx.
Qed.

Lemma put_in_queue e o s' :
  may_put s e -> ev_put e (objs s) = Some (tt, o) -> (0 < held_of s e + hands (pcs s) e)%nat ->
  objs s' = o -> posting s' = posting s -> forall e', in_queue s' e' = in_queue s e'.
Proof.
  intros Hm Hrun Hn <- Hp. unfold ev_put in Hrun. returned Hrun;
    match goal with H : events (objs s) !! e = Some ?x |- _ => rename H into Hx; pose proof (ev_refs s T e x Hinv Hx) as Hr;
      pose proof (Hm x Hx) as Hm'; destruct (inv_ev_some s T e x Hinv Hx) as [_ Hev] end.
  - match goal with H : (u32 _ =? 0) = true |- _ => apply Z.eqb_eq in H; rewrite u32_small in H by lia end.
    intros e'. unfold in_queue. rewrite Hp, <- Hrun. cbn. destruct (decide (e' = e)) as [->|]; [|by rewrite lookup_delete_ne].
    rewrite lookup_delete_eq, Hx. destruct (posting s !! e); [done|].
    destruct Hev as [(-> & _)|(_ & [? ?] & _)]; [done|lia].
  - eapply (in_queue_events _ e); [done|..]; rewrite <- ?Hrun; cbn; [intros; by look|apply lookup_insert_eq|by rewrite Hx].
Qed.

Lemma calls_move w pc pc' e :
  pcs s !! w = Some pc -> calling e pc = calling e pc' ->
  count_pc (calling e) (<[w := pc']> (pcs s)) = count_pc (calling e) (pcs s).
Proof. intros Hpc Hc. by rewrite count_pc_insert, (count_pc_lookup _ _ _ _ Hpc), Hc. Qed.

(** Steps of a worker that touch no event. *)
Lemma in_queue_workers s' : posting s' = posting s -> events (objs s') = events (objs s) -> forall e, in_queue s' e = in_queue s e.
Proof. intros Hp He e. unfold in_queue. by rewrite Hp, He. Qed.

Lemma dispatch_events w t fn rc o : ev_dispatch true w t fn (objs s) = Some (rc, o) -> events o = events (objs s).
Proof.
  intros Hrun. assert (exists ty, types (objs s) !! t = Some ty) as [ty Hty].
  { unfold ev_dispatch, ld_t, mbind, M_bind in Hrun. destruct (types (objs s) !! t); [eauto|done]. }
  assert (exists k, workers (objs s) !! w = Some k) as [k Hk].
  { unfold ev_dispatch, dispatch_room, ld_t, ld_w, mbind, M_bind in Hrun. rewrite Hty in Hrun. cbn in Hrun.
    destruct (workers (objs s) !! w); [eauto|done]. }
  pose proof (runs_inv _ _ _ _ _ Hrun (runs_dispatch s T Hinv w t fn k ty Hk Hty)) as (_ & tb & -> & _). done.
Qed.

Lemma enqueue_due e dst timed (wake : bool) n o :
  posting s !! e = Some (dst, timed) -> no_wrap s e -> ev_post_enqueue dst e timed (objs s) = Some ((0, wake), o) ->
  forall e', due (with_waking dst n (with_posting (delete e) (with_objs o s))) e' =
    (due s e' + if decide (e = e') then 1 else 0)%nat.
Proof.
  intros Hp Hnw Hrun e'. pose proof (inv_ev s T Hinv e) as He. unfold ev_ok, dead in He.
  destruct (events (objs s) !! e) as [x|] eqn:Hx; [|rewrite Hp in He; naive_solver]. specialize (Hnw x Hx).
  rewrite Hp in He. destruct He as (_ & Hpo & _ & _ & [k Hk] & _ & _ & Hnq).
  assert (e ∉ (T dst).*1) as Hnt by (intros ?; apply (Hnq dst); exists k; auto).
  pose proof (runs_inv _ _ _ _ _ Hrun (runs_enqueue s T Hinv e dst timed x k Hp Hx Hnw Hk Hnt)) as Heff. cbn [fst snd] in Heff.
  destruct (is_state _ _); [done|]. destruct Heff as (_ & k' & l' & -> & _).
  unfold due, in_queue. cbn. destruct (decide (e = e')) as [<-|Hne].
  - rewrite lookup_insert_eq, lookup_delete_eq, Hx, Hp. cbn. rewrite Hpo. cbn. lia.
  - look. lia.
Qed.

Lemma claim_queue src dst e to o s' b :
  ev_post_claim src dst e to (objs s) = Some (true, o) -> s' = with_posting (insert e (dst, b)) (with_objs o s) ->
  forall e', in_queue s' e' = in_queue s e'.
Proof.
  intros Hrun -> e'. assert (exists x x', events (objs s) !! e = Some x /\ e_posted x = 0 /\ o = put_event e x' (objs s)) as (x & x' & Hx & Hpo & ->).
  { unfold ev_post_claim in Hrun. returned Hrun. match goal with H : negb _ = false |- _ => apply negb_false_iff, Z.eqb_eq in H end. by eexists _, _. }
  unfold in_queue. cbn. destruct (decide (e' = e)) as [->|]; [|by look]. rewrite !lookup_insert_eq, Hx, Hpo. by case_match.
Qed.

Lemma refused_queue e dst timed wake o :
  posting s !! e = Some (dst, timed) -> ev_post_enqueue dst e timed (objs s) = Some ((EBUSY, wake), o) ->
  forall e', in_queue (with_posting (delete e) (with_objs o s)) e' = in_queue s e'.
Proof.
  intros Hp Hrun e'. unfold ev_post_enqueue in Hrun.
  assert (exists x, events (objs s) !! e = Some x /\ o = put_event e (set_posted 0 x) (objs s)) as (x & Hx & ->)
    by (destruct timed; returned Hrun; by eexists).
  unfold in_queue. cbn. destruct (decide (e' = e)) as [->|]; [|by look].
  by rewrite lookup_insert_eq, lookup_delete_eq, Hx, Hp.
Qed.

Lemma cancel_queue_state e x w rc o :
  events (objs s) !! e = Some x -> e_dst x = Some w -> may_cancel s e x -> ev_cancel_locked e (clock s) (objs s) = Some (rc, o) ->
  forall n e', in_queue (with_waking w n (with_objs o s)) e' = in_queue s e'.
Proof.
  intros Hx Hd Hmay Hrun n. pose proof Hmay as (w' & k & Hd' & Hk & Hp & _). rewrite Hd in Hd'. injection Hd' as <-.
  apply (in_queue_events _ e (set_status EV_FLUSH x)); [done|..];
  pose proof (runs_inv _ _ _ _ _ Hrun (runs_cancel s T Hinv e x w k Hx Hd Hk
    (fun H => proj1 (cancel_queued s T Hinv e x w k Hx Hd Hk Hmay H)))) as [(-> & ->)|(-> & Hin & t & Hm & ->)]; cbn.
  1,2: intros; by look.
  1,2: apply lookup_insert_eq.
  1,2: by rewrite Hx.
Qed.

Lemma due_step l s' :
  disciplined s l -> step s l s' -> forall e, (due s' e + acted_in e l = due s e + posted_in e l)%nat.
Proof.
  intros Hok Hst e0. destruct Hst; cbn [acted_in posted_in disciplined] in *; rewrite ?Nat.add_0_r.
  - apply due_same; [|done]. match goal with H : ev_new _ _ _ _ = Some _ |- _ => unfold ev_new in H; returned H end.
    eapply (in_queue_events _ p); [done|cbn; intros; by look|apply lookup_insert_eq|].
    match goal with H : events (objs s) !! p = None |- _ => by rewrite H end.
  - apply due_same; [|done]. match goal with H : ev_get _ _ = Some _ |- _ => unfold ev_get in H; returned H end.
    match goal with H : events (objs s) !! e = Some _ |- _ =>
      eapply (in_queue_events _ e); [done|cbn; intros; by look|apply lookup_insert_eq|by rewrite H] end.
  - apply due_same; [|done]. eapply put_in_queue; try done. lia.
  - apply due_same; [|done]. match goal with H : ev_post_claim _ _ _ _ _ = Some (false, _) |- _ => unfold ev_post_claim in H; returned H end.
  - apply due_same; [|done]. by eapply claim_queue.
  - apply due_same; [|done]. by eapply refused_queue.
  - by eapply enqueue_due.
  - apply due_same; [|done]. apply in_queue_workers; [done|]. match goal with H : sem_post _ _ = Some _ |- _ => unfold sem_post in H; by returned H end.
  - apply due_same; [|done]. intros e1. eapply cancel_queue_state; eauto.
  - apply due_same; [|done]. apply in_queue_workers; [done|]. match goal with H : st_w _ _ _ = Some _ |- _ => by returned H end.
  - apply due_same; [|done]. apply in_queue_workers; [done|]. by eapply dispatch_events.
  - done.
  - apply due_same.
    + apply in_queue_workers; [done|]. match goal with H : worker_start _ _ _ = Some _ |- _ => unfold worker_start in H; by returned H end.
    + intros e1. cbn. by rewrite count_pc_insert, count_pc_absent.
  - apply due_same; [|intros; by eapply calls_move]. apply in_queue_workers; [done|]. match goal with H : st_w _ _ _ = Some _ |- _ => by returned H end.
  - apply due_same; [done|]. intros; by eapply calls_move.
  - match goal with H : locked_section _ _ _ _ = Some _, Hp : pcs s !! _ = Some _ |- _ =>
      pose proof (runs_inv _ _ _ _ _ H (runs_locked_section s T Hinv _ _ Hp)) as [_ ?] end. done.
  - unfold due. cbn [pcs with_pc]. rewrite count_pc_insert. match goal with H : pcs s !! w = Some _ |- _ => rewrite (count_pc_lookup _ _ _ _ H) end.
    cbn [calling]. unfold in_queue. cbn [objs posting with_pc]. destruct (decide (e = e0)); case_bool_decide; try done; lia.
  - apply due_same; [|intros; by eapply calls_move].
    match goal with Hp : pcs s !! w = Some _ |- _ => pose proof (hand_usable s w _ e Hp eq_refl) end. eapply put_in_queue; try done. lia.
Qed.
End due.

(** ** What is in the queues *)

Lemma visit_collect l (acc : list loc) :
  visit (fun n (_ : Z) l => (0, l ++ match n with Some p => [p] | None => [] end)) l acc = (0, acc ++ l.*1).
Proof.
  revert acc. induction l as [|[p lv] l IH]; intros acc; cbn; [by rewrite app_nil_r|]. by rewrite IH, <- app_assoc.
Qed.

Lemma levels_inorder (t : tree timespec) lv : (levels t lv).*1 = (inorder t).*1.
Proof.
  revert lv. induction t as [|c l IHl p k r IHr]; intros lv; [done|]. cbn. rewrite !fmap_app. cbn. by rewrite IHl, IHr.
Qed.

Lemma tree_events_models l t : models ev_time_cmp l t -> tree_events t = l.*1.
Proof.
  intros (u & Hok & <- & _). unfold tree_events.
  destruct (runs_rbt_traverse (fun n (_ : Z) l => (0, l ++ match n with Some p => [p] | None => [] end)) u t [])
    as (r & s' & -> & _ & ->); [apply Hok|]. rewrite visit_collect. cbn. apply levels_inorder.
Qed.

Lemma occurrences_none e l : e ∉ l -> occurrences e l = O.
Proof.
  intros H. unfold occurrences. induction l as [|p l IH]; [done|]. rewrite filter_cons.
  case_decide; [set_solver|]. apply IH. set_solver.
Qed.

Lemma occurrences_once e l : NoDup l -> e ∈ l -> occurrences e l = 1%nat.
Proof.
  intros Hnd He. induction Hnd as [|p l Hp Hnd IH]; [set_solver|]. unfold occurrences in *. rewrite filter_cons.
  case_decide as Hd; [subst; cbn; f_equal; by apply occurrences_none|]. apply IH. set_solver.
Qed.

Section queues.
Context (s : sys) (T : loc -> list (loc * timespec)) (Hinv : inv s T).

Lemma queue_of_members w k :
  workers (objs s) !! w = Some k -> NoDup (queue_of k) /\ forall e, e ∈ queue_of k <-> queued (objs s) T e w.
Proof.
  intros Hk. destruct (inv_wk s T Hinv w k Hk) as (Hm & Hnd & Hdis & _). unfold queue_of. rewrite (tree_events_models _ _ Hm).
  split.
  - apply NoDup_app. split_and!; [done|done|]. by eapply (models_nodup ev_time_cmp).
  - intros e. rewrite elem_of_app. unfold queued. rewrite Hk. split; [eauto|]. by intros (k' & [= <-] & ?).
Qed.

Lemma in_queues_none e : (forall w, ~ queued (objs s) T e w) -> in_queues s e = O.
Proof.
  intros Hn. unfold in_queues. assert (forall w k, workers (objs s) !! w = Some k -> occurrences e (queue_of k) = O) as H.
  { intros w k Hk. apply occurrences_none. rewrite (proj2 (queue_of_members w k Hk)). apply Hn. }
  clear Hn. induction (workers (objs s)) as [|w k m Hw IH] using map_ind; [done|].
  rewrite map_fold_insert_L by (done || lia). rewrite (H w k) by apply lookup_insert_eq. apply IH.
  intros v x Hv. apply (H v). rewrite lookup_insert_ne; [done|]. by intros <-; rewrite Hw in Hv.
Qed.

Lemma in_queues_one e w :
  queued (objs s) T e w -> (forall v, queued (objs s) T e v -> v = w) -> in_queues s e = 1%nat.
Proof.
  intros Hq Hu. pose proof Hq as (k & Hk & _). unfold in_queues.
  rewrite (map_fold_delete_L _ _ w k) by (done || lia).
  rewrite occurrences_once; [|by eapply queue_of_members|by rewrite (proj2 (queue_of_members w k Hk))].
  cut (map_fold (fun _ k n => (occurrences e (queue_of k) + n)%nat) O (delete w (workers (objs s))) = O); [lia|].
  assert (forall v x, delete w (workers (objs s)) !! v = Some x -> occurrences e (queue_of x) = O) as H.
  { intros v x [Hne Hv]%lookup_delete_Some. apply occurrences_none.
    rewrite (proj2 (queue_of_members v x Hv)). intros Hqv. by rewrite (Hu v Hqv) in Hne. }
  induction (delete w (workers (objs s))) as [|v x m Hv IH] using map_ind; [done|].
  rewrite map_fold_insert_L by (done || lia). rewrite (H v x) by apply lookup_insert_eq. apply IH.
  intros u y Hy. apply (H u). rewrite lookup_insert_ne; [done|]. by intros <-; rewrite Hv in Hy.
Qed.

(** The mark of an event tells whether it is in a queue, once. *)
Lemma in_queues_flag e : in_queues s e = if in_queue s e then 1%nat else O.
Proof.
  pose proof (inv_ev s T Hinv e) as He. unfold ev_ok in He. unfold in_queue.
  destruct (events (objs s) !! e) as [x|]; [|apply in_queues_none, He]. destruct He as [_ He].
  destruct (posting s !! e) as [[w b]|]; [apply in_queues_none, He|].
  destruct He as [(Hpo & _ & Hn)|(Hpo & _ & _ & w & _ & Hq & Hu & _)]; rewrite Hpo; cbn.
  - by apply in_queues_none.
  - by apply (in_queues_one e w).
Qed.
End queues.

Lemma posts_due s0 tr s e :
  initial s0 -> reach disciplined s0 tr s -> posts e tr = (calls e tr + due s e)%nat.
Proof.
  intros Hi Hr. induction Hr as [s|s tr s1 l s2 Hr IH Hok Hst].
  - destruct Hi as [He _ _ Hp _ _ _ _]. unfold posts, calls, due, in_queue. cbn. by rewrite He, Hp, count_pc_empty, lookup_empty.
  - specialize (IH Hi). destruct (inv_reach _ _ _ Hi Hr) as [T Hinv]. pose proof (due_step s1 T Hinv l s2 Hok Hst e).
    unfold posts, calls in *. rewrite !sum_list_with_app. cbn. lia.
Qed.

(** C7: events are delivered exactly once.  However clients, cancellations,
    flushes and workers interleave, as long as the clients are disciplined
    (an event is not cancelled while it is being posted, nor twice, nor after
    a flush took it; a reference that [ev_post] relies on is not put; no
    counter reaches 2^32), the number of times an event was accepted by
    [ev_post] is the number of times an actor was called with it, plus the
    number of times it is in the lists and trees of the workers, which is at
    most one, plus one for each worker that has taken it and is about to call
    the actor. *)
Theorem ev_delivered_exactly_once s0 tr s e :
  initial s0 -> reach disciplined s0 tr s ->
  posts e tr = (calls e tr + in_queues s e + count_pc (calling e) (pcs s))%nat /\ (in_queues s e <= 1)%nat.
Proof.
  intros Hi Hr. rewrite (posts_due _ _ _ e Hi Hr). destruct (inv_reach _ _ _ Hi Hr) as [T Hinv].
  rewrite (in_queues_flag s T Hinv). unfold due. case_match; lia.
Qed.

(** C16: no reference is lost and no worker fails.  In every state that
    disciplined clients reach, the count of an event is the number of
    references that clients hold, that workers have in their hands, and one
    for its place in a queue; a queued event exists, belongs to the worker and
    is in the queues once; and a worker can always go on: no assertion fails,
    and no freed event or missing actor is used. *)
Theorem ev_references_safe s0 tr s :
  initial s0 -> reach disciplined s0 tr s ->
  (forall e, match events (objs s) !! e with
     | Some x => e_refcount x = Z.of_nat (held_of s e + hands (pcs s) e + in_queues s e) /\ 0 < e_refcount x
     | None => held_of s e = O /\ hands (pcs s) e = O /\ in_queues s e = O
     end) /\
  (forall w k, workers (objs s) !! w = Some k -> NoDup (queue_of k) /\
     forall e, e ∈ queue_of k -> exists x, events (objs s) !! e = Some x /\ e_dst x = Some w /\ in_queues s e = 1%nat) /\
  (forall w pc, pcs s !! w = Some pc ->
     match pc with
     | PWait => True
     | PLock ph => is_Some (locked_section w ph (clock s) (objs s))
     | PCall e _ => is_Some (choose_actor w e (objs s))
     | PPut e _ => is_Some (ev_put e (objs s))
     end).
Proof.
  intros Hi Hr. destruct (inv_reach _ _ _ Hi Hr) as [T Hinv]. split_and!.
  - intros e. pose proof (inv_ev s T Hinv e) as He. rewrite (in_queues_flag s T Hinv). unfold ev_ok, dead in He. unfold in_queue.
    destruct (events (objs s) !! e) as [x|]; [|naive_solver]. destruct He as [_ He]. destruct (posting s !! e) as [[w b]|].
    + destruct He as (_ & [? ?] & _). lia.
    + destruct He as [(Hpo & [? ?] & _)|(Hpo & [? ?] & _)]; rewrite Hpo; cbn; lia.
  - intros w k Hk. destruct (queue_of_members s T Hinv w k Hk) as [Hnd Hin]. split; [done|]. intros e Hq.
    apply Hin in Hq. pose proof (inv_ev s T Hinv e) as He. unfold ev_ok, dead in He.
    destruct (events (objs s) !! e) as [x|] eqn:Hx; [|naive_solver]. exists x. split; [done|]. destruct He as [_ He].
    destruct (posting s !! e) as [[v b]|] eqn:Hp.
    + destruct He as (_ & _ & _ & _ & _ & _ & Hn). by destruct (Hn w).
    + destruct He as [(_ & _ & Hn)|(Hpo & _ & _ & v & Hv & Hqv & Hu & _)]; [by destruct (Hn w)|].
      rewrite Hv, (Hu w Hq). split; [done|]. by apply (in_queues_one s T Hinv e v).
  - intros w pc Hpc. destruct pc as [|ph|e ph|e ph]; [done|..].
    + destruct (runs_locked_section s T Hinv w ph Hpc) as (a & o & -> & _). by eexists.
    + destruct (runs_choose_actor s T Hinv w e ph Hpc) as (a & o & -> & _). by eexists.
    + destruct (usable_event s T e Hinv) as [x Hx]; [right; by eapply hand_usable|]. pose proof (ev_refs s T e x Hinv Hx).
      unfold ev_put, ld_e, st_e, mbind, M_bind. rewrite Hx. cbn. rewrite (proj2 (Z.eqb_neq _ _)) by lia. cbn. case_match; [by eexists|]. unfold ld_e. rewrite Hx. by eexists.
Qed.

(** C26: no wake-up is lost.  While disciplined clients run and a worker waits, either its semaphore has
    been posted or is about to be, or nothing is in its list, it is not being
    flushed, and the time it waits for is not after the time of any event
    queued to it, or has already come. *)
Theorem ev_no_lost_wakeup s0 tr s w k :
  initial s0 -> reach disciplined s0 tr s -> pcs s !! w = Some PWait -> workers (objs s) !! w = Some k ->
  0 < w_sem k + Z.of_nat (waking_of s w) \/
  w_event_list k = [] /\ w_state k <> EV_WORKER_FLUSHING /\
  forall e x, events (objs s) !! e = Some x -> in_queue s e = true -> e_dst x = Some w ->
    ev_time_cmp (w_sem_wait k) (e_to x) <= 0 \/ ev_time_cmp (w_sem_wait k) (clock s) <= 0.
Proof.
  intros Hi Hr Hpc Hk. destruct (inv_reach _ _ _ Hi Hr) as [T Hinv].
  destruct (inv_wk s T Hinv w k Hk) as (_ & _ & _ & _ & _ & _ & _ & Hwk). unfold wake_ok in Hwk. rewrite Hpc in Hwk.
  destruct Hwk as [?|(Hl & Hs & Ht)]; [by left|]. right. split_and!; try done. intros e x Hx Hq Hd.
  destruct (inv_ev_some s T e x Hinv Hx) as [_ Hev]. unfold in_queue in Hq. rewrite Hx in Hq.
  destruct (posting s !! e) as [[? ?]|]; [done|]. destruct Hev as [(Hpo & _)|(_ & _ & _ & v & Hv & (kv & Hkv & Hm) & _ & Hte)].
  { by rewrite Hpo in Hq. }
  rewrite Hd in Hv. injection Hv as <-. rewrite Hk in Hkv. injection Hkv as <-.
  destruct Hm as [Hm|Hm]; [rewrite Hl in Hm; set_solver|].
  apply list_elem_of_fmap in Hm as ([e1 t1] & -> & Hm). cbn in *. rewrite <- (Hte t1 Hm). by eapply Ht.
Qed.

(** ** Runs

    A worker, an event type and an event posted with a timeout: the runs that
    the theorems are applied to, and runs outside of what they assume, in
    which the library fails. *)

Definition x_worker : loc := 1%positive.
Definition x_type : loc := 2%positive.
Definition x_event : loc := 3%positive.
Definition x_actor : loc := 4%positive.

Definition x_garbage : ev__s := Ev None None x_type 77 88 EV_FLUSH (Ts 9 9).

Definition x_objs : evs :=
  Evs ∅ {[ x_type := EvType "timer" 1 0 ]}
    {[ x_worker := Evw "worker" (Some x_actor) EV_WORKER_STOPPED (Ts 0 0) 0 None 0 (rbt_init ∅) [] 0 ]}
    {[ "timer" := x_type ]} {[ "worker" := x_worker ]} 2.

Definition x0 : sys := Sys x_objs ∅ ∅ ∅ ∅ (Ts 100 0).

(** The objects after a computation that returns. *)
Definition after {A} (m : M evs A) (s : sys) : evs := match m (objs s) with Some (_, o) => o | None => objs s end.

Definition x1 : sys := with_pc x_worker PWait (with_objs (after (worker_start x_worker (clock x0)) x0) x0).
Definition x2 : sys := with_held x_event 1 (with_objs (after (ev_new (Some x_event) x_garbage x_type) x1) x1).
Definition x3 : sys := with_posting (insert x_event (x_worker, true))
  (with_objs (after (ev_post_claim None x_worker x_event (Some (Ts 105 0))) x2) x2).
Definition x4 : sys := with_waking x_worker (waking_of x3 x_worker) (with_posting (delete x_event)
  (with_objs (after (ev_post_enqueue x_worker x_event true) x3) x3)).
Definition x5 : sys := Sys (objs x4) (pcs x4) (held x4) (posting x4) (waking x4) (Ts 106 0).
Definition x6 : sys := with_pc x_worker (PLock PhImm) x5.
Definition x7 : sys := with_pc x_worker (PCall x_event (PhTo (Ts 106 0)))
  (with_objs (after (locked_section x_worker PhImm (clock x6)) x6) x6).
Definition x8 : sys := with_pc x_worker (PPut x_event (PhTo (Ts 106 0))) x7.

Lemma x_initial : initial x0.
Proof.
  constructor; try done.
  - intros w k Hk. unfold x0, x_objs in Hk. cbn [objs workers] in Hk. apply lookup_singleton_Some in Hk as [_ <-]. by eexists _, _.
  - intros t ty Ht. unfold x0, x_objs in Ht. cbn [objs types] in Ht. apply lookup_singleton_Some in Ht as [_ <-]. done.
Qed.

Lemma x_reach3 : reach disciplined x0 [LTau; LTau; LTau] x3.
Proof.
  apply (reach_snoc disciplined x0 [LTau; LTau] x2); [apply (reach_snoc disciplined x0 [LTau] x1);
    [apply (reach_snoc disciplined x0 [] x0); [constructor|exact I|]|exact I|]|exact I|].
  - apply step_start; [done|]. vm_compute. reflexivity.
  - apply (step_new x1 x_event x_garbage x_type); [done|]. vm_compute. reflexivity.
  - apply (step_claim x2 None x_worker x_event (Some (Ts 105 0))); [left; vm_compute; lia|vm_compute; by eexists|done|].
    vm_compute. reflexivity.
Qed.

Lemma x_reach4 : reach disciplined x0 [LTau; LTau; LTau; LPosted x_event] x4.
Proof.
  apply (reach_snoc disciplined x0 [LTau; LTau; LTau] x3); [apply x_reach3| |].
  - intros x Hx. vm_compute in Hx. by injection Hx as <-.
  - refine (step_enqueue x3 x_event x_worker true false (after (ev_post_enqueue x_worker x_event true) x3) _ _);
      vm_compute; reflexivity.
Qed.

Lemma x_reach7 : reach disciplined x0 [LTau; LTau; LTau; LPosted x_event; LTau; LTau; LTau] x7.
Proof.
  apply (reach_snoc disciplined x0 [LTau; LTau; LTau; LPosted x_event; LTau; LTau] x6); [|exact I|].
  - apply (reach_snoc disciplined x0 [LTau; LTau; LTau; LPosted x_event; LTau] x5); [|exact I|by apply step_timeout].
    apply (reach_snoc disciplined x0 [LTau; LTau; LTau; LPosted x_event] x4); [apply x_reach4|exact I|by apply step_clock].
  - apply step_lock with (ph := PhImm); [done|]. vm_compute. reflexivity.
Qed.

Lemma x_reach8 :
  reach disciplined x0 [LTau; LTau; LTau; LPosted x_event; LTau; LTau; LTau; LActor x_worker x_event EV_OK] x8.
Proof.
  apply (reach_snoc disciplined x0 [LTau; LTau; LTau; LPosted x_event; LTau; LTau; LTau] x7); [apply x_reach7|exact I|].
  change EV_OK with (e_status (Ev None (Some x_worker) x_type 2 0 EV_OK (Ts 105 0))).
  apply (step_call x7 x_worker x_event (PhTo (Ts 106 0)) x_actor); [done|vm_compute; reflexivity|vm_compute; reflexivity].
Qed.

(** While the event waits and after its actor was called. *)
Lemma ev_delivered_exactly_once_witness :
  in_queues x4 x_event = 1%nat /\
  posts x_event [LTau; LTau; LTau; LPosted x_event] =
    (calls x_event [LTau; LTau; LTau; LPosted x_event] + in_queues x4 x_event + count_pc (calling x_event) (pcs x4))%nat /\
  posts x_event [LTau; LTau; LTau; LPosted x_event; LTau; LTau; LTau; LActor x_worker x_event EV_OK] =
    (calls x_event [LTau; LTau; LTau; LPosted x_event; LTau; LTau; LTau; LActor x_worker x_event EV_OK] +
     in_queues x8 x_event + count_pc (calling x_event) (pcs x8))%nat.
Proof.
  split; [vm_compute; reflexivity|].
  split; [apply (ev_delivered_exactly_once x0 _ x4 x_event x_initial x_reach4)|
          apply (ev_delivered_exactly_once x0 _ x8 x_event x_initial x_reach8)].
Defined.

Lemma ev_references_safe_witness :
  is_Some (events (objs x7) !! x_event) /\ is_Some (choose_actor x_worker x_event (objs x7)).
Proof.
  split; [vm_compute; by eexists|].
  exact (proj2 (proj2 (ev_references_safe x0 _ x7 x_initial x_reach7)) x_worker (PCall x_event (PhTo (Ts 106 0))) eq_refl).
Defined.

Definition x_worker4 : ev_worker_s := default (Evw "none" None EV_WORKER_STOPPED (Ts 0 0) 0 None 0 (rbt_init ∅) [] 0) (workers (objs x4) !! x_worker).

Lemma ev_no_lost_wakeup_witness :
  in_queue x4 x_event = true /\ waking_of x4 x_worker = O /\
  (0 < w_sem x_worker4 + Z.of_nat (waking_of x4 x_worker) \/
   w_event_list x_worker4 = [] /\ w_state x_worker4 <> EV_WORKER_FLUSHING /\
   forall e x, events (objs x4) !! e = Some x -> in_queue x4 e = true -> e_dst x = Some x_worker ->
     ev_time_cmp (w_sem_wait x_worker4) (e_to x) <= 0 \/ ev_time_cmp (w_sem_wait x_worker4) (clock x4) <= 0).
Proof.
  split; [vm_compute; reflexivity|]. split; [vm_compute; reflexivity|].
  apply (ev_no_lost_wakeup x0 _ x4 x_worker x_worker4 x_initial x_reach4); vm_compute; reflexivity.
Defined.

(** ** Misuse that the interface does not exclude *)

(** An event posted for a time that is far away. *)
Definition x_far : evs := after (ev_post None x_worker x_event (Some (Ts 200 0))) x2.

(** Cancelling an event returns 0; cancelling it again before the worker has
    run deletes a node that is no longer in the tree, and the assertion of
    [rbt_del] fails. *)
Theorem double_cancel_fails :
  fst <$> ev_cancel x_event (Ts 100 0) x_far = Some 0 /\
  (ev_cancel x_event (Ts 100 0);; ev_cancel x_event (Ts 100 0)) x_far = None.
Proof. split; vm_compute; reflexivity. Qed.

(** [ev_cancel] looks at [e_posted] before it takes the lock.  When the worker
    is flushed and delivers the event in between, the event is deleted from a
    tree that it is not in. *)
Theorem cancel_flush_race_fails :
  let flushed := ev_flush x_worker;; worker_round 5 (fun _ _ _ _ _ => mret tt) x_worker (Ts 101 0) (Ts 101 0) in
  fst <$> ev_cancel_check x_event x_far = Some false /\ fst <$> flushed x_far = Some tt /\
  (flushed;; ev_cancel_locked x_event (Ts 101 0)) x_far = None.
Proof. split_and!; vm_compute; reflexivity. Qed.

(** An event that is posted without a timeout while the worker is in its
    second loop waits in the list.  A flush at that moment ends before the list
    is looked at, and the event is delivered with [EV_OK]. *)
Definition x_late : evs := after (ev_post None x_worker x_event None;; ev_flush x_worker) x2.

Theorem flush_misses_list :
  fst <$> (pc ← timed_section x_worker (Ts 100 0) (Ts 100 0); r ← take_immediate x_worker; x ← ld_e x_event;
           mret (pc, r, e_status x)) x_late = Some (PWait, Some x_event, EV_OK).
Proof. vm_compute. reflexivity. Qed.

(** [ev_time_diff] ignores the nanoseconds: an event that is due in a
    nanosecond is taken to be a second away when the second changes. *)
Theorem time_diff_ignores_nsec :
  SFltb (ev_time_diff (Ts 101 0) (Ts 100 999999999)) (f64_of_Z 1) = false.
Proof. vm_compute. reflexivity. Qed.
