(* ===== verification/MVal.v ===== *)
(** * Metric values

    Model of the value part of ldms.c: the value types
    (enum ldms_value_type of ldms_core.h), their sizes and names, and the
    accessors of [union ldms_value], which read and write one value of a
    metric set through a pointer.  [char] is signed, as on x86-64. *)

From stdpp Require Import prelude strings.
From Stdlib Require Import Ascii String Floats.SpecFloat.
From S2P Require Import Prelude Bytes CStr Mem CFloat.

Open Scope Z_scope.

(** ** Types *)

Inductive ldms_value_type :=
| LDMS_V_NONE
| LDMS_V_CHAR
| LDMS_V_U8
| LDMS_V_S8
| LDMS_V_U16
| LDMS_V_S16
| LDMS_V_U32
| LDMS_V_S32
| LDMS_V_U64
| LDMS_V_S64
| LDMS_V_F32
| LDMS_V_D64
| LDMS_V_CHAR_ARRAY
| LDMS_V_U8_ARRAY
| LDMS_V_S8_ARRAY
| LDMS_V_U16_ARRAY
| LDMS_V_S16_ARRAY
| LDMS_V_U32_ARRAY
| LDMS_V_S32_ARRAY
| LDMS_V_U64_ARRAY
| LDMS_V_S64_ARRAY
| LDMS_V_F32_ARRAY
| LDMS_V_D64_ARRAY
| LDMS_V_LIST
| LDMS_V_LIST_ENTRY
| LDMS_V_RECORD_TYPE
| LDMS_V_RECORD_INST
| LDMS_V_RECORD_ARRAY
| LDMS_V_TIMESTAMP.

#[export] Instance ldms_value_type_eq_dec : EqDecision ldms_value_type.
Proof. solve_decision. Defined.

Definition value_types : list ldms_value_type :=
  [LDMS_V_NONE; LDMS_V_CHAR; LDMS_V_U8; LDMS_V_S8; LDMS_V_U16; LDMS_V_S16; LDMS_V_U32; LDMS_V_S32;
   LDMS_V_U64; LDMS_V_S64; LDMS_V_F32; LDMS_V_D64; LDMS_V_CHAR_ARRAY; LDMS_V_U8_ARRAY;
   LDMS_V_S8_ARRAY; LDMS_V_U16_ARRAY; LDMS_V_S16_ARRAY; LDMS_V_U32_ARRAY; LDMS_V_S32_ARRAY;
   LDMS_V_U64_ARRAY; LDMS_V_S64_ARRAY; LDMS_V_F32_ARRAY; LDMS_V_D64_ARRAY; LDMS_V_LIST;
   LDMS_V_LIST_ENTRY; LDMS_V_RECORD_TYPE; LDMS_V_RECORD_INST; LDMS_V_RECORD_ARRAY;
   LDMS_V_TIMESTAMP].

(** The enumerators' numbers; a byte of a descriptor or an argument may hold
    a number that is none of them. *)
Definition code (t : ldms_value_type) : Z :=
  match t with
  | LDMS_V_NONE => 0 | LDMS_V_CHAR => 1 | LDMS_V_U8 => 2 | LDMS_V_S8 => 3 | LDMS_V_U16 => 4
  | LDMS_V_S16 => 5 | LDMS_V_U32 => 6 | LDMS_V_S32 => 7 | LDMS_V_U64 => 8 | LDMS_V_S64 => 9
  | LDMS_V_F32 => 10 | LDMS_V_D64 => 11 | LDMS_V_CHAR_ARRAY => 12 | LDMS_V_U8_ARRAY => 13
  | LDMS_V_S8_ARRAY => 14 | LDMS_V_U16_ARRAY => 15 | LDMS_V_S16_ARRAY => 16
  | LDMS_V_U32_ARRAY => 17 | LDMS_V_S32_ARRAY => 18 | LDMS_V_U64_ARRAY => 19
  | LDMS_V_S64_ARRAY => 20 | LDMS_V_F32_ARRAY => 21 | LDMS_V_D64_ARRAY => 22 | LDMS_V_LIST => 23
  | LDMS_V_LIST_ENTRY => 24 | LDMS_V_RECORD_TYPE => 25 | LDMS_V_RECORD_INST => 26
  | LDMS_V_RECORD_ARRAY => 27 | LDMS_V_TIMESTAMP => 28
  end.

Definition of_code (z : Z) : option ldms_value_type :=
  if z <? 0 then None else value_types !! Z.to_nat z.

Definition LDMS_V_LAST : Z := 28.

Definition ldms_type_is_array (t : Z) : bool :=
  (code LDMS_V_CHAR_ARRAY <=? t) && (t <=? code LDMS_V_D64_ARRAY).

(** The struct sizes of ldms_core.h. *)
Definition sizeof_ldms_list : Z := 12.
Definition sizeof_ldms_list_entry : Z := 12.
Definition sizeof_ldms_record_type : Z := 16.
Definition sizeof_ldms_record_inst : Z := 16.
Definition sizeof_ldms_record_array : Z := 12.
Definition sizeof_ldms_timestamp : Z := 8.

(** [None] is the failed assertion on an unknown type. *)
Definition __ldms_value_size_get (t count : Z) : option Z :=
  vsz ← match of_code t with
        | Some (LDMS_V_U8 | LDMS_V_S8 | LDMS_V_CHAR) => Some 1
        | Some (LDMS_V_U8_ARRAY | LDMS_V_S8_ARRAY | LDMS_V_CHAR_ARRAY) => Some (1 * count)
        | Some (LDMS_V_U16 | LDMS_V_S16) => Some 2
        | Some (LDMS_V_U16_ARRAY | LDMS_V_S16_ARRAY) => Some (2 * count)
        | Some (LDMS_V_U32 | LDMS_V_S32) => Some 4
        | Some (LDMS_V_U32_ARRAY | LDMS_V_S32_ARRAY) => Some (4 * count)
        | Some (LDMS_V_U64 | LDMS_V_S64) => Some 8
        | Some (LDMS_V_U64_ARRAY | LDMS_V_S64_ARRAY) => Some (8 * count)
        | Some LDMS_V_F32 => Some 4
        | Some LDMS_V_F32_ARRAY => Some (4 * count)
        | Some LDMS_V_D64 => Some 8
        | Some LDMS_V_D64_ARRAY => Some (8 * count)
        | Some LDMS_V_LIST => Some sizeof_ldms_list
        | Some LDMS_V_LIST_ENTRY => Some sizeof_ldms_list_entry
        | Some LDMS_V_RECORD_TYPE => Some sizeof_ldms_record_type
        | Some LDMS_V_RECORD_INST => Some sizeof_ldms_record_inst
        | Some LDMS_V_RECORD_ARRAY => Some sizeof_ldms_record_array
        | Some LDMS_V_TIMESTAMP => Some sizeof_ldms_timestamp
        | Some LDMS_V_NONE | None => None
        end;
  Some (mask_roundup vsz 8).

Definition ldms_metric_value_size_get (t count : Z) : option Z := __ldms_value_size_get t count.

(** ** Names *)

Definition type_names (t : ldms_value_type) : string :=
  match t with
  | LDMS_V_NONE => "none"
  | LDMS_V_CHAR => "char"
  | LDMS_V_U8 => "u8"
  | LDMS_V_S8 => "s8"
  | LDMS_V_U16 => "u16"
  | LDMS_V_S16 => "s16"
  | LDMS_V_U32 => "u32"
  | LDMS_V_S32 => "s32"
  | LDMS_V_U64 => "u64"
  | LDMS_V_S64 => "s64"
  | LDMS_V_F32 => "f32"
  | LDMS_V_D64 => "d64"
  | LDMS_V_CHAR_ARRAY => "char[]"
  | LDMS_V_U8_ARRAY => "u8[]"
  | LDMS_V_S8_ARRAY => "s8[]"
  | LDMS_V_U16_ARRAY => "u16[]"
  | LDMS_V_S16_ARRAY => "s16[]"
  | LDMS_V_U32_ARRAY => "u32[]"
  | LDMS_V_S32_ARRAY => "s32[]"
  | LDMS_V_U64_ARRAY => "u64[]"
  | LDMS_V_S64_ARRAY => "s64[]"
  | LDMS_V_F32_ARRAY => "f32[]"
  | LDMS_V_D64_ARRAY => "d64[]"
  | LDMS_V_LIST => "list<>"
  | LDMS_V_LIST_ENTRY => "entry"
  | LDMS_V_RECORD_TYPE => "record_type"
  | LDMS_V_RECORD_INST => "record_inst"
  | LDMS_V_RECORD_ARRAY => "record[]"
  | LDMS_V_TIMESTAMP => "timestamp"
  end.

Definition type_scalar_types (t : ldms_value_type) : ldms_value_type :=
  match t with
  | LDMS_V_CHAR_ARRAY => LDMS_V_CHAR
  | LDMS_V_U8_ARRAY => LDMS_V_U8
  | LDMS_V_S8_ARRAY => LDMS_V_S8
  | LDMS_V_U16_ARRAY => LDMS_V_U16
  | LDMS_V_S16_ARRAY => LDMS_V_S16
  | LDMS_V_U32_ARRAY => LDMS_V_U32
  | LDMS_V_S32_ARRAY => LDMS_V_S32
  | LDMS_V_U64_ARRAY => LDMS_V_U64
  | LDMS_V_S64_ARRAY => LDMS_V_S64
  | LDMS_V_F32_ARRAY => LDMS_V_F32
  | LDMS_V_D64_ARRAY => LDMS_V_D64
  | LDMS_V_LIST | LDMS_V_LIST_ENTRY | LDMS_V_RECORD_TYPE | LDMS_V_RECORD_INST
  | LDMS_V_RECORD_ARRAY => LDMS_V_NONE
  | t => t
  end.

(** The enum is unsigned: the argument is not negative. *)
Definition clamp_type (t : Z) : option ldms_value_type :=
  of_code (if LDMS_V_LAST <? t then code LDMS_V_NONE else t).

Definition ldms_metric_type_to_str (t : Z) : option string := type_names <$> clamp_type t.
Definition ldms_metric_type_to_scalar_type (t : Z) : option Z :=
  (fun t => code (type_scalar_types t)) <$> clamp_type t.

Definition type_name_map : list (string * ldms_value_type) :=
  [("char", LDMS_V_CHAR);
   ("char[]", LDMS_V_CHAR_ARRAY);
   ("char_array", LDMS_V_CHAR_ARRAY);
   ("d64", LDMS_V_D64);
   ("d64[]", LDMS_V_D64_ARRAY);
   ("d64_array", LDMS_V_D64_ARRAY);
   ("f32", LDMS_V_F32);
   ("f32[]", LDMS_V_F32_ARRAY);
   ("f32_array", LDMS_V_F32_ARRAY);
   ("list", LDMS_V_LIST);
   ("list<>", LDMS_V_LIST);
   ("none", LDMS_V_NONE);
   ("record", LDMS_V_RECORD_INST);
   ("record[]", LDMS_V_RECORD_ARRAY);
   ("record_array", LDMS_V_RECORD_ARRAY);
   ("record_type", LDMS_V_RECORD_TYPE);
   ("s16", LDMS_V_S16);
   ("s16[]", LDMS_V_S16_ARRAY);
   ("s16_array", LDMS_V_S16_ARRAY);
   ("s32", LDMS_V_S32);
   ("s32[]", LDMS_V_S32_ARRAY);
   ("s32_array", LDMS_V_S32_ARRAY);
   ("s64", LDMS_V_S64);
   ("s64[]", LDMS_V_S64_ARRAY);
   ("s64_array", LDMS_V_S64_ARRAY);
   ("s8", LDMS_V_S8);
   ("s8[]", LDMS_V_S8_ARRAY);
   ("s8_array", LDMS_V_S8_ARRAY);
   ("timestamp", LDMS_V_TIMESTAMP);
   ("ts", LDMS_V_TIMESTAMP);
   ("u16", LDMS_V_U16);
   ("u16[]", LDMS_V_U16_ARRAY);
   ("u16_array", LDMS_V_U16_ARRAY);
   ("u32", LDMS_V_U32);
   ("u32[]", LDMS_V_U32_ARRAY);
   ("u32_array", LDMS_V_U32_ARRAY);
   ("u64", LDMS_V_U64);
   ("u64[]", LDMS_V_U64_ARRAY);
   ("u64_array", LDMS_V_U64_ARRAY);
   ("u8", LDMS_V_U8);
   ("u8[]", LDMS_V_U8_ARRAY);
   ("u8_array", LDMS_V_U8_ARRAY)]%string.

Definition tolower (c : ascii) : ascii :=
  if (65 <=? byte_of c) && (byte_of c <=? 90) then ascii_of_N (Z.to_N (byte_of c + 32)) else c.

Fixpoint lower (s : string) : string :=
  match s with
  | EmptyString => EmptyString
  | String c s => String (tolower c) (lower s)
  end.

(** The sign of [strcasecmp]. *)
Definition strcasecmp (a b : string) : Z := strcmp (lower a) (lower b).

(** [bsearch] of the C library: the middle of [l, u) is probed until it is
    found or the range is empty. *)
Fixpoint bsearch {A} (fuel : nat) (cmp : A -> Z) (tbl : list A) (l u : nat) : option (option A) :=
  match fuel with
  | O => None
  | S fuel =>
      if (l <? u)%nat then
        let idx := ((l + u) / 2)%nat in
        match tbl !! idx with
        | None => None
        | Some p =>
            if cmp p <? 0 then bsearch fuel cmp tbl l idx
            else if 0 <? cmp p then bsearch fuel cmp tbl (idx + 1) u
            else Some (Some p)
        end
      else Some None
  end.

Definition comparator (name : string) (el : string * ldms_value_type) : Z := strcasecmp name el.1.

Definition ldms_metric_str_to_type (name : string) : option ldms_value_type :=
  p ← bsearch (S (List.length type_name_map)) (comparator name) type_name_map 0 (List.length type_name_map);
  Some (match p with Some p => p.2 | None => LDMS_V_NONE end).

(** ** Accessors of [union ldms_value]

    [mv] is the address of the value; the element [idx] of an array of
    [w]-byte elements is at [mv + idx * w].  A float or a double is passed as
    its bits. *)

Definition t_char : ity := Ity 8 true.
Definition t_u8 : ity := Ity 8 false.
Definition t_s8 : ity := Ity 8 true.
Definition t_u16 : ity := Ity 16 false.
Definition t_s16 : ity := Ity 16 true.
Definition t_u32 : ity := Ity 32 false.
Definition t_s32 : ity := Ity 32 true.
Definition t_u64 : ity := Ity 64 false.
Definition t_s64 : ity := Ity 64 true.

Definition it_bytes (t : ity) : nat := Z.to_nat (it_bits t / 8).

(** Load and store of an integer object. *)
Definition ldi (t : ity) (p : Z) : M mem Z := v ← ldw (it_bytes t) p; mret (wrap t v).
Definition sti (t : ity) (p v : Z) : M mem unit := stw (it_bytes t) p v.

Definition ldms_mval_set_char (mv v : Z) : M mem unit := sti t_char mv v.
Definition ldms_mval_set_u8 (mv v : Z) : M mem unit := sti t_u8 mv v.
Definition ldms_mval_set_s8 (mv v : Z) : M mem unit := sti t_s8 mv v.
Definition ldms_mval_set_u16 (mv v : Z) : M mem unit := sti t_u16 mv v.
Definition ldms_mval_set_s16 (mv v : Z) : M mem unit := sti t_s16 mv v.
Definition ldms_mval_set_u32 (mv v : Z) : M mem unit := sti t_u32 mv v.
Definition ldms_mval_set_s32 (mv v : Z) : M mem unit := sti t_s32 mv v.
Definition ldms_mval_set_u64 (mv v : Z) : M mem unit := sti t_u64 mv v.
Definition ldms_mval_set_s64 (mv v : Z) : M mem unit := sti t_s64 mv v.
Definition ldms_mval_set_float (mv v : Z) : M mem unit := sti t_u32 mv v.
Definition ldms_mval_set_double (mv v : Z) : M mem unit := sti t_u64 mv v.

Definition str_bytes (s : string) : bytes := byte_of <$> list_ascii_of_string s.

(** [strncpy]: the string, cut to or padded with zeros to [n] bytes. *)
Definition strncpy (dst : Z) (s : string) (n : Z) : M mem unit :=
  poke dst (take (Z.to_nat n) (str_bytes s ++ replicate (Z.to_nat n) 0)).

Definition ldms_mval_array_set_str (mv : Z) (str : string) (count : Z) : M mem unit := strncpy mv str count.

Definition elt (t : ity) (mv idx : Z) : Z := mv + idx * (it_bits t / 8).

Definition ldms_mval_array_set_char (mv idx v : Z) : M mem unit := sti t_char (elt t_char mv idx) v.
Definition ldms_mval_array_set_u8 (mv idx v : Z) : M mem unit := sti t_u8 (elt t_u8 mv idx) v.
Definition ldms_mval_array_set_s8 (mv idx v : Z) : M mem unit := sti t_s8 (elt t_s8 mv idx) v.
Definition ldms_mval_array_set_u16 (mv idx v : Z) : M mem unit := sti t_u16 (elt t_u16 mv idx) v.
Definition ldms_mval_array_set_s16 (mv idx v : Z) : M mem unit := sti t_s16 (elt t_s16 mv idx) v.
Definition ldms_mval_array_set_u32 (mv idx v : Z) : M mem unit := sti t_u32 (elt t_u32 mv idx) v.
Definition ldms_mval_array_set_s32 (mv idx v : Z) : M mem unit := sti t_s32 (elt t_s32 mv idx) v.
Definition ldms_mval_array_set_u64 (mv idx v : Z) : M mem unit := sti t_u64 (elt t_u64 mv idx) v.
Definition ldms_mval_array_set_s64 (mv idx v : Z) : M mem unit := sti t_s64 (elt t_s64 mv idx) v.
Definition ldms_mval_array_set_float (mv idx v : Z) : M mem unit := sti t_u32 (elt t_u32 mv idx) v.
Definition ldms_mval_array_set_double (mv idx v : Z) : M mem unit := sti t_u64 (elt t_u64 mv idx) v.

Definition ldms_mval_get_char (mv : Z) : M mem Z := ldi t_char mv.
Definition ldms_mval_get_u8 (mv : Z) : M mem Z := ldi t_u8 mv.
Definition ldms_mval_get_s8 (mv : Z) : M mem Z := ldi t_s8 mv.
Definition ldms_mval_get_u16 (mv : Z) : M mem Z := ldi t_u16 mv.
Definition ldms_mval_get_s16 (mv : Z) : M mem Z := ldi t_s16 mv.
Definition ldms_mval_get_u32 (mv : Z) : M mem Z := ldi t_u32 mv.
Definition ldms_mval_get_s32 (mv : Z) : M mem Z := ldi t_s32 mv.
Definition ldms_mval_get_u64 (mv : Z) : M mem Z := ldi t_u64 mv.
Definition ldms_mval_get_s64 (mv : Z) : M mem Z := ldi t_s64 mv.
Definition ldms_mval_get_float (mv : Z) : M mem Z := ldi t_u32 mv.
Definition ldms_mval_get_double (mv : Z) : M mem Z := ldi t_u64 mv.

(** [struct ldms_timestamp]: seconds and microseconds. *)
Record ldms_timestamp := Ts { ts_sec : Z; ts_usec : Z }.

Definition ldms_mval_get_ts (mv : Z) : M mem ldms_timestamp :=
  s ← ldi t_u32 mv; u ← ldi t_u32 (mv + 4); mret (Ts s u).

Definition ldms_mval_array_get_str (mv : Z) : M mem Z := mret mv.
Definition ldms_mval_array_get_char (mv idx : Z) : M mem Z := ldi t_char (elt t_char mv idx).
Definition ldms_mval_array_get_u8 (mv idx : Z) : M mem Z := ldi t_u8 (elt t_u8 mv idx).
Definition ldms_mval_array_get_s8 (mv idx : Z) : M mem Z := ldi t_s8 (elt t_s8 mv idx).
Definition ldms_mval_array_get_u16 (mv idx : Z) : M mem Z := ldi t_u16 (elt t_u16 mv idx).
Definition ldms_mval_array_get_s16 (mv idx : Z) : M mem Z := ldi t_s16 (elt t_s16 mv idx).
Definition ldms_mval_array_get_u32 (mv idx : Z) : M mem Z := ldi t_u32 (elt t_u32 mv idx).
Definition ldms_mval_array_get_s32 (mv idx : Z) : M mem Z := ldi t_s32 (elt t_s32 mv idx).
Definition ldms_mval_array_get_u64 (mv idx : Z) : M mem Z := ldi t_u64 (elt t_u64 mv idx).
Definition ldms_mval_array_get_s64 (mv idx : Z) : M mem Z := ldi t_s64 (elt t_s64 mv idx).
Definition ldms_mval_array_get_float (mv idx : Z) : M mem Z := ldi t_u32 (elt t_u32 mv idx).
Definition ldms_mval_array_get_double (mv idx : Z) : M mem Z := ldi t_u64 (elt t_u64 mv idx).
Definition ldms_mval_array_get_ts (mv idx : Z) : M mem ldms_timestamp := ldms_mval_get_ts (mv + idx * 8).

(** ** Conversion to a type

    The body the [ldms_mval_as_*] functions share: the value the type code
    selects; the caller converts it to its return type. *)

Definition ld_int (t : ity) (p : Z) : M mem cval := v ← ldi t p; mret (CInt v).
Definition ld_flt (p : Z) : M mem cval := v ← ldw 4 p; mret (CFlt (f32_of_bits v)).
Definition ld_dbl (p : Z) : M mem cval := v ← ldw 8 p; mret (CDbl (f64_of_bits v)).

Definition from_type_body (mv ty idx : Z) : M mem cval :=
  match of_code ty with
  | Some LDMS_V_CHAR => ld_int t_char mv
  | Some LDMS_V_U8 => ld_int t_u8 mv
  | Some LDMS_V_S8 => ld_int t_s8 mv
  | Some LDMS_V_U16 => ld_int t_u16 mv
  | Some LDMS_V_S16 => ld_int t_s16 mv
  | Some LDMS_V_U32 => ld_int t_u32 mv
  | Some LDMS_V_S32 => ld_int t_s32 mv
  | Some LDMS_V_U64 => ld_int t_u64 mv
  | Some LDMS_V_S64 => ld_int t_s64 mv
  | Some LDMS_V_F32 => ld_flt mv
  | Some LDMS_V_D64 => ld_dbl mv
  | Some LDMS_V_CHAR_ARRAY => ld_int t_char (elt t_char mv idx)
  | Some LDMS_V_U8_ARRAY => ld_int t_u8 (elt t_u8 mv idx)
  | Some LDMS_V_S8_ARRAY => ld_int t_s8 (elt t_s8 mv idx)
  | Some LDMS_V_U16_ARRAY => ld_int t_u16 (elt t_u16 mv idx)
  | Some LDMS_V_S16_ARRAY => ld_int t_s16 (elt t_s16 mv idx)
  | Some LDMS_V_U32_ARRAY => ld_int t_u32 (elt t_u32 mv idx)
  | Some LDMS_V_S32_ARRAY => ld_int t_s32 (elt t_s32 mv idx)
  | Some LDMS_V_U64_ARRAY => ld_int t_u64 (elt t_u64 mv idx)
  | Some LDMS_V_S64_ARRAY => ld_int t_s64 (elt t_s64 mv idx)
  | Some LDMS_V_F32_ARRAY => ld_flt (elt t_u32 mv idx)
  | Some LDMS_V_D64_ARRAY => ld_dbl (elt t_u64 mv idx)
  | Some LDMS_V_TIMESTAMP =>
      ts ← ldms_mval_get_ts mv;
      mret (CDbl (f64_add (f64_of_Z (ts_sec ts)) (f64_mul (f64_of_Z (ts_usec ts)) f64_1em6)))
  | _ => mret (CInt 0)
  end.

Definition as_int (t : ity) (mv ty idx : Z) : M mem Z :=
  c ← from_type_body mv ty idx; lift_opt (to_int t c).

Definition ldms_mval_as_char : Z -> Z -> Z -> M mem Z := as_int t_char.
Definition ldms_mval_as_u8 : Z -> Z -> Z -> M mem Z := as_int t_u8.
Definition ldms_mval_as_s8 : Z -> Z -> Z -> M mem Z := as_int t_s8.
Definition ldms_mval_as_u16 : Z -> Z -> Z -> M mem Z := as_int t_u16.
Definition ldms_mval_as_s16 : Z -> Z -> Z -> M mem Z := as_int t_s16.
Definition ldms_mval_as_u32 : Z -> Z -> Z -> M mem Z := as_int t_u32.
Definition ldms_mval_as_s32 : Z -> Z -> Z -> M mem Z := as_int t_s32.
Definition ldms_mval_as_u64 : Z -> Z -> Z -> M mem Z := as_int t_u64.
Definition ldms_mval_as_s64 : Z -> Z -> Z -> M mem Z := as_int t_s64.
Definition ldms_mval_as_float (mv ty idx : Z) : M mem spec_float :=
  c ← from_type_body mv ty idx; mret (to_f32 c).
Definition ldms_mval_as_double (mv ty idx : Z) : M mem spec_float :=
  c ← from_type_body mv ty idx; mret (to_f64 c).

(** [ts.sec = f; ts.usec = (uint64_t)((f - ts.sec) * 1e6) % 1000000] for a
    [float] and for a [double] [f]. *)
Definition ts_of_f32 (f : spec_float) : option ldms_timestamp :=
  sec ← to_int t_u32 (CFlt f);
  u ← to_int t_u64 (CDbl (f64_mul (f64_of_f32 (f32_sub f (f32_of_Z sec))) f64_1e6));
  Some (Ts sec (u mod 1000000)).

Definition ts_of_f64 (f : spec_float) : option ldms_timestamp :=
  sec ← to_int t_u32 (CDbl f);
  u ← to_int t_u64 (CDbl (f64_mul (f64_sub f (f64_of_Z sec)) f64_1e6));
  Some (Ts sec (u mod 1000000)).

Definition ldms_mval_as_timestamp (mv ty idx : Z) : M mem ldms_timestamp :=
  match of_code ty with
  | Some LDMS_V_TIMESTAMP => ldms_mval_get_ts mv
  | _ =>
      c ← from_type_body mv ty idx;
      match c with
      | CInt z => mret (Ts (wrap t_u32 z) 0)
      | CFlt f => lift_opt (ts_of_f32 f)
      | CDbl f => lift_opt (ts_of_f64 f)
      end
  end.
