(* ===== verification/MValSpec.v ===== *)
(** * Metric values: theorems

    Sizes, names, and round trips through the accessors. *)

From stdpp Require Import prelude strings.
From Stdlib Require Import Ascii String.
From S2P Require Import Prelude RbtIns RbtOps Bytes CStr Mem CFloat MVal.

Open Scope Z_scope.

(** ** Types and sizes *)

Lemma of_code_code t : of_code (code t) = Some t.
Proof. by destruct t. Qed.

Lemma of_code_inv z t : of_code z = Some t -> z = code t.
Proof.
  unfold of_code. destruct (Z.ltb_spec z 0); [done|]. intros Hl.
  pose proof (lookup_lt_Some _ _ _ Hl) as Hlt. change (List.length value_types) with 29%nat in Hlt.
  rewrite <- (Z2Nat.id z) by done. revert Hl. generalize dependent (Z.to_nat z). clear.
  intros n Hn. do 29 (destruct n as [|n]; [intros [= <-]; reflexivity|]). lia.
Qed.

(** The bytes of one value, or of one element of an array. *)
Definition type_width (t : ldms_value_type) : Z :=
  match t with
  | LDMS_V_NONE => 0
  | LDMS_V_CHAR | LDMS_V_U8 | LDMS_V_S8 | LDMS_V_CHAR_ARRAY | LDMS_V_U8_ARRAY | LDMS_V_S8_ARRAY => 1
  | LDMS_V_U16 | LDMS_V_S16 | LDMS_V_U16_ARRAY | LDMS_V_S16_ARRAY => 2
  | LDMS_V_U32 | LDMS_V_S32 | LDMS_V_F32 | LDMS_V_U32_ARRAY | LDMS_V_S32_ARRAY | LDMS_V_F32_ARRAY => 4
  | LDMS_V_U64 | LDMS_V_S64 | LDMS_V_D64 | LDMS_V_U64_ARRAY | LDMS_V_S64_ARRAY | LDMS_V_D64_ARRAY => 8
  | LDMS_V_LIST | LDMS_V_LIST_ENTRY | LDMS_V_RECORD_ARRAY => 12
  | LDMS_V_RECORD_TYPE | LDMS_V_RECORD_INST => 16
  | LDMS_V_TIMESTAMP => 8
  end.

Definition type_len (t : ldms_value_type) (count : Z) : Z :=
  if ldms_type_is_array (code t) then count else 1.

(** The size is the width times the number of elements, rounded up to eight. *)
Lemma value_size_eq t count :
  t <> LDMS_V_NONE -> 0 <= count < 2 ^ 32 ->
  __ldms_value_size_get (code t) count = Some ((type_width t * type_len t count + 7) / 8 * 8).
Proof.
  intros Ht Hc. unfold __ldms_value_size_get. rewrite of_code_code.
  destruct t; try done; cbn [mbind option_bind type_width type_len];
    cbv [ldms_type_is_array code Z.leb Z.compare Pos.compare Pos.compare_cont andb];
    by rewrite mask_roundup_8 by (try unfold sizeof_ldms_list, sizeof_ldms_list_entry, sizeof_ldms_record_type,
      sizeof_ldms_record_inst, sizeof_ldms_record_array, sizeof_ldms_timestamp; lia).
Qed.

Lemma value_size_none ty count :
  __ldms_value_size_get ty count <> None <-> exists t, of_code ty = Some t /\ t <> LDMS_V_NONE.
Proof.
  unfold __ldms_value_size_get. destruct (of_code ty) as [t|]; simpl.
  - destruct t; simpl; split; intros H; try done; try (by eexists; split; [done|]).
    by destruct H as (? & [= <-] & ?).
  - split; [done|]. by intros (? & ? & ?).
Qed.

Lemma value_size_bounds ty count sz :
  0 <= count < 2 ^ 32 -> __ldms_value_size_get ty count = Some sz ->
  sz mod 8 = 0 /\ 0 <= sz < 2 ^ 36 /\ (ldms_type_is_array ty = false -> 8 <= sz).
Proof.
  intros Hc Hs. destruct (proj1 (value_size_none ty count)) as (t & Ht & Hn); [by rewrite Hs|].
  apply of_code_inv in Ht as ->. rewrite value_size_eq in Hs by done. injection Hs as <-.
  split; [apply Z.mod_mul; lia|].
  assert (0 <= type_width t <= 16 /\ (t <> LDMS_V_NONE -> 1 <= type_width t)) as [Hw Hw'] by (destruct t; done || (split; [lia|intros; cbn; lia])).
  specialize (Hw' Hn). unfold type_len.
  destruct (ldms_type_is_array (code t)) eqn:Ha; cbv iota.
  - assert (type_width t <= 8) by (destruct t; cbn in *; try lia; discriminate).
    split; [|done]. assert (0 <= type_width t * count <= 8 * count) as Hp by nia.
    revert Hp. generalize (type_width t * count). intros x Hp.
    change (2 ^ 36) with 68719476736. change (2 ^ 32) with 4294967296 in Hc. dlia.
  - change (2 ^ 36) with 68719476736. split; [dlia|]. intros _. dlia.
Qed.

(** Every element lies in the value. *)
Lemma value_size_elt t count idx sz :
  0 <= count < 2 ^ 32 -> __ldms_value_size_get (code t) count = Some sz ->
  0 <= idx < type_len t count -> (idx + 1) * type_width t <= sz.
Proof.
  intros Hc Hs Hi. destruct (proj1 (value_size_none (code t) count)) as (t' & Ht & Hn); [by rewrite Hs|].
  rewrite of_code_code in Ht. injection Ht as <-. rewrite value_size_eq in Hs by done. injection Hs as <-.
  assert (0 <= type_width t) by (destruct t; cbn; lia).
  assert ((idx + 1) * type_width t <= type_width t * type_len t count) by nia.
  generalize dependent (type_width t * type_len t count). generalize ((idx + 1) * type_width t). intros. dlia.
Qed.

(** ** Names *)

(** The table is ordered by name and spelled in lower case. *)
Definition name_map_sorted : bool :=
  forallb (fun '(a, b) => strcmp a.1 b.1 <? 0) (zip type_name_map (tail type_name_map)) &&
  forallb (fun a => bool_decide (lower a.1 = a.1)) type_name_map.

Lemma strcmp_lt_trans a b c : strcmp a b < 0 -> strcmp b c < 0 -> strcmp a c < 0.
Proof.
  intros H1 H2.
  assert (strcmp a c <= 0) by (apply (cmp_trans (cmp := strcmp)) with b; lia).
  destruct (decide (strcmp a c = 0)) as [E|]; [|lia]. apply strcmp_eq in E as ->.
  pose proof (cmp_opp (cmp := strcmp) b c). lia.
Qed.

Lemma sorted_lookup {A} (key : A -> string) (l : list A) i j a b :
  forallb (fun '(a, b) => strcmp (key a) (key b) <? 0) (zip l (tail l)) = true ->
  l !! i = Some a -> l !! j = Some b -> (i < j)%nat -> strcmp (key a) (key b) < 0.
Proof.
  revert i j a b. induction l as [|x l IH]; intros i j a b Hs Hi Hj Hlt; [done|].
  destruct j as [|j]; [lia|]. destruct l as [|y l]; [done|].
  simpl in Hs. apply andb_true_iff in Hs as [Hxy Hs]. apply Z.ltb_lt in Hxy.
  destruct i as [|i]; simpl in Hi, Hj.
  - injection Hi as <-. destruct j as [|j]; [simpl in Hj; by injection Hj as <-|].
    eapply strcmp_lt_trans; [done|]. apply (IH 0%nat (S j)); [done|done|done|lia].
  - apply (IH i j); [done|done|done|lia].
Qed.

(** A search by a comparison that decreases along the table finds the element
    that compares equal, if there is one. *)
Lemma bsearch_correct {A} (cmp : A -> Z) (tbl : list A) fuel l u :
  (forall i j a b, tbl !! i = Some a -> tbl !! j = Some b -> (i < j)%nat -> cmp a <= 0 -> cmp b < 0) ->
  (u <= List.length tbl)%nat -> (u - l < fuel)%nat ->
  exists r, bsearch fuel cmp tbl l u = Some r /\
    match r with
    | Some a => a ∈ tbl /\ cmp a = 0
    | None => forall i a, (l <= i < u)%nat -> tbl !! i = Some a -> cmp a <> 0
    end.
Proof.
  intros Hmono. revert l u. induction fuel as [|fuel IH]; intros l u Hu Hf; [lia|]. cbn [bsearch].
  destruct (Nat.ltb_spec l u) as [Hlu|Hlu]; [|exists None; split; [done|]; lia].
  assert (l <= (l + u) / 2 < u)%nat as Hm.
  { split; [apply Nat.div_le_lower_bound; lia|apply Nat.Div0.div_lt_upper_bound; lia]. }
  set (idx := ((l + u) / 2)%nat) in *.
  destruct (lookup_lt_is_Some_2 tbl idx) as [p Hp]; [lia|]. rewrite Hp.
  destruct (Z.ltb_spec (cmp p) 0) as [Hlt|Hge].
  - destruct (IH l idx) as (r & -> & Hr); [lia|lia|]. exists r. split; [done|].
    destruct r as [a|]; [done|]. intros i a Hi Ha.
    destruct (decide (i < idx)%nat); [apply (Hr i); [lia|done]|].
    destruct (decide (i = idx)) as [->|]; [simplify_eq; lia|].
    assert (cmp a < 0); [|lia]. apply (Hmono idx i p a); [done|done|lia|lia].
  - destruct (Z.ltb_spec 0 (cmp p)) as [Hgt|Hle].
    + destruct (IH (idx + 1)%nat u) as (r & -> & Hr); [lia|lia|]. exists r. split; [done|].
      destruct r as [a|]; [done|]. intros i a Hi Ha.
      destruct (decide (idx < i)%nat); [apply (Hr i); [lia|done]|].
      destruct (decide (i = idx)) as [->|]; [simplify_eq; lia|].
      intros E. assert (cmp p < 0); [|lia]. apply (Hmono i idx a p); [done|done|lia|lia].
    + exists (Some p). split; [done|]. split; [by eapply list_elem_of_lookup_2|lia].
Qed.

Lemma str_to_type_spec name :
  exists t, ldms_metric_str_to_type name = Some t /\
    ((exists n, (n, t) ∈ type_name_map /\ lower name = n) \/
     (t = LDMS_V_NONE /\ forall e, e ∈ type_name_map -> lower name <> e.1)).
Proof.
  assert (name_map_sorted = true) as Hs by (vm_compute; reflexivity).
  apply andb_true_iff in Hs as [Hs Hlow]. rewrite forallb_forall in Hlow.
  assert (forall e, e ∈ type_name_map -> lower e.1 = e.1) as Hl.
  { intros e He. apply list_elem_of_In, Hlow in He. by apply bool_decide_eq_true in He. }
  clear Hlow.
  destruct (bsearch_correct (comparator name) type_name_map (S (List.length type_name_map)) 0 (List.length type_name_map))
    as (r & Hr & Hspec); [|done|lia|].
  - intros i j a b Ha Hb Hij. unfold comparator, strcasecmp.
    rewrite (Hl a), (Hl b) by (by eapply list_elem_of_lookup_2). intros Hle.
    pose proof (sorted_lookup fst type_name_map i j a b Hs Ha Hb Hij) as Hab.
    destruct (decide (strcmp (lower name) a.1 = 0)) as [E|].
    + apply strcmp_eq in E as ->. done.
    + apply strcmp_lt_trans with a.1; [lia|done].
  - unfold ldms_metric_str_to_type. rewrite Hr. simpl. destruct r as [[n t]|].
    + destruct Hspec as [Hin Hz]. exists t. split; [done|]. left. exists n. split; [done|].
      apply strcmp_eq in Hz. rewrite Hz. by apply (Hl (n, t)).
    + exists LDMS_V_NONE. split; [done|]. right. split; [done|]. intros e He E.
      apply list_elem_of_lookup in He as [i Hi].
      apply (Hspec i e); [split; [lia|by eapply lookup_lt_Some]|done|].
      unfold comparator, strcasecmp. apply strcmp_eq. rewrite E. symmetry. apply Hl. by eapply list_elem_of_lookup_2.
Qed.

(** ** Loads and stores *)

(** The integer types of the values: whole bytes, at most eight. *)
Definition ity_ok (t : ity) : Prop := it_bits t ∈ [8; 16; 32; 64].

Lemma ity_ok_pos t : ity_ok t -> 0 < it_bits t.
Proof. unfold ity_ok. rewrite !elem_of_cons. intros [->|[->|[->|[->|[]%not_elem_of_nil]]]]; lia. Qed.

Lemma ity_ok_bytes t : ity_ok t -> 256 ^ Z.of_nat (it_bytes t) = 2 ^ it_bits t /\
  Z.of_nat (it_bytes t) = it_bits t / 8 /\ 1 <= it_bits t / 8 <= 8.
Proof.
  unfold ity_ok, it_bytes. rewrite !elem_of_cons.
  intros [->|[->|[->|[->|[]%not_elem_of_nil]]]]; done.
Qed.

Lemma wrap_mod t z : ity_ok t -> wrap t (z mod 2 ^ it_bits t) = wrap t z.
Proof.
  intros H%ity_ok_pos. assert (2 ^ it_bits t <> 0) by lia. unfold wrap, wraps, wrapu. destruct (it_signed t).
  - by rewrite Zplus_mod_idemp_l.
  - by apply Z.mod_mod.
Qed.

Lemma le_value_int t v : ity_ok t -> wrap t (le_value (le_bytes (it_bytes t) v)) = wrap t v.
Proof.
  intros H. destruct (ity_ok_bytes t H) as (Hp & _). by rewrite le_value_bytes_mod, Hp, wrap_mod.
Qed.

Lemma runs_ldi t m p v (Q : Z -> mem -> Prop) :
  ity_ok t -> has m p (le_bytes (it_bytes t) v) -> Q (wrap t v) m -> runs (ldi t p) m Q.
Proof.
  intros Ht H HQ. apply runs_bind. eapply runs_ldw; [done|by rewrite length_le_bytes|].
  apply runs_ret. by rewrite le_value_int.
Qed.

Lemma runs_sti t m p v (Q : unit -> mem -> Prop) :
  inside m p (Z.of_nat (it_bytes t)) -> Q tt (upd m p (le_bytes (it_bytes t) v)) -> runs (sti t p v) m Q.
Proof. intros. by apply runs_stw. Qed.

Lemma has_le_upd m p w v : inside m p (Z.of_nat w) -> has (upd m p (le_bytes w v)) p (le_bytes w v).
Proof. intros. apply upd_has_same. by rewrite length_le_bytes. Qed.

(** A stored integer is read back. *)
Lemma sti_ldi t m p v (Q : Z -> mem -> Prop) :
  ity_ok t -> it_in t v -> inside m p (Z.of_nat (it_bytes t)) ->
  Q v (upd m p (le_bytes (it_bytes t) v)) -> runs (sti t p v;; ldi t p) m Q.
Proof.
  intros Ht Hv Hi HQ. apply runs_bind, runs_sti; [done|].
  eapply runs_ldi; [done|by apply has_le_upd|]. rewrite wrap_id; [done|by apply ity_ok_pos|done].
Qed.

(** ** Conversions *)

(** The integer type a value type stores, for scalars and elements. *)
Definition int_of_type (t : ldms_value_type) : option ity :=
  match t with
  | LDMS_V_CHAR | LDMS_V_CHAR_ARRAY => Some t_char
  | LDMS_V_U8 | LDMS_V_U8_ARRAY => Some t_u8
  | LDMS_V_S8 | LDMS_V_S8_ARRAY => Some t_s8
  | LDMS_V_U16 | LDMS_V_U16_ARRAY => Some t_u16
  | LDMS_V_S16 | LDMS_V_S16_ARRAY => Some t_s16
  | LDMS_V_U32 | LDMS_V_U32_ARRAY => Some t_u32
  | LDMS_V_S32 | LDMS_V_S32_ARRAY => Some t_s32
  | LDMS_V_U64 | LDMS_V_U64_ARRAY => Some t_u64
  | LDMS_V_S64 | LDMS_V_S64_ARRAY => Some t_s64
  | _ => None
  end.

Definition value_addr (t : ldms_value_type) (it : ity) (mv idx : Z) : Z :=
  if ldms_type_is_array (code t) then elt it mv idx else mv.

Lemma int_of_type_ok t it : int_of_type t = Some it -> ity_ok it.
Proof. destruct t; intros [= <-]; unfold ity_ok; cbn; rewrite !elem_of_cons; auto. Qed.

Lemma runs_from_type_int t it m mv idx v (Q : cval -> mem -> Prop) :
  int_of_type t = Some it -> has m (value_addr t it mv idx) (le_bytes (it_bytes it) v) ->
  Q (CInt (wrap it v)) m -> runs (from_type_body mv (code t) idx) m Q.
Proof.
  intros Ht Hh HQ. pose proof (int_of_type_ok _ _ Ht) as Hok.
  unfold from_type_body. rewrite of_code_code.
  destruct t; try discriminate Ht; injection Ht as <-; unfold value_addr in Hh; cbn in Hh;
    (apply runs_bind; eapply runs_ldi; [done|done|]; by apply runs_ret).
Qed.

Lemma runs_as_int t it to m mv idx v (Q : Z -> mem -> Prop) :
  int_of_type t = Some it -> it_in it v -> has m (value_addr t it mv idx) (le_bytes (it_bytes it) v) ->
  Q (wrap to v) m -> runs (as_int to mv (code t) idx) m Q.
Proof.
  intros Ht Hv Hh HQ. apply runs_bind. eapply runs_from_type_int; [done..|].
  exists (wrap to v), m. split; [|done]. unfold lift_opt. simpl.
  rewrite (wrap_id it); [done| |done]. by apply ity_ok_pos, (int_of_type_ok t).
Qed.

(** ** Names of types *)

Definition map_functional : bool :=
  forallb (fun a => forallb (fun b => bool_decide (a.1 = b.1 -> a = b)) type_name_map) type_name_map.

Lemma str_to_type_map name t : (lower name, t) ∈ type_name_map -> ldms_metric_str_to_type name = Some t.
Proof.
  intros Hin. destruct (str_to_type_spec name) as (u & -> & [(n & Hn & Hl)|[_ Hno]]); [|by destruct (Hno _ Hin)].
  assert (map_functional = true) as Hf by (vm_compute; reflexivity). unfold map_functional in Hf. rewrite forallb_forall in Hf.
  specialize (Hf _ (proj1 (list_elem_of_In _ _) Hn)). rewrite forallb_forall in Hf.
  specialize (Hf _ (proj1 (list_elem_of_In _ _) Hin)). apply bool_decide_eq_true in Hf. cbn [fst] in Hf.
  specialize (Hf (eq_sym Hl)). by injection Hf as _ ->.
Qed.

Lemma str_to_type_none name : lower name ∉ type_name_map.*1 -> ldms_metric_str_to_type name = Some LDMS_V_NONE.
Proof.
  intros Hn. destruct (str_to_type_spec name) as (u & -> & [(n & Hin & Hl)|[-> _]]); [|done].
  destruct Hn. rewrite Hl. apply list_elem_of_fmap. by exists (n, u).
Qed.

Lemma type_name_in_map t :
  t <> LDMS_V_LIST_ENTRY -> t <> LDMS_V_RECORD_INST -> (type_names t, t) ∈ type_name_map.
Proof. intros H1 H2. apply (bool_decide_unpack _). by destruct t; try done; vm_compute. Qed.

(** The name printed for a type, in any case of letters, is read back as
    that type, except for list entries and record instances, whose names
    "entry" and "record_inst" are not in the table and are read as no type;
    so is every name that the table lacks. *)
Theorem type_name_roundtrip name t :
  ldms_metric_type_to_str (code t) = Some (lower name) ->
  ldms_metric_str_to_type name =
    Some (if decide (t = LDMS_V_LIST_ENTRY \/ t = LDMS_V_RECORD_INST) then LDMS_V_NONE else t) /\
  forall other, lower other ∉ type_name_map.*1 -> ldms_metric_str_to_type other = Some LDMS_V_NONE.
Proof.
  intros Hn. split; [|apply str_to_type_none].
  assert (lower name = type_names t) as Hl by (destruct t; vm_compute in Hn |- *; congruence).
  case_decide as Hd.
  - apply str_to_type_none. rewrite Hl. apply (bool_decide_unpack _). by destruct Hd as [-> | ->]; vm_compute.
  - apply str_to_type_map. rewrite Hl. apply type_name_in_map; tauto.
Qed.

Lemma type_name_roundtrip_witness :
  ldms_metric_str_to_type "U64[]" = Some LDMS_V_U64_ARRAY /\ ldms_metric_str_to_type "Record_Inst" = Some LDMS_V_NONE.
Proof.
  split.
  - exact (proj1 (type_name_roundtrip "U64[]" LDMS_V_U64_ARRAY eq_refl)).
  - exact (proj1 (type_name_roundtrip "Record_Inst" LDMS_V_RECORD_INST eq_refl)).
Defined.

Lemma wrap_congr t v : 0 < it_bits t -> exists k, v = wrap t v + k * 2 ^ it_bits t.
Proof.
  intros Hp. assert (2 ^ it_bits t <> 0) as Hne by lia. unfold wrap. destruct (it_signed t).
  - exists ((v + 2 ^ (it_bits t - 1)) / 2 ^ it_bits t). unfold wraps.
    pose proof (Z.div_mod (v + 2 ^ (it_bits t - 1)) (2 ^ it_bits t) Hne). lia.
  - exists (v / 2 ^ it_bits t). unfold wrapu. pose proof (Z.div_mod v (2 ^ it_bits t) Hne). lia.
Qed.

(** Reading an integer value or array element as any integer type gives
    the stored value converted to that type: unchanged when it fits, reduced
    modulo the width otherwise, with the sign of the target type. *)
Theorem mval_as_int_correct t it to m mv idx v :
  int_of_type t = Some it -> it_in it v -> ity_ok to -> has m (value_addr t it mv idx) (le_bytes (it_bytes it) v) ->
  runs (as_int to mv (code t) idx) m (fun r m' =>
    m' = m /\ it_in to r /\ (exists k, v = r + k * 2 ^ it_bits to) /\ (it_in to v -> r = v)).
Proof.
  intros Ht Hv Hto Hh. eapply runs_as_int; [done..|]. pose proof (ity_ok_pos _ Hto) as Hp.
  split_and!; [done|by apply wrap_in|by apply wrap_congr|intros; by apply wrap_id].
Qed.

Lemma mval_as_int_correct_witness :
  runs (ldms_mval_as_u8 100 (code LDMS_V_S16_ARRAY) 1) (Mem 100 [0; 0; 255; 255]) (fun r _ => r = 255).
Proof.
  eapply runs_mono; [apply (mval_as_int_correct LDMS_V_S16_ARRAY t_s16 t_u8 (Mem 100 [0; 0; 255; 255]) 100 1 (-1))|].
  - reflexivity.
  - vm_compute. split; discriminate.
  - left.
  - exists [0; 0], []. split; reflexivity.
  - intros r m' (_ & [H1 H2] & [k Hk] & _). unfold it_min, it_max in H1, H2. cbn [t_u8 it_bits it_signed] in H1, H2, Hk. lia.
Defined.
