(* ===== verification/Schema.v ===== *)
(** * Schemas and record definitions

    Model of the schema part of ldms.c: [ldms_schema_new], the functions that
    add metrics, records and record arrays to a schema, and the templates.
    Schemas and records are objects of a store, named by their addresses,
    because a record keeps a pointer to the schema it was added to and stays
    reachable from the schema's metric list.

    An allocation (or an OpenSSL call that allocates) takes its outcome from
    the list [w_alloc]; an empty list stands for success. *)

From stdpp Require Import prelude gmap strings.
From Stdlib Require Import Ascii String.
From S2P Require Import Prelude Bytes CStr Mem CFloat MVal.

Open Scope Z_scope.

(** ** Objects *)

(** [struct ldms_mdef_s]. *)
Record mdef := Mdef {
  md_name : string;
  md_unit : option string;
  md_type : Z;
  md_flags : Z;
  md_count : Z;
  md_meta_sz : Z;
  md_data_sz : Z
}.

(** [struct ldms_record]. *)
Record ldms_record := Rec {
  rc_mdef : mdef;
  rc_schema : option Z;
  rc_metric_id : Z;
  rc_n : Z;
  rc_inst_sz : Z;
  rc_type_sz : Z;
  rc_list : list mdef
}.

(** An element of a schema's metric list: a plain [ldms_mdef_s], the [mdef] at
    the head of a record definition, or the one at the head of a
    [ldms_record_array_def]. *)
Inductive mentry :=
| MPlain (m : mdef)
| MRecord (r : Z)
| MRecArray (m : mdef) (rec_type inst_sz : Z).

(** [struct ldms_schema_s]; [sc_evp] is what the digest context was fed,
    [sc_digest] the finished digest, zeros until then. *)
Record ldms_schema := Schema {
  sc_name : string;
  sc_digest : bytes;
  sc_evp : bytes;
  sc_card : Z;
  sc_meta_sz : Z;
  sc_data_sz : Z;
  sc_array_card : Z;
  sc_list : list mentry
}.

Record world := World {
  w_schemas : gmap Z ldms_schema;
  w_records : gmap Z ldms_record;
  w_next : Z;
  w_alloc : list bool
}.

Definition W := M world.

(** ** The store *)

Definition allocated : W bool := fun w =>
  match w_alloc w with
  | [] => Some (true, w)
  | b :: l => Some (b, World (w_schemas w) (w_records w) (w_next w) l)
  end.

Definition schema_at (s : Z) : W ldms_schema := fun w => (., w) <$> w_schemas w !! s.
Definition record_at (r : Z) : W ldms_record := fun w => (., w) <$> w_records w !! r.
Definition set_schema (s : Z) (x : ldms_schema) : W unit :=
  modify (fun w => World (<[s := x]> (w_schemas w)) (w_records w) (w_next w) (w_alloc w)).
Definition set_record (r : Z) (x : ldms_record) : W unit :=
  modify (fun w => World (w_schemas w) (<[r := x]> (w_records w)) (w_next w) (w_alloc w)).
Definition new_addr : W Z := fun w =>
  Some (w_next w, World (w_schemas w) (w_records w) (w_next w + 1) (w_alloc w)).
Definition free_schema (s : Z) : W unit :=
  modify (fun w => World (delete s (w_schemas w)) (w_records w) (w_next w) (w_alloc w)).
Definition free_record (r : Z) : W unit :=
  modify (fun w => World (w_schemas w) (delete r (w_records w)) (w_next w) (w_alloc w)).

(** The [mdef] of an element of the list. *)
Definition mentry_mdef (e : mentry) : W mdef :=
  match e with
  | MPlain m | MRecArray m _ _ => mret m
  | MRecord r => x ← record_at r; mret (rc_mdef x)
  end.

(** ** Sizes *)

Definition sizeof_ldms_value_desc : Z := 28.
Definition sizeof_ldms_set_hdr : Z := 144.
Definition sizeof_ldms_data_hdr : Z := 96.

Definition LDMS_MDESC_F_DATA : Z := 1.
Definition LDMS_MDESC_F_META : Z := 2.
Definition LDMS_MDESC_F_RECORD : Z := 4.

Definition flag (flags f : Z) : bool := negb (Z.land flags f =? 0).

(** The size of the descriptor and of the value. *)
Definition __ldms_metric_size_get (name : string) (unit : option string) (t count : Z) : option (Z * Z) :=
  let meta_sz :=
    match unit with
    | Some u => mask_roundup (sizeof_ldms_value_desc + strlen name + 1 + strlen u + 1) 8
    | None => mask_roundup (sizeof_ldms_value_desc + strlen name + 1) 8
    end in
  data_sz ← __ldms_value_size_get t count;
  Some (meta_sz, data_sz).

(** ** Schemas *)

Definition LDMS_DIGEST_LENGTH : Z := 32.
Definition null_digest : bytes := replicate 32 0.

Definition ldms_schema_new (schema_name : string) : W (option Z) :=
  ok ← allocated;
  if negb ok then mret None else
  ok ← allocated;
  if negb ok then mret None else
  ok ← allocated;
  if negb ok then mret None else
  ok ← allocated;
  if negb ok then mret None else
  s ← new_addr;
  set_schema s (Schema schema_name null_digest [] 0 sizeof_ldms_set_hdr sizeof_ldms_data_hdr 1 []);;
  mret (Some s).

Definition ldms_schema_name_get (s : Z) : W string := x ← schema_at s; mret (sc_name x).
Definition ldms_schema_metric_count_get (s : Z) : W Z := x ← schema_at s; mret (sc_card x).

Definition ldms_schema_array_card_set (s card : Z) : W Z :=
  if card <? 0 then mret EINVAL else
  x ← schema_at s;
  set_schema s (Schema (sc_name x) (sc_digest x) (sc_evp x) (sc_card x) (sc_meta_sz x)
                  (sc_data_sz x) card (sc_list x));;
  mret 0.

(** [EVP_DigestUpdate] of a name and of a type (a 4-byte enum). *)
Definition digest_mdef (m : mdef) : bytes := str_bytes (md_name m) ++ le_bytes 4 (md_type m).

(** The members of a record are part of the digest. *)
Definition record_digest (e : mentry) (m : mdef) : W bytes :=
  if md_type m =? code LDMS_V_RECORD_TYPE then
    match e with
    | MRecord r => x ← record_at r; mret (rc_list x ≫= digest_mdef)
    | _ => stuck (* reads a record where there is only an mdef *)
    end
  else mret [].

(** The element at the end of the list, the sizes and the digest updated. *)
Definition schema_append (s : Z) (e : mentry) (m : mdef) (rec_digest : bytes) : W Z :=
  x ← schema_at s;
  set_schema s
    (Schema (sc_name x) (sc_digest x) (sc_evp x ++ rec_digest ++ digest_mdef m)
       (sc_card x + 1)
       (u64 (u64 (sc_meta_sz x + (md_meta_sz m + 4))
             + (if flag (md_flags m) LDMS_MDESC_F_DATA then 0 else md_data_sz m)))
       (u64 (sc_data_sz x + (if flag (md_flags m) LDMS_MDESC_F_DATA then md_data_sz m else 0)))
       (sc_array_card x)
       (sc_list x ++ [e]));;
  mret (sc_card x + 1 - 1).

Definition __schema_mdef_add (s : Z) (e : mentry) : W Z :=
  m ← mentry_mdef e;
  rec_digest ← record_digest e m;
  schema_append s e m rec_digest.

(** Is there a metric of this name in the list? *)
Fixpoint name_taken (name : string) (l : list mentry) : W bool :=
  match l with
  | [] => mret false
  | e :: l => m ← mentry_mdef e; if strcmp (md_name m) name =? 0 then mret true else name_taken name l
  end.

Definition __schema_metric_add (s : option Z) (name unit : option string) (flags t count : Z) : W Z :=
  match s, name with
  | Some s, Some name =>
      x ← schema_at s;
      dup ← name_taken name (sc_list x);
      if (dup : bool) then mret (- EEXIST) else
      if flag flags LDMS_MDESC_F_META && (t =? code LDMS_V_LIST) then mret (- EINVAL) else
      ok ← allocated;
      if negb ok then mret (- ENOMEM) else
      ok ← allocated;
      if negb ok then mret (- ENOMEM) else
      ok ← (if unit is Some _ then allocated else mret true);
      if negb ok then mret (- ENOMEM) else
      '(meta_sz, data_sz) ← lift_opt (__ldms_metric_size_get name unit t count);
      __schema_mdef_add s (MPlain (Mdef name unit t flags count meta_sz data_sz))
  | _, _ => mret (- EINVAL)
  end.

Definition ldms_schema_metric_add_with_unit (s : option Z) (name unit : option string) (t : Z) : W Z :=
  if ldms_type_is_array t || (t =? code LDMS_V_LIST) then mret (- EINVAL)
  else __schema_metric_add s name unit LDMS_MDESC_F_DATA t 1.

Definition ldms_schema_metric_add (s : option Z) (name : option string) (t : Z) : W Z :=
  ldms_schema_metric_add_with_unit s name (Some EmptyString) t.

Definition ldms_schema_meta_add_with_unit (s : option Z) (name unit : option string) (t : Z) : W Z :=
  if (t =? code LDMS_V_LIST) || (LDMS_V_LAST <? t) then mret (- EINVAL)
  else __schema_metric_add s name unit LDMS_MDESC_F_META t 1.

Definition ldms_schema_meta_add (s : option Z) (name : option string) (t : Z) : W Z :=
  ldms_schema_meta_add_with_unit s name (Some EmptyString) t.

Definition ldms_schema_metric_array_add_with_unit (s : option Z) (name unit : option string) (t count : Z) : W Z :=
  if negb (ldms_type_is_array t) then mret (- EINVAL)
  else __schema_metric_add s name unit LDMS_MDESC_F_DATA t count.

Definition ldms_schema_metric_array_add (s : option Z) (name : option string) (t count : Z) : W Z :=
  ldms_schema_metric_array_add_with_unit s name (Some EmptyString) t count.

Definition ldms_schema_meta_array_add_with_unit (s : option Z) (name unit : option string) (t count : Z) : W Z :=
  __schema_metric_add s name unit LDMS_MDESC_F_META t count.

Definition ldms_schema_meta_array_add (s : option Z) (name : option string) (t count : Z) : W Z :=
  ldms_schema_meta_array_add_with_unit s name (Some EmptyString) t count.

Definition ldms_schema_metric_list_add (s : option Z) (name units : option string) (heap_sz : Z) : W Z :=
  __schema_metric_add s name units LDMS_MDESC_F_DATA (code LDMS_V_LIST) heap_sz.

(** ** Records *)

Definition ldms_record_create (name : option string) : W (option Z) :=
  match name with
  | None => mret None
  | Some name =>
      ok ← allocated;
      if negb ok then mret None else
      ok ← allocated;
      if negb ok then mret None else
      '(meta_sz, data_sz) ← lift_opt (__ldms_metric_size_get name None (code LDMS_V_RECORD_TYPE) 0);
      r ← new_addr;
      set_record r
        (Rec (Mdef name None (code LDMS_V_RECORD_TYPE)
                (Z.lor LDMS_MDESC_F_META LDMS_MDESC_F_RECORD) 0 meta_sz data_sz)
           None (-1) 0 sizeof_ldms_record_inst 0 []);;
      mret (Some r)
  end.

Definition add_meta_sz (x : ldms_schema) (n : Z) : ldms_schema :=
  Schema (sc_name x) (sc_digest x) (sc_evp x) (sc_card x) (u64 (sc_meta_sz x + n))
    (sc_data_sz x) (sc_array_card x) (sc_list x).

(** The record with one more member. *)
Definition add_member (x : ldms_record) (m : mdef) : ldms_record :=
  let d := rc_mdef x in
  let tsz := md_meta_sz m + 4 in
  Rec (Mdef (md_name d) (md_unit d) (md_type d) (md_flags d) (md_count d) (md_meta_sz d)
         (u64 (md_data_sz d + tsz)))
    (rc_schema x) (rc_metric_id x) (rc_n x + 1) (u64 (rc_inst_sz x + md_data_sz m))
    (u64 (rc_type_sz x + tsz)) (rc_list x ++ [m]).

(** The end of [ldms_record_metric_add]. *)
Definition record_append (r : Z) (m : mdef) : W Z :=
  x ← record_at r;
  (if rc_schema x is Some s then
     y ← schema_at s; set_schema s (add_meta_sz y (md_meta_sz m + 4))
   else mret tt);;
  set_record r (add_member x m);;
  mret (rc_n x).

Definition ldms_record_metric_add (r : Z) (name unit : option string) (t count : Z) : W Z :=
  ok ← allocated;
  if negb ok then mret (- ENOMEM) else
  match name with
  | None => mret (- EINVAL)
  | Some name =>
      ok ← allocated;
      if negb ok then mret (- ENOMEM) else
      ok ← (if unit is Some _ then allocated else mret true);
      if negb ok then mret (- ENOMEM) else
      '(meta_sz, data_sz) ← lift_opt (__ldms_metric_size_get name unit t (u32 count));
      record_append r (Mdef name unit t (Z.lor LDMS_MDESC_F_DATA LDMS_MDESC_F_RECORD) (u32 count) meta_sz data_sz)
  end.

Definition ldms_record_metric_card (r : Z) : W Z := x ← record_at r; mret (rc_n x).
Definition ldms_record_value_size_get (r : Z) : W Z :=
  x ← record_at r; mret (u64 (rc_inst_sz x - sizeof_ldms_record_inst)).
Definition ldms_record_name_get (r : Z) : W string := x ← record_at r; mret (md_name (rc_mdef x)).

Definition ldms_schema_record_add (s r : Z) : W Z :=
  x ← schema_at s;
  d ← record_at r;
  dup ← name_taken (md_name (rc_mdef d)) (sc_list x);
  if (dup : bool) then mret (- EEXIST) else
  if 0 <=? rc_metric_id d then mret (- EBUSY) else
  id ← __schema_mdef_add s (MRecord r);
  set_record r (Rec (rc_mdef d) (Some s) id (rc_n d) (rc_inst_sz d) (rc_type_sz d) (rc_list d));;
  y ← schema_at s;
  set_schema s (add_meta_sz y (rc_type_sz d));;
  mret id.

Definition ldms_schema_record_array_add (s : Z) (name : option string) (r array_len : Z) : W Z :=
  d ← record_at r;
  if rc_metric_id d <? 0 then mret (- EINVAL) else
  name ← lift_opt name;
  x ← schema_at s;
  dup ← name_taken name (sc_list x);
  if (dup : bool) then mret (- EEXIST) else
  ok ← allocated;
  if negb ok then mret (- ENOMEM) else
  ok ← allocated;
  if negb ok then mret (- ENOMEM) else
  '(meta_sz, _) ← lift_opt (__ldms_metric_size_get name None (code LDMS_V_RECORD_ARRAY) (u32 array_len));
  let data_sz := u64 (sizeof_ldms_record_array + array_len * rc_inst_sz d) in
  __schema_mdef_add s
    (MRecArray (Mdef name None (code LDMS_V_RECORD_ARRAY) LDMS_MDESC_F_DATA (u32 array_len)
                  meta_sz (mask_roundup data_sz 8))
       (rc_metric_id d) (s32 (rc_inst_sz d))).

(** ** Deletion *)

Definition __ldms_record_delete (r : Z) : W unit := record_at r;; free_record r.

Definition ldms_record_delete (r : option Z) : W unit :=
  match r with
  | None => mret tt
  | Some r =>
      d ← record_at r;
      if 0 <=? rc_metric_id d then mret tt else __ldms_record_delete r
  end.

(** The elements are freed in order; a record is freed with its members. *)
Fixpoint free_metrics (l : list mentry) : W unit :=
  match l with
  | [] => mret tt
  | e :: l =>
      m ← mentry_mdef e;
      (if md_type m =? code LDMS_V_RECORD_TYPE then
         match e with
         | MRecord r => __ldms_record_delete r
         | _ => stuck
         end
       else mret tt);;
      free_metrics l
  end.

Definition ldms_schema_delete (s : option Z) : W unit :=
  match s with
  | None => mret tt
  | Some s => x ← schema_at s; free_metrics (sc_list x);; free_schema s
  end.

(** ** Templates *)

(** [struct ldms_metric_template_s]. *)
Record metric_template := Tmpl {
  tp_name : option string;
  tp_flags : Z;
  tp_type : Z;
  tp_unit : option string;
  tp_len : Z;
  tp_rec : option Z
}.

Definition ldms_schema_metric_template_get (s mid : Z) : W (Z * option metric_template) :=
  x ← schema_at s;
  if (mid <? 0) || (sc_card x <=? mid) then mret (ENOENT, None) else
  e ← lift_opt (sc_list x !! Z.to_nat mid);
  m ← mentry_mdef e;
  rec ← (if md_type m =? code LDMS_V_RECORD_TYPE then
           match e with MRecord r => mret (Some r) | _ => stuck end
         else mret None);
  mret (0, Some (Tmpl (Some (md_name m)) (md_flags m) (md_type m) (md_unit m) (md_count m) rec)).

(** One entry of the output; [out] are the entries before it. *)
Definition bulk_entry (out : list metric_template) (e : mentry) : W metric_template :=
  m ← mentry_mdef e;
  rec ← (if md_type m =? code LDMS_V_RECORD_TYPE then
           match e with MRecord r => mret (Some r) | _ => stuck end
         else if md_type m =? code LDMS_V_RECORD_ARRAY then
           match e with
           | MRecArray _ rt _ =>
               c_assert (rt <? Z.of_nat (List.length out));;
               t ← lift_opt (if rt <? 0 then None else out !! Z.to_nat rt);
               mret (tp_rec t)
           | _ => stuck
           end
         else mret None);
  mret (Tmpl (Some (md_name m)) (md_flags m) (md_type m) (md_unit m) (md_count m) rec).

Fixpoint bulk_entries (out : list metric_template) (l : list mentry) : W (list metric_template) :=
  match l with
  | [] => mret out
  | e :: l => t ← bulk_entry out e; bulk_entries (out ++ [t]) l
  end.

Definition ldms_schema_bulk_template_get (s len : Z) : W (Z * list metric_template) :=
  x ← schema_at s;
  let n := if len <? sc_card x then len else sc_card x in
  out ← bulk_entries [] (take (Z.to_nat n) (sc_list x));
  mret (sc_card x, out).

Definition member_template (m : mdef) : metric_template :=
  Tmpl (Some (md_name m)) (md_flags m) (md_type m) (md_unit m) (md_count m) None.

Definition ldms_record_metric_template_get (r mid : Z) : W (Z * option metric_template) :=
  x ← record_at r;
  if (mid <? 0) || (rc_n x <=? mid) then mret (ENOENT, None) else
  m ← lift_opt (rc_list x !! Z.to_nat mid);
  mret (0, Some (member_template m)).

Definition ldms_record_bulk_template_get (r len : Z) : W (Z * list metric_template) :=
  x ← record_at r;
  let n := if len <? rc_n x then len else rc_n x in
  mret (rc_n x, member_template <$> take (Z.to_nat n) (rc_list x)).

(** The entries up to the one without a name; [mid] collects the indices. *)
Fixpoint ldms_record_metric_add_template (r : Z) (tmp : list metric_template) (mid : list Z)
    : W (Z * list Z) :=
  match tmp with
  | [] => stuck
  | ent :: tmp =>
      match tp_name ent with
      | None => mret (0, mid)
      | Some name =>
          ret ← ldms_record_metric_add r (Some name) (tp_unit ent) (tp_type ent) (tp_len ent);
          if ret <? 0 then mret (ret, mid) else ldms_record_metric_add_template r tmp (mid ++ [ret])
      end
  end.

Definition ldms_record_from_template (name : option string) (tmp : list metric_template)
    : W (option Z * list Z) :=
  r ← ldms_record_create name;
  match r with
  | None => mret (None, [])
  | Some r =>
      '(ret, mid) ← ldms_record_metric_add_template r tmp [];
      if ret =? 0 then mret (Some r, mid)
      else ldms_record_delete (Some r);; mret (None, mid)
  end.

(** The call one template entry makes. *)
Definition template_add (s : Z) (ent : metric_template) : W Z :=
  let meta := flag (tp_flags ent) LDMS_MDESC_F_META in
  match of_code (tp_type ent) with
  | Some LDMS_V_RECORD_TYPE => r ← lift_opt (tp_rec ent); ldms_schema_record_add s r
  | Some LDMS_V_RECORD_ARRAY =>
      if meta then mret (- EINVAL) else
      r ← lift_opt (tp_rec ent);
      ldms_schema_record_array_add s (tp_name ent) r (s32 (tp_len ent))
  | Some LDMS_V_LIST =>
      if meta then mret (- EINVAL) else
      ldms_schema_metric_list_add (Some s) (tp_name ent) (tp_unit ent) (tp_len ent)
  | Some (LDMS_V_CHAR | LDMS_V_U8 | LDMS_V_S8 | LDMS_V_U16 | LDMS_V_S16 | LDMS_V_U32 | LDMS_V_S32
         | LDMS_V_U64 | LDMS_V_S64 | LDMS_V_F32 | LDMS_V_D64 | LDMS_V_TIMESTAMP) =>
      if meta then ldms_schema_meta_add_with_unit (Some s) (tp_name ent) (tp_unit ent) (tp_type ent)
      else ldms_schema_metric_add_with_unit (Some s) (tp_name ent) (tp_unit ent) (tp_type ent)
  | Some (LDMS_V_CHAR_ARRAY | LDMS_V_U8_ARRAY | LDMS_V_S8_ARRAY | LDMS_V_U16_ARRAY
         | LDMS_V_S16_ARRAY | LDMS_V_U32_ARRAY | LDMS_V_S32_ARRAY | LDMS_V_U64_ARRAY
         | LDMS_V_S64_ARRAY | LDMS_V_F32_ARRAY | LDMS_V_D64_ARRAY) =>
      if meta then
        ldms_schema_meta_array_add_with_unit (Some s) (tp_name ent) (tp_unit ent) (tp_type ent) (tp_len ent)
      else
        ldms_schema_metric_array_add_with_unit (Some s) (tp_name ent) (tp_unit ent) (tp_type ent) (tp_len ent)
  | _ => mret (- EINVAL)
  end.

Fixpoint ldms_schema_metric_add_template (s : Z) (tmp : list metric_template) (mid : list Z)
    : W (Z * list Z) :=
  match tmp with
  | [] => stuck
  | ent :: tmp =>
      match tp_name ent, tp_rec ent with
      | None, None => mret (0, mid)
      | _, _ =>
          ret ← template_add s ent;
          if ret <? 0 then mret (ret, mid) else ldms_schema_metric_add_template s tmp (mid ++ [ret])
      end
  end.

Definition ldms_schema_from_template (name : string) (tmp : list metric_template)
    : W (option Z * list Z) :=
  s ← ldms_schema_new name;
  match s with
  | None => mret (None, [])
  | Some s =>
      '(ret, mid) ← ldms_schema_metric_add_template s tmp [];
      if ret =? 0 then mret (Some s, mid)
      else ldms_schema_delete (Some s);; mret (None, mid)
  end.
