(* ===== verification/SchemaSpec.v ===== *)
(** * The bookkeeping of schemas

    The invariant of the store of schemas and records: the cardinality, the
    sizes and the positions that the functions maintain are those of the
    metric lists.  Every function of the schema interface keeps it. *)

From stdpp Require Import prelude gmap strings.
From Stdlib Require Import Ascii String.
From S2P Require Import Prelude Bytes CStr Mem CFloat MVal MValSpec Schema.

Open Scope Z_scope.

Abbreviation records := (gmap Z ldms_record).

(** ** Sums *)

Definition sumZ {A} (f : A -> Z) (l : list A) : Z := foldr (fun a z => f a + z) 0 l.

Lemma sumZ_cons {A} (f : A -> Z) a l : sumZ f (a :: l) = f a + sumZ f l.
Proof. done. Qed.

Lemma sumZ_app {A} (f : A -> Z) l k : sumZ f (l ++ k) = sumZ f l + sumZ f k.
Proof. induction l as [|a l IH]; [done|]. rewrite <- app_comm_cons, !sumZ_cons, IH. lia. Qed.

Lemma sumZ_ext {A} (f g : A -> Z) l : (forall a, a ∈ l -> f a = g a) -> sumZ f l = sumZ g l.
Proof.
  intros H. induction l as [|a l IH]; [done|]. rewrite !sumZ_cons, H by (by left). f_equal.
  apply IH. intros b Hb. apply H. by right.
Qed.

Lemma sumZ_nonneg {A} (f : A -> Z) l : (forall a, a ∈ l -> 0 <= f a) -> 0 <= sumZ f l.
Proof.
  intros H. induction l as [|a l IH]; [done|]. rewrite sumZ_cons. assert (0 <= f a) by (apply H; by left).
  assert (0 <= sumZ f l) by (apply IH; intros b Hb; apply H; by right). lia.
Qed.

(** ** The parts *)

Definition is_data (md : mdef) : bool := flag (md_flags md) LDMS_MDESC_F_DATA.

(** The sizes of a definition are those of its name, unit, type and count. *)
Definition sized (md : mdef) : Prop :=
  __ldms_metric_size_get (md_name md) (md_unit md) (md_type md) (md_count md) = Some (md_meta_sz md, md_data_sz md) /\
  0 <= md_count md < 2 ^ 32.

(** The bytes the members of a record take in its type and in an instance. *)
Definition type_sum (d : ldms_record) : Z := sumZ (fun m => md_meta_sz m + 4) (rc_list d).
Definition inst_sum (d : ldms_record) : Z := sumZ md_data_sz (rc_list d).

Definition entry_name (recs : records) (e : mentry) : string :=
  match e with
  | MPlain m | MRecArray m _ _ => md_name m
  | MRecord r => from_option (fun d => md_name (rc_mdef d)) EmptyString (recs !! r)
  end.

Definition data_part (e : mentry) : Z :=
  match e with
  | MPlain m | MRecArray m _ _ => if is_data m then md_data_sz m else 0
  | MRecord _ => 0
  end.

Definition meta_part (recs : records) (e : mentry) : Z :=
  match e with
  | MPlain m | MRecArray m _ _ => md_meta_sz m + 4 + (if is_data m then 0 else md_data_sz m)
  | MRecord r => from_option (fun d => md_meta_sz (rc_mdef d) + 4 + (sizeof_ldms_record_type + type_sum d)) 0 (recs !! r)
  end.

(** The members that a record has when it is added to a schema are counted
    twice: [ldms_schema_record_add] adds [type_sz], which the size of the
    definition holds already.  [added r] is the number of members that record
    [r] had then. *)
Definition type_sum_of (n : nat) (d : ldms_record) : Z := sumZ (fun m => md_meta_sz m + 4) (take n (rc_list d)).

Definition twice_part (added : Z -> nat) (recs : records) (e : mentry) : Z :=
  match e with
  | MRecord r => from_option (type_sum_of (added r)) 0 (recs !! r)
  | _ => 0
  end.

(** ** The invariant *)

Record record_inv (d : ldms_record) : Prop := RecordInv {
  ri_n : rc_n d = Z.of_nat (List.length (rc_list d));
  ri_type : md_type (rc_mdef d) = code LDMS_V_RECORD_TYPE;
  ri_flags : md_flags (rc_mdef d) = Z.lor LDMS_MDESC_F_META LDMS_MDESC_F_RECORD;
  ri_data : md_data_sz (rc_mdef d) = u64 (sizeof_ldms_record_type + type_sum d);
  ri_inst : rc_inst_sz d = u64 (sizeof_ldms_record_inst + inst_sum d);
  ri_tsz : rc_type_sz d = u64 (type_sum d);
  ri_members : Forall (fun m => sized m /\ md_flags m = Z.lor LDMS_MDESC_F_DATA LDMS_MDESC_F_RECORD) (rc_list d)
}.

Definition entry_inv (e : mentry) : Prop :=
  match e with
  | MPlain m => sized m /\ (md_flags m = LDMS_MDESC_F_DATA \/ md_flags m = LDMS_MDESC_F_META)
  | MRecord _ => True
  | MRecArray m rec_type inst_sz =>
      md_type m = code LDMS_V_RECORD_ARRAY /\ md_flags m = LDMS_MDESC_F_DATA /\ 0 <= rec_type
  end.

Definition digest_ok (d : bytes) : Prop := bytes_ok d /\ Z.of_nat (List.length d) = LDMS_DIGEST_LENGTH.

Record schema_inv (recs : records) (s : Z) (x : ldms_schema) : Prop := SchemaInv {
  si_card : sc_card x = Z.of_nat (List.length (sc_list x));
  si_array : 0 <= sc_array_card x;
  si_data : sc_data_sz x = u64 (sizeof_ldms_data_hdr + sumZ data_part (sc_list x));
  si_meta : exists added : Z -> nat,
    (forall r d, MRecord r ∈ sc_list x -> recs !! r = Some d -> (added r <= List.length (rc_list d))%nat) /\
    sc_meta_sz x = u64 (sizeof_ldms_set_hdr + sumZ (meta_part recs) (sc_list x) +
                        sumZ (twice_part added recs) (sc_list x));
  si_entries : Forall entry_inv (sc_list x);
  si_names : NoDup (entry_name recs <$> sc_list x);
  si_pos k r : sc_list x !! k = Some (MRecord r) ->
    exists d, recs !! r = Some d /\ rc_schema d = Some s /\ rc_metric_id d = Z.of_nat k;
  si_digest : digest_ok (sc_digest x)
}.

(** A record knows the schema that holds it. *)
Definition linked (schemas : gmap Z ldms_schema) (r : Z) (d : ldms_record) : Prop :=
  match rc_schema d with
  | None => rc_metric_id d = -1
  | Some s => exists x k, schemas !! s = Some x /\ rc_metric_id d = Z.of_nat k /\ sc_list x !! k = Some (MRecord r)
  end.

Record world_inv (w : world) : Prop := WorldInv {
  wi_schemas s x : w_schemas w !! s = Some x -> schema_inv (w_records w) s x;
  wi_records r d : w_records w !! r = Some d -> record_inv d /\ linked (w_schemas w) r d;
  wi_fresh_s s : is_Some (w_schemas w !! s) -> s < w_next w;
  wi_fresh_r r : is_Some (w_records w !! r) -> r < w_next w
}.

(** ** Partial correctness

    A call that gets stuck (a freed schema, an unknown type) says nothing. *)

Definition after {A} (m : W A) (w : world) (Q : A -> world -> Prop) : Prop :=
  forall a w', m w = Some (a, w') -> Q a w'.

Lemma after_ret {A} (a : A) w Q : Q a w -> after (mret a) w Q.
Proof. intros H b w' [= <- <-]. done. Qed.

Lemma after_bind {A B} (m : W A) (f : A -> W B) w Q :
  after m w (fun a w' => after (f a) w' Q) -> after (m ≫= f) w Q.
Proof. unfold after, mbind, M_bind. intros H b w'. destruct (m w) as [[a w1]|] eqn:E; [|done]. by apply H. Qed.

Lemma after_stuck {A} w (Q : A -> world -> Prop) : after stuck w Q.
Proof. done. Qed.

Lemma after_schema_at s w (Q : ldms_schema -> world -> Prop) :
  (forall x, w_schemas w !! s = Some x -> Q x w) -> after (schema_at s) w Q.
Proof. intros H x w'. unfold schema_at. destruct (w_schemas w !! s) eqn:E; [|done]. intros [= <- <-]. by apply H. Qed.

Lemma after_record_at r w (Q : ldms_record -> world -> Prop) :
  (forall x, w_records w !! r = Some x -> Q x w) -> after (record_at r) w Q.
Proof. intros H x w'. unfold record_at. destruct (w_records w !! r) eqn:E; [|done]. intros [= <- <-]. by apply H. Qed.

Lemma after_lift {A} (o : option A) w (Q : A -> world -> Prop) : (forall a, o = Some a -> Q a w) -> after (lift_opt o) w Q.
Proof. intros H a w'. unfold lift_opt. destruct o; [|done]. intros [= <- <-]. by apply H. Qed.

Lemma after_modify (f : world -> world) w (Q : unit -> world -> Prop) : Q tt (f w) -> after (modify f) w Q.
Proof. by intros H [] w' [= <-]. Qed.

(** The outcome of an allocation does not touch the objects. *)
Definition set_alloc (w : world) (l : list bool) : world := World (w_schemas w) (w_records w) (w_next w) l.

Lemma world_inv_alloc w l : world_inv w -> world_inv (set_alloc w l).
Proof. intros []. by constructor. Qed.

Lemma after_allocated w (Q : bool -> world -> Prop) : (forall b l, Q b (set_alloc w l)) -> after allocated w Q.
Proof.
  intros H b w'. unfold allocated. destruct (w_alloc w) as [|b0 l] eqn:E; intros [= <- <-]; [|by apply H].
  specialize (H true []). unfold set_alloc in H. rewrite <- E in H. by destruct w.
Qed.

Lemma after_mentry_mdef e w (Q : mdef -> world -> Prop) :
  match e with
  | MPlain m | MRecArray m _ _ => Q m w
  | MRecord r => forall d, w_records w !! r = Some d -> Q (rc_mdef d) w
  end -> after (mentry_mdef e) w Q.
Proof.
  destruct e as [m|r|m ? ?]; intros H; [by apply after_ret| |by apply after_ret].
  apply after_bind, after_record_at. intros d Hd. by apply after_ret, H.
Qed.

Lemma after_name_taken name l w (Q : bool -> world -> Prop) :
  (forall b, (b = false -> name ∉ (entry_name (w_records w) <$> l)) -> Q b w) -> after (name_taken name l) w Q.
Proof.
  revert Q. induction l as [|e l IH]; intros Q HQ; cbn [name_taken].
  { apply after_ret, HQ. intros _. apply not_elem_of_nil. }
  apply after_bind, after_mentry_mdef.
  assert (forall m, md_name m = entry_name (w_records w) e ->
    after (if strcmp (md_name m) name =? 0 then mret true else name_taken name l) w Q) as Hm.
  { intros m Hm. destruct (Z.eqb_spec (strcmp (md_name m) name) 0) as [Heq|Hne].
    - apply after_ret, HQ. done.
    - apply IH. intros b Hb. apply HQ. intros Hf. cbn. apply not_elem_of_cons. split; [|by apply Hb].
      intros ->. apply Hne. apply strcmp_eq. done. }
  destruct e as [m|r|m ? ?]; [by apply Hm| |by apply Hm]. intros d Hd. apply Hm. cbn. by rewrite Hd.
Qed.

Lemma u64_add_l a b : u64 (u64 a + b) = u64 (a + b).
Proof. apply Zplus_mod_idemp_l. Qed.

(** ** Changes of one schema *)

Definition put_schema (w : world) (s : Z) (x : ldms_schema) : world :=
  World (<[s := x]> (w_schemas w)) (w_records w) (w_next w) (w_alloc w).

(** A schema may be replaced by one that holds its records where they were. *)
Lemma world_inv_schema w s x x' :
  world_inv w -> w_schemas w !! s = Some x -> schema_inv (w_records w) s x' ->
  (forall k r, sc_list x !! k = Some (MRecord r) -> sc_list x' !! k = Some (MRecord r)) ->
  world_inv (put_schema w s x').
Proof.
  intros [Hs Hr Hfs Hfr] Hx Hx' Hp. constructor; cbn [put_schema w_schemas w_records w_next].
  - intros s2 y. destruct (decide (s2 = s)) as [->|Hne].
    + rewrite lookup_insert_eq. intros [= <-]. done.
    + rewrite lookup_insert_ne by done. apply Hs.
  - intros r d Hd. destruct (Hr r d Hd) as [Hi Hl]. split; [done|]. unfold linked in *.
    destruct (rc_schema d) as [s2|]; [|done]. destruct Hl as (y & k & Hy & Hk & Hlk).
    destruct (decide (s2 = s)) as [->|Hne].
    + rewrite lookup_insert_eq. exists x', k. split_and!; [done|done|]. rewrite Hy in Hx. injection Hx as ->. by apply Hp.
    + rewrite lookup_insert_ne by done. by exists y, k.
  - intros s2. destruct (decide (s2 = s)) as [->|Hne].
    + intros _. apply Hfs. by rewrite Hx.
    + rewrite lookup_insert_ne by done. apply Hfs.
  - done.
Qed.

(** A plain metric or a record array added at the end. *)
Lemma schema_inv_add recs s x e m d :
  schema_inv recs s x -> e = MPlain m \/ (exists rt isz, e = MRecArray m rt isz) ->
  entry_inv e -> md_name m ∉ (entry_name recs <$> sc_list x) ->
  schema_inv recs s (Schema (sc_name x) (sc_digest x) d (sc_card x + 1)
    (u64 (u64 (sc_meta_sz x + (md_meta_sz m + 4)) + (if is_data m then 0 else md_data_sz m)))
    (u64 (sc_data_sz x + (if is_data m then md_data_sz m else 0))) (sc_array_card x) (sc_list x ++ [e])).
Proof.
  intros [Hc Ha Hd (sl & Hsl & Hm) He Hn Hp Hdg] Hcase Hei Hfresh.
  assert (data_part e = (if is_data m then md_data_sz m else 0) /\
    meta_part recs e = md_meta_sz m + 4 + (if is_data m then 0 else md_data_sz m) /\
    twice_part sl recs e = 0 /\ entry_name recs e = md_name m /\ forall r, e <> MRecord r) as (E1 & E2 & E3 & E4 & E5).
  { by destruct Hcase as [->|(rt & isz & ->)]. }
  constructor; cbn [sc_card sc_list sc_array_card sc_data_sz sc_meta_sz].
  - rewrite length_app. cbn. lia.
  - done.
  - rewrite Hd, u64_add_l, sumZ_app, sumZ_cons, E1. f_equal. cbn. lia.
  - exists sl. rewrite !sumZ_app, !sumZ_cons, E2, E3. split.
    { intros r y [Hin|Hin]%elem_of_app; [by apply Hsl|]. apply list_elem_of_singleton in Hin. by destruct (E5 r). }
    rewrite Hm, (u64_add_l _ (md_meta_sz m + 4)), u64_add_l. f_equal. cbn. lia.
  - apply Forall_app. split; [done|]. by apply Forall_singleton.
  - rewrite fmap_app. apply NoDup_app. split_and!; [done| |apply NoDup_singleton].
    intros n Hin. cbn. rewrite list_elem_of_singleton, E4. by intros ->.
  - intros k r Hk. apply lookup_app_Some in Hk as [Hk|[_ Hk]]; [by apply Hp|].
    apply list_lookup_singleton_Some in Hk as [_ Hk]. by destruct (E5 r).
  - done.
Qed.
