(* ===== verification/Rrbt.v ===== *)
(** * Relocatable red-black trees: ldms/src/core/rrbt.c

    The red-black tree that lives inside a metric set's heap.  Its links are
    offsets from the base of the heap and not addresses, so that a copy of
    the heap's bytes at another address is the same tree.  The model works on
    the bytes: [struct rrbn] is four 64-bit words, [color:1, left:63],
    [right], [parent] and the key (the trees of ldms_heap.c are keyed by a
    [uint64_t]).  NULL is the address 0. *)

From stdpp Require Import prelude.
From S2P Require Import Prelude Bytes Mem.

Open Scope Z_scope.

Definition RRBN_RED : Z := 0.
Definition RRBN_BLACK : Z := 1.

(** [struct rrbt_instance]: where the root word is, the base of the offsets,
    and the comparison of a node's key with a key. *)
Record rrbt_t := Rrbt { t_root : Z; t_base : Z; t_cmp : Z -> Z -> Z }.

Section rrbt.
Context (t : rrbt_t).
Implicit Types (n x y p off : Z).

(** [rrbn_ptr] and [rrbt_off]. *)
Definition rrbn_ptr off : Z := if off =? 0 then 0 else t_base t + off.
Definition rrbt_off p : Z := if p =? 0 then 0 else u64 (p - t_base t).

(** ** Fields *)

Definition r_color n : M mem Z := w ← ldw 8 n; mret (w mod 2).
Definition r_left n : M mem Z := w ← ldw 8 n; mret (w / 2).
Definition r_right n : M mem Z := ldw 8 (n + 8).
Definition r_parent n : M mem Z := ldw 8 (n + 16).
Definition r_key n : M mem Z := ldw 8 (n + 24).

Definition r_set_color n c : M mem unit := w ← ldw 8 n; stw 8 n (2 * (w / 2) + c).
Definition r_set_left n off : M mem unit := w ← ldw 8 n; stw 8 n (2 * (off mod 2 ^ 63) + w mod 2).
Definition r_set_right n off : M mem unit := stw 8 (n + 8) off.
Definition r_set_parent n off : M mem unit := stw 8 (n + 16) off.

Definition r_root : M mem Z := ldw 8 (t_root t).
Definition r_set_root off : M mem unit := stw 8 (t_root t) off.

(** A walk visits at most every node once, and a node takes 32 bytes. *)
Definition r_fuel : M mem nat := gets (fun m => S (length (cells m))).

(** ** Rotations *)

Definition r_is_red x : M mem bool :=
  if x =? 0 then mret false else c ← r_color x; mret (c =? RRBN_RED).

Definition r_rotate_left x : M mem unit :=
  xr ← r_right x;
  let y := rrbn_ptr xr in
  xp ← r_parent x;
  let parent := rrbn_ptr xp in
  yl ← r_left y;
  r_set_right x yl;;
  yl ← r_left y;
  (if yl =? 0 then mret tt else r_set_parent (rrbn_ptr yl) (rrbt_off x));;
  xp ← r_parent x;
  r_set_parent y xp;;
  root ← r_root;
  (if negb (root =? rrbt_off x) then
     xp ← r_parent x;
     c_assert (negb (xp =? 0));;
     pl ← r_left parent;
     if pl =? rrbt_off x then r_set_left parent (rrbt_off y) else r_set_right parent (rrbt_off y)
   else
     xp ← r_parent x;
     c_assert (xp =? 0);;
     r_set_root (rrbt_off y);;
     r_set_parent y 0;;
     r_set_color y RRBN_BLACK);;
  r_set_left y (rrbt_off x);;
  r_set_parent x (rrbt_off y).

Definition r_rotate_right x : M mem unit :=
  xl ← r_left x;
  let y := rrbn_ptr xl in
  xp ← r_parent x;
  let parent := rrbn_ptr xp in
  yr ← r_right y;
  r_set_left x yr;;
  yr ← r_right y;
  (if yr =? 0 then mret tt else r_set_parent (rrbn_ptr yr) (rrbt_off x));;
  root ← r_root;
  (if negb (root =? rrbt_off x) then
     r_set_parent y (rrbt_off parent);;
     pr ← r_right parent;
     if pr =? rrbt_off x then r_set_right parent (rrbt_off y) else r_set_left parent (rrbt_off y)
   else
     r_set_root (rrbt_off y);;
     r_set_color y RRBN_BLACK;;
     r_set_parent y 0);;
  r_set_right y (rrbt_off x);;
  r_set_parent x (rrbt_off y).

Definition rrbt_empty : M mem bool := r ← r_root; mret (r =? 0).

(** ** Verification of the tree properties *)

Definition r_node_color n : M mem Z := if n =? 0 then mret RRBN_BLACK else r_color n.

Fixpoint r_verify_property_1 (fuel : nat) n : M mem unit :=
  match fuel with
  | O => stuck
  | S fuel =>
      if n =? 0 then mret tt else
      c ← r_node_color n;
      c_assert ((c =? RRBN_RED) || (c =? RRBN_BLACK));;
      nl ← r_left n;
      nr ← r_right n;
      c_assert (negb (rrbt_off n =? nl) && negb (rrbt_off n =? nr));;
      nl ← r_left n; r_verify_property_1 fuel (rrbn_ptr nl);;
      nr ← r_right n; r_verify_property_1 fuel (rrbn_ptr nr)
  end.

Definition r_verify_property_2 root : M mem unit :=
  if root =? 0 then mret tt else
  rp ← r_parent root;
  c_assert (rp =? 0);;
  c ← r_node_color root;
  c_assert (c =? RRBN_BLACK).

Fixpoint r_verify_property_4 (fuel : nat) n : M mem unit :=
  match fuel with
  | O => stuck
  | S fuel =>
      if n =? 0 then mret tt else
      c ← r_node_color n;
      (if c =? RRBN_RED then
         nl ← r_left n; cl ← r_node_color (rrbn_ptr nl);
         c_assert (cl =? RRBN_BLACK);;
         nr ← r_right n; cr ← r_node_color (rrbn_ptr nr);
         c_assert (cr =? RRBN_BLACK);;
         np ← r_parent n; cp ← r_node_color (rrbn_ptr np);
         c_assert (cp =? RRBN_BLACK)
       else mret tt);;
      nl ← r_left n; r_verify_property_4 fuel (rrbn_ptr nl);;
      nr ← r_right n; r_verify_property_4 fuel (rrbn_ptr nr)
  end.

(** [path_black_count] is an in-out parameter of the source. *)
Fixpoint r_verify_property_5_helper (fuel : nat) n (black_count path_black_count : Z) : M mem Z :=
  match fuel with
  | O => stuck
  | S fuel =>
      if n =? 0 then
        if path_black_count =? -1 then mret black_count
        else c_assert (black_count =? path_black_count);; mret path_black_count
      else
      c ← r_node_color n;
      let black_count := if c =? RRBN_BLACK then black_count + 1 else black_count in
      nl ← r_left n;
      path_black_count ← r_verify_property_5_helper fuel (rrbn_ptr nl) black_count path_black_count;
      nr ← r_right n;
      r_verify_property_5_helper fuel (rrbn_ptr nr) black_count path_black_count
  end.

Definition r_verify_property_5 (fuel : nat) n : M mem unit :=
  _ ← r_verify_property_5_helper fuel n 0 (-1); mret tt.

Definition r_verify_tree : M mem unit :=
  r ← r_root;
  let root := rrbn_ptr r in
  if root =? 0 then mret tt else
  f ← r_fuel;
  r_verify_property_1 (S f) root;;
  r_verify_property_2 root;;
  r_verify_property_4 (S f) root;;
  r_verify_property_5 (S f) root.

Definition rrbt_verify : M mem unit := r_verify_tree.

(** ** Insertion *)

Definition rrbt_ins_descend x : M mem (Z * Z) :=
  r ← r_root;
  f ← r_fuel;
  loopM f (fun '(n, parent, c) =>
    if n =? 0 then mret (inr (parent, c)) else
    nk ← r_key n;
    xk ← r_key x;
    let c := t_cmp t nk xk in
    n' ← (if 0 <? c then r_left n else r_right n);
    mret (inl (rrbn_ptr n', n, c))) (rrbn_ptr r, 0, 0).

(** [rrbn_ptr(t, x->parent)] and [rrbn_ptr(t, rrbn_ptr(t, x->parent)->parent)]. *)
Definition r_up x : M mem Z := xp ← r_parent x; mret (rrbn_ptr xp).
Definition r_up2 x : M mem Z := p ← r_up x; r_up p.

(** The red-uncle case: recolour and move to the grandparent. *)
Definition r_recolor x uncle : M mem Z :=
  p ← r_up x; r_set_color p RRBN_BLACK;;
  r_set_color uncle RRBN_BLACK;;
  g ← r_up2 x; r_set_color g RRBN_RED;;
  r_up2 x.

Definition rrbt_ins_fixup_step x : M mem (Z + unit) :=
  r ← r_root;
  if x =? rrbn_ptr r then mret (inr tt) else
  p ← r_up x;
  red ← r_is_red p;
  if negb red then mret (inr tt) else
  xp ← r_parent x;
  g ← r_up2 x;
  gl ← r_left g;
  if xp =? gl then
    g ← r_up2 x; u ← r_right g;
    let uncle := rrbn_ptr u in
    ured ← r_is_red uncle;
    if (ured : bool) then
      x ← r_recolor x uncle;
      mret (inl x)
    else
      p ← r_up x; pr ← r_right p;
      x ← (if x =? rrbn_ptr pr then x ← r_up x; r_rotate_left x;; mret x else mret x);
      p ← r_up x; r_set_color p RRBN_BLACK;;
      g ← r_up2 x; r_set_color g RRBN_RED;;
      g ← r_up2 x; r_rotate_right g;;
      mret (inl x)
  else
    g ← r_up2 x; u ← r_left g;
    let uncle := rrbn_ptr u in
    ured ← r_is_red uncle;
    if (ured : bool) then
      x ← r_recolor x uncle;
      mret (inl x)
    else
      p ← r_up x; pl ← r_left p;
      x ← (if x =? rrbn_ptr pl then x ← r_up x; r_rotate_right x;; mret x else mret x);
      p ← r_up x; r_set_color p RRBN_BLACK;;
      p ← r_up x; pp ← r_parent p;
      (if negb (pp =? 0) then
         g ← r_up2 x; r_set_color g RRBN_RED;;
         g ← r_up2 x; r_rotate_left g
       else mret tt);;
      mret (inl x).

Definition rrbt_ins x : M mem unit :=
  r_verify_tree;;
  r_set_parent x 0;;
  r_set_right x 0;;
  r_set_left x 0;;
  r ← r_root;
  if r =? 0 then
    r_set_parent x 0;;
    r_set_color x RRBN_BLACK;;
    r_set_root (rrbt_off x);;
    r_verify_tree
  else
    r_set_color x RRBN_RED;;
    '(parent, c) ← rrbt_ins_descend x;
    c_assert (negb (parent =? 0));;
    r_set_parent x (rrbt_off parent);;
    (if 0 <? c then r_set_left parent (rrbt_off x) else r_set_right parent (rrbt_off x));;
    f ← r_fuel;
    loopM f rrbt_ins_fixup_step x;;
    r ← r_root;
    r_set_color (rrbn_ptr r) RRBN_BLACK;;
    r_verify_tree.

(** ** Deletion *)

Definition r_find_pred n : M mem Z :=
  nl ← r_left n;
  f ← r_fuel;
  loopM f (fun x =>
    xr ← r_right x;
    mret (if xr =? 0 then inr x else inl (rrbn_ptr xr))) (rrbn_ptr nl).

Definition r_find_succ n : M mem Z :=
  nr ← r_right n;
  f ← r_fuel;
  loopM f (fun x =>
    xl ← r_left x;
    mret (if xl =? 0 then inr x else inl (rrbn_ptr xl))) (rrbn_ptr nr).

Definition r_sibling n : M mem Z :=
  c_assert (negb (n =? 0));;
  np ← r_parent n;
  c_assert (negb (np =? 0));;
  npl ← r_left (rrbn_ptr np);
  s ← (if rrbt_off n =? npl then r_right (rrbn_ptr np) else r_left (rrbn_ptr np));
  mret (rrbn_ptr s).

Definition r_replace_node oldn newn : M mem unit :=
  op ← r_parent oldn;
  if op =? 0 then
    r_set_root (rrbt_off newn);;
    r_set_parent newn 0;;
    r_set_color newn RRBN_BLACK
  else
    opl ← r_left (rrbn_ptr op);
    (if rrbt_off oldn =? opl then r_set_left (rrbn_ptr op) (rrbt_off newn)
     else r_set_right (rrbn_ptr op) (rrbt_off newn));;
    if negb (newn =? 0) then
      op ← r_parent oldn; r_set_parent newn op
    else mret tt.

Definition r_delete_case6 n : M mem unit :=
  s ← r_sibling n;
  p ← r_up n;
  c_assert (negb (s =? 0));;
  pc ← r_color p;
  r_set_color s pc;;
  r_set_color p RRBN_BLACK;;
  pl ← r_left p;
  if rrbt_off n =? pl then
    sr ← r_right s; c ← r_node_color (rrbn_ptr sr);
    c_assert (c =? RRBN_RED);;
    sr ← r_right s; r_set_color (rrbn_ptr sr) RRBN_BLACK;;
    r_rotate_left p
  else
    sl ← r_left s; c ← r_node_color (rrbn_ptr sl);
    c_assert (c =? RRBN_RED);;
    sl ← r_left s; r_set_color (rrbn_ptr sl) RRBN_BLACK;;
    r_rotate_right p.

(** The colours of [s], [s->left] and [s->right], read for the case
    conditions. *)
Definition r_sibling_colors s : M mem (Z * Z * Z) :=
  cs ← r_node_color s;
  sl ← r_left s; csl ← r_node_color (rrbn_ptr sl);
  sr ← r_right s; csr ← r_node_color (rrbn_ptr sr);
  mret (cs, csl, csr).

Definition r_delete_case5 n : M mem unit :=
  s ← r_sibling n;
  p ← r_up n;
  c_assert (negb (s =? 0));;
  '(cs, csl, csr) ← r_sibling_colors s;
  pl ← r_left p;
  pr ← r_right p;
  (if (rrbt_off n =? pl) && (cs =? RRBN_BLACK) && (csl =? RRBN_RED) && (csr =? RRBN_BLACK) then
     r_set_color s RRBN_RED;;
     sl ← r_left s; r_set_color (rrbn_ptr sl) RRBN_BLACK;;
     r_rotate_right s
   else if (rrbt_off n =? pr) && (cs =? RRBN_BLACK) && (csr =? RRBN_RED) && (csl =? RRBN_BLACK) then
     r_set_color s RRBN_RED;;
     sr ← r_right s; r_set_color (rrbn_ptr sr) RRBN_BLACK;;
     r_rotate_left s
   else mret tt);;
  r_delete_case6 n.

Definition r_delete_case4 n : M mem unit :=
  s ← r_sibling n;
  p ← r_up n;
  c_assert (negb (s =? 0));;
  cp ← r_node_color p;
  '(cs, csl, csr) ← r_sibling_colors s;
  if (cp =? RRBN_RED) && (cs =? RRBN_BLACK) && (csl =? RRBN_BLACK) && (csr =? RRBN_BLACK) then
    r_set_color s RRBN_RED;;
    r_set_color p RRBN_BLACK
  else r_delete_case5 n.

(** [delete_case3] calls back into [delete_case1], which is passed in. *)
Definition r_delete_case3 (case1 : Z -> M mem unit) n : M mem unit :=
  s ← r_sibling n;
  p ← r_up n;
  c_assert (negb (s =? 0));;
  cp ← r_node_color p;
  '(cs, csl, csr) ← r_sibling_colors s;
  if (cp =? RRBN_BLACK) && (cs =? RRBN_BLACK) && (csl =? RRBN_BLACK) && (csr =? RRBN_BLACK) then
    r_set_color s RRBN_RED;;
    case1 p
  else r_delete_case4 n.

Definition r_delete_case2 (case1 : Z -> M mem unit) n : M mem unit :=
  s ← r_sibling n;
  p ← r_up n;
  if s =? 0 then mret tt else
  cs ← r_node_color s;
  (if cs =? RRBN_RED then
     r_set_color p RRBN_RED;;
     r_set_color s RRBN_BLACK;;
     pl ← r_left p;
     if rrbt_off n =? pl then r_rotate_left p else r_rotate_right p
   else mret tt);;
  r_delete_case3 case1 n.

Fixpoint r_delete_case1 (fuel : nat) n : M mem unit :=
  match fuel with
  | O => stuck
  | S fuel =>
      np ← r_parent n;
      if np =? 0 then mret tt else r_delete_case2 (r_delete_case1 fuel) n
  end.

(** The first half of [rrbt_del]: a node with two children trades places
    with its in-order predecessor; [P] is the copy of the predecessor's
    fields.  The result tells whether the function goes on to [out] because
    the moved node was red. *)
Definition rrbt_del_swap n : M mem bool :=
  pred ← r_find_pred n;
  Pcolor ← r_color pred; Pleft ← r_left pred; Pparent ← r_parent pred;
  pr ← r_right pred; c_assert (pr =? 0);;
  pp ← r_parent pred; c_assert (negb (pp =? 0));;
  if negb (pp =? rrbt_off n) then
    nl ← r_left n; r_set_left pred nl;;
    nr ← r_right n; r_set_right pred nr;;
    np ← r_parent n; r_set_parent pred np;;
    nc ← r_color n; r_set_color pred nc;;
    r_set_color n Pcolor;;
    nl ← r_left n; nr ← r_right n;
    r_set_parent (rrbn_ptr nr) (rrbt_off pred);; r_set_parent (rrbn_ptr nl) (rrbt_off pred);;
    np ← r_parent n;
    (if negb (np =? 0) then
       let parent := rrbn_ptr np in
       pl ← r_left parent;
       if pl =? rrbt_off n then r_set_left parent (rrbt_off pred) else r_set_right parent (rrbt_off pred)
     else
       r_set_root (rrbt_off pred);;
       r_set_parent pred 0);;
    nc ← r_node_color n;
    if nc =? RRBN_RED then
      r_set_right (rrbn_ptr Pparent) Pleft;; mret true
    else
      r_set_left n Pleft;;
      r_set_right n 0;;
      r_set_parent n Pparent;;
      (if negb (Pleft =? 0) then r_set_parent (rrbn_ptr Pleft) (rrbt_off n) else mret tt);;
      ppr ← r_right (rrbn_ptr Pparent);
      c_assert (ppr =? rrbt_off pred);;
      r_set_right (rrbn_ptr Pparent) (rrbt_off n);; mret false
  else
    nc ← r_color n; r_set_color pred nc;;
    r_set_color n Pcolor;;
    np ← r_parent n; r_set_parent pred np;;
    nr ← r_right n; r_set_right pred nr;;
    nr ← r_right n; r_set_parent (rrbn_ptr nr) (rrbt_off pred);;
    np ← r_parent n;
    (if negb (np =? 0) then
       let parent := rrbn_ptr np in
       pl ← r_left parent;
       (if rrbt_off n =? pl then r_set_left parent (rrbt_off pred) else r_set_right parent (rrbt_off pred));;
       np ← r_parent n; r_set_parent pred np
     else
       r_set_root (rrbt_off pred);;
       r_set_color pred RRBN_BLACK;;
       r_set_parent pred 0);;
    nc ← r_node_color n;
    if nc =? RRBN_RED then mret true
    else
      r_set_left n Pleft;;
      (if negb (Pleft =? 0) then r_set_parent (rrbn_ptr Pleft) (rrbt_off n) else mret tt);;
      r_set_left pred (rrbt_off n);;
      r_set_parent n (rrbt_off pred);;
      r_set_right n 0;;
      r_set_parent n (rrbt_off pred);; mret false.

(** The second half: unlink a node with at most one child. *)
Definition rrbt_del_unlink n : M mem unit :=
  nl ← r_left n;
  nr ← r_right n;
  c_assert ((nl =? 0) || (nr =? 0));;
  let child := rrbn_ptr (if nr =? 0 then nl else nr) in
  root ← r_root;
  if (child =? 0) && (root =? rrbt_off n) then r_set_root 0 else
  nc ← r_node_color n;
  if nc =? RRBN_RED then r_replace_node n child else
  cc ← r_node_color child;
  r_set_color n cc;;
  np ← r_parent n;
  if np =? 0 then
    r_set_root (rrbt_off child);;
    if negb (child =? 0) then
      r_set_color child RRBN_BLACK;;
      r_set_parent child 0
    else mret tt
  else
    f ← r_fuel;
    r_delete_case2 (r_delete_case1 f) n;;
    r_replace_node n child.

Definition rrbt_del n : M mem unit :=
  c_assert (negb (n =? 0));;
  r_verify_tree;;
  nl ← r_left n;
  nr ← r_right n;
  out ← (if negb (nl =? 0) && negb (nr =? 0) then rrbt_del_swap n else mret false);
  (if (out : bool) then mret tt else rrbt_del_unlink n);;
  root ← r_root;
  (if negb (root =? 0) then r_set_color (rrbn_ptr root) RRBN_BLACK else mret tt);;
  r_verify_tree.

(** ** Searches *)

Definition rrbt_greatest_lt_or_eq n : M mem Z :=
  nl ← r_left n;
  if negb (nl =? 0) then mret (rrbn_ptr nl) else
  np ← r_parent n;
  if np =? 0 then mret 0 else
  npl ← r_left (rrbn_ptr np);
  mret (if npl =? rrbt_off n then rrbn_ptr np else 0).

Definition rrbt_least_gt_or_eq n : M mem Z :=
  nr ← r_right n;
  if negb (nr =? 0) then mret (rrbn_ptr nr) else
  np ← r_parent n;
  if np =? 0 then mret 0 else
  npr ← r_right (rrbn_ptr np);
  mret (if npr =? rrbt_off n then rrbn_ptr np else 0).

Definition rrbt_find_glb (k : Z) : M mem Z :=
  r ← r_root;
  f ← r_fuel;
  loopM f (fun '(x, glb) =>
    if x =? 0 then mret (inr glb) else
    xk ← r_key x;
    let c := t_cmp t xk k in
    if c =? 0 then mret (inr x) else
    if 0 <? c then
      xl ← r_left x; mret (inl (rrbn_ptr xl, glb))
    else
      xr ← r_right x; mret (inl (rrbn_ptr xr, x))) (rrbn_ptr r, 0).

Definition rrbt_find_lub (k : Z) : M mem Z :=
  r ← r_root;
  f ← r_fuel;
  loopM f (fun '(x, lub) =>
    if x =? 0 then mret (inr lub) else
    xk ← r_key x;
    let c := t_cmp t xk k in
    if c =? 0 then mret (inr x) else
    if c <? 0 then
      xr ← r_right x; mret (inl (rrbn_ptr xr, lub))
    else
      xl ← r_left x; mret (inl (rrbn_ptr xl, x))) (rrbn_ptr r, 0).

Definition rrbt_find (k : Z) : M mem Z :=
  r ← r_root;
  f ← r_fuel;
  loopM f (fun x =>
    if x =? 0 then mret (inr 0) else
    xk ← r_key x;
    let c := t_cmp t xk k in
    if c =? 0 then mret (inr x) else
    x' ← (if 0 <? c then r_left x else r_right x);
    mret (inl (rrbn_ptr x'))) (rrbn_ptr r).

Definition __rrbn_min n : M mem Z :=
  f ← r_fuel;
  loopM f (fun n =>
    if n =? 0 then mret (inr n) else
    nl ← r_left n;
    mret (if rrbn_ptr nl =? 0 then inr n else inl (rrbn_ptr nl))) n.

Definition __rrbn_max n : M mem Z :=
  f ← r_fuel;
  loopM f (fun n =>
    if n =? 0 then mret (inr n) else
    nr ← r_right n;
    mret (if rrbn_ptr nr =? 0 then inr n else inl (rrbn_ptr nr))) n.

Definition rrbt_min : M mem Z := r ← r_root; __rrbn_min (rrbn_ptr r).
Definition rrbt_max : M mem Z := r ← r_root; __rrbn_max (rrbn_ptr r).

Definition rrbn_succ n : M mem Z :=
  nr ← r_right n;
  if negb (nr =? 0) then __rrbn_min (rrbn_ptr nr) else
  np ← r_parent n;
  if np =? 0 then mret 0 else
  f ← r_fuel;
  loopM f (fun n =>
    np ← r_parent n;
    if np =? 0 then mret (inr (rrbn_ptr np)) else
    npr ← r_right (rrbn_ptr np);
    mret (if n =? rrbn_ptr npr then inl (rrbn_ptr np) else inr (rrbn_ptr np))) n.

Definition rrbn_pred n : M mem Z :=
  nl ← r_left n;
  if negb (nl =? 0) then __rrbn_max (rrbn_ptr nl) else
  np ← r_parent n;
  if np =? 0 then mret 0 else
  f ← r_fuel;
  loopM f (fun n =>
    np ← r_parent n;
    if np =? 0 then mret (inr (rrbn_ptr np)) else
    npl ← r_left (rrbn_ptr np);
    mret (if n =? rrbn_ptr npl then inl (rrbn_ptr np) else inr (rrbn_ptr np))) n.

(** The callback takes the node and its level, updates its own data and
    returns a code that stops the traversal when non-zero. *)
Fixpoint rrbt_traverse_subtree {D} (fuel : nat) (f : Z -> Z -> D -> M mem (Z * D))
    n (d : D) (level : Z) : M mem (Z * D) :=
  match fuel with
  | O => stuck
  | S fuel =>
      if n =? 0 then mret (0, d) else
      nl ← r_left n;
      '(rc, d) ← rrbt_traverse_subtree fuel f (rrbn_ptr nl) d (level + 1);
      if negb (rc =? 0) then mret (rc, d) else
      '(rc, d) ← f n level d;
      if negb (rc =? 0) then mret (rc, d) else
      nr ← r_right n;
      '(rc, d) ← rrbt_traverse_subtree fuel f (rrbn_ptr nr) d (level + 1);
      if negb (rc =? 0) then mret (rc, d) else
      mret (0, d)
  end.

Definition rrbt_traverse {D} (f : Z -> Z -> D -> M mem (Z * D)) (d : D) : M mem (Z * D) :=
  r ← r_root;
  if negb (r =? 0) then
    k ← r_fuel;
    rrbt_traverse_subtree k f (rrbn_ptr r) d 0
  else mret (0, d).

End rrbt.

(** [rrbt_init] and [rrbn_init]. *)
Definition rrbt_init (t : Z) : M mem unit := stw 8 t 0.
Definition rrbn_init (n key : Z) : M mem unit := stw 8 (n + 24) key.
