(* ===== verification/RrbtReloc.v ===== *)
(** * Relocation of trees

    rrbt.h: a tree is copied by copying its bytes and adjusting the base
    address.  Every operation on a copy does what it does on the original. *)

From stdpp Require Import prelude.
From S2P Require Import Prelude Bytes Mem MemFrame Reloc Rrbt.

Open Scope Z_scope.

Section rrbt.
Context (d lo : Z) (pre post : bytes) (t : rrbt_t) (Hlo : 0 < lo).
#[local] Abbreviation sim := (sim d pre post).
#[local] Abbreviation sh := (sh d).
#[local] Abbreviation ok := (ptr_ok d lo).

(** The copy. *)
Definition move_tree : rrbt_t := Rrbt (t_root t + d) (t_base t + d) (t_cmp t).
#[local] Abbreviation t' := move_tree.

Context (Hbase : lo <= t_base t /\ lo <= t_base t + d).

Lemma ptr_move off : 0 <= off -> rrbn_ptr t' off = sh (rrbn_ptr t off) /\ ok (rrbn_ptr t off).
Proof.
  intros Ho. unfold rrbn_ptr, Reloc.sh, ptr_ok. cbn [move_tree t_base]. destruct (Z.eqb_spec off 0); [split; [done|by left]|].
  rewrite (proj2 (Z.eqb_neq (t_base t + off) 0)) by lia. split; [lia|right; lia].
Qed.

Lemma off_move p : ok p -> rrbt_off t' (sh p) = rrbt_off t p.
Proof.
  intros Hp. unfold rrbt_off. rewrite (sh_null d lo Hlo) by done. destruct (Z.eqb_spec p 0); [done|].
  rewrite sh_pos by (unfold ptr_ok in Hp; lia). cbn [move_tree t_base]. f_equal. lia.
Qed.

(** ** Words *)

Definition word (a b : Z) : Prop := b = a /\ 0 <= a.
Definition node (p q : Z) : Prop := q = sh p /\ ok p.

Lemma node_ptr off : 0 <= off -> node (rrbn_ptr t off) (rrbn_ptr t' off).
Proof. apply ptr_move. Qed.

Lemma node_null : node 0 0.
Proof. split; [done|by left]. Qed.

Lemma word_refl a : 0 <= a -> word a a.
Proof. by split. Qed.

Lemma sim_word c1 c2 : sim (same_word 8) c1 c2 -> sim word c1 c2.
Proof. intros H. eapply sim_mono; [exact H|]. intros a b [-> ?]. split; [done|lia]. Qed.

Lemma sim_color n : ok n -> sim word (r_color n) (r_color (sh n)).
Proof.
  intros Hn. eapply sim_bind; [by apply (sim_field0 d lo pre post Hlo)|]. intros a b [-> Ha]. apply sim_ret. split; [done|]. dlia.
Qed.

Lemma sim_left n : ok n -> sim word (r_left n) (r_left (sh n)).
Proof.
  intros Hn. eapply sim_bind; [by apply (sim_field0 d lo pre post Hlo)|]. intros a b [-> Ha]. apply sim_ret. split; [done|]. dlia.
Qed.

Lemma sim_right n : ok n -> sim word (r_right n) (r_right (sh n)).
Proof. intros Hn. apply sim_word, (sim_field d lo pre post Hlo); [done|lia]. Qed.

Lemma sim_parent n : ok n -> sim word (r_parent n) (r_parent (sh n)).
Proof. intros Hn. apply sim_word, (sim_field d lo pre post Hlo); [done|lia]. Qed.

Lemma sim_key n : ok n -> sim word (r_key n) (r_key (sh n)).
Proof. intros Hn. apply sim_word, (sim_field d lo pre post Hlo); [done|lia]. Qed.

Lemma sim_set_color n c : ok n -> sim eq (r_set_color n c) (r_set_color (sh n) c).
Proof. intros Hn. eapply sim_bind; [by apply (sim_field0 d lo pre post Hlo)|]. intros a b [-> Ha]. by apply (sim_set_field0 d lo pre post Hlo). Qed.

Lemma sim_set_left n v : ok n -> sim eq (r_set_left n v) (r_set_left (sh n) v).
Proof. intros Hn. eapply sim_bind; [by apply (sim_field0 d lo pre post Hlo)|]. intros a b [-> Ha]. by apply (sim_set_field0 d lo pre post Hlo). Qed.

Lemma sim_set_right n v : ok n -> sim eq (r_set_right n v) (r_set_right (sh n) v).
Proof. intros Hn. apply (sim_set_field d lo pre post Hlo); [done|lia]. Qed.

Lemma sim_set_parent n v : ok n -> sim eq (r_set_parent n v) (r_set_parent (sh n) v).
Proof. intros Hn. apply (sim_set_field d lo pre post Hlo); [done|lia]. Qed.

Lemma sim_root : sim word (r_root t) (r_root t').
Proof. apply sim_word, sim_ldw_at. Qed.

Lemma sim_set_root v : sim eq (r_set_root t v) (r_set_root t' v).
Proof. apply sim_stw_at. Qed.

Lemma sim_fuel : sim (fun a b => (a <= b)%nat) r_fuel r_fuel.
Proof.
  intros m1 m2 a m1' Hm [= <- <-]. eexists _, m2. split; [done|]. split; [|done].
  rewrite (mv_cells _ _ _ _ _ Hm), !length_app. lia.
Qed.

(** ** Steps

    [rsim] walks over a computation and its copy.  Words are equal, pointers
    are moved, and the comparisons give the same answers. *)

Ltac nonneg := solve [lia | case_match; lia].

Ltac know_ptr :=
  repeat match goal with
  | |- context [rrbn_ptr t ?o] =>
      lazymatch goal with H : ok (rrbn_ptr t o) |- _ => fail | _ => idtac end;
      let H := fresh "Hp" in assert (ok (rrbn_ptr t o)) as H by (apply ptr_move; nonneg)
  end.

Ltac unmove :=
  repeat first
    [ match goal with |- context [rrbn_ptr move_tree ?o] => rewrite (proj1 (ptr_move o ltac:(nonneg))) end
    | rewrite off_move by done
    | rewrite (sh_null d lo Hlo) by done
    | rewrite (sh_eqb d lo Hlo) by done ].

Lemma sim_lt_fuel {A B} (R : A -> B -> Prop) (c1 c2 : nat -> M mem _) :
  (forall f1 f2, (f1 <= f2)%nat -> sim R (c1 f1) (c2 f2)) -> sim R (r_fuel ≫= c1) (r_fuel ≫= c2).
Proof. intros H. eapply sim_bind; [apply sim_fuel|]. exact H. Qed.

Create HintDb rsim.
Hint Resolve sim_color sim_left sim_right sim_parent sim_key sim_set_color sim_set_left sim_set_right sim_set_parent
  sim_root sim_set_root sim_assert node_null : rsim.

Ltac related H :=
  lazymatch type of H with
  | _ = _ => destruct H; repeat match goal with x : (_ * _)%type |- _ => destruct x end
  | _ => destruct H as [-> H]
  end.

Ltac rstep :=
  cbv beta zeta; know_ptr; unmove;
  lazymatch goal with
  | |- sim _ (if _ then _ else _) (if _ then _ else _) => apply sim_if; [done| |]
  | |- sim _ (mret _) (mret _) => apply sim_ret; try solve [repeat case_match; first [done | apply node_null | split_and!; done]]
  | |- sim _ stuck _ => apply sim_stuck
  | |- sim _ (r_fuel ≫= _) (r_fuel ≫= _) =>
      apply sim_lt_fuel; let f1 := fresh "f" in let f2 := fresh "g" in let H := fresh "Hf" in intros f1 f2 H
  | |- sim _ (_ ≫= _) (_ ≫= _) =>
      first [ eapply sim_bind; [solve [eauto 4 with rsim nocore]|]
            | eapply (sim_bind _ _ _ eq); [solve [repeat rstep]|]
            | eapply (sim_bind _ _ _ word); [solve [repeat rstep]|]
            | eapply (sim_bind _ _ _ node); [solve [repeat rstep]|] ];
      let a := fresh "a" in let b := fresh "b" in let H := fresh "H" in intros a b H; related H
  | |- sim _ _ _ => solve [eauto 4 with rsim nocore]
  end.
Ltac rsim := repeat rstep.

Lemma sim_is_red n : ok n -> sim eq (r_is_red n) (r_is_red (sh n)).
Proof. intros Hn. unfold r_is_red. rsim. Qed.

Lemma sim_rotate_left x : ok x -> sim eq (r_rotate_left t x) (r_rotate_left t' (sh x)).
Proof. intros Hn. unfold r_rotate_left. rsim. Qed.

Lemma sim_rotate_right x : ok x -> sim eq (r_rotate_right t x) (r_rotate_right t' (sh x)).
Proof. intros Hn. unfold r_rotate_right. rsim. Qed.

Hint Resolve sim_is_red sim_rotate_left sim_rotate_right : rsim.

Lemma sim_node_color n : ok n -> sim word (r_node_color n) (r_node_color (sh n)).
Proof. intros Hn. unfold r_node_color. rsim. Qed.

Lemma sim_up x : ok x -> sim node (r_up t x) (r_up t' (sh x)).
Proof. intros Hn. unfold r_up. rsim. Qed.

Lemma sim_up2 x : ok x -> sim node (r_up2 t x) (r_up2 t' (sh x)).
Proof. intros Hn. unfold r_up2. eapply sim_bind; [by apply sim_up|]. intros a b [-> Ha]. by apply sim_up. Qed.
Hint Resolve sim_node_color sim_up sim_up2 : rsim.

(** ** Verification *)

Lemma sim_verify_1 f g n : (f <= g)%nat -> ok n -> sim eq (r_verify_property_1 t f n) (r_verify_property_1 t' g (sh n)).
Proof.
  revert g n. induction f as [|f IH]; intros [|g] n Hf Hn; try apply sim_stuck; [lia|].
  cbn [r_verify_property_1]. assert (f <= g)%nat as Hfg by lia. pose proof (fun n => IH g n Hfg) as IH'. rsim.
Qed.

Lemma sim_verify_2 n : ok n -> sim eq (r_verify_property_2 n) (r_verify_property_2 (sh n)).
Proof. intros Hn. unfold r_verify_property_2. rsim. Qed.

Lemma sim_verify_4 f g n : (f <= g)%nat -> ok n -> sim eq (r_verify_property_4 t f n) (r_verify_property_4 t' g (sh n)).
Proof.
  revert g n. induction f as [|f IH]; intros [|g] n Hf Hn; try apply sim_stuck; [lia|].
  cbn [r_verify_property_4]. assert (f <= g)%nat as Hfg by lia. pose proof (fun n => IH g n Hfg) as IH'. rsim.
Qed.

Lemma sim_verify_5_helper f g n bc pc : (f <= g)%nat -> ok n ->
  sim eq (r_verify_property_5_helper t f n bc pc) (r_verify_property_5_helper t' g (sh n) bc pc).
Proof.
  revert g n bc pc. induction f as [|f IH]; intros [|g] n bc pc Hf Hn; try apply sim_stuck; [lia|].
  cbn [r_verify_property_5_helper]. assert (f <= g)%nat as Hfg by lia. pose proof (fun n b p => IH g n b p Hfg) as IH'. rsim.
Qed.

Lemma sim_verify_tree : sim eq (r_verify_tree t) (r_verify_tree t').
Proof.
  unfold r_verify_tree, r_verify_property_5.
  pose proof sim_verify_1 as H1. pose proof sim_verify_2 as H2. pose proof sim_verify_4 as H4.
  pose proof sim_verify_5_helper as H5. assert (forall f g, (f <= g)%nat -> (S f <= S g)%nat) as HS by lia.
  rsim.
Qed.
Hint Resolve sim_verify_tree : rsim.

(** ** Insertion *)

Lemma sim_ins_descend x : ok x ->
  sim (fun a b => b = (sh a.1, a.2) /\ ok a.1) (rrbt_ins_descend t x) (rrbt_ins_descend t' (sh x)).
Proof.
  intros Hx. unfold rrbt_ins_descend. rsim.
  apply sim_loop with (I := fun a b => b = (sh a.1.1, sh a.1.2, a.2) /\ ok a.1.1 /\ ok a.1.2); [|by split_and!; cbn; [..|left]|done].
  intros [[n p] c] ? (-> & Hn & Hp'). cbn [fst snd] in *. rsim.
Qed.

Lemma sim_recolor x u : ok x -> ok u -> sim node (r_recolor t x u) (r_recolor t' (sh x) (sh u)).
Proof. intros Hx Hu. unfold r_recolor. rsim. Qed.
Hint Resolve sim_recolor : rsim.

(** One more round, or the end, on both sides. *)
Definition round {A B} (I : A -> A -> Prop) (R : B -> B -> Prop) (x y : A + B) : Prop :=
  match x, y with inl a, inl b => I a b | inr a, inr b => R a b | _, _ => False end.

Lemma sim_ins_fixup_step x : ok x -> sim (round node eq) (rrbt_ins_fixup_step t x) (rrbt_ins_fixup_step t' (sh x)).
Proof. intros Hx. unfold rrbt_ins_fixup_step. rsim. Qed.

Lemma sim_walk {A B} (I : A -> A -> Prop) (R : B -> B -> Prop) f g body body' a a' :
  (forall a b, I a b -> sim (round I R) (body a) (body' b)) -> I a a' -> (f <= g)%nat ->
  sim R (loopM f body a) (loopM g body' a').
Proof. apply sim_loop. Qed.

Lemma sim_ins_fixup f g x : (f <= g)%nat -> ok x ->
  sim eq (loopM f (rrbt_ins_fixup_step t) x) (loopM g (rrbt_ins_fixup_step t') (sh x)).
Proof.
  intros Hf Hx. apply sim_walk with (I := node); [|by split|done]. intros a b [-> Ha]. by apply sim_ins_fixup_step.
Qed.
Hint Resolve sim_ins_fixup : rsim.

Lemma sim_ins x : ok x -> sim eq (rrbt_ins t x) (rrbt_ins t' (sh x)).
Proof.
  intros Hx. unfold rrbt_ins. do 7 rstep. all: rsim.
  eapply sim_bind; [by apply sim_ins_descend|]. intros [p c] ? [-> Hp]. cbn [fst snd] in *. rsim.
Qed.

(** ** Deletion *)

Lemma sim_find_pred n : ok n -> sim node (r_find_pred t n) (r_find_pred t' (sh n)).
Proof.
  intros Hn. unfold r_find_pred. rsim. apply sim_walk with (I := node); [|by split|done]. intros x ? [-> Hx]. rsim.
Qed.

Lemma sim_find_succ n : ok n -> sim node (r_find_succ t n) (r_find_succ t' (sh n)).
Proof.
  intros Hn. unfold r_find_succ. rsim. apply sim_walk with (I := node); [|by split|done]. intros x ? [-> Hx]. rsim.
Qed.

Lemma sim_sibling n : ok n -> sim node (r_sibling t n) (r_sibling t' (sh n)).
Proof. intros Hn. unfold r_sibling. rsim. Qed.

Lemma sim_replace_node o n : ok o -> ok n -> sim eq (r_replace_node t o n) (r_replace_node t' (sh o) (sh n)).
Proof. intros Ho Hn. unfold r_replace_node. rsim. Qed.

Lemma sim_sibling_colors s : ok s -> sim eq (r_sibling_colors t s) (r_sibling_colors t' (sh s)).
Proof. intros Hs. unfold r_sibling_colors. rsim. Qed.
Hint Resolve sim_find_pred sim_sibling sim_replace_node sim_sibling_colors : rsim.

Lemma sim_case6 n : ok n -> sim eq (r_delete_case6 t n) (r_delete_case6 t' (sh n)).
Proof. intros Hn. unfold r_delete_case6. rsim. Qed.
Hint Resolve sim_case6 : rsim.

Lemma sim_case5 n : ok n -> sim eq (r_delete_case5 t n) (r_delete_case5 t' (sh n)).
Proof. intros Hn. unfold r_delete_case5. rsim. Qed.
Hint Resolve sim_case5 : rsim.

Lemma sim_case4 n : ok n -> sim eq (r_delete_case4 t n) (r_delete_case4 t' (sh n)).
Proof. intros Hn. unfold r_delete_case4. rsim. Qed.
Hint Resolve sim_case4 : rsim.

Lemma sim_case3 c c' n : (forall n, ok n -> sim eq (c n) (c' (sh n))) -> ok n ->
  sim eq (r_delete_case3 t c n) (r_delete_case3 t' c' (sh n)).
Proof. intros Hc Hn. unfold r_delete_case3. rsim. Qed.
Hint Resolve sim_case3 : rsim.

Lemma sim_case2 c c' n : (forall n, ok n -> sim eq (c n) (c' (sh n))) -> ok n ->
  sim eq (r_delete_case2 t c n) (r_delete_case2 t' c' (sh n)).
Proof. intros Hc Hn. unfold r_delete_case2. rsim. Qed.
Hint Resolve sim_case2 : rsim.

Lemma sim_case1 f g n : (f <= g)%nat -> ok n -> sim eq (r_delete_case1 t f n) (r_delete_case1 t' g (sh n)).
Proof.
  revert g n. induction f as [|f IH]; intros [|g] n Hf Hn; try apply sim_stuck; [lia|].
  cbn [r_delete_case1]. assert (f <= g)%nat as Hfg by lia. pose proof (fun n => IH g n Hfg) as IH'. rsim.
Qed.
Hint Resolve sim_case1 : rsim.

Lemma sim_del_swap n : ok n -> sim eq (rrbt_del_swap t n) (rrbt_del_swap t' (sh n)).
Proof. intros Hn. unfold rrbt_del_swap. rsim. Qed.

Lemma sim_del_unlink n : ok n -> sim eq (rrbt_del_unlink t n) (rrbt_del_unlink t' (sh n)).
Proof. intros Hn. unfold rrbt_del_unlink. rsim. Qed.
Hint Resolve sim_del_swap sim_del_unlink : rsim.

Lemma sim_del n : ok n -> sim eq (rrbt_del t n) (rrbt_del t' (sh n)).
Proof. intros Hn. unfold rrbt_del. rsim. Qed.

(** ** Searches *)

(** A walk that also remembers the best node so far. *)
Definition node2 (a b : Z * Z) : Prop := b = (sh a.1, sh a.2) /\ ok a.1 /\ ok a.2.

Ltac walk :=
  rsim;
  first [ apply sim_walk with (I := node); [|by split|done]; intros ? ? [-> ?]
        | apply sim_walk with (I := node2); [|by split_and!; cbn; [..|left]|done];
          intros [? ?] ? (-> & ? & ?); cbn [fst snd] in * ];
  rsim.

Lemma sim_greatest_lt_or_eq n : ok n -> sim node (rrbt_greatest_lt_or_eq t n) (rrbt_greatest_lt_or_eq t' (sh n)).
Proof. intros Hn. unfold rrbt_greatest_lt_or_eq. rsim. Qed.

Lemma sim_least_gt_or_eq n : ok n -> sim node (rrbt_least_gt_or_eq t n) (rrbt_least_gt_or_eq t' (sh n)).
Proof. intros Hn. unfold rrbt_least_gt_or_eq. rsim. Qed.

Lemma sim_find_glb k : sim node (rrbt_find_glb t k) (rrbt_find_glb t' k).
Proof. unfold rrbt_find_glb. walk. Qed.

Lemma sim_find_lub k : sim node (rrbt_find_lub t k) (rrbt_find_lub t' k).
Proof. unfold rrbt_find_lub. walk. Qed.

Lemma sim_find k : sim node (rrbt_find t k) (rrbt_find t' k).
Proof. unfold rrbt_find. walk. Qed.

Lemma sim_rrbn_min n : ok n -> sim node (__rrbn_min t n) (__rrbn_min t' (sh n)).
Proof. intros Hn. unfold __rrbn_min. walk. Qed.

Lemma sim_rrbn_max n : ok n -> sim node (__rrbn_max t n) (__rrbn_max t' (sh n)).
Proof. intros Hn. unfold __rrbn_max. walk. Qed.
Hint Resolve sim_rrbn_min sim_rrbn_max : rsim.

Lemma sim_min : sim node (rrbt_min t) (rrbt_min t').
Proof. unfold rrbt_min. rsim. Qed.

Lemma sim_max : sim node (rrbt_max t) (rrbt_max t').
Proof. unfold rrbt_max. rsim. Qed.

Lemma sim_succ n : ok n -> sim node (rrbn_succ t n) (rrbn_succ t' (sh n)).
Proof. intros Hn. unfold rrbn_succ. walk. Qed.

Lemma sim_pred n : ok n -> sim node (rrbn_pred t n) (rrbn_pred t' (sh n)).
Proof. intros Hn. unfold rrbn_pred. walk. Qed.

(** The callback keeps a relation between its data on the two sides. *)
Definition step_data {D} (Rd : D -> D -> Prop) (a b : Z * D) : Prop := b.1 = a.1 /\ Rd a.2 b.2.

Section traverse.
Context {D} (Rd : D -> D -> Prop) (cb cb' : Z -> Z -> D -> M mem (Z * D)).
Context (Hcb : forall n lv x x', ok n -> Rd x x' -> sim (step_data Rd) (cb n lv x) (cb' (sh n) lv x')).

Lemma sim_step_data c c' k k' :
  sim (step_data Rd) c c' -> (forall x x', Rd x x' -> sim (step_data Rd) (k x) (k' x')) ->
  sim (step_data Rd) ('(rc, x) ← c; if negb (rc =? 0) then mret (rc, x) else k x)
    ('(rc, x) ← c'; if negb (rc =? 0) then mret (rc, x) else k' x).
Proof.
  intros Hc Hk. eapply sim_bind; [exact Hc|]. intros [rc x] [rc' x'] [Hr Hx]. cbn in Hr, Hx. subst rc'.
  apply sim_if; [done|by apply sim_ret|by apply Hk].
Qed.

Lemma sim_traverse_subtree f g n x x' lv : (f <= g)%nat -> ok n -> Rd x x' ->
  sim (step_data Rd) (rrbt_traverse_subtree t f cb n x lv) (rrbt_traverse_subtree t' g cb' (sh n) x' lv).
Proof.
  revert g n x x' lv. induction f as [|f IH]; intros [|g] n x x' lv Hf Hn Hx; try apply sim_stuck; [lia|].
  cbn [rrbt_traverse_subtree]. rstep; [by apply sim_ret|]. rstep. know_ptr. unmove.
  apply sim_step_data; [apply IH; [lia|done|done]|]. intros. apply sim_step_data; [by apply Hcb|]. intros. rstep.
  know_ptr. unmove. apply sim_step_data; [apply IH; [lia|done|done]|]. intros. by apply sim_ret.
Qed.

Lemma sim_traverse x x' : Rd x x' -> sim (step_data Rd) (rrbt_traverse t cb x) (rrbt_traverse t' cb' x').
Proof.
  intros Hx. unfold rrbt_traverse. do 2 rstep; [|by apply sim_ret]. rstep. know_ptr. unmove. by apply sim_traverse_subtree.
Qed.
End traverse.

End rrbt.
