(* ===== verification/LdmsHeap.v ===== *)
(** * The heap of a metric set: ldms/src/core/ldms_heap.c

    The allocator behind list metrics.  A heap is a header
    ([struct ldms_heap], in the data header of the set) and a block of bytes
    at [base] that starts with a signature.  A free chunk is a
    [struct mm_free], a node of the tree ordered by address and a node of the
    tree ordered by size; an allocated chunk starts with its size in grains
    ([struct mm_alloc]).  The lock of the heap makes the functions atomic. *)

From stdpp Require Import prelude strings.
From Stdlib Require Import Ascii String.
From S2P Require Import Prelude Bytes CStr Mem MVal Rrbt.

Open Scope Z_scope.

Definition LDMS_HEAP_MIN_SIZE : Z := 512.
Definition LDMS_LIST_GRAIN : Z := 32.
Definition sizeof_mm_free : Z := 64.
Definition sizeof_mm_alloc : Z := 4.

(** [LDMS_HEAP_SIGNATURE] with its terminating zero. *)
Definition LDMS_HEAP_SIGNATURE : bytes := str_bytes "BOHEAP0"%string ++ [0].

(** [struct ldms_heap_instance]: the header and the block. *)
Record ldms_heap_t := Heap { h_data : Z; h_base : Z }.

Definition compare_size (a b : Z) : Z := if b <? a then 1 else if a <? b then -1 else 0.
Definition compare_addr (a b : Z) : Z := if b <? a then 1 else if a <? b then -1 else 0.

Definition h_size_tree (h : ldms_heap_t) : rrbt_t := Rrbt (h_data h + 24) (h_base h) compare_size.
Definition h_addr_tree (h : ldms_heap_t) : rrbt_t := Rrbt (h_data h + 32) (h_base h) compare_addr.

(** Fields of [struct ldms_heap]: [grain_bits:8, grain:24], [size], [gn]. *)
Definition h_grain_bits (d : Z) : M mem Z := w ← ldw 4 d; mret (w mod 256).
Definition h_grain (d : Z) : M mem Z := w ← ldw 4 d; mret (w / 256).
Definition h_size (d : Z) : M mem Z := ldw 8 (d + 8).
Definition h_gn (d : Z) : M mem Z := ldw 4 (d + 16).

(** The nodes of a [struct mm_free] and the chunk of a node. *)
Definition addr_node (p : Z) : Z := p.
Definition size_node (p : Z) : Z := p + 32.
Definition of_addr_node (n : Z) : Z := n.
Definition of_size_node (n : Z) : Z := n - 32.

Definition ldms_heap_off (h : ldms_heap_t) (p : Z) : M mem Z :=
  if p =? 0 then mret 0 else
  let off := u64 (p - h_base h) in
  size ← h_size (h_data h);
  c_assert (off <? size);;
  mret off.

Definition ldms_heap_ptr (h : ldms_heap_t) (off : Z) : M mem Z :=
  if off =? 0 then mret 0 else
  size ← h_size (h_data h);
  c_assert (off <? size);;
  mret (h_base h + off).

Definition ldms_heap_grain_size (grain_sz : Z) : Z :=
  if sizeof_mm_free <? grain_sz then grain_sz else sizeof_mm_free.

(** [heap->grain] and [heap->grain_bits] after the loop; 25 rounds are enough
    unless the 24-bit grain never reaches [sz] and the loop does not end. *)
Fixpoint grain_loop (fuel : nat) (sz grain bits : Z) : option (Z * Z) :=
  match fuel with
  | O => None
  | S fuel =>
      if grain <? sz then grain_loop fuel sz (Z.shiftl grain 1 mod 2 ^ 24) ((bits + 1) mod 256)
      else Some (grain, bits)
  end.

Definition ldms_heap_init (heap base size grain : Z) : M mem unit :=
  if size =? 0 then stw 8 (heap + 8) 0 else
  let size := mask_roundup size LDMS_HEAP_MIN_SIZE in
  '(g, bits) ← lift_opt (grain_loop 26 (ldms_heap_grain_size grain) 1 0);
  stw 4 heap (bits + 256 * g);;
  stw 8 (heap + 8) size;;
  stw 4 (heap + 16) 0;;
  rrbt_init (heap + 24);;
  rrbt_init (heap + 32);;
  poke base LDMS_HEAP_SIGNATURE;;
  let pfx := base + 8 in
  c_assert (pfx mod 8 =? 0);;
  let h := Heap heap base in
  rrbn_init (size_node pfx) (size / g);;
  rrbt_ins (h_size_tree h) (size_node pfx);;
  rrbn_init (addr_node pfx) (u64 (pfx - base));;
  rrbt_ins (h_addr_tree h) (addr_node pfx).

Definition ldms_heap_get (heap base : Z) : M mem ldms_heap_t :=
  sg ← peek base 8;
  c_assert (bool_decide (sg = LDMS_HEAP_SIGNATURE));;
  mret (Heap heap base).

Definition ldms_heap_alloc_size (grain_sz data_sz : Z) : Z :=
  let data_sz := u64 (data_sz + sizeof_mm_alloc) in
  let data_sz := if data_sz <? sizeof_mm_free then sizeof_mm_free else data_sz in
  mask_roundup data_sz (ldms_heap_grain_size grain_sz).

Definition ldms_heap_alloc (h : ldms_heap_t) (size : Z) : M mem Z :=
  g ← h_grain (h_data h);
  bits ← h_grain_bits (h_data h);
  let size := ldms_heap_alloc_size g size in
  let count := Z.shiftr size bits in
  rbn ← rrbt_find_lub (h_size_tree h) count;
  if rbn =? 0 then mret 0 else
  let p := of_size_node rbn in
  rrbt_del (h_size_tree h) (size_node p);;
  rrbt_del (h_addr_tree h) (addr_node p);;
  psz ← r_key (size_node p);
  let remainder := u64 (psz - count) in
  (if negb (remainder =? 0) then
     bits ← h_grain_bits (h_data h);
     let n := p + u64 (Z.shiftl count bits) in
     offset ← ldms_heap_off h n;
     rrbn_init (size_node n) remainder;;
     rrbn_init (addr_node n) offset;;
     rrbt_ins (h_size_tree h) (size_node n);;
     rrbt_ins (h_addr_tree h) (addr_node n)
   else mret tt);;
  stw 4 p count;;
  gn ← h_gn (h_data h);
  stw 4 (h_data h + 16) (gn + 1);;
  mret (p + 4).

(** [q]'s end offset: its address plus its size in bytes. *)
Definition chunk_end (h : ldms_heap_t) (q : Z) : M mem Z :=
  a ← r_key (addr_node q);
  c ← r_key (size_node q);
  bits ← h_grain_bits (h_data h);
  mret (u64 (a + u64 (Z.shiftl c bits))).

Definition ldms_heap_free (h : ldms_heap_t) (d : Z) : M mem unit :=
  let p := d - 4 in
  offset ← ldms_heap_off h p;
  count ← ldw 4 p;
  rrbn_init (size_node p) count;;
  rrbn_init (addr_node p) offset;;
  rbn ← rrbt_find_glb (h_addr_tree h) offset;
  p ← (if rbn =? 0 then mret p else
         let q := of_addr_node rbn in
         en ← chunk_end h q;
         pa ← r_key (addr_node p);
         if en =? pa then
           rrbt_del (h_size_tree h) (size_node q);;
           rrbt_del (h_addr_tree h) (addr_node q);;
           qs ← r_key (size_node q); ps ← r_key (size_node p);
           rrbn_init (size_node q) (u64 (qs + ps));;
           mret q
         else mret p);
  offset ← ldms_heap_off h p;
  rbn ← rrbt_find_lub (h_addr_tree h) offset;
  (if rbn =? 0 then mret tt else
     let q := of_addr_node rbn in
     en ← chunk_end h p;
     qa ← r_key (addr_node q);
     if en =? qa then
       rrbt_del (h_size_tree h) (size_node q);;
       rrbt_del (h_addr_tree h) (addr_node q);;
       ps ← r_key (size_node p); qs ← r_key (size_node q);
       rrbn_init (size_node p) (u64 (ps + qs))
     else mret tt);;
  _ ← ldms_heap_off h p;
  ps ← r_key (size_node p); rrbn_init (size_node p) ps;;
  pa ← r_key (addr_node p); rrbn_init (addr_node p) pa;;
  rrbt_ins (h_size_tree h) (size_node p);;
  rrbt_ins (h_addr_tree h) (addr_node p);;
  gn ← h_gn (h_data h);
  stw 4 (h_data h + 16) (gn + 1).

Definition ldms_heap_size (size : Z) : Z := mask_roundup size LDMS_HEAP_MIN_SIZE.

(** [struct ldms_heap_info]. *)
Record ldms_heap_info := Info {
  i_start : Z;
  i_grain : Z;
  i_grain_bits : Z;
  i_size : Z;
  i_free_chunks : Z;
  i_free_bytes : Z;
  i_largest : Z;
  i_smallest : Z
}.

Definition heap_stat (rbn level : Z) (i : ldms_heap_info) : M mem (Z * ldms_heap_info) :=
  c ← r_key (size_node (of_addr_node rbn));
  mret (0, Info (i_start i) (i_grain i) (i_grain_bits i) (i_size i)
             (u64 (i_free_chunks i + 1)) (u64 (i_free_bytes i + c))
             (if i_largest i <? c then c else i_largest i)
             (if c <? i_smallest i then c else i_smallest i)).

Definition ldms_heap_get_info (h : ldms_heap_t) : M mem ldms_heap_info :=
  g ← h_grain (h_data h);
  bits ← h_grain_bits (h_data h);
  size ← h_size (h_data h);
  '(_, i) ← rrbt_traverse (h_addr_tree h) heap_stat
              (Info (h_data h) g bits size 0 0 0 (u64 (size + 1)));
  mret i.
