(* ===== verification/HeapReloc.v ===== *)
(** * Relocation of heaps

    The heap of a set is copied with the set: the peer's copy of the bytes is
    at another address.  A heap opened on a copy answers every call with the
    offsets the original gives, and the copy stays a copy. *)

From stdpp Require Import prelude strings.
From S2P Require Import Prelude Bytes CStr Mem MemFrame MVal Reloc Rrbt RrbtReloc LdmsHeap.

Open Scope Z_scope.

(** ** Sessions

    Calls by offset, and their answers: the offset of the chunk (0 for NULL),
    or the counts of [struct ldms_heap_info]. *)
Inductive heap_call :=
  | CAlloc (size : Z)
  | CFree (off : Z)
  | CInfo.

Inductive heap_answer :=
  | AChunk (off : Z)
  | ADone
  | AInfo (grain grain_bits size free_chunks free_bytes largest smallest : Z).

Definition heap_do (h : ldms_heap_t) (c : heap_call) : M mem heap_answer :=
  match c with
  | CAlloc size => p ← ldms_heap_alloc h size; mret (AChunk (if p =? 0 then 0 else p - h_base h))
  | CFree off => ldms_heap_free h (h_base h + off);; mret ADone
  | CInfo =>
      i ← ldms_heap_get_info h;
      mret (AInfo (i_grain i) (i_grain_bits i) (i_size i) (i_free_chunks i) (i_free_bytes i) (i_largest i) (i_smallest i))
  end.

Fixpoint heap_do_all (h : ldms_heap_t) (cs : list heap_call) : M mem (list heap_answer) :=
  match cs with
  | [] => mret []
  | c :: cs => a ← heap_do h c; al ← heap_do_all h cs; mret (a :: al)
  end.

Definition heap_session (heap base : Z) (cs : list heap_call) : M mem (list heap_answer) :=
  h ← ldms_heap_get heap base;
  heap_do_all h cs.

(** A chunk is not at the start of the block. *)
Definition call_ok (c : heap_call) : Prop :=
  match c with CFree off => 4 < off | _ => True end.

Section heap.
Context (d : Z) (pre post : bytes) (h : ldms_heap_t).
#[local] Abbreviation sim := (sim d pre post).
#[local] Abbreviation h' := (Heap (h_data h + d) (h_base h + d)).
Context (Hbase : 64 <= h_base h /\ 64 <= h_base h + d).

Lemma size_tree_move : h_size_tree h' = move_tree d (h_size_tree h).
Proof. unfold h_size_tree, move_tree. cbn. f_equal. lia. Qed.

Lemma addr_tree_move : h_addr_tree h' = move_tree d (h_addr_tree h).
Proof. unfold h_addr_tree, move_tree. cbn. f_equal. lia. Qed.

(** The two trees. *)
Definition tree (t t' : rrbt_t) : Prop := t' = move_tree d t /\ t_base t = h_base h.

Lemma tree_size : tree (h_size_tree h) (h_size_tree h').
Proof. split; [apply size_tree_move|done]. Qed.

Lemma tree_addr : tree (h_addr_tree h) (h_addr_tree h').
Proof. split; [apply addr_tree_move|done]. Qed.

Lemma u64_nonneg z : 0 <= u64 z.
Proof. unfold u64. dlia. Qed.

(** Chunks and words. *)
Definition at_ (p p' : Z) : Prop := p' = p + d.
Definition live (p : Z) : Prop := 0 < p /\ 0 < p + d.
Definition found (p p' : Z) : Prop := p = 0 /\ p' = 0 \/ p' = p + d /\ 33 <= p /\ 33 <= p + d.

Lemma sim_ld w p p' : at_ p p' -> sim (same_word w) (ldw w p) (ldw w p').
Proof. intros ->. apply sim_ldw_at. Qed.

Lemma sim_st w p p' v : at_ p p' -> sim eq (stw w p v) (stw w p' v).
Proof. intros ->. apply sim_stw_at. Qed.

Lemma sim_keyed p p' : at_ p p' -> sim word (r_key p) (r_key p').
Proof. intros ->. eapply sim_word, sim_ld. unfold at_. lia. Qed.

Lemma sim_rekey p p' k : at_ p p' -> sim eq (rrbn_init p k) (rrbn_init p' k).
Proof. intros ->. apply sim_st. unfold at_. lia. Qed.

Lemma live_ok p : live p -> ptr_ok d 1 p /\ sh d p = p + d.
Proof. intros [H1 H2]. split; [right; lia|]. by apply sh_pos. Qed.

Lemma sim_tins t t' p p' : tree t t' -> at_ p p' -> live p -> sim eq (rrbt_ins t p) (rrbt_ins t' p').
Proof.
  intros [-> Ht] -> [Hp Hs]%live_ok. rewrite <- Hs. apply (sim_ins d 1 pre post t); rewrite ?Ht; [lia|lia|done].
Qed.

Lemma sim_tdel t t' p p' : tree t t' -> at_ p p' -> live p -> sim eq (rrbt_del t p) (rrbt_del t' p').
Proof.
  intros [-> Ht] -> [Hp Hs]%live_ok. rewrite <- Hs. apply (sim_del d 1 pre post t); rewrite ?Ht; [lia|lia|done].
Qed.

Lemma node_found p p' : node d 33 p p' -> found p p'.
Proof.
  intros [-> [->|Hp]]; [by left|]. right. rewrite sh_pos by lia. by split.
Qed.

Lemma sim_tlub t t' k : tree t t' -> sim found (rrbt_find_lub t k) (rrbt_find_lub t' k).
Proof.
  intros [-> Ht]. eapply sim_mono; [|apply node_found]. apply sim_find_lub; rewrite ?Ht; lia.
Qed.

Lemma sim_tglb t t' k : tree t t' -> sim found (rrbt_find_glb t k) (rrbt_find_glb t' k).
Proof.
  intros [-> Ht]. eapply sim_mono; [|apply node_found]. apply sim_find_glb; rewrite ?Ht; lia.
Qed.

(** Fields of the header. *)
Lemma sim_h_grain : sim word (h_grain (h_data h)) (h_grain (h_data h')).
Proof. eapply sim_bind; [by apply sim_ld|]. intros a b [-> Ha]. apply sim_ret. split; [done|]. dlia. Qed.

Lemma sim_h_grain_bits : sim word (h_grain_bits (h_data h)) (h_grain_bits (h_data h')).
Proof. eapply sim_bind; [by apply sim_ld|]. intros a b [-> Ha]. apply sim_ret. split; [done|]. dlia. Qed.

Lemma sim_h_size : sim word (h_size (h_data h)) (h_size (h_data h')).
Proof. eapply sim_word, sim_ld. unfold at_. cbn. lia. Qed.

Lemma sim_h_gn : sim word (h_gn (h_data h)) (h_gn (h_data h')).
Proof. eapply sim_mono; [apply sim_ld; unfold at_; cbn; lia|]. intros a b [-> Ha]. split; [done|lia]. Qed.

(** ** Steps *)

Ltac place := first [assumption | unfold at_, live, addr_node, size_node, of_addr_node, of_size_node in *; cbn [h_data h_base] in *;
  repeat match goal with |- context [u64 ?z] => pose proof (u64_nonneg z); generalize dependent (u64 z); intros end; lia].
Create HintDb hsim.
Hint Extern 1 (at_ _ _) => place : hsim.
Hint Extern 1 (live _) => place : hsim.
Hint Resolve tree_size tree_addr sim_keyed sim_rekey sim_tins sim_tdel sim_tlub sim_tglb sim_h_grain sim_h_grain_bits
  sim_h_size sim_h_gn sim_assert sim_st : hsim.

Ltac hrelated H :=
  lazymatch type of H with
  | _ = _ => destruct H
  | found _ _ => idtac
  | _ => destruct H as [-> H]
  end.

Ltac hstep :=
  cbv beta zeta;
  lazymatch goal with
  | |- sim _ (if _ then _ else _) (if _ then _ else _) => apply sim_if; [done| |]
  | |- sim _ (mret _) (mret _) => apply sim_ret
  | |- sim _ (_ ≫= _) (_ ≫= _) =>
      first [ eapply sim_bind; [solve [eauto 4 with hsim nocore]|]
            | eapply (sim_bind _ _ _ eq); [solve [repeat hstep; done]|] ];
      let a := fresh "a" in let b := fresh "b" in let H := fresh "H" in intros a b H; hrelated H
  | |- sim _ _ _ => solve [eauto 4 with hsim nocore]
  end.
Ltac hsim := repeat hstep.

Lemma sim_heap_off p p' : at_ p p' -> live p -> sim word (ldms_heap_off h p) (ldms_heap_off h' p').
Proof.
  intros -> Hl. unfold ldms_heap_off. rewrite !(proj2 (Z.eqb_neq _ _)) by (unfold live in Hl; lia).
  cbn [h_base]. replace (p + d - (h_base h + d)) with (p - h_base h) by lia. hsim. split; [done|]. by apply u64_nonneg.
Qed.
Hint Resolve sim_heap_off : hsim.

Lemma sim_chunk_end q q' : at_ q q' -> sim word (chunk_end h q) (chunk_end h' q').
Proof. intros Hq. unfold chunk_end. hsim. split; [done|]. by apply u64_nonneg. Qed.
Hint Resolve sim_chunk_end : hsim.

(** NULL, or a chunk. *)
Definition chunk (p p' : Z) : Prop := p = 0 /\ p' = 0 \/ p' = p + d /\ live p.

Lemma sim_alloc size : sim chunk (ldms_heap_alloc h size) (ldms_heap_alloc h' size).
Proof.
  unfold ldms_heap_alloc. do 3 hstep. destruct H1 as [[-> ->]|(-> & H1 & H2)]; [by apply sim_ret; left|].
  rewrite !(proj2 (Z.eqb_neq _ _)) by lia. hsim. right. unfold of_size_node, live. lia.
Qed.

(** [ldms_heap_free] merges the chunk with the one before it and the one
    after it. *)
Lemma sim_free p p' : at_ p p' -> 4 < p /\ 4 < p + d -> sim eq (ldms_heap_free h p) (ldms_heap_free h' p').
Proof.
  intros -> Hp. unfold ldms_heap_free.
  assert (at_ (p - 4) (p + d - 4) /\ live (p - 4)) as [Ha Hl] by (unfold at_, live; lia).
  revert Ha Hl. generalize (p - 4) (p + d - 4). clear p Hp. intros p p' Hp Hl.
  hstep. eapply sim_bind; [by apply sim_ld|]. intros count ? [-> Hc]. do 3 hstep.
  eapply (sim_bind _ _ _ (fun q q' => at_ q q' /\ live q)).
  { destruct H0 as [[-> ->]|(-> & H1 & H2)]; [by apply sim_ret|]. rewrite !(proj2 (Z.eqb_neq _ _)) by lia. hsim; split; place. }
  clear p p' Hp Hl H0. intros p p' [Hp Hl]. do 2 hstep.
  eapply (sim_bind _ _ _ eq).
  { destruct H1 as [[-> ->]|(-> & H1 & H2)]; [by apply sim_ret|]. rewrite !(proj2 (Z.eqb_neq _ _)) by lia. hsim. done. }
  intros. hsim.
Qed.

(** The same counts; [start] is an address. *)
Definition same_info (i i' : ldms_heap_info) : Prop :=
  i' = Info (i_start i + d) (i_grain i) (i_grain_bits i) (i_size i) (i_free_chunks i) (i_free_bytes i) (i_largest i) (i_smallest i).

Lemma sim_heap_stat n lv i i' : ptr_ok d 1 n -> same_info i i' ->
  sim (step_data same_info) (heap_stat n lv i) (heap_stat (sh d n) lv i').
Proof.
  intros Hn ->. unfold heap_stat, r_key, size_node, of_addr_node. rewrite <- !Z.add_assoc.
  eapply sim_bind; [apply (sim_field d 1); [lia|done|lia]|]. intros a b [-> Ha]. by apply sim_ret.
Qed.

Lemma sim_get_info : sim same_info (ldms_heap_get_info h) (ldms_heap_get_info h').
Proof.
  unfold ldms_heap_get_info. do 3 hstep. rewrite addr_tree_move.
  eapply sim_bind; [apply (sim_traverse d 1 pre post (h_addr_tree h) ltac:(lia) ltac:(cbn; lia) same_info); [apply sim_heap_stat|done]|].
  intros [rc i] [rc' i'] [_ Hi]. by apply sim_ret.
Qed.

(** ** Sessions *)

Lemma sim_heap_do c : call_ok c -> sim eq (heap_do h c) (heap_do h' c).
Proof.
  destruct c as [size|off|]; intros Hc; cbn [heap_do call_ok] in *.
  - eapply sim_bind; [apply sim_alloc|]. intros p p' [[-> ->]|[-> Hp]]; apply sim_ret; [done|].
    unfold live in Hp. rewrite !(proj2 (Z.eqb_neq _ _)) by lia. cbn [h_base]. f_equal. lia.
  - eapply sim_bind; [apply sim_free; [unfold at_; cbn [h_base]; lia|lia]|]. intros. by apply sim_ret.
  - eapply sim_bind; [apply sim_get_info|]. intros i i' ->. by apply sim_ret.
Qed.

Lemma sim_heap_do_all cs : Forall call_ok cs -> sim eq (heap_do_all h cs) (heap_do_all h' cs).
Proof.
  induction 1 as [|c cs Hc _ IH]; cbn [heap_do_all]; [by apply sim_ret|].
  eapply sim_bind; [by apply sim_heap_do|]. intros a ? <-. eapply sim_bind; [exact IH|]. intros al ? <-. by apply sim_ret.
Qed.

End heap.

(** C9: a heap survives [memcpy].  Whenever a session of allocations, frees
    and statistics on an initialised heap ends, the same session on a copy of
    the bytes at another address, opened with the copy's addresses, ends with
    the same answers, and the copy has changed in the same way: its bytes are
    again those of the original, and nothing around them was touched.  Both
    blocks are above the first 64 bytes of the address space, and no free
    names the first four bytes of the block. *)
Theorem heap_relocation heap base d pre post m1 m2 cs answers m1' :
  moved d pre post m1 m2 -> 64 <= base -> 64 <= base + d -> Forall call_ok cs ->
  heap_session heap base cs m1 = Some (answers, m1') ->
  exists m2', heap_session (heap + d) (base + d) cs m2 = Some (answers, m2') /\
    cells m2' = pre ++ cells m1' ++ post.
Proof.
  intros Hm Hb Hb' Hcs Hrun.
  assert (sim d pre post eq (heap_session heap base cs) (heap_session (heap + d) (base + d) cs)) as Hsim.
  { eapply sim_bind with (R := fun h h' => h = Heap heap base /\ h' = Heap (heap + d) (base + d)).
    - eapply sim_bind; [apply sim_peek|]. intros sg ? (-> & _). eapply sim_bind; [apply sim_assert|].
      intros. by apply sim_ret.
    - intros ? ? [-> ->]. by apply (sim_heap_do_all d pre post (Heap heap base)). }
  destruct (Hsim m1 m2 answers m1' Hm Hrun) as (a & m2' & Hr & <- & Hm'). exists m2'. split; [done|apply Hm'].
Qed.

(** ** A heap of 512 bytes and its copy *)

Definition reloc_heap : mem :=
  match ldms_heap_init 4096 4160 512 64 (Mem 4096 (replicate 640 0)) with
  | Some (_, m) => m
  | None => Mem 0 []
  end.

Definition reloc_copy : mem := Mem 65520 (replicate 16 170 ++ cells reloc_heap ++ replicate 8 85).

Definition reloc_calls : list heap_call :=
  [CAlloc 100; CAlloc 50; CAlloc 300; CInfo; CFree 12; CFree 140; CInfo; CAlloc 60; CInfo].

Definition reloc_run : option (list heap_answer * mem) := heap_session 4096 4160 reloc_calls reloc_heap.

Lemma reloc_moved : moved 61440 (replicate 16 170) (replicate 8 85) reloc_heap reloc_copy.
Proof.
  constructor; [done|by vm_compute|by vm_compute|].
  apply (bool_decide_unpack _). vm_compute. exact I.
Qed.

Definition reloc_answers : list heap_answer :=
  [AChunk 12; AChunk 140; AChunk 204; AInfo 64 6 512 0 0 0 513; ADone; ADone; AInfo 64 6 512 1 3 3 3; AChunk 12;
   AInfo 64 6 512 1 2 2 2].

Definition reloc_after : mem := match reloc_run with Some (_, m) => m | None => Mem 0 [] end.

Lemma reloc_run_eq : heap_session 4096 4160 reloc_calls reloc_heap = Some (reloc_answers, reloc_after).
Proof. vm_compute. reflexivity. Qed.

Lemma reloc_calls_ok : Forall call_ok reloc_calls.
Proof. unfold reloc_calls. rewrite !Forall_cons, Forall_nil. cbn. lia. Qed.

Lemma heap_relocation_witness :
  exists m2', heap_session 65536 65600 reloc_calls reloc_copy = Some (reloc_answers, m2') /\
    cells m2' = replicate 16 170 ++ cells reloc_after ++ replicate 8 85.
Proof.
  exact (heap_relocation 4096 4160 61440 _ _ reloc_heap reloc_copy reloc_calls reloc_answers reloc_after
    reloc_moved ltac:(lia) ltac:(lia) reloc_calls_ok reloc_run_eq).
Defined.
