(* ===== verification/HeapInit.v ===== *)
(** * Initialisation of the heap of a metric set

    [ldms_heap_init] makes a heap with one free chunk: it writes the header
    and the first 72 bytes of the block, and nothing else. *)

From stdpp Require Import prelude.
From S2P Require Import Prelude Bytes Mem MemFrame MVal Rrbt LdmsHeap.

Open Scope Z_scope.

(** One load of a sequence, of a word that is known. *)
Ltac ld_step w := apply runs_bind; eapply (runs_ld_word w); [eassumption|try done|].

(** The node [x] with its three links, colour and key. *)
Definition rnode_at (m : mem) (x color l r p key : Z) : Prop :=
  has m x (le_bytes 8 (2 * l + color)) /\ has m (x + 8) (le_bytes 8 r) /\
  has m (x + 16) (le_bytes 8 p) /\ has m (x + 24) (le_bytes 8 key).

(** One step of a sequence of loads and checks. *)
Ltac check_step :=
  match goal with
  | |- runs (_ ≫= fun _ => _) _ _ => apply runs_bind
  | |- runs (ldw _ _) _ _ => eapply (runs_ld_word 8); [eassumption|done|]
  | |- runs (c_assert _) _ _ => apply runs_assert; [done|]
  | |- runs (mret _) _ _ => apply runs_ret
  | |- runs (if ?b then _ else _) _ _ => let v := eval vm_compute in b in change b with v; cbv iota
  end.

Section singleton.
Context (t : rrbt_t) (x key : Z).
Context (Hx : 0 < x) (Hoff : 0 < x - t_base t < 2 ^ 63).

Local Lemma off_x : rrbt_off t x = x - t_base t.
Proof. unfold rrbt_off. rewrite (proj2 (Z.eqb_neq _ _)) by lia. apply u64_small. lia. Qed.

Local Lemma ptr_x : rrbn_ptr t (x - t_base t) = x.
Proof. unfold rrbn_ptr. rewrite (proj2 (Z.eqb_neq _ _)) by lia. lia. Qed.

(** A tree of one black node passes the checks. *)
Lemma runs_verify_singleton m (Q : unit -> mem -> Prop) :
  rnode_at m x RRBN_BLACK 0 0 0 key -> has m (t_root t) (le_bytes 8 (x - t_base t)) ->
  Q tt m -> runs (r_verify_tree t) m Q.
Proof.
  intros (Hl & Hr & Hp & _) Hroot HQ. unfold r_verify_tree, r_root, r_fuel, r_verify_property_5, r_node_color.
  ld_step 8%nat; [lia|]. rewrite ptr_x.
  assert (x =? 0 = false) as Hx0 by (apply Z.eqb_neq; lia). rewrite Hx0.
  apply runs_bind, runs_gets.
  assert (length (cells m) <> 0%nat) as Hc.
  { apply has_inside in Hl. unfold inside, msize in Hl. rewrite zlen_le in Hl. lia. }
  destruct (length (cells m)) as [|n]; [done|].
  cbn [r_verify_property_1 r_verify_property_4 r_verify_property_5_helper].
  unfold r_verify_property_2, r_node_color, r_color, r_left, r_right, r_parent, rrbn_ptr.
  rewrite !Hx0, off_x. cbn [Z.eqb].
  repeat check_step. apply runs_assert.
  { change ((2 * 0 + RRBN_BLACK) / 2) with 0. by rewrite (proj2 (Z.eqb_neq _ _)) by lia. }
  repeat check_step. done.
Qed.

Lemma runs_verify_empty m (Q : unit -> mem -> Prop) :
  has m (t_root t) (le_bytes 8 0) -> Q tt m -> runs (r_verify_tree t) m Q.
Proof.
  intros Hroot HQ. unfold r_verify_tree, r_root. ld_step 8%nat. by apply runs_ret.
Qed.

(** Insertion into the empty tree. *)
Lemma runs_ins_empty m :
  bytes_ok (cells m) -> has m (t_root t) (le_bytes 8 0) -> has m (x + 24) (le_bytes 8 key) ->
  inside m x 32 -> apart (t_root t) 8 x 32 ->
  runs (rrbt_ins t x) m (fun _ m' =>
    has m' (t_root t) (le_bytes 8 (x - t_base t)) /\ rnode_at m' x RRBN_BLACK 0 0 0 key /\
    frame2 m m' (t_root t) 8 x 32).
Proof.
  intros Hb Hroot Hkey Hi Hap. unfold rrbt_ins. pose proof (has_inside _ _ _ Hroot) as Hri.
  apply runs_bind, runs_verify_empty; [done|]. unfold r_set_parent, r_set_right, r_set_left, r_set_color, r_set_root.
  st_step m1 H1 F1; [range|]. st_step m2 H2 F2; [in_range|].
  apply runs_bind, runs_bind. eapply (runs_ldw_any 8 _ _ 8); [done|in_range| |].
  { by apply F2, F1. }
  intros w Hw Hwr. eapply runs_stw'; [done|in_range|intros m3 H3 F3].
  assert (has m3 (t_root t) (le_bytes 8 0)) by from_before.
  unfold r_root. ld_step 8%nat. cbn [Z.eqb]. st_step m4 H4 F4; [in_range|].
  assert (has m4 x (le_bytes 8 (2 * (0 mod 2 ^ 63) + w mod 2))) as Hw4 by from_before.
  pose proof (Z.mod_pos_bound w 2 ltac:(lia)).
  apply runs_bind, runs_bind. eapply (runs_ld_word 8); [exact Hw4|change (0 mod 2 ^ 63) with 0; lia|].
  replace ((2 * (0 mod 2 ^ 63) + w mod 2) / 2) with 0 by (change (0 mod 2 ^ 63) with 0; dlia).
  eapply runs_stw'; [done|in_range|intros m5 H5 F5]. rewrite off_x.
  st_step m6 H6 F6; [in_range|].
  assert (rnode_at m6 x RRBN_BLACK 0 0 0 key) as Hn.
  { unfold rnode_at. split_and!; from_before. }
  eapply runs_verify_singleton; [done|done|]. split_and!; [done|done|].
  do 5 (eapply frame2_trans; [eapply frame2_r; [eassumption|lia..]|]). eapply frame2_l; [exact F6|lia..].
Qed.

End singleton.

Definition sizeof_ldms_heap : Z := 40.
Definition heap_head : Z := 72.

Lemma zlen_signature : zlen LDMS_HEAP_SIGNATURE = 8.
Proof. done. Qed.
#[export] Hint Rewrite zlen_signature : zlen.

(** A heap with one free chunk. *)
Definition fresh_heap_at (m : mem) (heap base size : Z) : Prop :=
  has m heap (le_bytes 4 (6 + 256 * 64)) /\ has m (heap + 8) (le_bytes 8 size) /\
  has m (heap + 16) (le_bytes 4 0) /\
  has m (heap + 24) (le_bytes 8 40) /\ has m (heap + 32) (le_bytes 8 8) /\
  has m base LDMS_HEAP_SIGNATURE /\
  rnode_at m (base + 8) RRBN_BLACK 0 0 0 8 /\ rnode_at m (base + 40) RRBN_BLACK 0 0 0 (size / 64).

Lemma fresh_heap_keep m m' heap base size :
  (forall q bs, has m q bs ->
     heap <= q /\ q + zlen bs <= heap + sizeof_ldms_heap \/ base <= q /\ q + zlen bs <= base + heap_head ->
     has m' q bs) ->
  fresh_heap_at m heap base size -> fresh_heap_at m' heap base size.
Proof.
  intros Hk (H1 & H2 & H3 & H4 & H5 & H6 & (A1 & A2 & A3 & A4) & (B1 & B2 & B3 & B4)).
  unfold fresh_heap_at, rnode_at, sizeof_ldms_heap, heap_head in *.
  split_and!; (apply Hk; [done|first [left; range|right; range]]).
Qed.

Lemma heap_size_eq size : 0 <= size < 2 ^ 63 -> size mod 512 = 0 -> mask_roundup size 512 = size.
Proof. intros. rewrite (mask_roundup_pow2 9) by lia. change (2 ^ 9) with 512. dlia. Qed.

Lemma runs_heap_init m heap base size :
  bytes_ok (cells m) -> 0 < size < 2 ^ 63 -> size mod 512 = 0 -> 0 < base -> base mod 8 = 0 ->
  inside m heap sizeof_ldms_heap -> inside m base heap_head -> apart heap sizeof_ldms_heap base heap_head ->
  runs (ldms_heap_init heap base size LDMS_LIST_GRAIN) m (fun _ m' =>
    fresh_heap_at m' heap base size /\ frame2 m m' heap sizeof_ldms_heap base heap_head).
Proof.
  intros Hb Hs Hs5 Hpos Hal Hh Hbi Hap. unfold ldms_heap_init, LDMS_HEAP_MIN_SIZE, sizeof_ldms_heap, heap_head in *.
  rewrite (proj2 (Z.eqb_neq _ _)) by lia. rewrite heap_size_eq by lia. cbv zeta.
  apply runs_bind. exists (64, 6), m. split; [reflexivity|].
  st_step m1 H1 F1; [range|]. st_step m2 H2 F2; [in_range|]. st_step m3 H3 F3; [in_range|].
  unfold rrbt_init. st_step m4 H4 F4; [in_range|]. st_step m5 H5 F5; [in_range|].
  apply runs_bind. eapply (runs_poke' _ _ _ 8); [in_range|done|by repeat constructor|intros m6 H6 F6].
  apply runs_bind, runs_assert; [apply Z.eqb_eq; dlia|]. unfold rrbn_init, size_node, addr_node.
  st_step m7 H7 F7; [in_range|].
  assert (bytes_ok (cells m7)) as Hb7 by (by apply F7, F6, F5, F4, F3, F2, F1).
  assert (frame2 m m7 heap 40 base 72) as Fa.
  { do 5 (eapply frame2_trans; [eapply frame2_l; [eassumption|lia..]|]).
    eapply frame2_trans; [eapply frame2_r; [exact F6|lia..]|]. eapply frame2_r; [exact F7|lia..]. }
  assert (has m7 (heap + 24) (le_bytes 8 0)) by from_before.
  apply runs_bind. eapply runs_mono; [apply (runs_ins_empty _ _ (size / 64)); cbn [h_size_tree t_root t_base h_data h_base]|].
  1-7: first [done|lia|in_range|by replace (base + 8 + 32 + 24) with (base + 8 + 32 + 24) by lia|range].
  cbn [h_size_tree t_root t_base h_data h_base]. intros _ m8 (Hr8 & (N1 & N2 & N3 & N4) & F8).
  st_step m9 H9 F9; [in_range|].
  assert (has m9 (heap + 32) (le_bytes 8 0)) by from_before.
  rewrite u64_small in H9 by lia. replace (base + 8 - base) with 8 in H9 by lia.
  eapply runs_mono; [apply (runs_ins_empty _ _ 8); cbn [h_addr_tree t_root t_base h_data h_base]|].
  1-7: first [done|lia|in_range|range|by apply F9, F8].
  cbn [h_addr_tree t_root t_base h_data h_base]. intros _ m10 (Hr10 & (A1 & A2 & A3 & A4) & F10).
  replace (base + 8 - base) with 8 in Hr10 by lia. replace (base + 8 + 32 - base) with 40 in Hr8 by lia.
  split.
  - unfold fresh_heap_at. replace (base + 40) with (base + 8 + 32) by lia. unfold rnode_at.
    split_and!; from_before.
  - eapply frame2_trans; [exact Fa|]. eapply frame2_trans; [eapply frame2_sub; [exact F8|lia..]|].
    eapply frame2_trans; [eapply frame2_r; [exact F9|lia..]|]. eapply frame2_sub; [exact F10|lia..].
Qed.
