(* ===== verification/SetCreate.v ===== *)
(** * Creation of a metric set

    Model of [ldms_set_create] of ldms.c and what it calls: the sizes of the
    set, the header, the names, the data headers, the metric descriptors, the
    record types and the record arrays, written into one allocation of bytes,
    and the registration of the set under its name. *)

From stdpp Require Import prelude gmap strings.
From Stdlib Require Import Ascii String.
From S2P Require Import Prelude Bytes CStr Mem CFloat MVal Schema Rrbt LdmsHeap.

Open Scope Z_scope.

(** ** Layout of the structures (ldms_core.h)

    Offsets of the members of [struct ldms_set_hdr], [struct ldms_data_hdr],
    [struct ldms_value_desc], [struct ldms_record_type],
    [struct ldms_record_inst] and [struct ldms_record_array]. *)

Definition sh_meta_gn : Z := 64.
Definition sh_version : Z := 72.
Definition sh_flags : Z := 76.
Definition sh_card : Z := 80.
Definition sh_meta_sz : Z := 84.
Definition sh_data_sz : Z := 88.
Definition sh_uid : Z := 92.
Definition sh_gid : Z := 96.
Definition sh_perm : Z := 100.
Definition sh_array_card : Z := 104.
Definition sh_heap_sz : Z := 108.
Definition sh_dict : Z := 140.

Definition dh_ts_sec : Z := 0.
Definition dh_ts_usec : Z := 4.
Definition dh_dur_sec : Z := 8.
Definition dh_dur_usec : Z := 12.
Definition dh_trans_flags : Z := 16.
Definition dh_set_off : Z := 20.
Definition dh_gn : Z := 24.
Definition dh_size : Z := 32.
Definition dh_meta_gn : Z := 40.
Definition dh_curr_idx : Z := 48.
Definition dh_heap : Z := 56.

Definition vd_user_data : Z := 0.
Definition vd_data_offset : Z := 8.
Definition vd_array_count : Z := 12.
Definition vd_type : Z := 24.
Definition vd_flags : Z := 25.
Definition vd_name_unit_len : Z := 26.
Definition vd_name_unit : Z := 27.

Definition rt_n : Z := 8.
Definition rt_inst_sz : Z := 12.
Definition rt_dict : Z := 16.

Definition ri_set_data_off : Z := 8.
Definition ri_rec_type : Z := 12.

Definition ra_inst_sz : Z := 0.
Definition ra_rec_type : Z := 4.
Definition ra_array_len : Z := 8.
Definition ra_data : Z := 12.

Definition LDMS_RECORD_F_TYPE : Z := 1.
Definition LDMS_RECORD_F_INST : Z := 2.
Definition LDMS_SETH_F_LCLBYTEORDER : Z := 2.
Definition LDMS_LIST_HEAP : Z := 512.
Definition LDMS_SET_F_LOCAL : Z := 4.

(** [LDMS_VERSION_MAJOR], [MINOR], [PATCH] and [FLAGS]. *)
Definition ldms_version : bytes := [4; 2; 0; 0].

(** ** C strings in memory *)

Definition cstr (s : string) : bytes := str_bytes s ++ [0].

Definition strcpy (dst : Z) (s : string) : M mem unit := poke dst (cstr s).

(** The bytes up to the terminating zero. *)
Fixpoint ld_cstr (fuel : nat) (p : Z) : M mem string :=
  match fuel with
  | O => stuck
  | S fuel =>
      c ← ldw 1 p;
      if c =? 0 then mret EmptyString
      else s ← ld_cstr fuel (p + 1); mret (String (ascii_of_N (Z.to_N c)) s)
  end.

Definition ld_str (p : Z) : M mem string :=
  f ← gets (fun m => S (List.length (cells m))); ld_cstr f p.

(** ** Names in the meta data *)

Definition get_instance_name (meta : Z) : M mem Z :=
  card ← ldw 4 (meta + sh_card);
  mret (meta + sh_dict + 4 * card).

(** [&name->name[name->len]]. *)
Definition after_name (name : Z) : M mem Z :=
  len ← ldw 1 name; mret (name + 1 + len).

Definition get_schema_name (meta : Z) : M mem Z :=
  inst ← get_instance_name meta; after_name inst.

Definition get_first_metric_desc (meta : Z) : M mem Z :=
  name ← get_schema_name meta;
  p ← after_name name;
  mret (mask_roundup p 8).

(** ** Sizes *)

(** The list with the counts of its list metrics completed, and their sum. *)
Definition list_count (e : mentry) : mentry :=
  match e with
  | MPlain (Mdef name unit t flags count meta_sz data_sz) =>
      if (t =? code LDMS_V_LIST) && (count =? 0)
      then MPlain (Mdef name unit t flags LDMS_LIST_HEAP meta_sz data_sz)
      else e
  | _ => e
  end.

Definition list_heap (e : mentry) : Z :=
  match list_count e with
  | MPlain m => if md_type m =? code LDMS_V_LIST then md_count m else 0
  | _ => 0
  end.

Definition sum_Z (l : list Z) : Z := foldr Z.add 0 l.

Record set_sizes := Sizes {
  sz_array_card : Z;
  sz_meta : Z;
  sz_array_data : Z;
  sz_heap : Z;
  sz_total : Z
}.

(** [None] is the error return 0 with [errno] EINVAL. *)
Definition compute_set_sizes (instance_name : string) (s heap_sz : Z) : W (option set_sizes) :=
  x ← schema_at s;
  let hsz := u64 (sum_Z (list_heap <$> sc_list x)) in
  set_schema s (Schema (sc_name x) (sc_digest x) (sc_evp x) (sc_card x) (sc_meta_sz x)
                  (sc_data_sz x) (sc_array_card x) (list_count <$> sc_list x));;
  let heap_sz := if heap_sz <? hsz then hsz else heap_sz in
  let heap_sz := ldms_heap_size heap_sz in
  let card := sc_array_card x in
  if card <? 0 then mret None else
  let card := if card =? 0 then 1 else card in
  let meta_sz := u64 (sc_meta_sz x + strlen (sc_name x) + 2 + LDMS_DIGEST_LENGTH
                      + strlen instance_name + 2) in
  let meta_sz := mask_roundup meta_sz 8 in
  c_assert (sc_data_sz x =? mask_roundup (sc_data_sz x) 8);;
  let array_data_sz := u64 ((sc_data_sz x + heap_sz) * card) in
  mret (Some (Sizes card meta_sz array_data_sz heap_sz (u64 (meta_sz + array_data_sz)))).

(** ** Descriptors *)

(** The descriptor of [md] at [vd]; the offset after its value. *)
Definition __make_mdesc (vd : Z) (md : mdef) (value_off : Z) : M mem Z :=
  stw 1 (vd + vd_type) (md_type md);;
  stw 1 (vd + vd_flags) (md_flags md);;
  stw 4 (vd + vd_array_count) (md_count md);;
  let name_len := strlen (md_name md) + 1 in
  poke (vd + vd_name_unit) (cstr (md_name md));;
  unit_len ← match md_unit md with
             | Some u => poke (vd + vd_name_unit + name_len) (cstr u);; mret (strlen u + 1)
             | None => mret 0
             end;
  stw 1 (vd + vd_name_unit_len) (name_len + unit_len);;
  if flag (md_flags md) LDMS_MDESC_F_DATA then
    stw 4 (vd + vd_data_offset) value_off;;
    sz ← lift_opt (__ldms_value_size_get (md_type md) (md_count md));
    mret (value_off + sz)
  else
    stw 4 (vd + vd_data_offset) 0;;
    mret value_off.

(** The elements of a metric list with what they point to. *)
Inductive rentry :=
| RPlain (m : mdef)
| RRecord (r : ldms_record)
| RRecArray (m : mdef) (rec_type inst_sz : Z).

Definition rentry_mdef (e : rentry) : mdef :=
  match e with
  | RPlain m | RRecArray m _ _ => m
  | RRecord r => rc_mdef r
  end.

Fixpoint resolve (l : list mentry) : W (list rentry) :=
  match l with
  | [] => mret []
  | e :: l =>
      e ← match e with
          | MPlain m => mret (RPlain m)
          | MRecord r => x ← record_at r; mret (RRecord x)
          | MRecArray m rt isz => mret (RRecArray m rt isz)
          end;
      l ← resolve l;
      mret (e :: l)
  end.

(** The first pass: the dictionary and the descriptors.  [vd] is the next
    descriptor, [value_off] the next offset in the data section. *)
Fixpoint make_mdescs (meta : Z) (l : list rentry) (idx vd value_off : Z) : M mem Z :=
  match l with
  | [] => mret vd
  | e :: l =>
      let md := rentry_mdef e in
      stw 4 (meta + sh_dict + 4 * idx) (vd - meta);;
      value_off ← __make_mdesc vd md value_off;
      t ← ldw 1 (vd + vd_type);
      let value_off :=
        if t =? code LDMS_V_RECORD_ARRAY then value_off + u64 (md_count md * md_data_sz md)
        else value_off in
      make_mdescs meta l (idx + 1) (vd + md_meta_sz md) value_off
  end.

(** The members of a record type at [rt]. *)
Fixpoint make_members (rt : Z) (fuel : nat) (l : list mdef) (j n type_off inst_off : Z)
    : M mem (Z * Z) :=
  match fuel with
  | O => stuck
  | S fuel =>
      if j <? n then
        match l with
        | [] => stuck
        | md :: l =>
            stw 4 (rt + rt_dict + 4 * j) type_off;;
            let vd := rt + type_off in
            stw 8 (vd + vd_user_data) 0x012345678abcdef;;
            inst_off ← __make_mdesc vd md inst_off;
            len ← ldw 1 (vd + vd_name_unit_len);
            c_assert (sizeof_ldms_value_desc + len <=? md_meta_sz md);;
            make_members rt fuel l (j + 1) n (type_off + md_meta_sz md) inst_off
        end
      else mret (type_off, inst_off)
  end.

(** The record type of [r] at [rt]. *)
Definition make_record_type (rt : Z) (r : ldms_record) : M mem unit :=
  stw 4 rt LDMS_RECORD_F_TYPE;;
  '(type_off, inst_off) ←
    make_members rt (S (S (List.length (rc_list r)))) (rc_list r) 0 (rc_n r)
      (sizeof_ldms_record_type + rc_n r * 4) sizeof_ldms_record_inst;
  c_assert (inst_off =? rc_inst_sz r);;
  c_assert (type_off =? md_data_sz (rc_mdef r));;
  stw 4 (rt + rt_n) (rc_n r);;
  stw 4 (rt + rt_inst_sz) inst_off.

(** One attribute of the second pass: the offset after it. *)
Definition meta_value (meta vd value_off : Z) (e : rentry) : M mem Z :=
  flags ← ldw 1 (vd + vd_flags);
  if flag flags LDMS_MDESC_F_DATA then mret value_off
  else
    stw 4 (vd + vd_data_offset) value_off;;
    t ← ldw 1 (vd + vd_type);
    if negb (t =? code LDMS_V_RECORD_TYPE) then
      count ← ldw 4 (vd + vd_array_count);
      sz ← lift_opt (__ldms_value_size_get t count);
      mret (value_off + sz)
    else
      match e with
      | RRecord r => make_record_type (meta + value_off) r;; mret (value_off + md_data_sz (rc_mdef r))
      | _ => stuck
      end.

(** The second pass: the offsets of the meta attributes, and the record
    types. *)
Fixpoint make_meta_values (meta : Z) (fuel : nat) (l : list rentry) (i card value_off : Z) : M mem unit :=
  match fuel with
  | O => stuck
  | S fuel =>
      if i <? card then
        match l with
        | [] => stuck
        | e :: l =>
            off ← ldw 4 (meta + sh_dict + 4 * i);
            value_off ← meta_value meta (meta + off) value_off e;
            make_meta_values meta fuel l (i + 1) card value_off
        end
      else mret tt
  end.

(** ** The set *)

(** [struct ldms_set]: the fields the operations on metrics use, and the
    allocation that holds the meta data and the data sections.  [s_pushes]
    records the calls of [__ldms_xprt_push]. *)
Record ldms_set := Set_ {
  s_flags : Z;
  s_set_id : Z;
  s_meta : Z;
  s_data : Z;
  s_data_array : Z;
  s_curr_idx : Z;
  s_heap : option ldms_heap_t;
  s_pushes : list Z;
  s_mem : mem
}.

(** The data header of index [i] of the set array. *)
Definition __set_array_get (data_array meta i : Z) : M mem Z :=
  sz ← ldw 4 (meta + sh_data_sz);
  mret (data_array + i * sz).

(** The header of the data section [i]. *)
Definition init_data_hdr (meta data_base data_sz hsz card i : Z) : M mem unit :=
  let data := data_base + i * (data_sz + hsz) in
  stw 8 (data + dh_size) (data_sz + hsz);;
  stw 4 (data + dh_curr_idx) (card - 1);;
  gn ← ldw 8 (meta + sh_meta_gn);
  stw 8 (data + dh_meta_gn) gn;;
  stw 8 (data + dh_gn) gn;;
  stw 4 (data + dh_set_off) (data - meta);;
  if hsz =? 0 then mret tt
  else ldms_heap_init (data + dh_heap) (data + data_sz) hsz LDMS_LIST_GRAIN.

(** [for (i = 0; i < n; i++) body(i)]. *)
Fixpoint for_up {S} (n : nat) (i : Z) (body : Z -> M S unit) : M S unit :=
  match n with
  | O => mret tt
  | Datatypes.S n => body i;; for_up n (i + 1) body
  end.

(** One record array of [count] instances at [ra], in the data section at
    [dh]. *)
Definition init_rec_array (dh ra count rec_type inst_sz : Z) : M mem unit :=
  stw 4 (ra + ra_array_len) count;;
  stw 4 (ra + ra_inst_sz) inst_sz;;
  stw 4 (ra + ra_rec_type) rec_type;;
  for_up (Z.to_nat count) 0 (fun j =>
    let inst := ra + ra_data + s32 (j * inst_sz) in
    rt ← ldw 4 (ra + ra_rec_type);
    stw 4 (inst + ri_rec_type) rt;;
    stw 4 (inst + ri_set_data_off) (inst - dh);;
    stw 4 inst LDMS_RECORD_F_INST).

Fixpoint __init_rec_array (data_array meta array_card : Z) (l : list rentry) (idx : Z) : M mem unit :=
  match l with
  | [] => mret tt
  | e :: l =>
      (if negb (md_type (rentry_mdef e) =? code LDMS_V_RECORD_ARRAY) then mret tt
       else match e with
            | RRecArray md rec_type inst_sz =>
                off ← ldw 4 (meta + sh_dict + 4 * idx);
                let vd := meta + off in
                t ← ldw 1 (vd + vd_type);
                c_assert (t =? code LDMS_V_RECORD_ARRAY);;
                for_up (Z.to_nat array_card) 0 (fun i =>
                  dh ← __set_array_get data_array meta i;
                  voff ← ldw 4 (vd + vd_data_offset);
                  init_rec_array dh (dh + voff) (md_count md) rec_type inst_sz)
            | _ => stuck
            end);;
      __init_rec_array data_array meta array_card l (idx + 1)
  end.

(** The fields of the set header. *)
Definition write_header (meta card data_sz : Z) (sz : set_sizes) (uid gid perm : Z) : M mem unit :=
  poke (meta + sh_version) ldms_version;;
  stw 4 (meta + sh_card) card;;
  stw 4 (meta + sh_meta_sz) (sz_meta sz);;
  stw 4 (meta + sh_data_sz) (u32 data_sz + u32 (sz_heap sz));;
  stw 4 (meta + sh_heap_sz) (sz_heap sz);;
  stw 8 (meta + sh_meta_gn) 1;;
  stw 1 (meta + sh_flags) LDMS_SETH_F_LCLBYTEORDER;;
  stw 4 (meta + sh_uid) uid;;
  stw 4 (meta + sh_gid) gid;;
  stw 4 (meta + sh_perm) perm;;
  stw 4 (meta + sh_array_card) (sz_array_card sz).

(** The instance name, the schema name and the digest. *)
Definition write_names (meta : Z) (name schema : string) (digest : bytes) : M mem unit :=
  lname ← get_instance_name meta;
  stw 1 lname (strlen name + 1);;
  strcpy (lname + 1) name;;
  lname ← get_schema_name meta;
  let schema_sz := strlen schema + 1 in
  strcpy (lname + 1) schema;;
  poke (lname + 1 + schema_sz) digest;;
  stw 1 lname (schema_sz + LDMS_DIGEST_LENGTH + 1).

(** The set header, the names and the data headers. *)
Definition write_sections (meta : Z) (name : string) (x : ldms_schema) (sz : set_sizes)
    (uid gid perm : Z) : M mem unit :=
  memset meta 0 (sz_meta sz + sz_array_data sz);;
  write_header meta (sc_card x) (sc_data_sz x) sz uid gid perm;;
  write_names meta name (sc_name x) (sc_digest x);;
  for_up (Z.to_nat (sz_array_card sz)) 0
    (init_data_hdr meta (meta + sz_meta sz) (sc_data_sz x) (sz_heap sz) (sz_array_card sz)).

(** Everything [ldms_set_create] writes into the allocation at [meta], up to
    the registration of the set. *)
Definition write_set (meta : Z) (name : string) (x : ldms_schema) (l : list rentry)
    (sz : set_sizes) (uid gid perm : Z) : M mem unit :=
  write_sections meta name x sz uid gid perm;;
  (* the descriptors and the meta attributes *)
  vd ← get_first_metric_desc meta;
  vd ← make_mdescs meta l 0 vd (mask_roundup sizeof_ldms_data_hdr 8);
  make_meta_values meta (S (S (List.length l))) l 0 (sc_card x) (mask_roundup (vd - meta) 8).

(** ** Registration *)

(** The names and identifiers of the registered sets. *)
Record registry := Reg { g_names : gmap string Z; g_next_id : Z }.

(** [__record_set]: looks the name up, builds the handle, and looks the name
    up again when it inserts the set; [env] is what other threads do to the
    registry in between.  [ok] are the outcomes of the allocation of the
    handle and of [zap_map]. *)
Definition __record_set (env : registry -> registry) (ok : bool * bool) (g : registry)
    (instance_name : string) (meta data_base flags : Z) (m : mem)
    : option (registry * (Z + ldms_set)) :=
  match g_names g !! instance_name with
  | Some _ => Some (g, inl EEXIST)
  | None =>
      if negb ok.1 then Some (g, inl ENOMEM) else
      '(card, m) ← ldw 4 (meta + sh_array_card) m;
      let curr := s32 (card - 1) in
      '(data, m) ← __set_array_get data_base meta curr m;
      let id := g_next_id g in
      let g := env (Reg (g_names g) (id + 1)) in
      if negb ok.2 then Some (g, inl ENOMEM) else
      '(name, m) ← (p ← get_instance_name meta; ld_str (p + 1)) m;
      match g_names g !! instance_name with
      | Some _ => Some (g, inl EEXIST)
      | None => Some (Reg (<[name := id]> (g_names g)) (g_next_id g),
                  inr (Set_ flags id meta data data_base curr None [] m))
      end
  end.

(** ** [ldms_set_create] *)

Definition iscntrl (c : Z) : bool := (c <? 32) || (c =? 127).

(** [char] is signed: a byte above 127 is a negative value. *)
Definition ldms_set_instance_name_char_allowed (c : ascii) : bool :=
  let c := byte_of c in
  negb (iscntrl c) && negb (c =? 34) && negb (c =? 39) && negb (c =? 92) && (c <=? 127).

Fixpoint name_allowed (s : string) : bool :=
  match s with
  | EmptyString => true
  | String c s => ldms_set_instance_name_char_allowed c && name_allowed s
  end.

(** Results of [ldms_set_create]: an [errno] or the set. *)
Section create.
Context (sha256 : bytes -> bytes).

Definition __ldms_schema_finalize (x : ldms_schema) : ldms_schema :=
  if bool_decide (sc_digest x = null_digest)
  then Schema (sc_name x) (sha256 (sc_evp x)) (sc_evp x) (sc_card x) (sc_meta_sz x) (sc_data_sz x)
         (sc_array_card x) (sc_list x)
  else x.

(** [blk n] is what [mm_alloc] returns for [n] bytes; [ok] are the outcomes of
    starting the deletion thread, and of the two steps of [__record_set]. *)
Definition ldms_set_create (blk : Z -> option mem) (env : registry -> registry)
    (ok : bool * bool * bool) (instance_name : option string) (s : option Z)
    (uid gid perm heap_sz : Z) (g : registry) : W (registry * (Z + ldms_set)) :=
  match instance_name, s with
  | Some name, Some s =>
      if negb (name_allowed name) then mret (g, inl EINVAL) else
      if negb ok.1.1 then mret (g, inl ENOMEM) else
      osz ← compute_set_sizes name s heap_sz;
      match osz with
      | None => mret (g, inl EINVAL)
      | Some sz =>
          if s32 (sz_total sz) =? 0 then mret (g, inl 0) else
          x ← schema_at s;
          set_schema s (__ldms_schema_finalize x);;
          x ← schema_at s;
          l ← resolve (sc_list x);
          match blk (u64 (s32 (sz_total sz))) with
          | None => mret (g, inl ENOMEM)
          | Some m =>
              let meta := base m in
              '(_, m) ← lift_opt (write_set meta name x l sz uid gid perm m);
              '(msz, m) ← lift_opt (ldw 4 (meta + sh_meta_sz) m);
              '(g, r) ← lift_opt (__record_set env (ok.1.2, ok.2) g name meta (meta + msz) LDMS_SET_F_LOCAL m);
              match r with
              | inl e => mret (g, inl e)
              | inr set =>
                  '(hsz, m) ← lift_opt (ldw 4 (meta + sh_heap_sz) (s_mem set));
                  heap ← (if hsz =? 0 then mret None else
                            '(h, _) ← lift_opt (ldms_heap_get (s_data set + dh_heap) (s_data set + sc_data_sz x) m);
                            mret (Some h));
                  '(_, m) ← lift_opt (__init_rec_array (s_data_array set) meta (sc_array_card x) l 0 m);
                  mret (g, inr (Set_ (s_flags set) (s_set_id set) meta (s_data set) (s_data_array set)
                                  (s_curr_idx set) heap [] m))
              end
          end
      end
  | _, _ => mret (g, inl EINVAL)
  end.

Definition ldms_set_new_with_auth blk env ok name s uid gid perm :=
  ldms_set_create blk env ok name s uid gid perm 0.

End create.
