(* ===== verification/SchemaInv.v ===== *)
(** * The functions of the schema interface keep the invariant *)

From stdpp Require Import prelude gmap strings.
From Stdlib Require Import Ascii String.
From S2P Require Import Prelude Bytes CStr Mem CFloat MVal MValSpec Schema SchemaSpec Rrbt LdmsHeap SetCreate.

Open Scope Z_scope.

(** A call keeps the invariant of the store. *)
Abbreviation keeps m := (forall w, world_inv w -> after m w (fun _ w' => world_inv w')).

Lemma put_schema_alloc w l s x : put_schema (set_alloc w l) s x = set_alloc (put_schema w s x) l.
Proof. done. Qed.

(** ** Metrics *)

Lemma after_mdef_add w s e m (Q : Z -> world -> Prop) :
  world_inv w -> e = MPlain m \/ (exists rt isz, e = MRecArray m rt isz) -> entry_inv e ->
  (forall x, w_schemas w !! s = Some x -> md_name m ∉ (entry_name (w_records w) <$> sc_list x)) ->
  (forall id w', world_inv w' -> Q id w') -> after (__schema_mdef_add s e) w Q.
Proof.
  intros Hw Hcase Hei Hfresh HQ. unfold __schema_mdef_add. apply after_bind, after_mentry_mdef.
  assert (forall bs, after (schema_append s e m bs) w Q) as H.
  { intros bs. apply after_bind, after_schema_at. intros x Hx. apply after_bind, after_modify, after_ret, HQ.
    eapply world_inv_schema; [done|exact Hx| |intros k r Hk; by apply lookup_app_l_Some].
    apply schema_inv_add; [by apply (wi_schemas _ Hw)|done|done|by apply Hfresh]. }
  destruct Hcase as [->|(rt & isz & ->)]; unfold record_digest; apply after_bind;
    (destruct (md_type m =? code LDMS_V_RECORD_TYPE); [apply after_stuck|by apply after_ret]).
Qed.

Ltac alloc_step := apply after_bind, after_allocated; intros [] ?; cbn [negb].

Lemma keeps_metric_add s name unit flags t count :
  flags = LDMS_MDESC_F_DATA \/ flags = LDMS_MDESC_F_META -> 0 <= count < 2 ^ 32 ->
  keeps (__schema_metric_add s name unit flags t count).
Proof.
  intros Hf Hc w Hw. unfold __schema_metric_add.
  destruct s as [s|]; [|by apply after_ret]. destruct name as [name|]; [|by apply after_ret].
  apply after_bind, after_schema_at. intros x Hx. apply after_bind, after_name_taken. intros b Hb.
  destruct b; [by apply after_ret|]. specialize (Hb eq_refl). destruct (_ && _); [by apply after_ret|].
  assert (forall l, after ('(meta_sz, data_sz) ← lift_opt (__ldms_metric_size_get name unit t count);
      __schema_mdef_add s (MPlain (Mdef name unit t flags count meta_sz data_sz))) (set_alloc w l) (fun _ w' => world_inv w')) as Hadd.
  { intros l. apply after_bind, after_lift. intros [meta_sz data_sz] Hsz.
    eapply (after_mdef_add _ _ _ (Mdef name unit t flags count meta_sz data_sz)); [by apply world_inv_alloc|by left| | |done].
    - cbn. split; [by split|done].
    - intros y Hy. cbn in Hy. rewrite Hx in Hy. by injection Hy as <-. }
  alloc_step; [|by apply after_ret, world_inv_alloc].
  alloc_step; [|apply after_ret; by do 2 apply world_inv_alloc].
  apply after_bind. destruct unit as [u|].
  - apply after_allocated. intros [] l2; cbn [negb]; [apply Hadd|]. apply after_ret. by do 3 apply world_inv_alloc.
  - apply after_ret. apply Hadd.
Qed.

Lemma keeps_metric_add_with_unit s name unit t : keeps (ldms_schema_metric_add_with_unit s name unit t).
Proof.
  intros w Hw. unfold ldms_schema_metric_add_with_unit. destruct (_ || _); [by apply after_ret|].
  apply keeps_metric_add; [by left|lia|done].
Qed.

Lemma keeps_meta_add_with_unit s name unit t : keeps (ldms_schema_meta_add_with_unit s name unit t).
Proof.
  intros w Hw. unfold ldms_schema_meta_add_with_unit. destruct (_ || _); [by apply after_ret|].
  apply keeps_metric_add; [by right|lia|done].
Qed.

Lemma keeps_metric_array_add_with_unit s name unit t count :
  0 <= count < 2 ^ 32 -> keeps (ldms_schema_metric_array_add_with_unit s name unit t count).
Proof.
  intros Hc w Hw. unfold ldms_schema_metric_array_add_with_unit. destruct (negb _); [by apply after_ret|].
  apply keeps_metric_add; [by left|done|done].
Qed.

Lemma keeps_meta_array_add_with_unit s name unit t count :
  0 <= count < 2 ^ 32 -> keeps (ldms_schema_meta_array_add_with_unit s name unit t count).
Proof. intros Hc w Hw. apply keeps_metric_add; [by right|done|done]. Qed.

Lemma keeps_metric_list_add s name units heap_sz :
  0 <= heap_sz < 2 ^ 32 -> keeps (ldms_schema_metric_list_add s name units heap_sz).
Proof. intros Hc w Hw. apply keeps_metric_add; [by left|done|done]. Qed.

(** ** Records *)

Lemma entry_agree (recs recs' : records) e :
  (forall r, e = MRecord r -> recs' !! r = recs !! r) ->
  entry_name recs' e = entry_name recs e /\ meta_part recs' e = meta_part recs e /\
  forall added, twice_part added recs' e = twice_part added recs e.
Proof. intros H. destruct e as [m|r|m ? ?]; [done| |done]. cbn. by rewrite (H r). Qed.

Lemma entry_ext recs r d e :
  e <> MRecord r -> entry_name (<[r := d]> recs) e = entry_name recs e /\
    meta_part (<[r := d]> recs) e = meta_part recs e /\
    forall added, twice_part added (<[r := d]> recs) e = twice_part added recs e.
Proof. intros Hne. apply entry_agree. intros r' ->. apply lookup_insert_ne. congruence. Qed.

(** A schema depends on its own records only. *)
Lemma schema_inv_agree (recs recs' : records) s x :
  schema_inv recs s x -> (forall r, MRecord r ∈ sc_list x -> recs' !! r = recs !! r) -> schema_inv recs' s x.
Proof.
  intros [Hc Ha Hd (sl & Hsl & Hm) He Hn Hp Hdg] Hag.
  assert (forall e, e ∈ sc_list x -> entry_name recs' e = entry_name recs e /\
    meta_part recs' e = meta_part recs e /\ twice_part sl recs' e = twice_part sl recs e) as Hext.
  { intros e Hin. destruct (entry_agree recs recs' e) as (? & ? & ?); [intros r ->; by apply Hag|]. by split_and!. }
  constructor; try done.
  - exists sl. rewrite (sumZ_ext (twice_part sl recs') (twice_part sl recs)), (sumZ_ext (meta_part recs') (meta_part recs));
      [|intros e Hin; by apply Hext..]. split; [|done]. intros r d Hin Hd'. rewrite Hag in Hd' by done. by apply (Hsl r).
  - replace (entry_name recs' <$> sc_list x) with (entry_name recs <$> sc_list x); [done|].
    apply list_fmap_ext. intros i e Hi. symmetry. apply Hext. by eapply list_elem_of_lookup_2.
  - intros k r Hk. rewrite Hag by (by eapply list_elem_of_lookup_2). by apply Hp.
Qed.

Lemma schema_inv_other recs s x r d :
  schema_inv recs s x -> MRecord r ∉ sc_list x -> schema_inv (<[r := d]> recs) s x.
Proof.
  intros Hx Hni. eapply schema_inv_agree; [exact Hx|]. intros r' Hr'. apply lookup_insert_ne. by intros <-.
Qed.

(** A record of no schema is in no list. *)
Lemma unlinked_not_in w s x r d :
  world_inv w -> w_schemas w !! s = Some x -> w_records w !! r = Some d -> rc_schema d <> Some s -> MRecord r ∉ sc_list x.
Proof.
  intros Hw Hx Hd Hne Hin. apply list_elem_of_lookup in Hin as [k Hk].
  destruct (si_pos _ _ _ (wi_schemas _ Hw _ _ Hx) _ _ Hk) as (d' & Hd' & Hs & _). congruence.
Qed.

Definition put_record (w : world) (r : Z) (d : ldms_record) : world :=
  World (w_schemas w) (<[r := d]> (w_records w)) (w_next w) (w_alloc w).

(** A new object at a fresh address. *)
Lemma world_inv_new_record w r d :
  world_inv w -> r = w_next w -> record_inv d -> rc_schema d = None -> rc_metric_id d = -1 ->
  world_inv (World (w_schemas w) (<[r := d]> (w_records w)) (w_next w + 1) (w_alloc w)).
Proof.
  intros Hw Hr Hd Hs Hid. pose proof Hw as [Hsch Hrec Hfs Hfr].
  assert (w_records w !! r = None) as Hnone.
  { destruct (w_records w !! r) eqn:E; [|done]. assert (r < w_next w) by (apply Hfr; by rewrite E). lia. }
  constructor; cbn [w_schemas w_records w_next].
  - intros s x Hx. apply schema_inv_other; [by apply Hsch|]. intros [k Hk]%list_elem_of_lookup.
    destruct (si_pos _ _ _ (Hsch _ _ Hx) _ _ Hk) as (d' & Hd' & _). congruence.
  - intros r' d'. destruct (decide (r' = r)) as [->|Hne].
    + rewrite lookup_insert_eq. intros [= <-]. split; [done|]. unfold linked. by rewrite Hs.
    + rewrite lookup_insert_ne by done. apply Hrec.
  - intros s Hi. specialize (Hfs s Hi). lia.
  - intros r'. destruct (decide (r' = r)) as [->|Hne]; [lia|]. rewrite lookup_insert_ne by done. intros Hi. specialize (Hfr r' Hi). lia.
Qed.

Lemma keeps_record_create name : keeps (ldms_record_create name).
Proof.
  intros w Hw. unfold ldms_record_create. destruct name as [name|]; [|by apply after_ret].
  alloc_step; [|by apply after_ret, world_inv_alloc]. alloc_step; [|apply after_ret; by do 2 apply world_inv_alloc].
  apply after_bind, after_lift. intros [meta_sz data_sz] Hsz. apply after_bind. intros r w1 [= <- <-].
  apply after_bind, after_modify, after_ret. cbn [set_alloc w_schemas w_records w_next w_alloc].
  apply (world_inv_new_record (set_alloc w _)); [by apply world_inv_alloc|done| |done|done].
  unfold __ldms_metric_size_get in Hsz. cbn in Hsz. injection Hsz as _ <-. by constructor.
Qed.

(** The members of a record grow by one. *)
Lemma type_sum_add d m : type_sum (add_member d m) = type_sum d + (md_meta_sz m + 4).
Proof. unfold type_sum, add_member. cbn [rc_list]. rewrite sumZ_app, sumZ_cons. cbn. lia. Qed.

Lemma inst_sum_add d m : inst_sum (add_member d m) = inst_sum d + md_data_sz m.
Proof. unfold inst_sum, add_member. cbn [rc_list]. rewrite sumZ_app, sumZ_cons. cbn. lia. Qed.

Lemma record_inv_add d m :
  record_inv d -> sized m -> md_flags m = Z.lor LDMS_MDESC_F_DATA LDMS_MDESC_F_RECORD -> record_inv (add_member d m).
Proof.
  intros [Hn Ht Hf Hd Hi Hts Hm] Hs Hfl. constructor; rewrite ?type_sum_add, ?inst_sum_add;
    unfold add_member; cbn [rc_mdef rc_n rc_inst_sz rc_type_sz rc_list md_type md_flags md_data_sz]; try done.
  - rewrite length_app. cbn. lia.
  - rewrite Hd, u64_add_l. f_equal. lia.
  - rewrite Hi, u64_add_l. f_equal. lia.
  - by rewrite Hts, u64_add_l.
  - apply Forall_app. split; [done|]. by apply Forall_singleton.
Qed.

(** The sum over a list when one element changes. *)
Lemma sumZ_change (f g : mentry -> Z) l k e :
  l !! k = Some e -> (forall j a, l !! j = Some a -> j <> k -> f a = g a) -> sumZ f l = sumZ g l + (f e - g e).
Proof.
  revert k. induction l as [|a l IH]; intros [|k] Hk Hext; try done; rewrite !sumZ_cons.
  - injection Hk as ->. rewrite (sumZ_ext f g l); [lia|]. intros b [j Hj]%list_elem_of_lookup. by apply (Hext (S j)).
  - rewrite (IH k Hk) by (intros j b Hj Hne; apply (Hext (S j)); [done|lia]). rewrite (Hext 0%nat a) by done. lia.
Qed.

(** A record that is in a schema grows: the schema's size follows. *)
Lemma schema_inv_grow recs s x k r d m :
  schema_inv recs s x -> sc_list x !! k = Some (MRecord r) -> recs !! r = Some d -> rc_schema d = Some s ->
  rc_metric_id d = Z.of_nat k ->
  schema_inv (<[r := add_member d m]> recs) s (add_meta_sz x (md_meta_sz m + 4)).
Proof.
  intros [Hc Ha Hd (added & Hsl & Hm) He Hn Hp Hdg] Hk Hr Hs Hid.
  assert (forall j a, sc_list x !! j = Some a -> j <> k -> a <> MRecord r) as Hne.
  { intros j a Hj Hjk ->. destruct (Hp j r Hj) as (d' & Hd' & _ & Hid'). rewrite Hr in Hd'. injection Hd' as <-. lia. }
  assert (sumZ (meta_part (<[r := add_member d m]> recs)) (sc_list x) = sumZ (meta_part recs) (sc_list x) + (md_meta_sz m + 4)) as E1.
  { rewrite (sumZ_change _ (meta_part recs) _ _ _ Hk) by (intros j a Hj Hjk; by eapply entry_ext, Hne).
    cbn [meta_part]. rewrite lookup_insert_eq, Hr. cbn [from_option]. rewrite type_sum_add. cbn. lia. }
  assert (added r <= List.length (rc_list d))%nat as Hle.
  { apply Hsl; [by eapply list_elem_of_lookup_2|done]. }
  assert (sumZ (twice_part added (<[r := add_member d m]> recs)) (sc_list x) = sumZ (twice_part added recs) (sc_list x)) as E2.
  { rewrite (sumZ_change _ (twice_part added recs) _ _ _ Hk) by (intros j a Hj Hjk; by eapply entry_ext, Hne).
    cbn [twice_part]. rewrite lookup_insert_eq, Hr. cbn [from_option].
    unfold type_sum_of, add_member. cbn [rc_list]. rewrite take_app_le by done. lia. }
  constructor; cbn [add_meta_sz sc_card sc_list sc_array_card sc_data_sz sc_meta_sz]; try done.
  - exists added. rewrite E1, E2. split; [|rewrite Hm, u64_add_l; f_equal; lia].
    intros r' d' Hin. destruct (decide (r' = r)) as [->|Hr']; [|rewrite lookup_insert_ne by done; by apply Hsl].
    rewrite lookup_insert_eq. intros [= <-]. unfold add_member. cbn [rc_list]. rewrite length_app. lia.
  - replace (entry_name (<[r := add_member d m]> recs) <$> sc_list x) with (entry_name recs <$> sc_list x); [done|].
    apply list_fmap_ext. intros i e Hi. destruct (decide (i = k)) as [->|Hik].
    + rewrite Hk in Hi. injection Hi as <-. cbn. by rewrite lookup_insert_eq, Hr.
    + symmetry. by eapply entry_ext, Hne.
  - intros j r' Hj. destruct (decide (r' = r)) as [->|Hr'].
    + exists (add_member d m). rewrite lookup_insert_eq. destruct (Hp j r Hj) as (d' & Hd' & ? & ?). rewrite Hr in Hd'. injection Hd' as <-. done.
    + rewrite lookup_insert_ne by done. by apply Hp.
Qed.

Lemma metric_size_pos name unit t count meta_sz data_sz :
  __ldms_metric_size_get name unit t count = Some (meta_sz, data_sz) -> 0 <= meta_sz.
Proof.
  unfold __ldms_metric_size_get. destruct (__ldms_value_size_get t count); [|done]. intros [= <- _].
  assert (forall a, 0 <= mask_roundup a 8) as Hm.
  { intros a. unfold mask_roundup. apply Z.land_nonneg. left. by apply wrapu_range. }
  by destruct unit.
Qed.

Lemma after_record_append r m w :
  world_inv w -> sized m -> md_flags m = Z.lor LDMS_MDESC_F_DATA LDMS_MDESC_F_RECORD ->
  after (record_append r m) w (fun _ w' => world_inv w').
Proof.
  intros Hw Hs Hf. pose proof (metric_size_pos _ _ _ _ _ _ (proj1 Hs)) as Hpos.
  apply after_bind, after_record_at. intros d Hd. destruct (wi_records _ Hw _ _ Hd) as [Hri Hl]. apply after_bind.
  pose proof (record_inv_add _ _ Hri Hs Hf) as Hri'.
  assert (forall w1, w_records w1 = w_records w -> w_next w1 = w_next w ->
    (forall s x, w_schemas w1 !! s = Some x -> schema_inv (<[r := add_member d m]> (w_records w)) s x /\ is_Some (w_schemas w !! s)) ->
    (forall r' d', w_records w !! r' = Some d' -> linked (w_schemas w1) r' d') ->
    after (set_record r (add_member d m);; mret (rc_n d)) w1 (fun _ w' => world_inv w')) as Hfin.
  { intros w1 E1 E2 Hsch Hlnk. apply after_bind, after_modify, after_ret.
    constructor; cbn [w_schemas w_records w_next]; rewrite ?E1, ?E2.
    - intros s x Hx. by apply Hsch.
    - intros r' d'. destruct (decide (r' = r)) as [->|Hne].
      + rewrite lookup_insert_eq. intros [= <-]. split; [done|]. apply (Hlnk r d Hd).
      + rewrite lookup_insert_ne by done. intros Hd'. split; [by apply (wi_records _ Hw r')|by apply Hlnk].
    - intros s [x Hx]. apply (wi_fresh_s _ Hw). by eapply Hsch.
    - intros r'. destruct (decide (r' = r)) as [->|Hne]; [intros _; apply (wi_fresh_r _ Hw); by rewrite Hd|].
      rewrite lookup_insert_ne by done. apply (wi_fresh_r _ Hw). }
  destruct (rc_schema d) as [s|] eqn:Hs0.
  - apply after_bind, after_schema_at. intros x Hx. apply after_modify. unfold linked in Hl. rewrite Hs0 in Hl.
    destruct Hl as (x' & k & Hx' & Hid & Hk). rewrite Hx in Hx'. injection Hx' as <-.
    apply Hfin; [done|done|..]; cbn [w_schemas].
    + intros s2 y. destruct (decide (s2 = s)) as [->|Hne].
      * rewrite lookup_insert_eq. intros [= <-]. split; [|by rewrite Hx]. eapply schema_inv_grow; try done. by apply (wi_schemas _ Hw).
      * rewrite lookup_insert_ne by done. intros Hy. split; [|by rewrite Hy]. apply schema_inv_other; [by apply (wi_schemas _ Hw)|].
        eapply unlinked_not_in; [done..|]. congruence.
    + intros r' d' Hd'. destruct (wi_records _ Hw _ _ Hd') as [_ Hl']. unfold linked in *. destruct (rc_schema d') as [s2|]; [|done].
      destruct Hl' as (y & j & Hy & Hj & Hlj). destruct (decide (s2 = s)) as [->|Hne].
      * rewrite lookup_insert_eq. rewrite Hx in Hy. injection Hy as <-. by eexists _, j.
      * rewrite lookup_insert_ne by done. by exists y, j.
  - apply after_ret. apply Hfin; [done|done| |].
    + intros s x Hx. split; [|by rewrite Hx]. apply schema_inv_other; [by apply (wi_schemas _ Hw)|].
      eapply unlinked_not_in; [done..|]. congruence.
    + intros r' d' Hd'. by apply (wi_records _ Hw r' d').
Qed.

Lemma keeps_record_metric_add r name unit t count : keeps (ldms_record_metric_add r name unit t count).
Proof.
  intros w Hw. unfold ldms_record_metric_add.
  alloc_step; [|by apply after_ret, world_inv_alloc]. destruct name as [name|]; [|by apply after_ret, world_inv_alloc].
  alloc_step; [|apply after_ret; by do 2 apply world_inv_alloc]. apply after_bind.
  assert (forall l1, after ('(meta_sz, data_sz) ← lift_opt (__ldms_metric_size_get name unit t (u32 count));
      record_append r (Mdef name unit t (Z.lor LDMS_MDESC_F_DATA LDMS_MDESC_F_RECORD) (u32 count) meta_sz data_sz))
      (set_alloc w l1) (fun _ w' => world_inv w')) as H.
  { intros l1. apply after_bind, after_lift. intros [meta_sz data_sz] Hsz. apply after_record_append; [by apply world_inv_alloc| |done].
    split; [done|]. by apply wrapu_range. }
  destruct unit as [u|]; [|by apply after_ret, H]. apply after_allocated. intros [] l2; cbn [negb]; [apply H|].
  apply after_ret. by do 3 apply world_inv_alloc.
Qed.

(** ** Records in schemas *)

Lemma type_sum_nonneg d : record_inv d -> 0 <= type_sum d.
Proof.
  intros Hd. apply sumZ_nonneg. intros m Hm. pose proof (proj1 (Forall_forall _ _) (ri_members _ Hd) m Hm) as [[Hs _] _].
  apply metric_size_pos in Hs. lia.
Qed.

Lemma u64_add_r a b : u64 (a + u64 b) = u64 (a + b).
Proof. apply Zplus_mod_idemp_r. Qed.

(** The record as a member of a schema. *)
Definition link_record (d : ldms_record) (s id : Z) : ldms_record :=
  Rec (rc_mdef d) (Some s) id (rc_n d) (rc_inst_sz d) (rc_type_sz d) (rc_list d).

Lemma schema_inv_add_record recs s x r d bs :
  schema_inv recs s x -> recs !! r = Some d -> record_inv d -> MRecord r ∉ sc_list x ->
  md_name (rc_mdef d) ∉ (entry_name recs <$> sc_list x) ->
  schema_inv (<[r := link_record d s (sc_card x)]> recs) s
    (add_meta_sz (Schema (sc_name x) (sc_digest x) bs (sc_card x + 1)
       (u64 (u64 (sc_meta_sz x + (md_meta_sz (rc_mdef d) + 4)) + md_data_sz (rc_mdef d)))
       (u64 (sc_data_sz x + 0)) (sc_array_card x) (sc_list x ++ [MRecord r])) (rc_type_sz d)).
Proof.
  intros Hx Hr Hd Hni Hname.
  pose proof (schema_inv_other _ _ _ r (link_record d s (sc_card x)) Hx Hni) as [Hc Ha Hdt (sl & Hsl & Hm) He Hn Hp Hdg].
  assert (entry_name recs <$> sc_list x = entry_name (<[r := link_record d s (sc_card x)]> recs) <$> sc_list x) as Hnm.
  { apply list_fmap_ext. intros i e Hi. symmetry. apply entry_ext. intros ->. apply Hni. by eapply list_elem_of_lookup_2. }
  constructor; cbn [add_meta_sz sc_card sc_list sc_array_card sc_data_sz sc_meta_sz].
  - rewrite length_app. cbn. lia.
  - done.
  - rewrite Hdt, u64_add_l, sumZ_app, sumZ_cons. f_equal. cbn. lia.
  - set (sl' := fun r' => if decide (r' = r) then List.length (rc_list d) else sl r'). exists sl'.
    rewrite !sumZ_app, !sumZ_cons. rewrite (sumZ_ext (twice_part sl' _) (twice_part sl (<[r := link_record d s (sc_card x)]> recs))).
    2: { intros e Hin. destruct e as [|r'|]; [done| |done]. cbn [twice_part]. unfold sl'. case_decide; [by subst|done]. }
    cbn [meta_part twice_part]. rewrite lookup_insert_eq. cbn [from_option].
    assert (type_sum_of (sl' r) (link_record d s (sc_card x)) = type_sum d) as ->.
    { unfold type_sum_of, sl'. rewrite decide_True by done. cbn [link_record rc_list]. by rewrite firstn_all. }
    change (type_sum (link_record d s (sc_card x))) with (type_sum d). split.
    { intros r' d' Hin. unfold sl'. destruct (decide (r' = r)) as [->|Hne]; [rewrite lookup_insert_eq; by intros [= <-]|].
      apply Hsl. apply elem_of_app in Hin as [?|Hin]; [done|]. apply list_elem_of_singleton in Hin. congruence. }
    rewrite Hm, (u64_add_l _ (md_meta_sz (rc_mdef d) + 4)), (ri_data _ Hd), (ri_tsz _ Hd).
    rewrite (u64_add_r _ (sizeof_ldms_record_type + type_sum d)), (u64_add_l _ (sizeof_ldms_record_type + type_sum d)).
    rewrite u64_add_l, u64_add_r. f_equal. cbn. lia.
  - apply Forall_app. split; [done|]. by apply Forall_singleton.
  - rewrite fmap_app, <- Hnm. apply NoDup_app. rewrite Hnm at 1. split_and!; [done| |apply NoDup_singleton].
    intros n Hin. cbn. rewrite list_elem_of_singleton, lookup_insert_eq. cbn. by intros ->.
  - intros k r' Hk. apply lookup_app_Some in Hk as [Hk|[Hlen Hk]]; [by apply Hp|].
    apply list_lookup_singleton_Some in Hk as [Hk [= <-]]. exists (link_record d s (sc_card x)).
    rewrite lookup_insert_eq. split_and!; [done|done|]. cbn. lia.
  - done.
Qed.

Lemma keeps_schema_record_add s r : keeps (ldms_schema_record_add s r).
Proof.
  intros w Hw. unfold ldms_schema_record_add. apply after_bind, after_schema_at. intros x Hx.
  apply after_bind, after_record_at. intros d Hd. apply after_bind, after_name_taken. intros b Hb.
  destruct b; [by apply after_ret|]. specialize (Hb eq_refl).
  destruct (Z.leb_spec 0 (rc_metric_id d)) as [Hid|Hid]; [by apply after_ret|].
  destruct (wi_records _ Hw _ _ Hd) as [Hri Hl]. assert (rc_schema d = None) as Hnone.
  { unfold linked in Hl. destruct (rc_schema d) as [s2|]; [|done]. destruct Hl as (y & k & _ & Hk & _). lia. }
  assert (forall s2 y, w_schemas w !! s2 = Some y -> MRecord r ∉ sc_list y) as Hni.
  { intros s2 y Hy. eapply unlinked_not_in; [done..|]. congruence. }
  apply after_bind. unfold __schema_mdef_add. apply after_bind, after_mentry_mdef. intros d' Hd'. rewrite Hd in Hd'. injection Hd' as <-.
  unfold record_digest. rewrite (ri_type _ Hri). cbn [Z.eqb code Pos.eqb]. apply after_bind, after_bind, after_record_at. intros d' Hd'.
  rewrite Hd in Hd'. injection Hd' as <-. apply after_ret. apply after_bind, after_schema_at. intros x' Hx'. rewrite Hx in Hx'. injection Hx' as <-.
  apply after_bind, after_modify, after_ret. apply after_bind, after_modify.
  apply after_bind, after_schema_at. cbn [w_schemas]. rewrite lookup_insert_eq. intros y [= <-].
  apply after_bind, after_modify, after_ret. cbn [w_schemas w_records w_next w_alloc]. rewrite insert_insert_eq.
  replace (sc_card x + 1 - 1) with (sc_card x) by lia. fold (link_record d s (sc_card x)). rewrite (ri_flags _ Hri).
  cbn [flag Z.land Pos.land LDMS_MDESC_F_META LDMS_MDESC_F_RECORD LDMS_MDESC_F_DATA Z.lor Pos.lor Z.eqb negb].
  pose proof (wi_schemas _ Hw _ _ Hx) as Hxi. constructor; cbn [w_schemas w_records w_next].
  - intros s2 y. destruct (decide (s2 = s)) as [->|Hne].
    + rewrite lookup_insert_eq. intros [= <-]. by apply schema_inv_add_record; try done; apply (Hni s).
    + rewrite lookup_insert_ne by done. intros Hy. apply schema_inv_other; [by apply (wi_schemas _ Hw)|by eapply Hni].
  - intros r' d'. destruct (decide (r' = r)) as [->|Hne].
    + rewrite lookup_insert_eq. intros [= <-]. split; [by destruct Hri|]. unfold linked. cbn [link_record rc_schema].
      eexists _, (List.length (sc_list x)). rewrite lookup_insert_eq. split_and!; [done|apply Hxi|].
      cbn [add_meta_sz sc_list]. rewrite lookup_app_r by lia. by rewrite Nat.sub_diag.
    + rewrite lookup_insert_ne by done. intros Hd'. destruct (wi_records _ Hw _ _ Hd') as [Hri' Hl']. split; [done|].
      unfold linked in *. destruct (rc_schema d') as [s2|]; [|done]. destruct Hl' as (y & k & Hy & Hk & Hlk).
      destruct (decide (s2 = s)) as [->|Hne2].
      * rewrite lookup_insert_eq. rewrite Hx in Hy. injection Hy as <-. eexists _, k. split_and!; [done|done|]. cbn [add_meta_sz sc_list].
        by apply lookup_app_l_Some.
      * rewrite lookup_insert_ne by done. by exists y, k.
  - intros s2. destruct (decide (s2 = s)) as [->|Hne]; [intros _; apply (wi_fresh_s _ Hw); by rewrite Hx|].
    rewrite lookup_insert_ne by done. apply (wi_fresh_s _ Hw).
  - intros r'. destruct (decide (r' = r)) as [->|Hne]; [intros _; apply (wi_fresh_r _ Hw); by rewrite Hd|].
    rewrite lookup_insert_ne by done. apply (wi_fresh_r _ Hw).
Qed.

Lemma keeps_schema_record_array_add s name r array_len :
  keeps (ldms_schema_record_array_add s name r array_len).
Proof.
  intros w Hw. unfold ldms_schema_record_array_add. apply after_bind, after_record_at. intros d Hd.
  destruct (Z.ltb_spec (rc_metric_id d) 0) as [Hid|Hid]; [by apply after_ret|].
  apply after_bind, after_lift. intros nm ->. apply after_bind, after_schema_at. intros x Hx.
  apply after_bind, after_name_taken. intros b Hb. destruct b; [by apply after_ret|]. specialize (Hb eq_refl).
  alloc_step; [|by apply after_ret, world_inv_alloc]. alloc_step; [|apply after_ret; by do 2 apply world_inv_alloc].
  apply after_bind, after_lift. intros [meta_sz data_sz] Hsz.
  eapply after_mdef_add; [by do 2 apply world_inv_alloc|right; by do 2 eexists|done| |done].
  intros y Hy. cbn in Hy. rewrite Hx in Hy. by injection Hy as <-.
Qed.

(** ** Schemas *)

Lemma schema_inv_new recs s name : schema_inv recs s (Schema name null_digest [] 0 sizeof_ldms_set_hdr sizeof_ldms_data_hdr 1 []).
Proof. constructor; try done; [exists (fun _ => 0%nat); split; [by intros ? ? ?%elem_of_nil|done]|constructor|]. split; [apply bytes_ok_zeros|done]. Qed.

Lemma keeps_schema_new name : keeps (ldms_schema_new name).
Proof.
  intros w Hw. unfold ldms_schema_new.
  alloc_step; [|by apply after_ret, world_inv_alloc]. alloc_step; [|apply after_ret; by do 2 apply world_inv_alloc].
  alloc_step; [|apply after_ret; by do 3 apply world_inv_alloc]. alloc_step; [|apply after_ret; by do 4 apply world_inv_alloc].
  apply after_bind. intros s w1 [= <- <-]. apply after_bind, after_modify, after_ret.
  cbn [set_alloc w_schemas w_records w_next w_alloc]. pose proof Hw as [Hs Hr Hfs Hfr].
  assert (w_schemas w !! w_next w = None) as Hnone.
  { destruct (w_schemas w !! w_next w) eqn:E; [|done]. assert (w_next w < w_next w) by (apply Hfs; by rewrite E). lia. }
  constructor; cbn [w_schemas w_records w_next].
  - intros s x. destruct (decide (s = w_next w)) as [->|Hne].
    + rewrite lookup_insert_eq. intros [= <-]. apply schema_inv_new.
    + rewrite lookup_insert_ne by done. apply Hs.
  - intros r d Hd. destruct (Hr r d Hd) as [Hi Hl]. split; [done|]. unfold linked in *. destruct (rc_schema d) as [s|]; [|done].
    destruct Hl as (x & k & Hx & ?). exists x, k. rewrite lookup_insert_ne; [done|]. congruence.
  - intros s. destruct (decide (s = w_next w)) as [->|Hne]; [lia|]. rewrite lookup_insert_ne by done. intros Hi. specialize (Hfs s Hi). lia.
  - intros r Hi. specialize (Hfr r Hi). lia.
Qed.

Lemma keeps_array_card_set s card : keeps (ldms_schema_array_card_set s card).
Proof.
  intros w Hw. unfold ldms_schema_array_card_set. destruct (Z.ltb_spec card 0); [by apply after_ret|].
  apply after_bind, after_schema_at. intros x Hx. apply after_bind, after_modify, after_ret.
  eapply world_inv_schema; [done|exact Hx| |done]. destruct (wi_schemas _ Hw _ _ Hx). by constructor.
Qed.

(** ** Deletion *)

Lemma keeps_record_delete r : keeps (ldms_record_delete r).
Proof.
  intros w Hw. destruct r as [r|]; [|by apply after_ret]. apply after_bind, after_record_at. intros d Hd.
  destruct (Z.leb_spec 0 (rc_metric_id d)) as [Hid|Hid]; [by apply after_ret|].
  apply after_bind, after_record_at. intros _ _. apply after_modify. pose proof Hw as [Hs Hr Hfs Hfr].
  constructor; cbn [w_schemas w_records w_next]; [| |done|].
  - intros s x Hx. pose proof (Hs s x Hx) as Hxi.
    assert (MRecord r ∉ sc_list x) as Hni.
    { intros [k Hk]%list_elem_of_lookup. destruct (si_pos _ _ _ Hxi _ _ Hk) as (d' & Hd' & _ & Hid'). rewrite Hd in Hd'. injection Hd' as <-. lia. }
    eapply schema_inv_agree; [exact Hxi|]. intros r' Hr'. apply lookup_delete_ne. by intros <-.
  - intros r' d' [_ Hd']%lookup_delete_Some. by apply Hr.
  - intros r' [d' [_ Hd']%lookup_delete_Some]. apply Hfr. by rewrite Hd'.
Qed.

(** The records of the list are freed. *)
Lemma after_free_metrics l w (Q : unit -> world -> Prop) :
  (forall r d, MRecord r ∈ l -> w_records w !! r = Some d -> md_type (rc_mdef d) = code LDMS_V_RECORD_TYPE) ->
  (forall w', w_schemas w' = w_schemas w -> w_next w' = w_next w ->
     (forall r d, w_records w' !! r = Some d <-> w_records w !! r = Some d /\ MRecord r ∉ l) -> Q tt w') ->
  after (free_metrics l) w Q.
Proof.
  revert w. induction l as [|e l IH]; intros w Ht HQ; cbn [free_metrics].
  { apply after_ret, HQ; [done|done|]. intros r d. set_solver. }
  apply after_bind, after_mentry_mdef.
  assert (forall m, (forall r, e <> MRecord r) -> after ((if md_type m =? code LDMS_V_RECORD_TYPE then
         match e with
         | MRecord r => __ldms_record_delete r
         | _ => stuck
         end
       else mret tt);; free_metrics l) w Q) as Hplain.
  { intros m Hne. apply after_bind. destruct (_ =? _); [destruct e; try apply after_stuck; by destruct (Hne r)|].
    apply after_ret, IH; [intros r d Hin; apply Ht; by right|]. intros w' E1 E2 Hw'. apply HQ; [done|done|].
    intros r d. rewrite Hw', not_elem_of_cons. naive_solver. }
  destruct e as [m|r|m rt isz]; [by apply Hplain| |by apply Hplain]. intros d Hd.
  rewrite (Ht r d) by (done || by left). apply after_bind, after_bind, after_record_at. intros _ _. apply after_modify.
  apply IH; cbn [w_records w_schemas w_next].
  - intros r' d' Hin [_ Hd']%lookup_delete_Some. apply (Ht r'); [by right|done].
  - intros w' E1 E2 Hw'. apply HQ; [done|done|]. intros r' d'. rewrite Hw', lookup_delete_Some, not_elem_of_cons.
    split; [intros [[Hne ?] ?]; split_and!; [done|congruence|done]|intros (? & Hne & ?); split_and!; [congruence|done|done]].
Qed.

Lemma keeps_schema_delete s : keeps (ldms_schema_delete s).
Proof.
  intros w Hw. destruct s as [s|]; [|by apply after_ret]. apply after_bind, after_schema_at. intros x Hx. apply after_bind.
  pose proof (wi_schemas _ Hw _ _ Hx) as Hxi. apply after_free_metrics.
  { intros r d _ Hd. by apply (wi_records _ Hw r d). }
  intros w' E1 E2 Hw'. apply after_modify. constructor; cbn [w_schemas w_records w_next]; rewrite ?E1, ?E2.
  - intros s2 y [Hne Hy]%lookup_delete_Some. eapply schema_inv_agree; [by apply (wi_schemas _ Hw)|].
    intros r [k Hk]%list_elem_of_lookup. destruct (si_pos _ _ _ (wi_schemas _ Hw _ _ Hy) _ _ Hk) as (d & Hd & Hs & _).
    rewrite Hd. apply Hw'. split; [done|]. eapply unlinked_not_in; [done..|]. congruence.
  - intros r d [Hd Hni]%Hw'. destruct (wi_records _ Hw _ _ Hd) as [Hri Hl]. split; [done|]. unfold linked in *.
    destruct (rc_schema d) as [s2|]; [|done]. destruct Hl as (y & k & Hy & Hk & Hlk). exists y, k. split_and!; [|done|done].
    apply lookup_delete_Some. split; [|done]. intros <-. rewrite Hx in Hy. injection Hy as <-. apply Hni. by eapply list_elem_of_lookup_2.
  - intros s2 [y [_ Hy]%lookup_delete_Some]. apply (wi_fresh_s _ Hw). by rewrite Hy.
  - intros r [d [Hd _]%Hw']. apply (wi_fresh_r _ Hw). by rewrite Hd.
Qed.

(** ** Templates *)

Definition template_ok (t : metric_template) : Prop := 0 <= tp_len t < 2 ^ 32.

Lemma keeps_template_add s ent : template_ok ent -> keeps (template_add s ent).
Proof.
  intros Hl w Hw. unfold template_add.
  destruct (of_code (tp_type ent)) as [[]|]; try (by apply after_ret);
    try (apply after_bind, after_lift; intros r _; by apply keeps_schema_record_add);
    (destruct (flag (tp_flags ent) LDMS_MDESC_F_META);
      [try (by apply after_ret); first [by apply keeps_meta_add_with_unit|by apply keeps_meta_array_add_with_unit]|]);
    first [by apply keeps_metric_add_with_unit|by apply keeps_metric_array_add_with_unit|by apply keeps_metric_list_add
          |apply after_bind, after_lift; intros r _; by apply keeps_schema_record_array_add].
Qed.

Lemma keeps_schema_add_template s tmp mid :
  Forall template_ok tmp -> keeps (ldms_schema_metric_add_template s tmp mid).
Proof.
  intros Ht. revert mid. induction Ht as [|ent tmp Hent Ht IH]; intros mid w Hw; cbn [ldms_schema_metric_add_template]; [done|].
  assert (after (ret ← template_add s ent;
    if ret <? 0 then mret (ret, mid) else ldms_schema_metric_add_template s tmp (mid ++ [ret])) w (fun _ w' => world_inv w')) as H.
  { apply after_bind. intros ret w' Hr. pose proof (keeps_template_add s ent Hent w Hw _ _ Hr) as Hw'.
    destruct (ret <? 0); [by apply after_ret|by apply IH]. }
  by destruct (tp_name ent), (tp_rec ent); try apply H; apply after_ret.
Qed.

Lemma keeps_record_add_template r tmp mid : keeps (ldms_record_metric_add_template r tmp mid).
Proof.
  revert mid. induction tmp as [|ent tmp IH]; intros mid w Hw; cbn [ldms_record_metric_add_template]; [done|].
  destruct (tp_name ent) as [n|]; [|by apply after_ret]. apply after_bind. intros ret w' Hr.
  pose proof (keeps_record_metric_add _ _ _ _ _ w Hw _ _ Hr) as Hw'.
  destruct (ret <? 0); [by apply after_ret|by apply IH].
Qed.

Lemma keeps_record_from_template name tmp : keeps (ldms_record_from_template name tmp).
Proof.
  intros w Hw. apply after_bind. intros r w1 Hr. pose proof (keeps_record_create _ w Hw _ _ Hr) as Hw1.
  destruct r as [r|]; [|by apply after_ret]. apply after_bind. intros [ret mid] w2 H2.
  pose proof (keeps_record_add_template _ _ _ w1 Hw1 _ _ H2) as Hw2. destruct (ret =? 0); [by apply after_ret|].
  apply after_bind. intros [] w3 H3. apply after_ret. by eapply (keeps_record_delete (Some r)).
Qed.

Lemma keeps_schema_from_template name tmp : Forall template_ok tmp -> keeps (ldms_schema_from_template name tmp).
Proof.
  intros Ht w Hw. apply after_bind. intros s w1 Hs. pose proof (keeps_schema_new _ w Hw _ _ Hs) as Hw1.
  destruct s as [s|]; [|by apply after_ret]. apply after_bind. intros [ret mid] w2 H2.
  pose proof (keeps_schema_add_template _ _ _ Ht w1 Hw1 _ _ H2) as Hw2. destruct (ret =? 0); [by apply after_ret|].
  apply after_bind. intros [] w3 H3. apply after_ret. by eapply (keeps_schema_delete (Some s)).
Qed.

(** ** Set creation completes the lists and the digest *)

Lemma list_count_sized m : sized m -> sized match list_count (MPlain m) with MPlain m' => m' | _ => m end.
Proof.
  intros [Hs Hc]. destruct m as [n u t f c ms ds]. cbn [list_count].
  destruct (Z.eqb_spec t (code LDMS_V_LIST)) as [->|]; [|done].
  destruct (Z.eqb_spec c 0) as [->|]; [|done]. split; [exact Hs|done].
Qed.

Lemma list_count_parts recs e :
  entry_name recs (list_count e) = entry_name recs e /\ data_part (list_count e) = data_part e /\
  meta_part recs (list_count e) = meta_part recs e /\
  forall added, twice_part added recs (list_count e) = twice_part added recs e.
Proof. destruct e as [[n u t f c ms ds]|r|m rt isz]; [|done|done]. cbn. by destruct (_ && _). Qed.

Lemma list_count_entry e : entry_inv e -> entry_inv (list_count e).
Proof.
  destruct e as [m|r|m rt isz]; [|done|done]. cbn [entry_inv]. intros [Hs Hf].
  pose proof (list_count_sized m Hs) as Hs'. destruct m as [n u t f c ms ds]. cbn [list_count] in *.
  by destruct (_ && _).
Qed.

Lemma list_count_record e r : list_count e = MRecord r <-> e = MRecord r.
Proof. destruct e as [[n u t f c ms ds]|r'|m rt isz]; [|done|done]. cbn. by destruct (_ && _). Qed.

Lemma sumZ_fmap {A B} (f : B -> Z) (g : A -> B) l : sumZ f (g <$> l) = sumZ (fun a => f (g a)) l.
Proof. induction l as [|a l IH]; [done|]. by rewrite fmap_cons, !sumZ_cons, IH. Qed.

Lemma schema_inv_counted recs s x dg evp :
  schema_inv recs s x -> digest_ok dg ->
  schema_inv recs s (Schema (sc_name x) dg evp (sc_card x) (sc_meta_sz x) (sc_data_sz x) (sc_array_card x) (list_count <$> sc_list x)).
Proof.
  intros [Hc Ha Hd (sl & Hsl & Hm) He Hn Hp _] Hdg. constructor; cbn [sc_card sc_list sc_array_card sc_data_sz sc_meta_sz sc_digest].
  - by rewrite length_fmap.
  - done.
  - rewrite Hd, sumZ_fmap. do 2 f_equal. apply sumZ_ext. intros e _. symmetry. apply (list_count_parts recs).
  - exists sl. rewrite !sumZ_fmap. rewrite (sumZ_ext (fun e => twice_part sl recs (list_count e)) (twice_part sl recs)),
      (sumZ_ext (fun e => meta_part recs (list_count e)) (meta_part recs)); [|intros e _; apply list_count_parts..].
    split; [|done]. intros r d (e & He' & Hin)%list_elem_of_fmap. symmetry in He'. apply list_count_record in He' as ->. by apply Hsl.
  - apply Forall_fmap. eapply Forall_impl; [exact He|]. intros e. apply list_count_entry.
  - rewrite <- list_fmap_compose. replace (entry_name recs ∘ list_count <$> sc_list x) with (entry_name recs <$> sc_list x); [done|].
    apply list_fmap_ext. intros i e _. symmetry. apply list_count_parts.
  - intros k r. rewrite list_lookup_fmap_Some. intros (e & He' & Hk). symmetry in He'. apply list_count_record in He' as ->. by apply Hp.
  - done.
Qed.

Lemma after_resolve l w (Q : list rentry -> world -> Prop) : (forall r, Q r w) -> after (resolve l) w Q.
Proof.
  revert Q. induction l as [|e l IH]; intros Q HQ; cbn [resolve]; [by apply after_ret|]. apply after_bind.
  assert (forall e', after (l' ← resolve l; mret (e' :: l')) w Q) as H.
  { intros e'. apply after_bind, IH. intros l'. by apply after_ret. }
  destruct e as [m|r|m rt isz]; [apply after_ret, H| |apply after_ret, H]. apply after_bind, after_record_at. intros d _. apply after_ret, H.
Qed.

Lemma keeps_compute_set_sizes name s heap_sz : keeps (compute_set_sizes name s heap_sz).
Proof.
  intros w Hw. apply after_bind, after_schema_at. intros x Hx. apply after_bind, after_modify.
  assert (world_inv (put_schema w s (Schema (sc_name x) (sc_digest x) (sc_evp x) (sc_card x) (sc_meta_sz x)
    (sc_data_sz x) (sc_array_card x) (list_count <$> sc_list x)))) as Hw'.
  { eapply world_inv_schema; [done|exact Hx|pose proof (wi_schemas _ Hw _ _ Hx) as Hxi; apply schema_inv_counted; [done|apply Hxi]|].
    intros k r Hk. cbn [sc_list]. by rewrite list_lookup_fmap, Hk. }
  cbv zeta. destruct (sc_array_card x <? 0); [by apply after_ret|]. apply after_bind. intros [] w1.
  unfold c_assert. destruct (_ =? _); [|done]. intros [= <-]. by apply after_ret.
Qed.

(** SHA-256 yields 32 bytes. *)
Definition sha_ok (sha256 : bytes -> bytes) : Prop := forall bs, digest_ok (sha256 bs).

Lemma keeps_set_create sha256 blk env ok name s uid gid perm heap_sz g :
  sha_ok sha256 -> keeps (ldms_set_create sha256 blk env ok name s uid gid perm heap_sz g).
Proof.
  intros Hsha w Hw. unfold ldms_set_create. destruct name as [name|]; [|by apply after_ret]. destruct s as [s|]; [|by apply after_ret].
  destruct (negb (name_allowed name)); [by apply after_ret|]. destruct (negb _); [by apply after_ret|].
  apply after_bind. intros osz w1 H1. pose proof (keeps_compute_set_sizes _ _ _ w Hw _ _ H1) as Hw1.
  destruct osz as [sz|]; [|by apply after_ret]. destruct (_ =? 0); [by apply after_ret|].
  apply after_bind, after_schema_at. intros x Hx. apply after_bind, after_modify.
  assert (world_inv (put_schema w1 s (__ldms_schema_finalize sha256 x))) as Hw2.
  { eapply world_inv_schema; [done|exact Hx| |intros k r Hk; unfold __ldms_schema_finalize; by destruct (bool_decide _)].
    pose proof (wi_schemas _ Hw1 _ _ Hx) as [H2 H3 H4 H5 H6 H7 H8 H9]. unfold __ldms_schema_finalize.
    destruct (bool_decide _); constructor; try done. apply Hsha. }
  fold (put_schema w1 s (__ldms_schema_finalize sha256 x)). revert Hw2. generalize (put_schema w1 s (__ldms_schema_finalize sha256 x)).
  clear -sz. intros w Hw. apply after_bind, after_schema_at. intros x Hx. apply after_bind, after_resolve. intros l.
  destruct (blk _) as [m|]; [|by apply after_ret].
  apply after_bind, after_lift. intros [[] m1] _. apply after_bind, after_lift. intros [msz m2] _. apply after_bind, after_lift. intros [g' r] _.
  destruct r as [e|set]; [by apply after_ret|]. apply after_bind, after_lift. intros [hsz m3] _. apply after_bind.
  assert (forall heap, after ('(_, m0) ← lift_opt (__init_rec_array (s_data_array set) (base m) (sc_array_card x) l 0 m3);
    mret (g', inr (A := Z) (Set_ (s_flags set) (s_set_id set) (base m) (s_data set) (s_data_array set) (s_curr_idx set) heap [] m0))) w
    (fun _ w' => world_inv w')) as Hfin.
  { intros heap. apply after_bind, after_lift. intros [[] m4] _. by apply after_ret. }
  destruct (hsz =? 0); [by apply after_ret, Hfin|]. apply after_bind, after_lift. intros [h m4] _. by apply after_ret, Hfin.
Qed.

(** ** The interface *)

(** The calls that create and change schemas and records; counts and lengths
    are unsigned 32-bit arguments. *)
Inductive interface : forall A, W A -> Prop :=
| if_schema_new name : interface _ (ldms_schema_new name)
| if_schema_delete s : interface _ (ldms_schema_delete s)
| if_array_card s card : interface _ (ldms_schema_array_card_set s card)
| if_metric s name unit t : interface _ (ldms_schema_metric_add_with_unit s name unit t)
| if_meta s name unit t : interface _ (ldms_schema_meta_add_with_unit s name unit t)
| if_metric_array s name unit t count : 0 <= count < 2 ^ 32 ->
    interface _ (ldms_schema_metric_array_add_with_unit s name unit t count)
| if_meta_array s name unit t count : 0 <= count < 2 ^ 32 ->
    interface _ (ldms_schema_meta_array_add_with_unit s name unit t count)
| if_list s name unit heap_sz : 0 <= heap_sz < 2 ^ 32 -> interface _ (ldms_schema_metric_list_add s name unit heap_sz)
| if_record_create name : interface _ (ldms_record_create name)
| if_record_metric r name unit t count : interface _ (ldms_record_metric_add r name unit t count)
| if_record_delete r : interface _ (ldms_record_delete r)
| if_schema_record s r : interface _ (ldms_schema_record_add s r)
| if_record_array s name r len : interface _ (ldms_schema_record_array_add s name r len)
| if_schema_template name tmp : Forall template_ok tmp -> interface _ (ldms_schema_from_template name tmp)
| if_record_template name tmp : interface _ (ldms_record_from_template name tmp)
| if_set_create sha256 blk env ok name s uid gid perm heap_sz g : sha_ok sha256 ->
    interface _ (ldms_set_create sha256 blk env ok name s uid gid perm heap_sz g).

Definition schema_step (w w' : world) : Prop :=
  exists A (m : W A) (a : A), interface A m /\ m w = Some (a, w').

Definition empty_world (alloc : list bool) : world := World ∅ ∅ 1 alloc.

Lemma empty_world_inv alloc : world_inv (empty_world alloc).
Proof.
  constructor; cbn [empty_world w_schemas w_records w_next].
  - by intros s x ?%lookup_empty_Some.
  - by intros r d ?%lookup_empty_Some.
  - intros s. rewrite lookup_empty. by intros [? ?].
  - intros r. rewrite lookup_empty. by intros [? ?].
Qed.

Lemma interface_keeps A (m : W A) : interface A m -> keeps m.
Proof.
  intros []; eauto using keeps_schema_new, keeps_schema_delete, keeps_array_card_set, keeps_metric_add_with_unit,
    keeps_meta_add_with_unit, keeps_metric_array_add_with_unit, keeps_meta_array_add_with_unit, keeps_metric_list_add,
    keeps_record_create, keeps_record_metric_add, keeps_record_delete, keeps_schema_record_add,
    keeps_schema_record_array_add, keeps_schema_from_template, keeps_record_from_template, keeps_set_create.
Qed.

Lemma schema_steps_inv w w' : rtc schema_step w w' -> world_inv w -> world_inv w'.
Proof.
  induction 1 as [|w w1 w2 (A & m & a & Hi & Hm) _ IH]; [done|]. intros Hw. apply IH.
  by eapply (interface_keeps A m Hi w Hw).
Qed.
