(* ===== verification/SetOps.v ===== *)
(** * Operations on a metric set

    Model of the part of ldms.c that reads and writes the metrics of a set:
    the descriptors, the values in the meta data and in the current data
    section, the generation numbers, and transactions over the ring of data
    sections. *)

From stdpp Require Import prelude gmap strings.
From Stdlib Require Import Ascii String Floats.SpecFloat.
From S2P Require Import Prelude Bytes CStr Mem CFloat MVal Schema Rrbt LdmsHeap SetCreate.

Open Scope Z_scope.

Abbreviation SM := (M ldms_set).

Definition with_mem (s : ldms_set) (m : mem) : ldms_set :=
  Set_ (s_flags s) (s_set_id s) (s_meta s) (s_data s) (s_data_array s) (s_curr_idx s) (s_heap s) (s_pushes s) m.

(** A computation on the bytes of the set. *)
Definition on_mem {A} (c : M mem A) : SM A := fun s =>
  '(a, m) ← c (s_mem s); Some (a, with_mem s m).

(** ** Generation numbers *)

(** [LDMS_GN_INCREMENT] of the 64-bit number at [p]. *)
Definition gn_increment (p : Z) : M mem unit := gn ← ldw 8 p; stw 8 p (u64 (gn + 1)).

Definition __ldms_gn_inc (desc : Z) : SM unit :=
  meta ← gets s_meta; data ← gets s_data;
  on_mem (
    flags ← ldw 1 (desc + vd_flags);
    if flag flags LDMS_MDESC_F_DATA then gn_increment (data + dh_gn)
    else
      gn_increment (meta + sh_meta_gn);;
      gn ← ldw 8 (meta + sh_meta_gn);
      stw 8 (data + dh_meta_gn) gn).

Definition ldms_set_meta_gn_get : SM Z := meta ← gets s_meta; on_mem (ldw 8 (meta + sh_meta_gn)).
Definition ldms_set_data_gn_get : SM Z := data ← gets s_data; on_mem (ldw 8 (data + dh_gn)).
Definition ldms_set_heap_gn_get : SM Z :=
  h ← gets s_heap;
  match h with
  | None => mret (u64 (-1))
  | Some h => on_mem (h_gn (h_data h))
  end.
Definition ldms_set_heap_size_get : SM Z := data ← gets s_data; on_mem (h_size (data + dh_heap)).

Definition LDMS_SET_F_DATA_COPY : Z := 32.

Definition ldms_set_data_copy_set (on : bool) : SM unit :=
  modify (fun s => Set_ (if on then Z.lor (s_flags s) LDMS_SET_F_DATA_COPY
                         else Z.ldiff (s_flags s) LDMS_SET_F_DATA_COPY)
                     (s_set_id s) (s_meta s) (s_data s) (s_data_array s) (s_curr_idx s) (s_heap s)
                     (s_pushes s) (s_mem s)).

(** ** The header *)

Definition hdr_word (off : Z) : SM Z := meta ← gets s_meta; on_mem (ldw 4 (meta + off)).
Definition set_hdr_word (off v : Z) : SM Z := meta ← gets s_meta; on_mem (stw 4 (meta + off) v);; mret 0.

Definition ldms_set_card_get : SM Z := hdr_word sh_card.
Definition ldms_set_uid_get : SM Z := hdr_word sh_uid.
Definition ldms_set_uid_set (uid : Z) : SM Z := set_hdr_word sh_uid uid.
Definition ldms_set_gid_get : SM Z := hdr_word sh_gid.
Definition ldms_set_gid_set (gid : Z) : SM Z := set_hdr_word sh_gid gid.
Definition ldms_set_perm_get : SM Z := hdr_word sh_perm.
Definition ldms_set_perm_set (perm : Z) : SM Z := set_hdr_word sh_perm perm.
Definition ldms_set_meta_sz_get : SM Z := hdr_word sh_meta_sz.
Definition ldms_set_data_sz_get : SM Z := hdr_word sh_data_sz.

Definition __ldms_set_size_get : SM Z :=
  msz ← hdr_word sh_meta_sz; n ← hdr_word sh_array_card; dsz ← hdr_word sh_data_sz;
  mret (u32 (msz + n * dsz)).

Definition DEFAULT_AUTHZ_SET_UID : Z := 4.
Definition DEFAULT_AUTHZ_SET_GID : Z := 2.
Definition DEFAULT_AUTHZ_SET_PERM : Z := 1.

Definition ldms_set_config_auth (uid gid perm flags : Z) : SM Z :=
  meta ← gets s_meta; data ← gets s_data;
  on_mem (
    (if flag flags DEFAULT_AUTHZ_SET_UID then stw 4 (meta + sh_uid) uid else mret tt);;
    (if flag flags DEFAULT_AUTHZ_SET_GID then stw 4 (meta + sh_gid) gid else mret tt);;
    (if flag flags DEFAULT_AUTHZ_SET_PERM then stw 4 (meta + sh_perm) perm else mret tt);;
    gn_increment (meta + sh_meta_gn);;
    gn ← ldw 8 (meta + sh_meta_gn);
    stw 8 (data + dh_meta_gn) gn);;
  mret 0.

(** Strings are returned as pointers into the meta data. *)
Definition ldms_set_instance_name_get : SM Z :=
  meta ← gets s_meta; on_mem (p ← get_instance_name meta; mret (p + 1)).
Definition ldms_set_name_get : SM Z :=
  meta ← gets s_meta; on_mem (p ← get_instance_name meta; mret (p + 1)).
Definition ldms_set_schema_name_get : SM Z :=
  meta ← gets s_meta; on_mem (p ← get_schema_name meta; mret (p + 1)).
Definition ldms_set_producer_name_get : SM Z := meta ← gets s_meta; mret meta.

Definition LDMS_PRODUCER_NAME_MAX : Z := 64.

Definition ldms_set_producer_name_set (name : string) : SM Z :=
  if LDMS_PRODUCER_NAME_MAX <? strlen name + 1 then mret EINVAL else
  meta ← gets s_meta;
  on_mem (strncpy meta name LDMS_PRODUCER_NAME_MAX);;
  mret 0.

(** The digest after the schema's name; [None] is the address of
    [null_digest]. *)
Definition ldms_set_digest_get : SM (option Z) :=
  meta ← gets s_meta;
  on_mem (
    schema ← get_schema_name meta;
    name ← ld_str (schema + 1);
    len ← ldw 1 schema;
    mret (if strlen name + LDMS_DIGEST_LENGTH <=? len then Some (schema + 1 + strlen name + 1) else None)).

(** ** Descriptors *)

(** [ldms_ptr_(struct ldms_value_desc, s->meta, s->meta->dict[i])], without a
    check of the index. *)
Definition dict_desc (i : Z) : SM Z :=
  meta ← gets s_meta; on_mem (off ← ldw 4 (meta + sh_dict + 4 * i); mret (meta + off)).

Definition __desc_get (i : Z) : SM Z :=
  card ← hdr_word sh_card;
  if (0 <=? i) && (i <? card) then dict_desc i else mret 0.

Definition ldms_metric_name_get (i : Z) : SM Z :=
  desc ← __desc_get i;
  mret (if desc =? 0 then 0 else desc + vd_name_unit).

Definition ldms_metric_unit_get (i : Z) : SM Z :=
  desc ← __desc_get i;
  if desc =? 0 then mret 0 else
  on_mem (
    name ← ld_str (desc + vd_name_unit);
    let unit := desc + vd_name_unit + strlen name in
    len ← ldw 1 (desc + vd_name_unit_len);
    mret (if desc + vd_name_unit + len - 1 =? unit then 0 else unit + 1)).

Definition ldms_metric_flags_get (i : Z) : SM Z :=
  desc ← __desc_get i;
  if desc =? 0 then mret 0 else on_mem (ldw 1 (desc + vd_flags)).

(** The first metric of that name; at most [card] rounds. *)
Fixpoint by_name (fuel : nat) (i card : Z) (name : string) : SM Z :=
  match fuel with
  | O => stuck
  | S fuel =>
      if i <? card then
        desc ← __desc_get i;
        s ← on_mem (ld_str (desc + vd_name_unit));
        if strcmp s name =? 0 then mret i else by_name fuel (i + 1) card name
      else mret (-1)
  end.

Definition ldms_metric_by_name (name : string) : SM Z :=
  card ← ldms_set_card_get;
  by_name (S (Z.to_nat card)) 0 card name.

Definition ldms_metric_user_data_set (i u : Z) : SM unit :=
  desc ← __desc_get i;
  if desc =? 0 then mret tt else
  on_mem (stw 8 (desc + vd_user_data) u);;
  __ldms_gn_inc desc.

Definition ldms_metric_user_data_get (i : Z) : SM Z :=
  desc ← __desc_get i;
  if desc =? 0 then mret (u64 (-1)) else on_mem (ldw 8 (desc + vd_user_data)).

Definition metric_is_array (desc : Z) : SM bool :=
  t ← on_mem (ldw 1 (desc + vd_type)); mret (ldms_type_is_array t).

Definition ldms_metric_is_array (i : Z) : SM bool := desc ← dict_desc i; metric_is_array desc.

Definition ldms_metric_modify (i : Z) : SM unit := desc ← dict_desc i; __ldms_gn_inc desc.

(** ** Values *)

Definition LDMS_TRANSACTION_NONE : Z := 0.
Definition LDMS_TRANSACTION_BEGIN : Z := 1.
Definition LDMS_TRANSACTION_END : Z := 2.

Definition set_array_get (i : Z) : SM Z :=
  a ← gets s_data_array; meta ← gets s_meta; on_mem (__set_array_get a meta i).

(** The value and the descriptor; [None] is NULL with [errno] ENOENT. *)
Definition __mval_to_set (idx : Z) : SM (option (Z * Z)) :=
  card ← hdr_word sh_card;
  if (idx <? 0) || (card <=? idx) then mret None else
  desc ← dict_desc idx;
  flags ← on_mem (ldw 1 (desc + vd_flags));
  off ← on_mem (ldw 4 (desc + vd_data_offset));
  if flag flags LDMS_MDESC_F_DATA then data ← gets s_data; mret (Some (data + off, desc))
  else meta ← gets s_meta; mret (Some (meta + off, desc)).

Definition __mval_to_get (idx : Z) : SM (option (Z * Z)) :=
  card ← hdr_word sh_card;
  if (idx <? 0) || (card <=? idx) then mret None else
  desc ← dict_desc idx;
  flags ← on_mem (ldw 1 (desc + vd_flags));
  off ← on_mem (ldw 4 (desc + vd_data_offset));
  if flag flags LDMS_MDESC_F_DATA then
    data ← gets s_data;
    tf ← on_mem (ldw 4 (data + dh_trans_flags));
    t ← on_mem (ldw 1 (desc + vd_type));
    if negb (tf =? LDMS_TRANSACTION_END) && negb (t =? code LDMS_V_LIST)
       && negb (t =? code LDMS_V_RECORD_ARRAY) then
      n ← hdr_word sh_array_card;
      curr ← gets s_curr_idx;
      c_assert (negb (n =? 0));; (* division by zero *)
      prev_data ← set_array_get ((curr + (n - 1)) mod n);
      mret (Some (prev_data + off, desc))
    else mret (Some (data + off, desc))
  else meta ← gets s_meta; mret (Some (meta + off, desc)).

Definition ldms_metric_type_get (i : Z) : SM Z :=
  mv ← __mval_to_get i;
  match mv with
  | None => mret (code LDMS_V_NONE)
  | Some (_, desc) => on_mem (ldw 1 (desc + vd_type))
  end.

Definition ldms_metric_get (i : Z) : SM Z :=
  mv ← __mval_to_get i; mret (if mv is Some (p, _) then p else 0).

Definition ldms_metric_array_get_len (i : Z) : SM Z :=
  desc ← dict_desc i;
  arr ← metric_is_array desc;
  if (arr : bool) then on_mem (ldw 4 (desc + vd_array_count)) else mret 1.

(** With a bad index the descriptor is read uninitialised. *)
Definition ldms_metric_array_item_get (i : Z) : SM Z :=
  mv ← __mval_to_get i;
  match mv with
  | None => stuck
  | Some (p, desc) => arr ← metric_is_array desc; mret (if (arr : bool) then p else 0)
  end.

(** ** Generic setters

    [v] is the first word of the caller's [union ldms_value]. *)

Definition __metric_set (desc mv v : Z) : M mem unit :=
  t ← ldw 1 (desc + vd_type);
  match of_code t with
  | Some (LDMS_V_CHAR | LDMS_V_U8 | LDMS_V_S8) => stw 1 mv v
  | Some (LDMS_V_U16 | LDMS_V_S16) => stw 2 mv v
  | Some (LDMS_V_U32 | LDMS_V_S32) => stw 4 mv v
  | Some (LDMS_V_U64 | LDMS_V_S64) => stw 8 mv v
  | Some LDMS_V_F32 => stw 4 mv v
  | Some LDMS_V_D64 => stw 8 mv v
  | _ => stuck
  end.

Definition ldms_metric_set (i v : Z) : SM unit :=
  card ← hdr_word sh_card;
  if (i <? 0) || (card <=? i) then mret tt else
  mv ← __mval_to_set i;
  match mv with
  | Some (p, desc) => on_mem (__metric_set desc p v);; __ldms_gn_inc desc
  | None => mret tt
  end.

Definition __metric_array_set (desc dst i v : Z) : M mem unit :=
  count ← ldw 4 (desc + vd_array_count);
  c_assert (negb ((i <? 0) || (count <=? i)));;
  t ← ldw 1 (desc + vd_type);
  match of_code t with
  | Some (LDMS_V_CHAR_ARRAY | LDMS_V_U8_ARRAY | LDMS_V_S8_ARRAY) => stw 1 (dst + i) v
  | Some (LDMS_V_U16_ARRAY | LDMS_V_S16_ARRAY) => stw 2 (dst + i * 2) v
  | Some (LDMS_V_U32_ARRAY | LDMS_V_S32_ARRAY) => stw 4 (dst + i * 4) v
  | Some (LDMS_V_U64_ARRAY | LDMS_V_S64_ARRAY) => stw 8 (dst + i * 8) v
  | Some LDMS_V_F32_ARRAY => stw 4 (dst + i * 4) v
  | Some LDMS_V_D64_ARRAY => stw 8 (dst + i * 8) v
  | _ => stuck
  end.

(** A negative metric index converts to a large unsigned one. *)
Definition ldms_metric_array_set_val (metric_idx array_idx v : Z) : SM unit :=
  card ← hdr_word sh_card;
  c_assert (negb (card <=? u32 metric_idx));;
  mv ← __mval_to_set metric_idx;
  match mv with
  | Some (dst, desc) => on_mem (__metric_array_set desc dst array_idx v);; __ldms_gn_inc desc
  | None => stuck
  end.

(** ** Typed setters *)

(** The body they share: a store through the value's address. *)
Definition metric_store (i : Z) (store : Z -> M mem unit) : SM unit :=
  mv ← __mval_to_set i;
  match mv with
  | Some (p, desc) => on_mem (store p);; __ldms_gn_inc desc
  | None => stuck
  end.

Definition ldms_metric_set_char (i v : Z) : SM unit := metric_store i (fun mv => sti t_char mv v).
Definition ldms_metric_set_u8 (i v : Z) : SM unit := metric_store i (fun mv => sti t_u8 mv v).
Definition ldms_metric_set_s8 (i v : Z) : SM unit := metric_store i (fun mv => sti t_s8 mv v).
Definition ldms_metric_set_u16 (i v : Z) : SM unit := metric_store i (fun mv => sti t_u16 mv v).
Definition ldms_metric_set_s16 (i v : Z) : SM unit := metric_store i (fun mv => sti t_s16 mv v).
Definition ldms_metric_set_u32 (i v : Z) : SM unit := metric_store i (fun mv => sti t_u32 mv v).
Definition ldms_metric_set_s32 (i v : Z) : SM unit := metric_store i (fun mv => sti t_s32 mv v).
Definition ldms_metric_set_u64 (i v : Z) : SM unit := metric_store i (fun mv => sti t_u64 mv v).
Definition ldms_metric_set_s64 (i v : Z) : SM unit := metric_store i (fun mv => sti t_s64 mv v).
Definition ldms_metric_set_float (i v : Z) : SM unit := metric_store i (fun mv => sti t_u32 mv v).
Definition ldms_metric_set_double (i v : Z) : SM unit := metric_store i (fun mv => sti t_u64 mv v).

Definition ldms_metric_array_set_str (mid : Z) (str : string) : SM unit :=
  mv ← __mval_to_set mid;
  match mv with
  | Some (p, desc) =>
      on_mem (count ← ldw 4 (desc + vd_array_count); strncpy p str count);;
      __ldms_gn_inc desc
  | None => stuck
  end.

(** [idx < desc->vd_array_count] compares as unsigned. *)
Definition metric_array_store (mid idx : Z) (store : Z -> M mem unit) : SM unit :=
  mv ← __mval_to_set mid;
  match mv with
  | Some (p, desc) =>
      count ← on_mem (ldw 4 (desc + vd_array_count));
      if u32 idx <? count then on_mem (store p);; __ldms_gn_inc desc else stuck
  | None => stuck
  end.

Definition ldms_metric_array_set_char (mid idx v : Z) : SM unit :=
  metric_array_store mid idx (fun mv => sti t_char (elt t_char mv idx) v).
Definition ldms_metric_array_set_u8 (mid idx v : Z) : SM unit :=
  metric_array_store mid idx (fun mv => sti t_u8 (elt t_u8 mv idx) v).
Definition ldms_metric_array_set_s8 (mid idx v : Z) : SM unit :=
  metric_array_store mid idx (fun mv => sti t_s8 (elt t_s8 mv idx) v).
Definition ldms_metric_array_set_u16 (mid idx v : Z) : SM unit :=
  metric_array_store mid idx (fun mv => sti t_u16 (elt t_u16 mv idx) v).
Definition ldms_metric_array_set_s16 (mid idx v : Z) : SM unit :=
  metric_array_store mid idx (fun mv => sti t_s16 (elt t_s16 mv idx) v).
Definition ldms_metric_array_set_u32 (mid idx v : Z) : SM unit :=
  metric_array_store mid idx (fun mv => sti t_u32 (elt t_u32 mv idx) v).
Definition ldms_metric_array_set_s32 (mid idx v : Z) : SM unit :=
  metric_array_store mid idx (fun mv => sti t_s32 (elt t_s32 mv idx) v).
Definition ldms_metric_array_set_u64 (mid idx v : Z) : SM unit :=
  metric_array_store mid idx (fun mv => sti t_u64 (elt t_u64 mv idx) v).
Definition ldms_metric_array_set_s64 (mid idx v : Z) : SM unit :=
  metric_array_store mid idx (fun mv => sti t_s64 (elt t_s64 mv idx) v).
Definition ldms_metric_array_set_float (mid idx v : Z) : SM unit :=
  metric_array_store mid idx (fun mv => sti t_u32 (elt t_u32 mv idx) v).
Definition ldms_metric_array_set_double (mid idx v : Z) : SM unit :=
  metric_array_store mid idx (fun mv => sti t_u64 (elt t_u64 mv idx) v).

(** The loop of [ldms_metric_array_set] over elements of [w] bytes;
    [src] is the caller's array.  The [int] [i] is compared with the
    [size_t] [lim] and with the [uint32_t] [count]. *)
Fixpoint array_copy (fuel : nat) (w : nat) (val : Z) (src : bytes) (i lim count : Z) : M mem unit :=
  match fuel with
  | O => stuck
  | S fuel =>
      if (u64 i <? lim) && (u32 i <? count) then
        v ← lift_opt (if i <? 0 then None else le_value <$> read (Z.to_nat i * w) w src);
        stw w (val + i * Z.of_nat w) v;;
        array_copy fuel w val src (i + 1) lim count
      else mret tt
  end.

Definition ldms_metric_array_set (mid : Z) (src : bytes) (start count : Z) : SM unit :=
  _ ← dict_desc mid;
  mv ← __mval_to_set mid;
  match mv with
  | None => mret tt
  | Some (val, desc) =>
      on_mem (
        t ← ldw 1 (desc + vd_type);
        n ← ldw 4 (desc + vd_array_count);
        let copy w := array_copy (S (Z.to_nat n)) w val src (s32 start) (u64 (start + count)) n in
        match of_code t with
        | Some (LDMS_V_CHAR_ARRAY | LDMS_V_U8_ARRAY | LDMS_V_S8_ARRAY) => copy 1%nat
        | Some (LDMS_V_U16_ARRAY | LDMS_V_S16_ARRAY) => copy 2%nat
        | Some (LDMS_V_U32_ARRAY | LDMS_V_S32_ARRAY | LDMS_V_F32_ARRAY) => copy 4%nat
        | Some (LDMS_V_U64_ARRAY | LDMS_V_S64_ARRAY | LDMS_V_D64_ARRAY) => copy 8%nat
        | _ => stuck
        end);;
      __ldms_gn_inc desc
  end.

(** ** Typed getters *)

Definition metric_load {A} (i : Z) (load : Z -> M mem A) : SM A :=
  mv ← __mval_to_get i;
  match mv with
  | Some (p, _) => on_mem (load p)
  | None => stuck
  end.

Definition ldms_metric_get_char (i : Z) : SM Z := metric_load i (ldi t_char).
Definition ldms_metric_get_u8 (i : Z) : SM Z := metric_load i (ldi t_u8).
Definition ldms_metric_get_s8 (i : Z) : SM Z := metric_load i (ldi t_s8).
Definition ldms_metric_get_u16 (i : Z) : SM Z := metric_load i (ldi t_u16).
Definition ldms_metric_get_s16 (i : Z) : SM Z := metric_load i (ldi t_s16).
Definition ldms_metric_get_u32 (i : Z) : SM Z := metric_load i (ldi t_u32).
Definition ldms_metric_get_s32 (i : Z) : SM Z := metric_load i (ldi t_s32).
Definition ldms_metric_get_u64 (i : Z) : SM Z := metric_load i (ldi t_u64).
Definition ldms_metric_get_s64 (i : Z) : SM Z := metric_load i (ldi t_s64).
Definition ldms_metric_get_float (i : Z) : SM Z := metric_load i (ldi t_u32).
Definition ldms_metric_get_double (i : Z) : SM Z := metric_load i (ldi t_u64).

Definition ldms_metric_array_get_str (mid : Z) : SM Z := metric_load mid mret.

Definition metric_array_load {A} (mid idx : Z) (load : Z -> M mem A) : SM A :=
  mv ← __mval_to_get mid;
  match mv with
  | Some (p, desc) =>
      count ← on_mem (ldw 4 (desc + vd_array_count));
      if u32 idx <? count then on_mem (load p) else stuck
  | None => stuck
  end.

Definition ldms_metric_array_get_char (mid idx : Z) : SM Z :=
  metric_array_load mid idx (fun mv => ldi t_char (elt t_char mv idx)).
Definition ldms_metric_array_get_u8 (mid idx : Z) : SM Z :=
  metric_array_load mid idx (fun mv => ldi t_u8 (elt t_u8 mv idx)).
Definition ldms_metric_array_get_s8 (mid idx : Z) : SM Z :=
  metric_array_load mid idx (fun mv => ldi t_s8 (elt t_s8 mv idx)).
Definition ldms_metric_array_get_u16 (mid idx : Z) : SM Z :=
  metric_array_load mid idx (fun mv => ldi t_u16 (elt t_u16 mv idx)).
Definition ldms_metric_array_get_s16 (mid idx : Z) : SM Z :=
  metric_array_load mid idx (fun mv => ldi t_s16 (elt t_s16 mv idx)).
Definition ldms_metric_array_get_u32 (mid idx : Z) : SM Z :=
  metric_array_load mid idx (fun mv => ldi t_u32 (elt t_u32 mv idx)).
Definition ldms_metric_array_get_s32 (mid idx : Z) : SM Z :=
  metric_array_load mid idx (fun mv => ldi t_s32 (elt t_s32 mv idx)).
Definition ldms_metric_array_get_u64 (mid idx : Z) : SM Z :=
  metric_array_load mid idx (fun mv => ldi t_u64 (elt t_u64 mv idx)).
Definition ldms_metric_array_get_s64 (mid idx : Z) : SM Z :=
  metric_array_load mid idx (fun mv => ldi t_s64 (elt t_s64 mv idx)).
Definition ldms_metric_array_get_float (mid idx : Z) : SM Z :=
  metric_array_load mid idx (fun mv => ldi t_u32 (elt t_u32 mv idx)).
Definition ldms_metric_array_get_double (mid idx : Z) : SM Z :=
  metric_array_load mid idx (fun mv => ldi t_u64 (elt t_u64 mv idx)).

(** ** Transactions *)

Definition set_curr (s : ldms_set) (curr data : Z) (heap : option ldms_heap_t) : ldms_set :=
  Set_ (s_flags s) (s_set_id s) (s_meta s) data (s_data_array s) curr heap (s_pushes s) (s_mem s).

(** The switch to the next data section of the ring. *)
Definition next_data_section (n : Z) : SM unit :=
  meta ← gets s_meta;
  curr0 ← gets s_curr_idx;
  dh_prev ← set_array_get curr0;
  let curr := (curr0 + 1) mod n in
  dh ← set_array_get curr;
  flags ← gets s_flags;
  heap_sz ← on_mem (h_size (dh + dh_heap));
  size ← on_mem (ldw 8 (dh + dh_size));
  let base := dh + u64 (size - heap_sz) in
  set_off ← on_mem (ldw 4 (dh + dh_set_off));
  gn ← on_mem (h_gn (dh + dh_heap));
  gn_prev ← on_mem (h_gn (dh_prev + dh_heap));
  on_mem (
    (if flag flags LDMS_SET_F_DATA_COPY then memcpy dh dh_prev size
     else if negb (gn =? gn_prev) then memcpy dh dh_prev size
     else memcpy dh dh_prev sizeof_ldms_data_hdr);;
    stw 4 (dh + dh_set_off) set_off);;
  hsz ← on_mem (ldw 4 (meta + sh_heap_sz));
  heap0 ← gets s_heap;
  heap ← (if hsz =? 0 then mret heap0
          else h ← on_mem (ldms_heap_get (dh + dh_heap) base); mret (Some h));
  modify (fun s => set_curr s curr dh heap);;
  for_up (Z.to_nat n) 0 (fun i =>
    d ← set_array_get i;
    on_mem (stw 4 (d + dh_curr_idx) curr)).

(** [sec] and [usec] are the time of day. *)
Definition ldms_transaction_begin (sec usec : Z) : SM Z :=
  n ← hdr_word sh_array_card;
  (if n =? 1 then mret tt else c_assert (negb (n =? 0));; next_data_section n);;
  data ← gets s_data;
  on_mem (
    stw 4 (data + dh_trans_flags) LDMS_TRANSACTION_BEGIN;;
    stw 4 (data + dh_ts_sec) sec;;
    stw 4 (data + dh_ts_usec) usec);;
  mret 0.

Definition LDMS_RBD_F_PUSH_CHANGE : Z := 2.

(** [__ldms_xprt_push(s, flags)]. *)
Definition xprt_push (flags : Z) : SM unit :=
  modify (fun s => Set_ (s_flags s) (s_set_id s) (s_meta s) (s_data s) (s_data_array s) (s_curr_idx s)
                     (s_heap s) (s_pushes s ++ [flags]) (s_mem s)).

Definition ldms_transaction_end (sec usec : Z) : SM Z :=
  curr ← gets s_curr_idx;
  dh ← set_array_get curr;
  data ← gets s_data;
  on_mem (
    ts_sec ← ldw 4 (dh + dh_ts_sec);
    stw 4 (dh + dh_dur_sec) (sec - ts_sec);;
    ts_usec ← ldw 4 (dh + dh_ts_usec);
    stw 4 (dh + dh_dur_usec) (usec - ts_usec);;
    du ← ldw 4 (dh + dh_dur_usec);
    (if s32 du <? 0 then
       ds ← ldw 4 (dh + dh_dur_sec);
       stw 4 (dh + dh_dur_sec) (ds - 1);;
       stw 4 (dh + dh_dur_usec) (du + 1000000)
     else mret tt);;
    stw 4 (dh + dh_ts_sec) sec;;
    stw 4 (dh + dh_ts_usec) usec;;
    stw 4 (dh + dh_trans_flags) LDMS_TRANSACTION_END;;
    gn_increment (data + dh_gn));;
  xprt_push LDMS_RBD_F_PUSH_CHANGE;;
  mret 0.

Definition ldms_transaction_timestamp_get : SM ldms_timestamp :=
  dh ← gets s_data;
  on_mem (s ← ldw 4 (dh + dh_ts_sec); u ← ldw 4 (dh + dh_ts_usec); mret (Ts s u)).

Definition ldms_transaction_duration_get : SM ldms_timestamp :=
  dh ← gets s_data;
  on_mem (s ← ldw 4 (dh + dh_dur_sec); u ← ldw 4 (dh + dh_dur_usec); mret (Ts s u)).

Definition ldms_set_is_consistent : SM bool :=
  dh ← gets s_data;
  on_mem (tf ← ldw 4 (dh + dh_trans_flags); mret (tf =? LDMS_TRANSACTION_END)).

(** [None] is a NULL argument. *)
Definition ldms_difftimestamp (after before : option ldms_timestamp) : spec_float :=
  match after, before with
  | Some t2, Some b =>
      let '(dms, sec) :=
        if ts_usec t2 <? ts_usec b then (u32 (1000000 + ts_usec t2 - ts_usec b), u32 (ts_sec t2 - 1))
        else (u32 (ts_usec t2 - ts_usec b), ts_sec t2) in
      let ds := u32 (sec - ts_sec b) in
      if sec <? ds then f64_of_Z 0
      else f64_add (f64_of_Z ds) (f64_mul f64_1em6 (f64_of_Z dms))
  | _, _ => f64_of_Z (-1)
  end.
