(* ===== verification/RecOps.v ===== *)
(** * Records of a metric set

    Model of the part of ldms.c that reads and writes record instances and
    record arrays.  A record instance knows its data section by an offset, the
    data section its meta data by another, and the meta data has the record
    type, so the functions need only the address of the instance. *)

From stdpp Require Import prelude gmap strings.
From Stdlib Require Import Ascii String.
From S2P Require Import Prelude Bytes CStr Mem CFloat MVal Schema Rrbt LdmsHeap SetCreate SetOps.

Open Scope Z_scope.

(** The record type of an instance with its descriptor, the meta data and the
    data section; [None] is NULL.  A NULL instance is dereferenced before it
    is tested. *)
Record rec_type_out := RecType { ro_type : Z; ro_desc : Z; ro_meta : Z; ro_data : Z }.

Definition __rec_type (rec_inst : Z) : M mem (option rec_type_out) :=
  type_idx ← ldw 4 (rec_inst + ri_rec_type);
  doff ← ldw 4 (rec_inst + ri_set_data_off);
  let data := rec_inst - doff in
  soff ← ldw 4 (data + dh_set_off);
  let meta := data - soff in
  v ← peek (meta + sh_version) 4;
  if negb (bool_decide (v = ldms_version)) then mret None else
  off ← ldw 4 (meta + sh_dict + 4 * s32 type_idx);
  let vd := meta + off in
  t ← ldw 1 (vd + vd_type);
  flags ← ldw 1 (vd + vd_flags);
  if negb (t =? code LDMS_V_RECORD_TYPE) || negb (flag flags LDMS_MDESC_F_RECORD)
     || negb (flag flags LDMS_MDESC_F_META) then mret None else
  voff ← ldw 4 (vd + vd_data_offset);
  mret (Some (RecType (meta + voff) vd meta data)).

(** The [flags] of [struct ldms_record_hdr]. *)
Definition rec_flags (rec : Z) : M mem Z := ldw 4 rec.

(** [0] is NULL. *)
Definition __record_mdesc_get (rec i : Z) : M mem Z :=
  f ← rec_flags rec;
  rt ← (if f =? LDMS_RECORD_F_TYPE then mret rec
        else o ← __rec_type rec; mret (if o is Some o then ro_type o else 0));
  if rt =? 0 then mret 0 else
  n ← ldw 4 (rt + rt_n);
  if (i <? 0) || (n <=? i) then mret 0 else
  off ← ldw 4 (rt + rt_dict + 4 * i);
  mret (rt + off).

Definition ldms_record_type_get (mval : Z) : M mem Z :=
  f ← rec_flags mval;
  if negb (f =? LDMS_RECORD_F_INST) then mret (- EINVAL) else
  o ← __rec_type mval;
  match o with
  | None => mret (- EINVAL)
  | Some o =>
      t ← ldw 1 (ro_desc o + vd_type);
      if negb (t =? code LDMS_V_RECORD_TYPE) then mret (- EINVAL) else
      ty ← ldw 4 (mval + ri_rec_type); mret (s32 ty)
  end.

(** The first member of that name. *)
Fixpoint member_find (fuel : nat) (rt i n : Z) (name : string) : M mem Z :=
  match fuel with
  | O => stuck
  | S fuel =>
      if i <? n then
        off ← ldw 4 (rt + rt_dict + 4 * i);
        s ← ld_str (rt + off + vd_name_unit);
        if strcmp name s =? 0 then mret i else member_find fuel rt (i + 1) n name
      else mret (- ENOENT)
  end.

Definition ldms_record_metric_find (mval : Z) (name : string) : M mem Z :=
  f ← rec_flags mval;
  rt ← (if f =? LDMS_RECORD_F_TYPE then mret mval
        else o ← __rec_type mval;
             match o with
             | Some o =>
                 t ← ldw 1 (ro_desc o + vd_type);
                 c_assert (t =? code LDMS_V_RECORD_TYPE);;
                 mret (ro_type o)
             | None => stuck
             end);
  n ← ldw 4 (rt + rt_n);
  member_find (S (Z.to_nat n)) rt 0 (s32 n) name.

Definition ldms_record_card (rec : Z) : M mem Z :=
  f ← rec_flags rec;
  if flag f LDMS_RECORD_F_INST then
    o ← __rec_type rec;
    match o with
    | None => mret (- EINVAL)
    | Some o => n ← ldw 4 (ro_type o + rt_n); mret (s32 n)
    end
  else n ← ldw 4 (rec + rt_n); mret (s32 n).

(** The value of member [i], with its descriptor and the data section.  When
    there is no such member the NULL descriptor is dereferenced. *)
Definition __record_metric_get (rec_inst i : Z) : M mem (option (Z * Z * Z)) :=
  f ← rec_flags rec_inst;
  if negb (f =? LDMS_RECORD_F_INST) then mret None else
  o ← __rec_type rec_inst;
  match o with
  | None => mret None
  | Some o =>
      vd ← __record_mdesc_get rec_inst i;
      if vd =? 0 then stuck else
      off ← ldw 4 (vd + vd_data_offset);
      mret (Some (rec_inst + off, vd, ro_data o))
  end.

Definition ldms_record_metric_get (rec_inst i : Z) : M mem Z :=
  mv ← __record_metric_get rec_inst i; mret (if mv is Some (p, _, _) then p else 0).

Definition ldms_record_metric_name_get (rec i : Z) : M mem Z :=
  vd ← __record_mdesc_get rec i;
  mret (if vd =? 0 then 0 else vd + vd_name_unit).

Definition ldms_record_metric_unit_get (rec i : Z) : M mem Z :=
  vd ← __record_mdesc_get rec i;
  if vd =? 0 then mret 0 else
  name ← ld_str (vd + vd_name_unit);
  ulen ← ldw 1 (vd + vd_name_unit_len);
  mret (if strlen name + 1 <? ulen then vd + vd_name_unit + strlen name + 1 else 0).

(** The type and the array length. *)
Definition ldms_record_metric_type_get (rec i : Z) : M mem (Z * option Z) :=
  vd ← __record_mdesc_get rec i;
  if vd =? 0 then mret (code LDMS_V_NONE, None) else
  count ← ldw 4 (vd + vd_array_count);
  t ← ldw 1 (vd + vd_type);
  mret (t, Some count).

Definition ldms_record_metric_set (rec_inst i v : Z) : M mem unit :=
  mv ← __record_metric_get rec_inst i;
  match mv with
  | None => mret tt
  | Some (p, vd, data) => __metric_set vd p v;; gn_increment (data + dh_gn)
  end.

(** The same value is stored to every element of the range. *)
Definition ldms_record_metric_array_set (rec_inst i v start count : Z) : M mem unit :=
  mv ← __record_metric_get rec_inst i;
  match mv with
  | None => mret tt
  | Some (p, vd, data) =>
      for_up (Z.to_nat count) start (fun j => __metric_array_set vd p j v);;
      gn_increment (data + dh_gn)
  end.

(** ** Typed accessors *)

Definition rec_load {A} (rec_inst i : Z) (load : Z -> M mem A) : M mem A :=
  mv ← __record_metric_get rec_inst i;
  match mv with
  | Some (p, _, _) => load p
  | None => stuck
  end.

Definition ldms_record_get_char (rec_inst i : Z) : M mem Z := rec_load rec_inst i (ldi t_char).
Definition ldms_record_get_u8 (rec_inst i : Z) : M mem Z := rec_load rec_inst i (ldi t_u8).
Definition ldms_record_get_s8 (rec_inst i : Z) : M mem Z := rec_load rec_inst i (ldi t_s8).
Definition ldms_record_get_u16 (rec_inst i : Z) : M mem Z := rec_load rec_inst i (ldi t_u16).
Definition ldms_record_get_s16 (rec_inst i : Z) : M mem Z := rec_load rec_inst i (ldi t_s16).
Definition ldms_record_get_u32 (rec_inst i : Z) : M mem Z := rec_load rec_inst i (ldi t_u32).
Definition ldms_record_get_s32 (rec_inst i : Z) : M mem Z := rec_load rec_inst i (ldi t_s32).
Definition ldms_record_get_u64 (rec_inst i : Z) : M mem Z := rec_load rec_inst i (ldi t_u64).
Definition ldms_record_get_s64 (rec_inst i : Z) : M mem Z := rec_load rec_inst i (ldi t_s64).
Definition ldms_record_get_float (rec_inst i : Z) : M mem Z := rec_load rec_inst i (ldi t_u32).
Definition ldms_record_get_double (rec_inst i : Z) : M mem Z := rec_load rec_inst i (ldi t_u64).

Definition ldms_record_array_get_str (rec_inst i : Z) : M mem Z := rec_load rec_inst i mret.

Definition rec_array_load {A} (rec_inst i idx : Z) (load : Z -> M mem A) : M mem A :=
  mv ← __record_metric_get rec_inst i;
  match mv with
  | Some (p, vd, _) =>
      count ← ldw 4 (vd + vd_array_count);
      if (0 <=? idx) && (idx <? count) then load p else stuck
  | None => stuck
  end.

Definition ldms_record_array_get_char (rec_inst i idx : Z) : M mem Z :=
  rec_array_load rec_inst i idx (fun mv => ldi t_char (elt t_char mv idx)).
Definition ldms_record_array_get_u8 (rec_inst i idx : Z) : M mem Z :=
  rec_array_load rec_inst i idx (fun mv => ldi t_u8 (elt t_u8 mv idx)).
Definition ldms_record_array_get_s8 (rec_inst i idx : Z) : M mem Z :=
  rec_array_load rec_inst i idx (fun mv => ldi t_s8 (elt t_s8 mv idx)).
Definition ldms_record_array_get_u16 (rec_inst i idx : Z) : M mem Z :=
  rec_array_load rec_inst i idx (fun mv => ldi t_u16 (elt t_u16 mv idx)).
Definition ldms_record_array_get_s16 (rec_inst i idx : Z) : M mem Z :=
  rec_array_load rec_inst i idx (fun mv => ldi t_s16 (elt t_s16 mv idx)).
Definition ldms_record_array_get_u32 (rec_inst i idx : Z) : M mem Z :=
  rec_array_load rec_inst i idx (fun mv => ldi t_u32 (elt t_u32 mv idx)).
Definition ldms_record_array_get_s32 (rec_inst i idx : Z) : M mem Z :=
  rec_array_load rec_inst i idx (fun mv => ldi t_s32 (elt t_s32 mv idx)).
Definition ldms_record_array_get_u64 (rec_inst i idx : Z) : M mem Z :=
  rec_array_load rec_inst i idx (fun mv => ldi t_u64 (elt t_u64 mv idx)).
Definition ldms_record_array_get_s64 (rec_inst i idx : Z) : M mem Z :=
  rec_array_load rec_inst i idx (fun mv => ldi t_s64 (elt t_s64 mv idx)).
Definition ldms_record_array_get_float (rec_inst i idx : Z) : M mem Z :=
  rec_array_load rec_inst i idx (fun mv => ldi t_u32 (elt t_u32 mv idx)).
Definition ldms_record_array_get_double (rec_inst i idx : Z) : M mem Z :=
  rec_array_load rec_inst i idx (fun mv => ldi t_u64 (elt t_u64 mv idx)).

Definition rec_store (rec_inst i : Z) (store : Z -> M mem unit) : M mem unit :=
  mv ← __record_metric_get rec_inst i;
  match mv with
  | Some (p, _, data) => store p;; gn_increment (data + dh_gn)
  | None => stuck
  end.

Definition ldms_record_set_char (rec_inst i v : Z) : M mem unit := rec_store rec_inst i (fun mv => sti t_char mv v).
Definition ldms_record_set_u8 (rec_inst i v : Z) : M mem unit := rec_store rec_inst i (fun mv => sti t_u8 mv v).
Definition ldms_record_set_s8 (rec_inst i v : Z) : M mem unit := rec_store rec_inst i (fun mv => sti t_s8 mv v).
Definition ldms_record_set_u16 (rec_inst i v : Z) : M mem unit := rec_store rec_inst i (fun mv => sti t_u16 mv v).
Definition ldms_record_set_s16 (rec_inst i v : Z) : M mem unit := rec_store rec_inst i (fun mv => sti t_s16 mv v).
Definition ldms_record_set_u32 (rec_inst i v : Z) : M mem unit := rec_store rec_inst i (fun mv => sti t_u32 mv v).
Definition ldms_record_set_s32 (rec_inst i v : Z) : M mem unit := rec_store rec_inst i (fun mv => sti t_s32 mv v).
Definition ldms_record_set_u64 (rec_inst i v : Z) : M mem unit := rec_store rec_inst i (fun mv => sti t_u64 mv v).
Definition ldms_record_set_s64 (rec_inst i v : Z) : M mem unit := rec_store rec_inst i (fun mv => sti t_s64 mv v).
Definition ldms_record_set_float (rec_inst i v : Z) : M mem unit := rec_store rec_inst i (fun mv => sti t_u32 mv v).
Definition ldms_record_set_double (rec_inst i v : Z) : M mem unit := rec_store rec_inst i (fun mv => sti t_u64 mv v).

Definition ldms_record_array_set_str (rec_inst i : Z) (v : string) : M mem unit :=
  mv ← __record_metric_get rec_inst i;
  match mv with
  | Some (p, vd, data) =>
      count ← ldw 4 (vd + vd_array_count);
      strncpy p v count;;
      gn_increment (data + dh_gn)
  | None => stuck
  end.

Definition rec_array_store (rec_inst i idx : Z) (store : Z -> M mem unit) : M mem unit :=
  mv ← __record_metric_get rec_inst i;
  match mv with
  | Some (p, vd, data) =>
      count ← ldw 4 (vd + vd_array_count);
      if (0 <=? idx) && (idx <? count) then store p;; gn_increment (data + dh_gn) else stuck
  | None => stuck
  end.

Definition ldms_record_array_set_char (rec_inst i idx v : Z) : M mem unit :=
  rec_array_store rec_inst i idx (fun mv => sti t_char (elt t_char mv idx) v).
Definition ldms_record_array_set_u8 (rec_inst i idx v : Z) : M mem unit :=
  rec_array_store rec_inst i idx (fun mv => sti t_u8 (elt t_u8 mv idx) v).
Definition ldms_record_array_set_s8 (rec_inst i idx v : Z) : M mem unit :=
  rec_array_store rec_inst i idx (fun mv => sti t_s8 (elt t_s8 mv idx) v).
Definition ldms_record_array_set_u16 (rec_inst i idx v : Z) : M mem unit :=
  rec_array_store rec_inst i idx (fun mv => sti t_u16 (elt t_u16 mv idx) v).
Definition ldms_record_array_set_s16 (rec_inst i idx v : Z) : M mem unit :=
  rec_array_store rec_inst i idx (fun mv => sti t_s16 (elt t_s16 mv idx) v).
Definition ldms_record_array_set_u32 (rec_inst i idx v : Z) : M mem unit :=
  rec_array_store rec_inst i idx (fun mv => sti t_u32 (elt t_u32 mv idx) v).
Definition ldms_record_array_set_s32 (rec_inst i idx v : Z) : M mem unit :=
  rec_array_store rec_inst i idx (fun mv => sti t_s32 (elt t_s32 mv idx) v).
Definition ldms_record_array_set_u64 (rec_inst i idx v : Z) : M mem unit :=
  rec_array_store rec_inst i idx (fun mv => sti t_u64 (elt t_u64 mv idx) v).
Definition ldms_record_array_set_s64 (rec_inst i idx v : Z) : M mem unit :=
  rec_array_store rec_inst i idx (fun mv => sti t_s64 (elt t_s64 mv idx) v).
Definition ldms_record_array_set_float (rec_inst i idx v : Z) : M mem unit :=
  rec_array_store rec_inst i idx (fun mv => sti t_u32 (elt t_u32 mv idx) v).
Definition ldms_record_array_set_double (rec_inst i idx v : Z) : M mem unit :=
  rec_array_store rec_inst i idx (fun mv => sti t_u64 (elt t_u64 mv idx) v).

(** ** Record arrays *)

Definition ldms_record_array_get_inst (rec_array idx : Z) : M mem Z :=
  len ← ldw 4 (rec_array + ra_array_len);
  if (idx <? 0) || (len <=? idx) then mret 0 else
  isz ← ldw 4 (rec_array + ra_inst_sz);
  mret (rec_array + ra_data + u32 (idx * isz)).

Definition ldms_record_array_len (rec_array : Z) : M mem Z :=
  len ← ldw 4 (rec_array + ra_array_len); mret (s32 len).
