(* ===== verification/ListOps.v ===== *)
(** * Lists of a metric set

    Model of the list part of ldms.c.  A list metric is a head
    ([struct ldms_list]) in the data section; its entries
    ([struct ldms_list_entry] followed by the value) are allocated from the
    heap of the set and linked by offsets from the heap's base. *)

From stdpp Require Import prelude gmap strings.
From Stdlib Require Import Ascii String.
From S2P Require Import Prelude Bytes CStr Mem CFloat MVal Schema Rrbt LdmsHeap SetCreate SetOps RecOps.

Open Scope Z_scope.

(** Members of [struct ldms_list] and [struct ldms_list_entry]; an entry's
    third word is [type:8, count:24]. *)
Definition lh_head : Z := 0.
Definition lh_tail : Z := 4.
Definition lh_count : Z := 8.
Definition le_next : Z := 0.
Definition le_prev : Z := 4.
Definition le_word : Z := 8.
Definition le_val : Z := 12.

Definition le_type (le : Z) : M mem Z := w ← ldw 4 (le + le_word); mret (w mod 256).
Definition le_count (le : Z) : M mem Z := w ← ldw 4 (le + le_word); mret (w / 256).
Definition le_set_type (le t : Z) : M mem unit :=
  w ← ldw 4 (le + le_word); stw 4 (le + le_word) (256 * (w / 256) + t mod 256).
Definition le_set_count (le c : Z) : M mem unit :=
  w ← ldw 4 (le + le_word); stw 4 (le + le_word) (256 * (c mod 2 ^ 24) + w mod 256).

Definition __list_append (h : ldms_heap_t) (lh le : Z) : M mem unit :=
  le_off ← ldms_heap_off h le;
  let le_off := u32 le_off in
  head ← ldw 4 (lh + lh_head);
  (if head =? 0 then
     stw 4 (le + le_prev) 0;;
     stw 4 (lh + lh_head) le_off;;
     stw 4 (lh + lh_count) 1
   else
     tail ← ldw 4 (lh + lh_tail);
     prev ← ldms_heap_ptr h tail;
     stw 4 (prev + le_next) le_off;;
     tail ← ldw 4 (lh + lh_tail);
     stw 4 (le + le_prev) tail;;
     n ← ldw 4 (lh + lh_count);
     stw 4 (lh + lh_count) (n + 1));;
  stw 4 (lh + lh_tail) le_off;;
  stw 4 (le + le_next) 0.

(** The entry at an offset: its value, type and count. *)
Definition le_out (h : ldms_heap_t) (off : Z) : M mem (option (Z * Z * Z)) :=
  le ← ldms_heap_ptr h off;
  t ← le_type le;
  c ← le_count le;
  mret (Some (le + le_val, t, c)).

Definition ldms_list_len (lh : Z) : SM Z := on_mem (ldw 4 (lh + lh_count)).

(** NULL is [None]. *)
Definition ldms_list_first (lh : Z) : SM (option (Z * Z * Z)) :=
  head ← on_mem (ldw 4 (lh + lh_head));
  if head =? 0 then mret None else
  h ← gets s_heap;
  match h with
  | None => mret None
  | Some h => on_mem (head ← ldw 4 (lh + lh_head); le_out h head)
  end.

Definition ldms_list_last (lh : Z) : SM (option (Z * Z * Z)) :=
  head ← on_mem (ldw 4 (lh + lh_head));
  if head =? 0 then mret None else
  h ← gets s_heap;
  match h with
  | None => mret None
  | Some h => on_mem (tail ← ldw 4 (lh + lh_tail); le_out h tail)
  end.

(** The heap of the set, which the following functions do not check. *)
Definition the_heap : SM ldms_heap_t := h ← gets s_heap; lift_opt h.

Definition ldms_list_next (v : Z) : SM (option (Z * Z * Z)) :=
  let le := v - sizeof_ldms_list_entry in
  next ← on_mem (ldw 4 (le + le_next));
  if next =? 0 then mret None else
  h ← the_heap;
  on_mem (next ← ldw 4 (le + le_next); le_out h next).

(** An error number or the address of the new value. *)
Definition ldms_list_append_item (lh typ count : Z) : SM (Z + Z) :=
  value_sz ← lift_opt (__ldms_value_size_get typ (u32 count));
  first ← ldms_list_first lh;
  if (match first with Some (_, typ_, _) => negb (typ =? typ_) | None => false end)
  then mret (inl EINVAL) else
  let count := if ldms_type_is_array typ then count else 1 in
  h ← the_heap;
  le ← on_mem (ldms_heap_alloc h (value_sz + sizeof_ldms_list_entry));
  if le =? 0 then mret (inl ENOMEM) else
  on_mem (
    memset (le + le_val) 0 value_sz;;
    le_set_type le typ;;
    le_set_count le count;;
    __list_append h lh le);;
  data ← gets s_data;
  on_mem (gn_increment (data + dh_gn));;
  mret (inr (le + le_val)).

(** [ldms_list_remove_item] and [ldms_list_purge] call each other: an entry
    that is a list is purged first.  [fuel] bounds the calls. *)
Fixpoint ldms_list_remove_item (fuel : nat) (lh v : Z) : SM Z :=
  match fuel with
  | O => stuck
  | S fuel =>
      let le := v - sizeof_ldms_list_entry in
      h ← the_heap;
      poff ← on_mem (ldw 4 (le + le_prev));
      prev ← on_mem (ldms_heap_ptr h poff);
      noff ← on_mem (ldw 4 (le + le_next));
      next ← on_mem (ldms_heap_ptr h noff);
      on_mem (
        (if negb (prev =? 0) then n ← ldw 4 (le + le_next); stw 4 (prev + le_next) n
         else n ← ldw 4 (le + le_next); stw 4 (lh + lh_head) n);;
        (if negb (next =? 0) then p ← ldw 4 (le + le_prev); stw 4 (next + le_prev) p
         else p ← ldw 4 (le + le_prev); stw 4 (lh + lh_tail) p));;
      t ← on_mem (le_type le);
      (if t =? code LDMS_V_LIST then ldms_list_purge fuel v;; mret tt else mret tt);;
      on_mem (
        ldms_heap_free h le;;
        n ← ldw 4 (lh + lh_count);
        stw 4 (lh + lh_count) (n - 1));;
      mret 0
  end
with ldms_list_purge (fuel : nat) (lh : Z) : SM Z :=
  match fuel with
  | O => stuck
  | S fuel =>
      m ← ldms_list_first lh;
      match m with
      | None => mret 0
      | Some (v, _, _) => ldms_list_remove_item fuel lh v;; ldms_list_purge fuel lh
      end
  end.

(** ** Records in a list *)

Definition ldms_record_alloc (metric_id : Z) : SM (Z + Z) :=
  mv ← __mval_to_get metric_id;
  match mv with
  | None => mret (inl EINVAL)
  | Some (rec_type, vd) =>
      t ← on_mem (ldw 1 (vd + vd_type));
      if negb (t =? code LDMS_V_RECORD_TYPE) then mret (inl EINVAL) else
      isz ← on_mem (ldw 4 (rec_type + rt_inst_sz));
      h ← the_heap;
      le ← on_mem (ldms_heap_alloc h (isz + sizeof_ldms_list_entry));
      if le =? 0 then mret (inl ENOMEM) else
      data ← gets s_data;
      let inst := le + le_val in
      on_mem (
        stw 4 (le + le_prev) 0;;
        stw 4 (le + le_next) 0;;
        le_set_type le (code LDMS_V_RECORD_INST);;
        le_set_count le 1;;
        stw 4 inst LDMS_RECORD_F_INST;;
        stw 4 (inst + ri_rec_type) metric_id;;
        stw 4 (inst + ri_set_data_off) (inst - data));;
      mret (inr inst)
  end.

Definition ldms_list_append_record (lh rec_inst : Z) : SM Z :=
  f ← on_mem (rec_flags rec_inst);
  if negb (f =? LDMS_RECORD_F_INST) then mret EINVAL else
  let le := rec_inst - le_val in
  prev ← on_mem (ldw 4 (le + le_prev));
  next ← on_mem (ldw 4 (le + le_next));
  if negb (prev =? 0) || negb (next =? 0) then mret EBUSY else
  h ← the_heap;
  on_mem (
    doff ← ldw 4 (rec_inst + ri_set_data_off);
    let data := rec_inst - doff in
    __list_append h lh le;;
    gn ← h_gn (data + dh_heap);
    stw 4 (data + dh_heap + 16) (gn + 1));;
  mret 0.

Definition ldms_list_heap_size_get (typ item_count array_count : Z) : option Z :=
  let array_count := if ldms_type_is_array typ then array_count else 1 in
  value_sz ← __ldms_value_size_get typ (u32 array_count);
  Some (u64 (item_count * ldms_heap_alloc_size LDMS_LIST_GRAIN (value_sz + sizeof_ldms_list_entry))).

Definition ldms_record_heap_size_get (r : Z) : W Z :=
  x ← record_at r;
  mret (ldms_heap_alloc_size LDMS_LIST_GRAIN (rc_inst_sz x + sizeof_ldms_list_entry)).
