(* ===== verification/SetLayout.v ===== *)
(** * The layout of a metric set: descriptors

    What the functions of [SetCreate] write: the descriptors of the metrics,
    the dictionary and the meta attributes. *)

From stdpp Require Import prelude gmap strings.
From Stdlib Require Import Ascii String.
From S2P Require Import Prelude Bytes CStr Mem MemFrame CFloat MVal MValSpec Schema SchemaSpec Rrbt LdmsHeap SetCreate.

Open Scope Z_scope.

(** ** Strings *)

Lemma byte_of_range c : 0 <= byte_of c < 256.
Proof. unfold byte_of. pose proof (N_ascii_bounded c). lia. Qed.

Lemma bytes_ok_str s : bytes_ok (str_bytes s).
Proof. apply Forall_fmap, Forall_true. intros c. apply byte_of_range. Qed.

Lemma bytes_ok_cstr s : bytes_ok (cstr s).
Proof. apply bytes_ok_app. split; [apply bytes_ok_str|]. by repeat constructor. Qed.

Lemma zlen_str s : zlen (str_bytes s) = strlen s.
Proof.
  unfold str_bytes, strlen. rewrite length_fmap. f_equal. induction s; simpl; [done|]. by rewrite IHs.
Qed.

Lemma zlen_cstr s : zlen (cstr s) = strlen s + 1.
Proof. unfold cstr. by rewrite zlen_app, zlen_str. Qed.

#[export] Hint Rewrite zlen_str zlen_cstr : zlen.

Lemma strlen_nonneg s : 0 <= strlen s.
Proof. unfold strlen. lia. Qed.

(** ** Descriptors *)

Definition unit_bytes (u : option string) : bytes := match u with Some u => cstr u | None => [] end.

Definition unit_len (u : option string) : Z := match u with Some u => strlen u + 1 | None => 0 end.

Lemma zlen_unit u : zlen (unit_bytes u) = unit_len u.
Proof. destruct u; [apply zlen_cstr|done]. Qed.

Lemma unit_len_nonneg u : 0 <= unit_len u.
Proof. destruct u as [u|]; simpl; [pose proof (strlen_nonneg u); lia|lia]. Qed.

Lemma bytes_ok_unit u : bytes_ok (unit_bytes u).
Proof. destruct u; [apply bytes_ok_cstr|constructor]. Qed.

#[export] Hint Rewrite zlen_unit : zlen.

(** The descriptor of [md] is at [vd], with the value at offset [off]. *)
Definition desc_at (m : mem) (vd : Z) (md : mdef) (off : Z) : Prop :=
  has m (vd + vd_data_offset) (le_bytes 4 off) /\
  has m (vd + vd_array_count) (le_bytes 4 (md_count md)) /\
  has m (vd + vd_type) (le_bytes 1 (md_type md)) /\
  has m (vd + vd_flags) (le_bytes 1 (md_flags md)) /\
  has m (vd + vd_name_unit_len) (le_bytes 1 (strlen (md_name md) + 1 + unit_len (md_unit md))) /\
  has m (vd + vd_name_unit) (cstr (md_name md) ++ unit_bytes (md_unit md)).

Definition vsize (md : mdef) : Z := default 0 (__ldms_value_size_get (md_type md) (md_count md)).

Definition desc_len (md : mdef) : Z := 27 + (strlen (md_name md) + 1) + unit_len (md_unit md).

Lemma desc_len_pos md : 28 <= desc_len md.
Proof. unfold desc_len. pose proof (strlen_nonneg (md_name md)). pose proof (unit_len_nonneg (md_unit md)). lia. Qed.

(** The descriptor has room for the names, and the value has a size. *)
Record mdef_ok (md : mdef) : Prop := MdefOk {
  mo_room : desc_len md < md_meta_sz md;
  mo_type : is_Some (__ldms_value_size_get (md_type md) (md_count md));
  mo_flags : 0 <= md_flags md < 256;
  mo_count : 0 <= md_count md < 2 ^ 32
}.

Ltac offsets := unfold vd_data_offset, vd_array_count, vd_type, vd_flags, vd_name_unit_len,
  vd_name_unit, vd_user_data in *.

Lemma desc_at_keep m m' vd md off :
  (forall q bs, has m q bs -> vd + 8 <= q -> q + zlen bs <= vd + desc_len md -> has m' q bs) ->
  desc_at m vd md off -> desc_at m' vd md off.
Proof.
  intros Hk (H1 & H2 & H3 & H4 & H5 & H6). pose proof (strlen_nonneg (md_name md)).
  pose proof (unit_len_nonneg (md_unit md)). unfold desc_at, desc_len in *. offsets.
  split_and!; (apply Hk; [done|lia|autorewrite with zlen; lia]).
Qed.

Lemma desc_at_frame m m' p n vd md off :
  frame m m' p n -> desc_at m vd md off ->
  apart p n vd (desc_len md) -> desc_at m' vd md off.
Proof.
  intros F H Ha. apply (desc_at_keep m); [|done]. intros q bs Hq ? ?. from_before.
Qed.

Lemma runs_make_mdesc m vd md off :
  mdef_ok md -> inside m vd (md_meta_sz md) ->
  runs (__make_mdesc vd md off) m (fun off' m' =>
    off' = (if is_data md then off + vsize md else off) /\
    desc_at m' vd md (if is_data md then off else 0) /\ frame m m' vd (md_meta_sz md)).
Proof.
  intros [Hroom [sz Hsz] _ _] Hi. unfold __make_mdesc. unfold desc_len in Hroom.
  pose proof (strlen_nonneg (md_name md)). pose proof (unit_len_nonneg (md_unit md)).
  st_step m1 H1 F1; [offsets; in_range|]. st_step m2 H2 F2; [offsets; in_range|].
  st_step m3 H3 F3; [offsets; in_range|].
  cbv zeta. apply runs_bind. eapply runs_poke'; [|apply zlen_cstr|apply bytes_ok_cstr|intros m4 H4 F4]; [offsets; in_range|].
  apply runs_bind.
  eapply (runs_mono _ _ (fun ul m5 => ul = unit_len (md_unit md) /\
    has m5 (vd + vd_name_unit + (strlen (md_name md) + 1)) (unit_bytes (md_unit md)) /\
    frame m4 m5 (vd + vd_name_unit + (strlen (md_name md) + 1)) (unit_len (md_unit md)))).
  { destruct (md_unit md) as [u|]; cbn [unit_bytes unit_len] in *.
    - apply runs_bind. eapply runs_poke'; [|apply zlen_cstr|apply bytes_ok_cstr|intros m5 H5 F5; by apply runs_ret].
      offsets. in_range.
    - apply runs_ret. split_and!; [done| |apply frame_refl].
      destruct (inside_has_ex m4 (vd + vd_name_unit + (strlen (md_name md) + 1)) 0) as (bs & Hb & Hl).
      { offsets. in_range. }
      by destruct bs. }
  intros ul m5 (-> & H5 & F5). cbv beta.
  st_step m6 H6 F6; [offsets; in_range|].
  assert (forall m7 (F : frame m6 m7 (vd + vd_data_offset) 4), frame m m7 vd (md_meta_sz md)) as Hfr.
  { intros m7 F7. offsets. frames. }
  destruct (is_data md) eqn:Hd; unfold is_data in Hd; rewrite Hd.
  - st_step m7 H7 F7; [offsets; in_range|].
    exists (off + vsize md), m7. unfold vsize. rewrite Hsz. split; [done|]. split; [done|].
    split; [|by apply Hfr]. unfold desc_at. rewrite has_app. offsets. split_and!; try from_before.
    autorewrite with zlen. from_before.
  - st_step m7 H7 F7; [offsets; in_range|]. apply runs_ret. split; [done|].
    split; [|by apply Hfr]. unfold desc_at. rewrite has_app. offsets. split_and!; try from_before.
    autorewrite with zlen. from_before.
Qed.

(** ** The first pass *)

(** Where the descriptors go, from [vd], and the data offsets, from [off]. *)
Definition extra_size (md : mdef) : Z :=
  if md_type md =? code LDMS_V_RECORD_ARRAY then u64 (md_count md * md_data_sz md) else 0.

Definition next_off (md : mdef) (off : Z) : Z :=
  (if is_data md then off + vsize md else off) + extra_size md.

Fixpoint desc_pos (vd : Z) (l : list mdef) : list Z :=
  match l with
  | [] => []
  | md :: l => vd :: desc_pos (vd + md_meta_sz md) l
  end.

Fixpoint data_offs (off : Z) (l : list mdef) : list Z :=
  match l with
  | [] => []
  | md :: l => off :: data_offs (next_off md off) l
  end.

Definition desc_total (l : list mdef) : Z := sum_Z (md_meta_sz <$> l).

Lemma mdef_ok_type md : mdef_ok md -> 0 <= md_type md < 256.
Proof.
  intros [_ Ht _ _]. destruct (proj1 (value_size_none (md_type md) (md_count md))) as (t & Hc & _).
  { by destruct Ht as [? ->]. }
  apply of_code_inv in Hc as ->. destruct t; done.
Qed.

Lemma mdef_ok_pos md : mdef_ok md -> 29 <= md_meta_sz md.
Proof.
  intros [H _ _ _]. unfold desc_len in H. pose proof (strlen_nonneg (md_name md)). pose proof (unit_len_nonneg (md_unit md)). lia.
Qed.

Lemma desc_total_cons md l : desc_total (md :: l) = md_meta_sz md + desc_total l.
Proof. done. Qed.

Lemma desc_total_nonneg l : Forall mdef_ok l -> 0 <= desc_total l.
Proof.
  induction 1 as [|md l H _ IH]; [done|]. rewrite desc_total_cons. apply mdef_ok_pos in H. lia.
Qed.

Lemma runs_make_mdescs meta l m idx vd off :
  Forall mdef_ok (rentry_mdef <$> l) -> 0 <= idx ->
  inside m (meta + sh_dict + 4 * idx) (4 * Z.of_nat (List.length l)) ->
  inside m vd (desc_total (rentry_mdef <$> l)) ->
  meta + sh_dict + 4 * idx + 4 * Z.of_nat (List.length l) <= vd ->
  runs (make_mdescs meta l idx vd off) m (fun vd' m' =>
    vd' = vd + desc_total (rentry_mdef <$> l) /\
    (forall k e p o, l !! k = Some e -> desc_pos vd (rentry_mdef <$> l) !! k = Some p ->
       data_offs off (rentry_mdef <$> l) !! k = Some o ->
       has m' (meta + sh_dict + 4 * (idx + Z.of_nat k)) (le_bytes 4 (p - meta)) /\
       desc_at m' p (rentry_mdef e) (if is_data (rentry_mdef e) then o else 0)) /\
    frame2 m m' (meta + sh_dict + 4 * idx) (4 * Z.of_nat (List.length l))
      vd (desc_total (rentry_mdef <$> l))).
Proof.
  revert m idx vd off. induction l as [|e l IH]; intros m idx vd off Hok Hidx Hd Hv Hle; cbn [make_mdescs].
  { apply runs_ret. split; [unfold desc_total; simpl; lia|]. split; [done|apply frame2_refl]. }
  rewrite fmap_cons in *. apply Forall_cons in Hok as [Hmd Hok].
  pose proof (desc_total_nonneg _ Hok) as Htot. pose proof (mdef_ok_pos _ Hmd) as Hpos.
  rewrite desc_total_cons in *. cbn [List.length] in *. cbv zeta.
  st_step m1 H1 F1; [in_range|]. apply runs_bind.
  eapply runs_mono; [apply runs_make_mdesc; [done|in_range]|]. intros off' m2 (-> & Hdesc & F2).
  apply runs_bind. eapply (runs_ld_word 1); [apply Hdesc|by apply mdef_ok_type|].
  eapply runs_mono; [apply IH; [done|lia|in_range|in_range|lia]|].
  intros vd' m' (-> & Hall & F3). split; [lia|]. split.
  - intros [|k] e' p o Hk Hp Ho; cbn in Hk, Hp, Ho.
    + injection Hk as <-. injection Hp as <-. injection Ho as <-. split.
      * replace (idx + Z.of_nat 0) with idx by lia. from_before.
      * apply (desc_at_keep m2); [|done]. intros q bs Hq ? ?. pose proof (mo_room _ Hmd). from_before.
    + replace (idx + Z.of_nat (S k)) with (idx + 1 + Z.of_nat k) by lia. eapply Hall; [done|done|].
      rewrite <- Ho. f_equal. f_equal. unfold next_off, extra_size. destruct (_ =? _); [done|lia].
  - eapply frame2_trans; [eapply frame2_l; [exact F1|lia..]|].
    eapply frame2_trans; [eapply frame2_r; [exact F2|lia..]|]. eapply frame2_sub; [exact F3|lia..].
Qed.

(** ** Record types *)

Definition member_ok (md : mdef) : Prop := mdef_ok md /\ is_data md = true /\ extra_size md = 0.

Definition vsize_total (l : list mdef) : Z := sum_Z (vsize <$> l).

Lemma vsize_total_cons md l : vsize_total (md :: l) = vsize md + vsize_total l.
Proof. done. Qed.

(** The member [k] of a record type at [rt]: its dictionary entry and its
    descriptor. *)
Definition member_at (m : mem) (rt k p : Z) (md : mdef) (off : Z) : Prop :=
  has m (rt + rt_dict + 4 * k) (le_bytes 4 p) /\ desc_at m (rt + p) md off.

Lemma runs_make_members rt l m fuel j type_off inst_off :
  Forall member_ok l -> (List.length l < fuel)%nat -> 0 <= j ->
  inside m (rt + rt_dict + 4 * j) (4 * Z.of_nat (List.length l)) ->
  inside m (rt + type_off) (desc_total l) ->
  rt_dict + 4 * j + 4 * Z.of_nat (List.length l) <= type_off ->
  runs (make_members rt fuel l j (j + Z.of_nat (List.length l)) type_off inst_off) m (fun '(t, i) m' =>
    t = type_off + desc_total l /\ i = inst_off + vsize_total l /\
    (forall k md p o, l !! k = Some md -> desc_pos type_off l !! k = Some p ->
       data_offs inst_off l !! k = Some o ->
       member_at m' rt (j + Z.of_nat k) p md o) /\
    frame2 m m' (rt + rt_dict + 4 * j) (4 * Z.of_nat (List.length l)) (rt + type_off) (desc_total l)).
Proof.
  intros Hok. revert m fuel j type_off inst_off.
  induction Hok as [|md l (Hmd & Hdata & Hx) Hok IH]; intros m fuel j type_off inst_off Hf Hj Hd Ht Hle.
  { destruct fuel as [|fuel]; [simpl in Hf; lia|]. cbn [make_members List.length].
    rewrite (proj2 (Z.ltb_ge _ _)) by lia. apply runs_ret. unfold desc_total, vsize_total. simpl.
    split; [lia|]. split; [lia|]. split; [done|apply frame2_refl]. }
  destruct fuel as [|fuel]; [simpl in Hf; lia|]. cbn [make_members List.length] in *.
  rewrite (proj2 (Z.ltb_lt _ _)) by lia.
  assert (Forall mdef_ok l) as Hok' by (eapply Forall_impl; [exact Hok|by intros ? []]).
  pose proof (desc_total_nonneg _ Hok') as Htot. pose proof (mdef_ok_pos _ Hmd) as Hpos.
  pose proof (mo_room _ Hmd) as Hroom. rewrite desc_total_cons in *. rewrite vsize_total_cons.
  st_step m1 H1 F1; [in_range|]. st_step m2 H2 F2; [offsets; in_range|]. apply runs_bind.
  eapply runs_mono; [apply runs_make_mdesc; [done|in_range]|]. rewrite Hdata.
  intros off' m3 (-> & Hdesc & F3). apply runs_bind.
  eapply (runs_ldw 1); [apply Hdesc|done|]. apply runs_bind, runs_assert.
  { rewrite le_value_bytes_mod. apply Z.leb_le. unfold desc_len, sizeof_ldms_value_desc in *.
    pose proof (strlen_nonneg (md_name md)). pose proof (unit_len_nonneg (md_unit md)).
    assert ((strlen (md_name md) + 1 + unit_len (md_unit md)) mod 256 ^ Z.of_nat 1 <= strlen (md_name md) + 1 + unit_len (md_unit md))
      by (apply Z.mod_le; lia). lia. }
  replace (j + Z.of_nat (S (List.length l))) with ((j + 1) + Z.of_nat (List.length l)) by lia.
  eapply runs_mono; [apply IH; [lia|lia|in_range|in_range|lia]|].
  intros [t i] m' (-> & -> & Hall & F4). split; [lia|]. split; [lia|]. split.
  - intros [|k] md' p o Hk Hp Ho; cbn in Hk, Hp, Ho.
    + injection Hk as <-. injection Hp as <-. injection Ho as <-. split.
      * replace (j + Z.of_nat 0) with j by lia. offsets. from_before.
      * apply (desc_at_keep m3); [|done]. intros q bs Hq ? ?. from_before.
    + replace (j + Z.of_nat (S k)) with (j + 1 + Z.of_nat k) by lia. eapply Hall; [done|done|].
      rewrite <- Ho. unfold next_off. by rewrite Hdata, Hx, Z.add_0_r.
  - offsets. eapply frame2_trans; [eapply frame2_l; [exact F1|lia..]|].
    eapply frame2_trans; [eapply frame2_r; [exact F2|lia..]|].
    eapply frame2_trans; [eapply frame2_r; [exact F3|lia..]|]. eapply frame2_sub; [exact F4|lia..].
Qed.

(** A record definition whose sizes are the sums of those of its members. *)
Record record_ok (r : ldms_record) : Prop := RecordOk {
  ro_n : rc_n r = Z.of_nat (List.length (rc_list r));
  ro_members : Forall member_ok (rc_list r);
  ro_type : md_type (rc_mdef r) = code LDMS_V_RECORD_TYPE;
  ro_data_sz : md_data_sz (rc_mdef r) = sizeof_ldms_record_type + rc_n r * 4 + desc_total (rc_list r);
  ro_inst_sz : rc_inst_sz r = sizeof_ldms_record_inst + vsize_total (rc_list r)
}.

(** The record type of [r] at [rt]. *)
Definition rec_type_at (m : mem) (rt : Z) (r : ldms_record) : Prop :=
  has m rt (le_bytes 4 LDMS_RECORD_F_TYPE) /\
  has m (rt + rt_n) (le_bytes 4 (rc_n r)) /\
  has m (rt + rt_inst_sz) (le_bytes 4 (rc_inst_sz r)) /\
  forall k md p o, rc_list r !! k = Some md ->
    desc_pos (sizeof_ldms_record_type + rc_n r * 4) (rc_list r) !! k = Some p ->
    data_offs sizeof_ldms_record_inst (rc_list r) !! k = Some o ->
    member_at m rt (Z.of_nat k) p md o.

Lemma desc_pos_range vd l k p md :
  Forall mdef_ok l -> l !! k = Some md -> desc_pos vd l !! k = Some p ->
  vd <= p /\ p + md_meta_sz md <= vd + desc_total l.
Proof.
  intros Hok. revert vd k. induction Hok as [|md' l Hmd Hok IH]; intros vd [|k] Hk Hp; try done.
  - injection Hk as ->. injection Hp as ->. rewrite desc_total_cons. pose proof (desc_total_nonneg _ Hok). lia.
  - rewrite desc_total_cons. apply mdef_ok_pos in Hmd. destruct (IH _ _ Hk Hp). lia.
Qed.

Lemma record_members_ok r : record_ok r -> Forall mdef_ok (rc_list r).
Proof. intros H. eapply Forall_impl; [apply (ro_members _ H)|by intros ? []]. Qed.

Lemma rec_type_at_keep m m' rt r :
  record_ok r ->
  (forall q bs, has m q bs -> rt <= q -> q + zlen bs <= rt + md_data_sz (rc_mdef r) -> has m' q bs) ->
  rec_type_at m rt r -> rec_type_at m' rt r.
Proof.
  intros Hr Hk (H1 & H2 & H3 & H4). pose proof (record_members_ok _ Hr) as Hok.
  pose proof (desc_total_nonneg _ Hok). pose proof (ro_n _ Hr). pose proof (ro_data_sz _ Hr) as Hsz.
  unfold rec_type_at, rt_n, rt_inst_sz, sizeof_ldms_record_type in *. split_and!; [apply Hk; [done|range..]..|].
  intros k md p o Hmd Hp Ho. destruct (H4 k md p o Hmd Hp Ho) as [Hd Hv]. unfold rt_dict in *.
  pose proof (lookup_lt_Some _ _ _ Hmd). destruct (desc_pos_range _ _ _ _ _ Hok Hmd Hp).
  split; [apply Hk; [done|unfold rt_dict; range..]|]. eapply desc_at_keep; [|exact Hv]. intros q bs Hq ? ?.
  rewrite Forall_forall in Hok.
  pose proof (mo_room md (Hok md ltac:(by eapply list_elem_of_lookup_2))). apply Hk; [done|lia..].
Qed.

Lemma runs_make_record_type rt r m :
  record_ok r -> inside m rt (md_data_sz (rc_mdef r)) ->
  runs (make_record_type rt r) m (fun _ m' =>
    rec_type_at m' rt r /\ frame m m' rt (md_data_sz (rc_mdef r))).
Proof.
  intros Hr Hi. pose proof (record_members_ok _ Hr) as Hok. destruct Hr as [Hn Hm Ht Hd Hs].
  pose proof (desc_total_nonneg _ Hok). unfold make_record_type, rt_n, rt_inst_sz, sizeof_ldms_record_type in *.
  st_step m1 H1 F1; [in_range|]. apply runs_bind. rewrite Hn at 1.
  eapply runs_mono; [apply (runs_make_members rt (rc_list r) m1 _ 0); [done|lia|lia|unfold rt_dict; in_range|in_range|unfold rt_dict; lia]|].
  unfold rt_dict, rt_n, rt_inst_sz. intros [t i] m2 (-> & -> & Hall & F2).
  apply runs_bind, runs_assert; [apply Z.eqb_eq; lia|].
  apply runs_bind, runs_assert; [apply Z.eqb_eq; lia|].
  st_step m3 H3 F3; [unfold rt_n; in_range|]. eapply runs_stw'; [done|unfold rt_inst_sz; in_range|intros m4 H4 F4].
  unfold rt_inst_sz, rt_n in *. split.
  - unfold rec_type_at, rt_n, rt_inst_sz, sizeof_ldms_record_type. rewrite <- Hs in H4. split_and!; [from_before..|].
    intros k md p o Hmd Hp Ho. destruct (Hall k md p o Hmd Hp Ho) as [Hx Hv].
    pose proof (lookup_lt_Some _ _ _ Hmd). destruct (desc_pos_range _ _ _ _ _ Hok Hmd Hp).
    unfold member_at, rt_dict in *. rewrite Z.add_0_l in Hx. split; [from_before|].
    eapply desc_at_keep; [|exact Hv]. intros q bs Hq ? ?. from_before.
  - eapply frame_trans; [eapply frame_sub; [exact F1|lia..]|].
    eapply frame_trans; [eapply frame2_join; [exact F2|lia..]|]. frames.
Qed.

(** ** The second pass *)

Definition entry_ok (e : rentry) : Prop :=
  mdef_ok (rentry_mdef e) /\
  match e with
  | RPlain md => md_type md <> code LDMS_V_RECORD_TYPE /\ md_type md <> code LDMS_V_RECORD_ARRAY
  | RRecord r => record_ok r /\ is_data (rc_mdef r) = false
  | RRecArray md _ _ => md_type md = code LDMS_V_RECORD_ARRAY
  end.

(** The bytes a meta attribute takes: a record type takes those of its
    definition. *)
Definition meta_size (md : mdef) : Z :=
  if is_data md then 0
  else if md_type md =? code LDMS_V_RECORD_TYPE then md_data_sz md else vsize md.

Fixpoint meta_offs (off : Z) (l : list mdef) : list Z :=
  match l with
  | [] => []
  | md :: l => off :: meta_offs (off + meta_size md) l
  end.

Definition meta_total (l : list mdef) : Z := sum_Z (meta_size <$> l).

Lemma meta_total_cons md l : meta_total (md :: l) = meta_size md + meta_total l.
Proof. done. Qed.

Lemma vsize_nonneg md : mdef_ok md -> 0 <= vsize md.
Proof.
  intros H. unfold vsize. destruct (mo_type _ H) as [sz Hsz]. rewrite Hsz. simpl.
  by eapply value_size_bounds in Hsz; [lia|apply H].
Qed.

Lemma vsize_total_nonneg l : Forall mdef_ok l -> 0 <= vsize_total l.
Proof. induction 1 as [|md l H _ IH]; [done|]. rewrite vsize_total_cons. apply vsize_nonneg in H. lia. Qed.

Lemma record_size_nonneg r : record_ok r -> 16 <= md_data_sz (rc_mdef r).
Proof.
  intros H. rewrite (ro_data_sz _ H), (ro_n _ H). unfold sizeof_ldms_record_type.
  pose proof (desc_total_nonneg _ (record_members_ok _ H)). lia.
Qed.

Lemma meta_size_nonneg e : entry_ok e -> 0 <= meta_size (rentry_mdef e).
Proof.
  intros [Hm He]. unfold meta_size. destruct (is_data _); [done|].
  destruct (Z.eqb_spec (md_type (rentry_mdef e)) (code LDMS_V_RECORD_TYPE)) as [Heq|_]; [|by apply vsize_nonneg].
  destruct e as [md|r|md rt sz]; cbn in *; [naive_solver| |by rewrite He in Heq].
  pose proof (record_size_nonneg r). naive_solver lia.
Qed.

Lemma meta_total_nonneg l : Forall entry_ok l -> 0 <= meta_total (rentry_mdef <$> l).
Proof.
  induction 1 as [|e l H _ IH]; [done|]. rewrite fmap_cons, meta_total_cons. apply meta_size_nonneg in H. lia.
Qed.

Lemma entries_mdefs l : Forall entry_ok l -> Forall mdef_ok (rentry_mdef <$> l).
Proof. intros H. apply Forall_fmap. eapply Forall_impl; [exact H|by intros ? []]. Qed.

(** The dictionary entries and the descriptors of [l], the first with index
    [i], the descriptors from [vd], the values at [offs]. *)
Definition descs_at (m : mem) (meta i vd : Z) (l : list rentry) (offs : list Z) : Prop :=
  forall k e p o, l !! k = Some e -> desc_pos vd (rentry_mdef <$> l) !! k = Some p ->
    offs !! k = Some o ->
    has m (meta + sh_dict + 4 * (i + Z.of_nat k)) (le_bytes 4 (p - meta)) /\ desc_at m p (rentry_mdef e) o.

(** The record types of [l], the meta attributes from offset [off]. *)
Definition rec_types_at (m : mem) (meta off : Z) (l : list rentry) : Prop :=
  forall k r o, l !! k = Some (RRecord r) -> meta_offs off (rentry_mdef <$> l) !! k = Some o ->
    rec_type_at m (meta + o) r.

(** The offsets after both passes. *)
Definition final_offs (offs moffs : list Z) (l : list rentry) : list Z :=
  (fun '(e, (o, mo)) => if is_data (rentry_mdef e) then o else mo) <$> zip l (zip offs moffs).

Lemma length_data_offs off (l : list mdef) : List.length (data_offs off l) = List.length l.
Proof. revert off. induction l as [|md l IH]; intros off; simpl; [done|]. by rewrite IH. Qed.

Lemma final_offs_twice offs z mo (l : list rentry) :
  List.length offs = List.length l -> List.length z = List.length l ->
  final_offs (final_offs offs z l) mo l = final_offs offs mo l.
Proof.
  revert offs z mo. induction l as [|e l IH]; intros [|o offs] [|z0 z] [|m0 mo]; try done.
  intros [= Ho] [= Hz]. unfold final_offs in *. cbn. rewrite IH by done. by destruct (is_data _).
Qed.

Lemma final_offs_lookup offs mo (l : list rentry) k e o m0 :
  l !! k = Some e -> offs !! k = Some o -> mo !! k = Some m0 ->
  final_offs offs mo l !! k = Some (if is_data (rentry_mdef e) then o else m0).
Proof.
  revert offs mo k. induction l as [|e' l IH]; intros [|o' offs] [|m' mo] [|k] He Ho Hm; try done.
  - by injection He as ->; injection Ho as ->; injection Hm as ->.
  - by apply IH.
Qed.

Lemma length_final_offs offs mo (l : list rentry) :
  List.length offs = List.length l -> List.length mo = List.length l ->
  List.length (final_offs offs mo l) = List.length l.
Proof. intros Ho Hm. unfold final_offs. rewrite length_fmap, !length_zip_with. lia. Qed.

Lemma descs_at_cons m meta i vd e l o offs :
  descs_at m meta i vd (e :: l) (o :: offs) <->
  (has m (meta + sh_dict + 4 * i) (le_bytes 4 (vd - meta)) /\ desc_at m vd (rentry_mdef e) o) /\
  descs_at m meta (i + 1) (vd + md_meta_sz (rentry_mdef e)) l offs.
Proof.
  split.
  - intros H. split.
    + specialize (H 0%nat e vd o eq_refl eq_refl eq_refl). by rewrite Z.add_0_r in H.
    + intros k e' p o' Hk Hp Ho. specialize (H (S k) e' p o' Hk Hp Ho).
      by replace (i + 1 + Z.of_nat k) with (i + Z.of_nat (S k)) by lia.
  - intros [Hh Ht] [|k] e' p o' Hk Hp Ho.
    + injection Hk as <-. injection Hp as <-. injection Ho as <-. by rewrite Z.add_0_r.
    + replace (i + Z.of_nat (S k)) with (i + 1 + Z.of_nat k) by lia. by apply Ht.
Qed.

Lemma descs_at_keep m m' meta i vd l offs :
  Forall entry_ok l -> 0 <= i ->
  (forall q bs, has m q bs ->
     meta + sh_dict + 4 * i <= q /\ q + zlen bs <= meta + sh_dict + 4 * (i + Z.of_nat (List.length l)) \/
     vd <= q /\ q + zlen bs <= vd + desc_total (rentry_mdef <$> l) -> has m' q bs) ->
  descs_at m meta i vd l offs -> descs_at m' meta i vd l offs.
Proof.
  intros Hok Hi Hk H k e p o He Hp Ho. destruct (H k e p o He Hp Ho) as [Hd Hv].
  pose proof (lookup_lt_Some _ _ _ He). apply entries_mdefs in Hok.
  assert ((rentry_mdef <$> l) !! k = Some (rentry_mdef e)) as He' by (by rewrite list_lookup_fmap, He).
  destruct (desc_pos_range _ _ _ _ _ Hok He' Hp). split.
  - apply Hk; [done|]. left. range.
  - eapply desc_at_keep; [|exact Hv]. intros q bs Hq ? ?. apply Hk; [done|]. right.
    rewrite Forall_forall in Hok. pose proof (mo_room _ (Hok _ ltac:(by eapply list_elem_of_lookup_2))). lia.
Qed.

Lemma rec_types_at_cons m meta off e l :
  rec_types_at m meta off (e :: l) <->
  (forall r, e = RRecord r -> rec_type_at m (meta + off) r) /\
  rec_types_at m meta (off + meta_size (rentry_mdef e)) l.
Proof.
  split.
  - intros H. split; [intros r ->; by apply (H 0%nat)|]. intros k. apply (H (S k)).
  - intros [Hh Ht] [|k] r o Hk Ho; [|by apply (Ht k)]. injection Hk as ->. injection Ho as <-. by apply Hh.
Qed.

Lemma desc_at_set_off m m' vd md o o' :
  desc_at m vd md o -> has m' (vd + vd_data_offset) (le_bytes 4 o') ->
  frame m m' (vd + vd_data_offset) 4 -> desc_at m' vd md o'.
Proof.
  intros (H1 & H2 & H3 & H4 & H5 & H6) Hn F. unfold desc_at. offsets. split_and!; [done|from_before..].
Qed.

Lemma meta_size_record r : record_ok r -> is_data (rc_mdef r) = false -> meta_size (rc_mdef r) = md_data_sz (rc_mdef r).
Proof. intros H Hd. unfold meta_size. by rewrite Hd, (ro_type _ H), Z.eqb_refl. Qed.

Lemma runs_meta_value meta vd value_off e m o :
  entry_ok e -> desc_at m vd (rentry_mdef e) o -> inside m vd (desc_len (rentry_mdef e)) ->
  vd + desc_len (rentry_mdef e) <= meta + value_off ->
  inside m (meta + value_off) (meta_size (rentry_mdef e)) ->
  runs (meta_value meta vd value_off e) m (fun off' m' =>
    off' = value_off + meta_size (rentry_mdef e) /\
    desc_at m' vd (rentry_mdef e) (if is_data (rentry_mdef e) then o else value_off) /\
    (forall r, e = RRecord r -> rec_type_at m' (meta + value_off) r) /\
    frame2 m m' vd (desc_len (rentry_mdef e)) (meta + value_off) (meta_size (rentry_mdef e))).
Proof.
  intros [Hmd He] Hd Hi Hle Hin. unfold meta_value. set (md := rentry_mdef e) in *.
  pose proof (strlen_nonneg (md_name md)). pose proof (unit_len_nonneg (md_unit md)).
  apply runs_bind. eapply (runs_ld_word 1); [apply Hd|apply (mo_flags _ Hmd)|].
  change (flag (md_flags md) LDMS_MDESC_F_DATA) with (is_data md). destruct (is_data md) eqn:Hdata.
  { apply runs_ret. unfold meta_size. rewrite Hdata. split_and!; [lia|done| |apply frame2_refl].
    intros r ->. destruct He as [_ He]. change (is_data md = false) in He. congruence. }
  st_step m1 H1 F1; [offsets; unfold desc_len in *; range|].
  pose proof (desc_at_set_off _ _ _ _ _ _ Hd H1 F1) as Hd1.
  assert (frame2 m m1 vd (desc_len md) (meta + value_off) (meta_size md)) as F.
  { eapply frame2_l; [exact F1|offsets; unfold desc_len; lia..]. }
  apply runs_bind. eapply (runs_ld_word 1); [apply Hd1|by apply mdef_ok_type|].
  destruct (Z.eqb_spec (md_type md) (code LDMS_V_RECORD_TYPE)) as [Ht|Ht]; cbn [negb].
  - destruct e as [md'|r|md' ? ?]; [naive_solver| |by unfold md in Ht; cbn in He, Ht; rewrite He in Ht].
    destruct He as [Hr _]. assert (meta_size md = md_data_sz md) as Hsz by (by apply meta_size_record).
    rewrite Hsz in *. change (rc_mdef r) with md.
    apply runs_bind. eapply runs_mono; [apply runs_make_record_type; [done|change (rc_mdef r) with md; in_range]|].
    intros _ m2 [Hrt F2]. apply runs_ret. change (rc_mdef r) with md in F2. split_and!; [done| | |].
    + eapply desc_at_frame; [exact F2|exact Hd1|]. range.
    + intros ? [= <-]. done.
    + eapply frame2_trans; [exact F|]. eapply frame2_r; [exact F2|lia..].
  - apply runs_bind. eapply (runs_ld_word 4); [apply Hd1|apply (mo_count _ Hmd)|].
    unfold meta_size in *. rewrite Hdata, (proj2 (Z.eqb_neq _ _) Ht) in *. unfold vsize in *.
    destruct (mo_type _ Hmd) as [sz Hsz]. rewrite Hsz in *. apply runs_bind. exists sz, m1. split; [done|].
    apply runs_ret. split_and!; [done..| |done]. intros r ->. destruct He as [He _]. by destruct (Ht (ro_type _ He)).
Qed.

Lemma runs_make_meta_values meta l m fuel i vd offs value_off :
  Forall entry_ok l -> (List.length l < fuel)%nat -> 0 <= i -> List.length offs = List.length l ->
  descs_at m meta i vd l offs ->
  meta + sh_dict + 4 * (i + Z.of_nat (List.length l)) <= vd ->
  vd - meta + desc_total (rentry_mdef <$> l) < 2 ^ 32 ->
  inside m vd (desc_total (rentry_mdef <$> l)) ->
  vd + desc_total (rentry_mdef <$> l) <= meta + value_off ->
  inside m (meta + value_off) (meta_total (rentry_mdef <$> l)) ->
  runs (make_meta_values meta fuel l i (i + Z.of_nat (List.length l)) value_off) m (fun _ m' =>
    descs_at m' meta i vd l (final_offs offs (meta_offs value_off (rentry_mdef <$> l)) l) /\
    rec_types_at m' meta value_off l /\
    frame2 m m' vd (desc_total (rentry_mdef <$> l)) (meta + value_off) (meta_total (rentry_mdef <$> l))).
Proof.
  intros Hok. revert m fuel i vd offs value_off.
  induction Hok as [|e l He Hok IH]; intros m fuel i vd offs value_off Hf Hi Hlen Hd Hvd Hu Hiv Hle Hin.
  { destruct fuel as [|fuel]; [simpl in Hf; lia|]. cbn [make_meta_values List.length].
    rewrite (proj2 (Z.ltb_ge _ _)) by lia. apply runs_ret. split; [done|]. split; [done|apply frame2_refl]. }
  destruct fuel as [|fuel]; [simpl in Hf; lia|]. destruct offs as [|o offs]; [done|].
  cbn [make_meta_values List.length] in *. rewrite fmap_cons in *. rewrite desc_total_cons, meta_total_cons in *.
  pose proof (entries_mdefs _ Hok) as Hmds. pose proof (desc_total_nonneg _ Hmds). pose proof (meta_total_nonneg _ Hok).
  pose proof (meta_size_nonneg _ He). pose proof (desc_len_pos (rentry_mdef e)). pose proof (mo_room _ (proj1 He)).
  rewrite (proj2 (Z.ltb_lt _ _)) by lia. apply descs_at_cons in Hd as [[Hdict Hdesc] Htl].
  apply runs_bind. unfold sh_dict in *. eapply (runs_ld_word 4); [exact Hdict|lia|].
  replace (meta + (vd - meta)) with vd by lia. apply runs_bind.
  eapply runs_mono; [apply (runs_meta_value _ _ _ _ _ o); [done|done|range|lia|range]|].
  intros off' m1 (-> & Hdesc1 & Hrt1 & F1).
  replace (i + Z.of_nat (S (List.length l))) with ((i + 1) + Z.of_nat (List.length l)) by lia.
  eapply runs_mono; [apply (IH m1 _ (i + 1) (vd + md_meta_sz (rentry_mdef e)) offs); [lia|lia|lia| |lia|lia|in_range|lia|in_range]|].
  { eapply descs_at_keep; [done|lia| |exact Htl]. unfold sh_dict. intros q bs Hq ?. from_before. }
  intros _ m2 (Hds & Hrts & F2). split_and!.
  - cbn [meta_offs]. unfold final_offs. cbn [zip zip_with fmap list_fmap]. apply descs_at_cons. split; [split|exact Hds].
    + unfold sh_dict. from_before.
    + eapply desc_at_keep; [|exact Hdesc1]. intros q bs Hq ? ?. from_before.
  - apply rec_types_at_cons. split; [|done].
    intros r ->. destruct He as [_ [Hr Hnd]]. eapply rec_type_at_keep; [done| |by apply Hrt1].
    rewrite <- meta_size_record by done. cbn [rentry_mdef] in *. intros q bs Hq ? ?. from_before.
  - eapply frame2_trans; [eapply frame2_sub; [exact F1|lia..]|eapply frame2_sub; [exact F2|lia..]].
Qed.
