(* ===== verification/SetInit.v ===== *)
(** * Initialisation of a metric set

    What [write_set] leaves in the allocation: the header, the names, the
    data headers with their heaps, the dictionary, the descriptors and the
    record types; the values are zero. *)

From stdpp Require Import prelude gmap strings.
From Stdlib Require Import Ascii String.
From S2P Require Import Prelude Bytes CStr Mem MemFrame CFloat MVal MValSpec Schema SchemaSpec Rrbt LdmsHeap HeapInit SetCreate SetLayout.

Open Scope Z_scope.

(** ** Loops *)

Lemma runs_for_up {S} (I : Z -> S -> Prop) n i (body : Z -> M S unit) s (Q : unit -> S -> Prop) :
  I i s ->
  (forall j s, i <= j < i + Z.of_nat n -> I j s -> runs (body j) s (fun _ s' => I (j + 1) s')) ->
  (forall s, I (i + Z.of_nat n) s -> Q tt s) -> runs (for_up n i body) s Q.
Proof.
  revert i s. induction n as [|n IH]; intros i s HI Hb HQ; cbn [for_up].
  { apply runs_ret, HQ. by rewrite Z.add_0_r. }
  apply runs_bind. eapply runs_mono; [apply Hb; [lia|done]|]. intros [] s' HI'.
  apply IH; [done|intros j s2 ? ?; apply Hb; [lia|done]|]. intros s'' H. apply HQ. by replace (i + Z.of_nat (Datatypes.S n)) with (i + 1 + Z.of_nat n) by lia.
Qed.

(** ** The header *)

(** The sizes in the header: the number of metrics, of bytes of the meta data,
    of a data section and of its heap, and the number of data sections. *)
Record geom := Geom {
  ge_card : Z;
  ge_meta_sz : Z;
  ge_data_sz : Z;
  ge_heap_sz : Z;
  ge_n : Z
}.

Definition header_at (m : mem) (meta : Z) (g : geom) : Prop :=
  has m (meta + sh_card) (le_bytes 4 (ge_card g)) /\
  has m (meta + sh_meta_sz) (le_bytes 4 (ge_meta_sz g)) /\
  has m (meta + sh_data_sz) (le_bytes 4 (ge_data_sz g)) /\
  has m (meta + sh_heap_sz) (le_bytes 4 (ge_heap_sz g)) /\
  has m (meta + sh_array_card) (le_bytes 4 (ge_n g)).

(** The owner and the permissions, the version and the byte order. *)
Definition access_at (m : mem) (meta uid gid perm : Z) : Prop :=
  has m (meta + sh_uid) (le_bytes 4 uid) /\ has m (meta + sh_gid) (le_bytes 4 gid) /\
  has m (meta + sh_perm) (le_bytes 4 perm) /\ has m (meta + sh_version) ldms_version /\
  has m (meta + sh_flags) (le_bytes 1 LDMS_SETH_F_LCLBYTEORDER).

Lemma zlen_version : zlen ldms_version = 4.
Proof. done. Qed.
#[export] Hint Rewrite zlen_version : zlen.

(** The names and the digest, after the dictionary of [c] metrics. *)
Definition names_at (m : mem) (meta c : Z) (inst schema : string) (digest : bytes) : Prop :=
  let p := meta + sh_dict + 4 * c in
  let q := p + 2 + strlen inst in
  has m p (le_bytes 1 (strlen inst + 1)) /\ has m (p + 1) (cstr inst) /\
  has m q (le_bytes 1 (strlen schema + 1 + LDMS_DIGEST_LENGTH + 1)) /\
  has m (q + 1) (cstr schema) /\ has m (q + 1 + (strlen schema + 1)) digest.

(** The length of the header, the dictionary and the names. *)
Definition names_end (c : Z) (inst schema : string) : Z := 177 + 4 * c + strlen inst + strlen schema.

Lemma runs_memset m p n (Q : unit -> mem -> Prop) :
  inside m p n -> (forall m', has m' p (replicate (Z.to_nat n) 0) -> frame m m' p n -> Q tt m') ->
  runs (memset p 0 n) m Q.
Proof.
  intros Hi HQ. eapply (runs_poke' _ _ _ n); [done| |apply bytes_ok_zeros|done].
  change (0 mod 256) with 0. rewrite zlen_zeros. unfold inside in Hi. lia.
Qed.

Ltac fields := unfold sh_meta_gn, sh_version, sh_flags, sh_card, sh_meta_sz, sh_data_sz, sh_uid, sh_gid,
  sh_perm, sh_array_card, sh_heap_sz, sh_dict in *.

Lemma runs_write_header m meta c sz data_sz uid gid perm :
  inside m meta 144 ->
  runs (write_header meta c data_sz sz uid gid perm) m (fun _ m' =>
    header_at m' meta (Geom c (sz_meta sz) (u32 data_sz + u32 (sz_heap sz)) (sz_heap sz) (sz_array_card sz)) /\
    access_at m' meta uid gid perm /\ has m' (meta + sh_meta_gn) (le_bytes 8 1) /\ frame m m' meta 144).
Proof.
  intros Hi. unfold write_header. fields.
  apply runs_bind. eapply (runs_poke' _ _ _ 4); [range|done|by repeat constructor|intros m1 H1 F1].
  st_step m2 H2 F2; [in_range|]. st_step m3 H3 F3; [in_range|]. st_step m4 H4 F4; [in_range|].
  st_step m5 H5 F5; [in_range|]. st_step m6 H6 F6; [in_range|]. st_step m7 H7 F7; [in_range|].
  st_step m8 H8 F8; [in_range|]. st_step m9 H9 F9; [in_range|]. st_step m10 H10 F10; [in_range|].
  eapply runs_stw'; [done|in_range|intros m11 H11 F11].
  unfold header_at, access_at. fields. cbn [ge_card ge_meta_sz ge_data_sz ge_heap_sz ge_n].
  split_and!; try from_before. frames.
Qed.

Lemma runs_write_names m meta c inst schema digest :
  0 <= c < 2 ^ 32 -> strlen inst < 255 -> strlen schema < 222 ->
  bytes_ok digest -> zlen digest = LDMS_DIGEST_LENGTH ->
  has m (meta + sh_card) (le_bytes 4 c) ->
  inside m (meta + sh_dict + 4 * c) (2 + strlen inst + (3 + strlen schema + LDMS_DIGEST_LENGTH)) ->
  runs (write_names meta inst schema digest) m (fun _ m' =>
    names_at m' meta c inst schema digest /\
    frame m m' (meta + sh_dict + 4 * c) (2 + strlen inst + (2 + strlen schema + LDMS_DIGEST_LENGTH))).
Proof.
  intros Hc Hi Hs Hd Hl Hcard Hin. unfold write_names, get_schema_name, get_instance_name, after_name, strcpy.
  unfold LDMS_DIGEST_LENGTH, names_at in *. fields.
  pose proof (strlen_nonneg inst). pose proof (strlen_nonneg schema).
  apply runs_bind, runs_bind. eapply (runs_ld_word 4); [exact Hcard|done|]. apply runs_ret.
  st_step m1 H1 F1; [range|]. apply runs_bind.
  eapply runs_poke'; [|apply zlen_cstr|apply bytes_ok_cstr|intros m2 H2 F2]; [in_range|].
  assert (has m2 (meta + 80) (le_bytes 4 c)) as Hc2 by from_before.
  assert (has m2 (meta + 140 + 4 * c) (le_bytes 1 (strlen inst + 1))) as Hi2 by from_before.
  apply runs_bind, runs_bind, runs_bind. eapply (runs_ld_word 4); [exact Hc2|done|]. apply runs_ret.
  apply runs_bind. eapply (runs_ld_word 1); [exact Hi2|lia|]. apply runs_ret.
  replace (meta + 140 + 4 * c + 1 + (strlen inst + 1)) with (meta + 140 + 4 * c + 2 + strlen inst) by lia.
  apply runs_bind. eapply runs_poke'; [|apply zlen_cstr|apply bytes_ok_cstr|intros m3 H3 F3]; [in_range|].
  apply runs_bind. eapply runs_poke'; [|exact Hl|exact Hd|intros m4 H4 F4]; [in_range|].
  eapply runs_stw'; [done|in_range|intros m5 H5 F5]. split.
  - split_and!; from_before.
  - frames.
Qed.

(** ** The data sections *)

Definition dhdr_at (m : mem) (meta p data_sz n : Z) : Prop :=
  has m (p + dh_size) (le_bytes 8 data_sz) /\ has m (p + dh_curr_idx) (le_bytes 4 (n - 1)) /\
  has m (p + dh_meta_gn) (le_bytes 8 1) /\ has m (p + dh_gn) (le_bytes 8 1) /\
  has m (p + dh_set_off) (le_bytes 4 (p - meta)).

Ltac dfields := unfold dh_ts_sec, dh_ts_usec, dh_dur_sec, dh_dur_usec, dh_trans_flags, dh_set_off, dh_gn,
  dh_size, dh_meta_gn, dh_curr_idx, dh_heap in *.

(** A data section at [p] of [vsz] bytes of header and values and [hsz] bytes
    of heap: no transaction was made, and every value is zero. *)
Definition section_init (m : mem) (meta p vsz hsz n : Z) : Prop :=
  dhdr_at m meta p (vsz + hsz) n /\
  has m (p + dh_ts_sec) (replicate 20 0) /\
  (if hsz =? 0 then has m (p + dh_heap) (replicate 40 0) else fresh_heap_at m (p + dh_heap) (p + vsz) hsz) /\
  has m (p + sizeof_ldms_data_hdr) (replicate (Z.to_nat (vsz - sizeof_ldms_data_hdr)) 0).

Lemma section_init_keep m m' meta p vsz hsz n :
  sizeof_ldms_data_hdr <= vsz -> (hsz = 0 \/ heap_head <= hsz) ->
  (forall q bs, has m q bs -> p <= q -> q + zlen bs <= p + (vsz + hsz) -> has m' q bs) ->
  section_init m meta p vsz hsz n -> section_init m' meta p vsz hsz n.
Proof.
  unfold sizeof_ldms_data_hdr, heap_head. intros Hv Hh Hk ((H1 & H2 & H3 & H4 & H5) & Ht & Hheap & Hz).
  unfold section_init, dhdr_at, sizeof_ldms_data_hdr in *. dfields. split_and!; try (apply Hk; [done|range..]).
  destruct (Z.eqb_spec hsz 0); [apply Hk; [done|range..]|].
  eapply fresh_heap_keep; [|done]. unfold sizeof_ldms_heap, heap_head. intros q bs Hq ?. apply Hk; [done|lia..].
Qed.

Lemma has_zeros m p n k j :
  has m p (replicate (Z.to_nat n) 0) -> 0 <= k -> 0 <= j -> k + j <= n -> has m (p + k) (replicate (Z.to_nat j) 0).
Proof.
  intros H ? ? ?. apply (has_sub _ _ _ k j) in H; [|lia..|rewrite zlen_zeros; lia].
  by rewrite drop_replicate, take_replicate, Nat.min_l in H by lia.
Qed.

Lemma runs_init_data_hdr m meta db vsz hsz n i :
  bytes_ok (cells m) -> sizeof_ldms_data_hdr <= vsz < 2 ^ 31 -> vsz mod 8 = 0 -> 0 <= hsz < 2 ^ 31 -> hsz mod 512 = 0 ->
  has m (meta + sh_meta_gn) (le_bytes 8 1) ->
  let p := db + i * (vsz + hsz) in
  0 < p -> p mod 8 = 0 -> meta + 144 <= p -> has m p (replicate (Z.to_nat vsz) 0) -> inside m p (vsz + hsz) ->
  runs (init_data_hdr meta db vsz hsz n i) m (fun _ m' =>
    section_init m' meta p vsz hsz n /\ frame m m' p (vsz + hsz)).
Proof.
  intros Hb Hv Hv8 Hh Hh5 Hgn p Hp Hp8 Hle Hz Hin. unfold init_data_hdr. fold p.
  unfold sizeof_ldms_data_hdr in *. fields. dfields. unfold section_init, dhdr_at, sizeof_ldms_data_hdr. dfields.
  st_step m1 H1 F1; [range|]. st_step m2 H2 F2; [in_range|].
  assert (has m2 (meta + 64) (le_bytes 8 1)) by from_before. ld_step 8%nat.
  st_step m3 H3 F3; [in_range|]. st_step m4 H4 F4; [in_range|]. st_step m5 H5 F5; [in_range|].
  pose proof (has_zeros _ _ _ 0 20 Hz ltac:(lia) ltac:(lia) ltac:(lia)) as Hz1.
  pose proof (has_zeros _ _ _ 96 (vsz - 96) Hz ltac:(lia) ltac:(lia) ltac:(lia)) as Hz2.
  pose proof (has_zeros _ _ _ 56 40 Hz ltac:(lia) ltac:(lia) ltac:(lia)) as Hz3.
  change (Z.to_nat 20) with 20%nat in Hz1. change (Z.to_nat 40) with 40%nat in Hz3.
  assert (has m5 (p + 0) (replicate 20 0)) by from_before.
  assert (frame m m5 p 96) as F by frames.
  destruct (Z.eqb_spec hsz 0) as [->|Hne].
  - apply runs_ret. split; [|eapply frame_sub; [exact F|lia..]]. split_and!; from_before.
  - assert (512 <= hsz) by dlia.
    eapply runs_mono; [apply runs_heap_init; unfold sizeof_ldms_heap, heap_head; [by apply F|lia|done|lia|dlia|in_range|in_range|range]|].
    unfold sizeof_ldms_heap, heap_head. intros _ m6 [Hf F6]. split.
    + split_and!; [from_before..|done|from_before].
    + eapply frame_trans; [eapply frame_sub; [exact F|lia..]|]. eapply frame2_join; [exact F6|lia..].
Qed.

Lemma runs_init_sections m meta db vsz hsz n :
  bytes_ok (cells m) -> sizeof_ldms_data_hdr <= vsz < 2 ^ 31 -> vsz mod 8 = 0 -> 0 <= hsz < 2 ^ 31 -> hsz mod 512 = 0 ->
  has m (meta + sh_meta_gn) (le_bytes 8 1) ->
  0 < db -> db mod 8 = 0 -> meta + 144 <= db -> 0 <= n ->
  has m db (replicate (Z.to_nat ((vsz + hsz) * n)) 0) ->
  runs (for_up (Z.to_nat n) 0 (init_data_hdr meta db vsz hsz n)) m (fun _ m' =>
    (forall i, 0 <= i < n -> section_init m' meta (db + i * (vsz + hsz)) vsz hsz n) /\
    frame m m' db ((vsz + hsz) * n)).
Proof.
  intros Hb Hv Hv8 Hh Hh5 Hgn Hdb Hdb8 Hle Hn Hz.
  assert (hsz = 0 \/ heap_head <= hsz) by (unfold heap_head; dlia).
  assert (96 <= vsz) by (unfold sizeof_ldms_data_hdr in Hv; lia).
  pose proof (has_inside _ _ _ Hz) as Hin. rewrite zlen_zeros in Hin.
  apply (runs_for_up (fun j m1 =>
    (forall i, 0 <= i < j -> section_init m1 meta (db + i * (vsz + hsz)) vsz hsz n) /\
    frame m m1 db (j * (vsz + hsz)))).
  - split; [lia|apply frame_refl].
  - intros j m1 Hj [Hall F1]. rewrite Z2Nat.id in Hj by lia.
    assert (0 <= j * (vsz + hsz) /\ j * (vsz + hsz) + (vsz + hsz) <= (vsz + hsz) * n) as [Hj0 Hjn] by nia.
    eapply runs_mono; [apply runs_init_data_hdr; try done|].
    + by apply F1.
    + fields. from_before.
    + lia.
    + assert ((vsz + hsz) mod 8 = 0) as H8 by dlia. rewrite Z.add_mod, Z.mul_mod, H8 by lia.
      rewrite Z.mul_0_r, Hdb8. done.
    + lia.
    + eapply frame_has; [exact F1| |range]. eapply has_zeros; [exact Hz|lia..].
    + apply (proj2 (frame_inside _ _ _ _ _ _ F1)). unfold inside in *. lia.
    + intros _ m2 [Hs F2]. split.
      * intros i Hi. destruct (decide (i = j)) as [->|Hne]; [done|].
        eapply section_init_keep; [done|done| |apply Hall; lia].
        assert (i * (vsz + hsz) + (vsz + hsz) <= j * (vsz + hsz)) by nia. intros q bs Hq ? ?. from_before.
      * eapply frame_trans; eapply frame_sub; [exact F1|lia|lia|exact F2|lia|lia].
  - intros m1 [Hall F]. rewrite Z2Nat.id in * by lia. split; [|eapply frame_sub; [exact F|lia..]].
    intros i Hi. apply Hall. lia.
Qed.

(** ** The whole set *)

Definition roundup8 (z : Z) : Z := (z + 7) / 8 * 8.

(** The offsets of the first descriptor and of the first meta attribute. *)
Definition first_desc (c : Z) (inst schema : string) : Z := roundup8 (names_end c inst schema).
Definition first_value (c : Z) (inst schema : string) (l : list rentry) : Z :=
  roundup8 (first_desc c inst schema + desc_total (rentry_mdef <$> l)).

(** The sizes [sz] have room for the schema [x] with the metrics [l]. *)
Record layout_ok (name : string) (x : ldms_schema) (l : list rentry) (sz : set_sizes) : Prop := LayoutOk {
  lo_card : sc_card x = Z.of_nat (List.length l);
  lo_entries : Forall entry_ok l;
  lo_inst : strlen name < 255;
  lo_schema : strlen (sc_name x) < 222;
  lo_digest : bytes_ok (sc_digest x) /\ zlen (sc_digest x) = LDMS_DIGEST_LENGTH;
  lo_data : sizeof_ldms_data_hdr <= sc_data_sz x /\ sc_data_sz x mod 8 = 0;
  lo_heap : 0 <= sz_heap sz /\ sz_heap sz mod 512 = 0;
  lo_n : 1 <= sz_array_card sz;
  lo_array : sz_array_data sz = (sc_data_sz x + sz_heap sz) * sz_array_card sz;
  lo_total : sz_meta sz + sz_array_data sz < 2 ^ 31;
  lo_meta8 : sz_meta sz mod 8 = 0;
  lo_fits : first_value (sc_card x) name (sc_name x) l + meta_total (rentry_mdef <$> l) <= sz_meta sz
}.

Definition schema_geom (x : ldms_schema) (sz : set_sizes) : geom :=
  Geom (sc_card x) (sz_meta sz) (sc_data_sz x + sz_heap sz) (sz_heap sz) (sz_array_card sz).

(** The offsets of the values of the metrics. *)
Definition value_offs (c : Z) (inst schema : string) (l : list rentry) : list Z :=
  final_offs (data_offs sizeof_ldms_data_hdr (rentry_mdef <$> l))
    (meta_offs (first_value c inst schema l) (rentry_mdef <$> l)) l.

(** What [write_set] leaves at [meta]. *)
Record set_written (m : mem) (meta : Z) (name : string) (x : ldms_schema) (l : list rentry)
    (sz : set_sizes) (uid gid perm : Z) : Prop := SetWritten {
  sw_header : header_at m meta (schema_geom x sz);
  sw_access : access_at m meta uid gid perm;
  sw_gn : has m (meta + sh_meta_gn) (le_bytes 8 1);
  sw_names : names_at m meta (sc_card x) name (sc_name x) (sc_digest x);
  sw_sections i : 0 <= i < sz_array_card sz ->
    section_init m meta (meta + sz_meta sz + i * (sc_data_sz x + sz_heap sz)) (sc_data_sz x) (sz_heap sz) (sz_array_card sz);
  sw_descs : descs_at m meta 0 (meta + first_desc (sc_card x) name (sc_name x)) l
    (value_offs (sc_card x) name (sc_name x) l);
  sw_types : rec_types_at m meta (first_value (sc_card x) name (sc_name x) l) l
}.

(** An allocation of [n] bytes, aligned to eight bytes. *)
Record block (m : mem) (n : Z) : Prop := Block {
  bl_bytes : bytes_ok (cells m);
  bl_size : msize m = n;
  bl_base : 0 < base m;
  bl_align : base m mod 8 = 0;
  bl_end : base m + n < 2 ^ 63
}.

Lemma roundup8_range z : 0 <= z -> z <= roundup8 z < z + 8 /\ roundup8 z mod 8 = 0.
Proof. intros. unfold roundup8. split; [dlia|]. by rewrite Z.mod_mul. Qed.

Lemma runs_get_first_metric_desc m c name schema digest :
  0 < base m -> base m mod 8 = 0 -> base m + names_end c name schema < 2 ^ 63 ->
  0 <= c < 2 ^ 32 -> strlen name < 255 -> strlen schema < 222 ->
  has m (base m + sh_card) (le_bytes 4 c) -> names_at m (base m) c name schema digest ->
  runs (get_first_metric_desc (base m)) m (fun vd m' => vd = base m + first_desc c name schema /\ m' = m).
Proof.
  intros Hp H8 Hend Hc Hi Hs Hcard (N1 & N2 & N3 & N4 & N5). unfold names_end in Hend. fields.
  pose proof (strlen_nonneg name). pose proof (strlen_nonneg schema). unfold LDMS_DIGEST_LENGTH in *.
  unfold get_first_metric_desc, get_schema_name, get_instance_name, after_name. fields.
  apply runs_bind, runs_bind, runs_bind. eapply (runs_ld_word 4); [exact Hcard|done|]. apply runs_ret.
  apply runs_bind. eapply (runs_ld_word 1); [exact N1|lia|]. apply runs_ret.
  replace (base m + 140 + 4 * c + 1 + (strlen name + 1)) with (base m + 140 + 4 * c + 2 + strlen name) by lia.
  apply runs_bind, runs_bind. eapply (runs_ld_word 1); [exact N3|lia|]. apply runs_ret. apply runs_ret.
  split; [|done]. rewrite mask_roundup_8 by lia. unfold first_desc, roundup8, names_end. dlia.
Qed.

Section write_set.
Context (name : string) (x : ldms_schema) (l : list rentry) (sz : set_sizes) (uid gid perm : Z).
Context (Hlay : layout_ok name x l sz).

#[local] Abbreviation fd := (first_desc (sc_card x) name (sc_name x)).
#[local] Abbreviation fv := (first_value (sc_card x) name (sc_name x) l).

Lemma layout_bounds :
  sc_card x = Z.of_nat (List.length l) /\ 177 + 4 * sc_card x <= names_end (sc_card x) name (sc_name x) <= fd /\
  0 <= desc_total (rentry_mdef <$> l) /\ 0 <= meta_total (rentry_mdef <$> l) /\
  fd + desc_total (rentry_mdef <$> l) <= fv /\ fv + meta_total (rentry_mdef <$> l) <= sz_meta sz /\
  0 <= sz_array_data sz /\ sz_meta sz + sz_array_data sz < 2 ^ 31 /\
  0 <= sc_data_sz x <= sz_array_data sz /\ 0 <= sz_heap sz <= sz_array_data sz.
Proof.
  destruct Hlay as [Hc He Hi Hs Hd [Hdata _] [Hh _] Hn Ha Ht Hm Hf]. unfold sizeof_ldms_data_hdr in Hdata.
  pose proof (strlen_nonneg name). pose proof (strlen_nonneg (sc_name x)).
  pose proof (desc_total_nonneg _ (entries_mdefs _ He)). pose proof (meta_total_nonneg _ He).
  assert (names_end (sc_card x) name (sc_name x) >= 177 + 4 * sc_card x) by (unfold names_end; lia).
  destruct (roundup8_range (names_end (sc_card x) name (sc_name x))); [lia|].
  destruct (roundup8_range (first_desc (sc_card x) name (sc_name x) + desc_total (rentry_mdef <$> l))).
  { unfold first_desc. lia. }
  unfold first_value, first_desc in *. split_and!; try lia; nia.
Qed.

(** The header, the names and the data sections. *)
Local Lemma runs_write_sections m :
  block m (sz_meta sz + sz_array_data sz) ->
  runs (write_sections (base m) name x sz uid gid perm) m (fun _ m' =>
    header_at m' (base m) (schema_geom x sz) /\ access_at m' (base m) uid gid perm /\
    has m' (base m + sh_meta_gn) (le_bytes 8 1) /\
    names_at m' (base m) (sc_card x) name (sc_name x) (sc_digest x) /\
    (forall i, 0 <= i < sz_array_card sz ->
      section_init m' (base m) (base m + sz_meta sz + i * (sc_data_sz x + sz_heap sz)) (sc_data_sz x) (sz_heap sz) (sz_array_card sz)) /\
    block m' (sz_meta sz + sz_array_data sz) /\ base m' = base m).
Proof.
  intros [Hbok Hsize Hpos Hal Hend]. destruct layout_bounds as (Hcl & Hnames & Hdt & Hmt & Hfv & Hfit & Had & Htot & Hdsz & Hhsz).
  destruct Hlay as [Hc He Hi Hs [Hd Hdl] [Hdata Hdata8] [Hh Hh5] Hn Ha Ht Hm Hf].
  unfold write_sections. apply runs_bind, runs_memset; [unfold inside; lia|]. intros m1 Hz F1.
  pose proof (strlen_nonneg name). pose proof (strlen_nonneg (sc_name x)). unfold names_end in *.
  apply runs_bind. eapply runs_mono; [apply runs_write_header; in_range|].
  intros _ m2 ((H1 & H2 & H3 & H4 & H5) & (A1 & A2 & A3 & A4 & A5) & Hgn & F2). cbn [ge_card ge_meta_sz ge_data_sz ge_heap_sz ge_n] in *.
  rewrite !u32_small in H3 by lia.
  apply runs_bind. eapply runs_mono; [apply (runs_write_names _ _ (sc_card x)); unfold LDMS_DIGEST_LENGTH in *|]; fields.
  1-7: first [done|lia|in_range].
  unfold LDMS_DIGEST_LENGTH in *. fields. intros _ m3 ((N1 & N2 & N3 & N4 & N5) & F3). fields.
  assert (has m3 (base m + sz_meta sz) (replicate (Z.to_nat ((sc_data_sz x + sz_heap sz) * sz_array_card sz)) 0)) as Hz3.
  { rewrite <- Ha. pose proof (has_zeros _ _ _ (sz_meta sz) (sz_array_data sz) Hz ltac:(lia) ltac:(lia) ltac:(lia)). from_before. }
  eapply runs_mono; [apply (runs_init_sections m3 (base m) (base m + sz_meta sz)); fields|].
  1-11: first [done|lia|dlia|by apply F3, F2, F1|unfold sizeof_ldms_data_hdr in *; lia|from_before].
  intros _ m4 [Hsec F4]. rewrite <- Ha in F4. unfold header_at, access_at, names_at, schema_geom, LDMS_DIGEST_LENGTH.
  fields. cbn [ge_card ge_meta_sz ge_data_sz ge_heap_sz ge_n].
  assert (base m4 = base m) as Hb4 by (rewrite (fr_base _ _ _ _ F4), (fr_base _ _ _ _ F3), (fr_base _ _ _ _ F2); apply F1).
  split_and!; try from_before; [done| |done].
  constructor; rewrite ?Hb4; try done; [by apply F4, F3, F2, F1|].
  rewrite (fr_size _ _ _ _ F4), (fr_size _ _ _ _ F3), (fr_size _ _ _ _ F2), (fr_size _ _ _ _ F1). done.
Qed.

Lemma runs_write_set m :
  block m (sz_meta sz + sz_array_data sz) ->
  runs (write_set (base m) name x l sz uid gid perm) m (fun _ m' =>
    set_written m' (base m) name x l sz uid gid perm /\
    block m' (sz_meta sz + sz_array_data sz) /\ base m' = base m).
Proof.
  intros Hbl. unfold write_set. apply runs_bind. eapply runs_mono; [by apply runs_write_sections|].
  intros _ m4 ((H1 & H2 & H3 & H4 & H5) & (A1 & A2 & A3 & A4 & A5) & Hgn & Hnm & Hsec & Hbl4 & Hb4).
  destruct layout_bounds as (Hcl & Hnames & Hdt & Hmt & Hfv & Hfit & Had & Htot & Hdsz & Hhsz).
  pose proof Hbl4 as [Hbok Hsize Hpos Hal Hend]. pose proof Hlay as [Hc He Hi Hs [Hd Hdl] [Hdata Hdata8] [Hh Hh5] Hn Ha Ht Hm Hf].
  rewrite <- Hb4 in *. cbn [ge_card ge_meta_sz ge_data_sz ge_heap_sz ge_n schema_geom] in *.
  apply runs_bind. eapply runs_mono; [eapply (runs_get_first_metric_desc _ _ _ _ _); try done; lia|].
  intros ? ? [-> ->]. destruct Hnm as (N1 & N2 & N3 & N4 & N5). unfold LDMS_DIGEST_LENGTH, names_end in *. fields.
  pose proof (strlen_nonneg name). pose proof (strlen_nonneg (sc_name x)).
  apply runs_bind. eapply runs_mono; [apply (runs_make_mdescs (base m4) l m4 0); fields|].
  1-5: first [by apply entries_mdefs|lia|unfold inside; lia].
  fields. intros vd' m5 (-> & Hds5 & F5). rewrite Z.mul_0_r, Z.add_0_r in F5.
  assert (mask_roundup (base m4 + fd + desc_total (rentry_mdef <$> l) - base m4) 8 = fv) as ->.
  { rewrite mask_roundup_8 by lia. unfold first_value, roundup8. do 3 f_equal. lia. }
  replace (sc_card x) with (0 + Z.of_nat (List.length l)) at 1 by lia.
  assert (inside m5 (base m4) (sz_meta sz)) as Hin5 by (apply (proj2 (frame2_inside _ _ _ _ _ _ _ _ F5)); unfold inside; lia).
  eapply runs_mono; [apply (runs_make_meta_values (base m4) l m5 _ 0 (base m4 + fd)
    (final_offs (data_offs sizeof_ldms_data_hdr (rentry_mdef <$> l)) (replicate (List.length l) 0) l)); fields|].
  1-10: first [done|lia|apply length_final_offs; [by rewrite length_data_offs, length_fmap|by rewrite length_replicate]
              |unfold inside in *; lia|idtac].
  { intros k e p o Hk Hp Ho. pose proof (lookup_lt_Some _ _ _ Hk) as Hlt.
    destruct (lookup_lt_is_Some_2 (data_offs sizeof_ldms_data_hdr (rentry_mdef <$> l)) k) as [o' Ho'].
    { by rewrite length_data_offs, length_fmap. }
    rewrite (final_offs_lookup _ _ _ _ _ _ 0 Hk Ho') in Ho by (by apply lookup_replicate_2). injection Ho as <-.
    by apply (Hds5 k e p o'). }
  rewrite final_offs_twice by (rewrite ?length_replicate, ?length_data_offs, ?length_fmap; done).
  intros _ m6 (Hds6 & Hrt6 & F6).
  assert (base m6 = base m4) as Hb6 by (rewrite (fr2_base _ _ _ _ _ _ F6); apply F5).
  split; [|split; [constructor; rewrite ?Hb6; try done; [by apply F6, F5|by rewrite (fr2_size _ _ _ _ _ _ F6), (fr2_size _ _ _ _ _ _ F5)]|done]].
  constructor; [unfold header_at|unfold access_at| |unfold names_at| |exact Hds6|exact Hrt6];
    cbn [ge_card ge_meta_sz ge_data_sz ge_heap_sz ge_n schema_geom]; fields; unfold LDMS_DIGEST_LENGTH;
    try first [from_before|split_and!; from_before].
  intros i Hsi. assert (0 <= i * (sc_data_sz x + sz_heap sz)) by nia. unfold sizeof_ldms_data_hdr in *.
  eapply section_init_keep; [done|unfold heap_head; dlia| |by apply Hsec]. intros q bs Hq ? ?. from_before.
Qed.

End write_set.
