(* ===== verification/SetSpec.v ===== *)
(** * Well-formed metric sets

    [set_ok ly s]: the bytes of the set [s] have the layout [ly].  Every
    metric has its entry in the dictionary, its descriptor and a slot for its
    value; the slots lie in the sections they belong to and do not overlap. *)

From stdpp Require Import prelude gmap strings.
From Stdlib Require Import Ascii String.
From S2P Require Import Prelude Bytes CStr Mem MemFrame CFloat MVal MValSpec Schema SchemaSpec Rrbt LdmsHeap.
From S2P Require Import HeapInit SetCreate SetOps SetLayout SetInit.

Open Scope Z_scope.

(** ** Layouts *)

(** A metric: its definition, and the offsets of its descriptor and value. *)
Record slot := Slot { sl_def : mdef; sl_desc : Z; sl_off : Z }.

(** [ly_vals]: the offset of the first meta attribute. *)
Record layout := Layout { ly_geom : geom; ly_vals : Z; ly_slots : list slot }.

Definition slot_size (md : mdef) : Z :=
  if (md_type md =? code LDMS_V_RECORD_TYPE) || (md_type md =? code LDMS_V_RECORD_ARRAY)
  then md_data_sz md else vsize md.

(** The bytes of a data section before its heap. *)
Definition ge_vsz (g : geom) : Z := ge_data_sz g - ge_heap_sz g.

Record slot_ok (g : geom) (vals : Z) (sl : slot) : Prop := SlotOk {
  sl_mdef : mdef_ok (sl_def sl);
  sl_size : 0 <= slot_size (sl_def sl);
  sl_desc_lo : sh_dict + 4 * ge_card g <= sl_desc sl;
  sl_desc_hi : sl_desc sl + desc_len (sl_def sl) <= vals;
  sl_range : if is_data (sl_def sl)
    then sizeof_ldms_data_hdr <= sl_off sl /\ sl_off sl + slot_size (sl_def sl) <= ge_vsz g
    else vals <= sl_off sl /\ sl_off sl + slot_size (sl_def sl) <= ge_meta_sz g
}.

Record layout_wf (ly : layout) : Prop := LayoutWf {
  lw_card : ge_card (ly_geom ly) = Z.of_nat (List.length (ly_slots ly));
  lw_heap : 0 <= ge_heap_sz (ly_geom ly);
  lw_heap5 : ge_heap_sz (ly_geom ly) mod 512 = 0;
  lw_data : sizeof_ldms_data_hdr <= ge_vsz (ly_geom ly);
  lw_n : 1 <= ge_n (ly_geom ly);
  lw_vals : 144 <= ly_vals ly <= ge_meta_sz (ly_geom ly);
  lw_total : ge_meta_sz (ly_geom ly) + ge_n (ly_geom ly) * ge_data_sz (ly_geom ly) < 2 ^ 31;
  lw_slots i sl : ly_slots ly !! i = Some sl -> slot_ok (ly_geom ly) (ly_vals ly) sl;
  lw_disjoint i j a b : ly_slots ly !! i = Some a -> ly_slots ly !! j = Some b -> i <> j ->
    is_data (sl_def a) = is_data (sl_def b) ->
    apart (sl_off a) (slot_size (sl_def a)) (sl_off b) (slot_size (sl_def b));
  lw_descs i j a b : ly_slots ly !! i = Some a -> ly_slots ly !! j = Some b -> i <> j ->
    apart (sl_desc a) (desc_len (sl_def a)) (sl_desc b) (desc_len (sl_def b))
}.

(** ** Sets *)

(** The section [k] of the set. *)
Definition section (g : geom) (s : ldms_set) (k : Z) : Z := s_data_array s + k * ge_data_sz g.

(** What every data section keeps. *)
Definition section_ok (m : mem) (meta p : Z) (g : geom) : Prop :=
  has m (p + dh_size) (le_bytes 8 (ge_data_sz g)) /\ has m (p + dh_set_off) (le_bytes 4 (p - meta)) /\
  has m (p + dh_heap + 8) (le_bytes 8 (ge_heap_sz g)) /\
  (ge_heap_sz g <> 0 -> has m (p + ge_vsz g) LDMS_HEAP_SIGNATURE).

(** The dictionary entry [i] and the descriptor of a metric. *)
Definition slot_at (m : mem) (meta i : Z) (sl : slot) : Prop :=
  has m (meta + sh_dict + 4 * i) (le_bytes 4 (sl_desc sl)) /\ desc_at m (meta + sl_desc sl) (sl_def sl) (sl_off sl).

Record set_ok (ly : layout) (s : ldms_set) : Prop := SetOk {
  so_wf : layout_wf ly;
  so_bytes : bytes_ok (cells (s_mem s));
  so_pos : 0 < base (s_mem s);
  so_meta : s_meta s = base (s_mem s);
  so_size : msize (s_mem s) = ge_meta_sz (ly_geom ly) + ge_n (ly_geom ly) * ge_data_sz (ly_geom ly);
  so_header : header_at (s_mem s) (s_meta s) (ly_geom ly);
  so_array : s_data_array s = s_meta s + ge_meta_sz (ly_geom ly);
  so_curr : 0 <= s_curr_idx s < ge_n (ly_geom ly);
  so_data : s_data s = section (ly_geom ly) s (s_curr_idx s);
  so_sections k : 0 <= k < ge_n (ly_geom ly) ->
    section_ok (s_mem s) (s_meta s) (section (ly_geom ly) s k) (ly_geom ly);
  so_heap : s_heap s = (if ge_heap_sz (ly_geom ly) =? 0 then None
                        else Some (Heap (s_data s + dh_heap) (s_data s + ge_vsz (ly_geom ly))));
  so_slots i sl : ly_slots ly !! i = Some sl -> slot_at (s_mem s) (s_meta s) (Z.of_nat i) sl
}.

(** The address of the value of a metric, in the data section [k] or in the
    meta data. *)
Definition value_in (g : geom) (s : ldms_set) (k : Z) (sl : slot) : Z :=
  if is_data (sl_def sl) then section g s k + sl_off sl else s_meta s + sl_off sl.

(** ** Bytes of a set *)

Lemma with_mem_id s : with_mem s (s_mem s) = s.
Proof. by destruct s. Qed.

Lemma runs_on_mem {A} (c : M mem A) s (Q : A -> ldms_set -> Prop) :
  runs c (s_mem s) (fun a m' => Q a (with_mem s m')) -> runs (on_mem c) s Q.
Proof. intros (a & m' & Hc & HQ). exists a, (with_mem s m'). unfold on_mem. by rewrite Hc. Qed.

Lemma runs_on_mem_ld {A} (c : M mem A) s (Q : A -> ldms_set -> Prop) :
  runs c (s_mem s) (fun a m' => m' = s_mem s /\ Q a s) -> runs (on_mem c) s Q.
Proof.
  intros H. apply runs_on_mem. eapply runs_mono; [exact H|]. intros a m' [-> HQ]. by rewrite with_mem_id.
Qed.

Lemma runs_ld_on_mem w p v s (Q : Z -> ldms_set -> Prop) :
  has (s_mem s) p (le_bytes w v) -> 0 <= v < 256 ^ Z.of_nat w -> Q v s -> runs (on_mem (ldw w p)) s Q.
Proof. intros. apply runs_on_mem_ld. by eapply runs_ld_word. Qed.

Lemma runs_hdr_word off v s (Q : Z -> ldms_set -> Prop) :
  has (s_mem s) (s_meta s + off) (le_bytes 4 v) -> 0 <= v < 2 ^ 32 -> Q v s -> runs (hdr_word off) s Q.
Proof. intros. apply runs_bind, runs_gets. by eapply runs_ld_on_mem. Qed.

(** ** What an operation may write *)

(** The ranges [set_ok] speaks about. *)
Inductive protected (ly : layout) (s : ldms_set) : Z -> Z -> Prop :=
| pr_header off : off ∈ [sh_card; sh_meta_sz; sh_data_sz; sh_heap_sz; sh_array_card] ->
    protected ly s (s_meta s + off) 4
| pr_dict i : 0 <= i < ge_card (ly_geom ly) -> protected ly s (s_meta s + sh_dict + 4 * i) 4
| pr_desc i sl : ly_slots ly !! i = Some sl ->
    protected ly s (s_meta s + sl_desc sl + 8) (desc_len (sl_def sl) - 8)
| pr_section k off n : 0 <= k < ge_n (ly_geom ly) ->
    (off, n) ∈ [(dh_size, 8); (dh_set_off, 4); (dh_heap + 8, 8); (ge_vsz (ly_geom ly), 8)] ->
    (off = ge_vsz (ly_geom ly) -> ge_heap_sz (ly_geom ly) <> 0) ->
    protected ly s (section (ly_geom ly) s k + off) n.

Definition writable (ly : layout) (s : ldms_set) (p n : Z) : Prop :=
  forall q k, protected ly s q k -> apart p n q k.

Section set.
Context (ly : layout) (s : ldms_set) (Hok : set_ok ly s).
#[local] Abbreviation g := (ly_geom ly).

Lemma geom_bounds :
  0 <= ge_card g < 2 ^ 31 /\ 144 <= ge_meta_sz g < 2 ^ 31 /\ 96 <= ge_data_sz g < 2 ^ 31 /\
  0 <= ge_heap_sz g < 2 ^ 31 /\ 1 <= ge_n g < 2 ^ 31 /\ 96 <= ge_vsz g /\ ge_vsz g + ge_heap_sz g = ge_data_sz g.
Proof.
  destruct (so_wf _ _ Hok) as [Hc Hh _ Hd Hn Hv Ht Hs _ _]. unfold ge_vsz, sizeof_ldms_data_hdr in *.
  assert (ge_n g * 96 <= ge_n g * ge_data_sz g) by nia.
  assert (ge_data_sz g <= ge_n g * ge_data_sz g) by nia.
  assert (ge_card g < 2 ^ 31).
  { destruct (decide (ge_card g = 0)); [lia|].
    destruct (lookup_lt_is_Some_2 (ly_slots ly) (Z.to_nat (ge_card g - 1))) as [sl Hsl]; [lia|].
    destruct (Hs _ _ Hsl). unfold sh_dict in *. pose proof (desc_len_pos (sl_def sl)). lia. }
  split_and!; lia.
Qed.

Lemma section_range k :
  0 <= k < ge_n g ->
  s_meta s + ge_meta_sz g <= section g s k /\ section g s k + ge_data_sz g <= base (s_mem s) + msize (s_mem s).
Proof.
  intros Hk. unfold section. rewrite (so_array _ _ Hok), (so_meta _ _ Hok), (so_size _ _ Hok).
  pose proof geom_bounds. assert (0 <= k * ge_data_sz g) by nia.
  assert (k * ge_data_sz g + ge_data_sz g <= ge_n g * ge_data_sz g) by nia. lia.
Qed.

Lemma sections_apart k j :
  0 <= k -> 0 <= j -> k <> j -> apart (section g s k) (ge_data_sz g) (section g s j) (ge_data_sz g).
Proof.
  intros ? ? Hne. pose proof geom_bounds. unfold apart, section.
  destruct (decide (k < j)); [left|right]; nia.
Qed.

Lemma section_inside k p n :
  0 <= k < ge_n g -> section g s k <= p -> 0 <= n -> p + n <= section g s k + ge_data_sz g -> inside (s_mem s) p n.
Proof.
  intros Hk ? ? ?. pose proof (section_range k Hk). pose proof (so_meta _ _ Hok). pose proof geom_bounds.
  unfold inside. lia.
Qed.

Lemma meta_inside p n : s_meta s <= p -> 0 <= n -> p + n <= s_meta s + ge_meta_sz g -> inside (s_mem s) p n.
Proof.
  intros. pose proof (so_meta _ _ Hok). pose proof (so_size _ _ Hok) as Hsz. pose proof geom_bounds.
  assert (0 <= ge_n g * ge_data_sz g) by nia. unfold inside. lia.
Qed.

(** [set_ok] survives writes to the rest. *)
Lemma set_ok_keep m' rs :
  framel (s_mem s) m' rs -> Forall (fun r => writable ly s r.1 r.2) rs -> set_ok ly (with_mem s m').
Proof.
  intros F Hw. pose proof geom_bounds as Hgb.
  assert (forall q k a bs, protected ly s q k -> has (s_mem s) a bs -> q <= a -> a + zlen bs <= q + k -> has m' a bs) as Hk.
  { intros q k a bs Hp Ha ? ?. apply F; [done|]. eapply Forall_impl; [exact Hw|]. intros [p n] Hr. cbn in *.
    specialize (Hr _ _ Hp). unfold apart in *. lia. }
  destruct Hok as [Hwf Hb Hpos Hm Hsz (H1 & H2 & H3 & H4 & H5) Ha Hc Hd Hsec Hheap Hsl].
  constructor; cbn [with_mem s_mem s_meta s_data_array s_curr_idx s_data s_heap] in *;
    [done|by apply F|by rewrite (frl_base _ _ _ F)|by rewrite (frl_base _ _ _ F)|by rewrite (frl_size _ _ _ F)| |done..| |done|].
  - unfold header_at. split_and!;
      match goal with |- has _ (_ + ?off) _ => apply (Hk (s_meta s + off) 4); [apply pr_header; set_solver|done|lia|range] end.
  - intros k Hk'. destruct (Hsec k Hk') as (A1 & A2 & A3 & A4). unfold section_ok, section in *. cbn [with_mem s_data_array].
    pose proof (pr_section ly s k) as Hp. unfold section in Hp. split_and!.
    + eapply Hk; [apply (Hp dh_size 8); [done|set_solver|unfold dh_size; lia]|done|lia|range].
    + eapply Hk; [apply (Hp dh_set_off 4); [done|set_solver|unfold dh_set_off; lia]|done|lia|range].
    + eapply Hk; [apply (Hp (dh_heap + 8) 8); [done|set_solver|unfold dh_heap; lia]|done|lia|range].
    + intros Hne. eapply Hk; [apply (Hp (ge_vsz g) 8); [done|set_solver|done]|by apply A4|lia|range].
  - intros i sl Hi. destruct (Hsl i sl Hi) as [A1 A2]. pose proof (lookup_lt_Some _ _ _ Hi).
    pose proof (lw_card _ Hwf). split.
    + eapply Hk; [apply (pr_dict _ _ (Z.of_nat i)); lia|done|lia|range].
    + eapply desc_at_keep; [|exact A2]. intros q bs Hq ? ?. eapply Hk; [by apply (pr_desc _ _ i sl)|done|lia|lia].
Qed.

(** The protected ranges are in the meta data before the attributes, or in
    one of the sections. *)
Lemma protected_cases q n :
  protected ly s q n ->
  (exists off, q = s_meta s + off /\ (80 <= off /\ off + n <= 92 \/ 104 <= off /\ off + n <= 112 \/ 140 <= off) /\
     off + n <= ly_vals ly) \/
  (exists k off, 0 <= k < ge_n g /\ q = section g s k + off /\ off + n <= ge_data_sz g /\
     (off = dh_size /\ n = 8 \/ off = dh_set_off /\ n = 4 \/ off = dh_heap + 8 /\ n = 8 \/
      off = ge_vsz g /\ n = 8 /\ ge_heap_sz g <> 0)).
Proof.
  intros Hp. pose proof geom_bounds. pose proof (lw_vals _ (so_wf _ _ Hok)). pose proof (lw_heap5 _ (so_wf _ _ Hok)).
  destruct Hp as [off Hoff|i Hi|i sl Hi|k off n Hk Hin Hne].
  - left. exists off. split; [done|]. unfold sh_card, sh_meta_sz, sh_data_sz, sh_heap_sz, sh_array_card in Hoff.
    set_unfold in Hoff. lia.
  - left. exists (sh_dict + 4 * i). split; [lia|].
    destruct (lookup_lt_is_Some_2 (ly_slots ly) (Z.to_nat i)) as [sl Hsl].
    { pose proof (lw_card _ (so_wf _ _ Hok)). lia. }
    destruct (lw_slots _ (so_wf _ _ Hok) _ _ Hsl). pose proof (desc_len_pos (sl_def sl)). unfold sh_dict in *. lia.
  - left. exists (sl_desc sl + 8). split; [lia|]. destruct (lw_slots _ (so_wf _ _ Hok) _ _ Hi).
    pose proof (desc_len_pos (sl_def sl)). unfold sh_dict in *. lia.
  - right. exists k, off. split; [done|]. split; [done|]. unfold dh_size, dh_set_off, dh_heap in *.
    assert (ge_heap_sz g <> 0 -> 512 <= ge_heap_sz g) by dlia.
    set_unfold in Hin. destruct Hin as [[= -> ->]|[[= -> ->]|[[= -> ->]|[[= -> ->]|[]]]]]; lia.
Qed.

Lemma writable_header off n :
  0 <= off -> (off + n <= 80 \/ 92 <= off /\ off + n <= 104) -> writable ly s (s_meta s + off) n.
Proof.
  intros Hlo Hoff q k [(o & -> & Ho & Hv)|(j & o & Hj & -> & Ho & Hc)]%protected_cases; unfold apart; [lia|].
  pose proof (section_range j Hj). pose proof geom_bounds. unfold dh_size, dh_set_off, dh_heap in *. lia.
Qed.

Lemma writable_vals p n :
  s_meta s + ly_vals ly <= p -> p + n <= s_meta s + ge_meta_sz g -> writable ly s p n.
Proof.
  intros Hlo Hhi q k [(o & -> & Ho & Hv)|(j & o & Hj & -> & Ho & Hc)]%protected_cases; unfold apart; [lia|].
  pose proof (section_range j Hj). pose proof geom_bounds. unfold dh_size, dh_set_off, dh_heap in *. lia.
Qed.

(** The parts of a data section an operation may write: the times and the
    flags, the generation numbers and the index, the heap and the values. *)
Lemma writable_section k off n :
  0 <= k < ge_n g -> 0 <= n ->
  (0 <= off /\ off + n <= 20 \/ 24 <= off /\ off + n <= 32 \/ 40 <= off /\ off + n <= 64 \/
   72 <= off /\ off + n <= ge_vsz g \/ ge_vsz g + 8 <= off /\ off + n <= ge_data_sz g) ->
  writable ly s (section g s k + off) n.
Proof.
  intros Hk Hn Hoff q c [(o & -> & Ho & Hv)|(j & o & Hj & -> & Ho & Hc)]%protected_cases; pose proof geom_bounds as Hgb.
  - pose proof (section_range k Hk). pose proof (lw_vals _ (so_wf _ _ Hok)). unfold apart. lia.
  - unfold dh_size, dh_set_off, dh_heap in *. destruct (decide (k = j)) as [->|Hne].
    + unfold apart. lia.
    + pose proof (sections_apart k j) as Ha. unfold apart in *. lia.
Qed.

End set.
