(* ===== verification/SetMetric.v ===== *)
(** * Reads and writes of metrics

    What the accessors of [SetOps] do to a well-formed set: which address they
    use, which bytes they change, and that the set stays well-formed. *)

From stdpp Require Import prelude gmap strings.
From Stdlib Require Import Ascii String.
From S2P Require Import Prelude Bytes CStr Mem MemFrame CFloat MVal MValSpec Schema SchemaSpec Rrbt LdmsHeap.
From S2P Require Import HeapInit SetCreate SetOps SetLayout SetInit SetSpec.

Open Scope Z_scope.

(** The bytes the generation numbers occupy that a change of [sl] updates. *)
Definition gn_ranges (s : ldms_set) (sl : slot) : list (Z * Z) :=
  if is_data (sl_def sl) then [(s_data s + dh_gn, 8)]
  else [(s_meta s + sh_meta_gn, 8); (s_data s + dh_meta_gn, 8)].

(** The bytes [bs] were written at [q], the generation number was incremented
    and nothing else changed. *)
Record stored (s : ldms_set) (sl : slot) (q : Z) (bs : bytes) (s' : ldms_set) : Prop := Stored {
  st_mem : s' = with_mem s (s_mem s');
  st_has : has (s_mem s') q bs;
  st_frame : framel (s_mem s) (s_mem s') ((q, zlen bs) :: gn_ranges s sl)
}.

(** The section a value is read from: outside of a transaction the current
    one, and in a transaction the previous one. *)
Definition source (g : geom) (s : ldms_set) (tf : Z) (sl : slot) : Z :=
  let t := md_type (sl_def sl) in
  if negb (tf =? LDMS_TRANSACTION_END) && negb (t =? code LDMS_V_LIST) && negb (t =? code LDMS_V_RECORD_ARRAY)
  then (s_curr_idx s + (ge_n g - 1)) mod ge_n g else s_curr_idx s.

Definition trans_flags (s : ldms_set) (tf : Z) : Prop :=
  has (s_mem s) (s_data s + dh_trans_flags) (le_bytes 4 tf) /\ 0 <= tf < 2 ^ 32.

Section metric.
Context (ly : layout) (s : ldms_set) (Hok : set_ok ly s).
#[local] Abbreviation g := (ly_geom ly).

Lemma runs_card (Q : Z -> ldms_set -> Prop) : Q (ge_card g) s -> runs (hdr_word sh_card) s Q.
Proof.
  intros. pose proof (geom_bounds _ _ Hok). eapply runs_hdr_word; [apply (so_header _ _ Hok)|lia|done].
Qed.

Lemma runs_array_card (Q : Z -> ldms_set -> Prop) : Q (ge_n g) s -> runs (hdr_word sh_array_card) s Q.
Proof.
  intros. pose proof (geom_bounds _ _ Hok). eapply runs_hdr_word; [apply (so_header _ _ Hok)|lia|done].
Qed.

Lemma runs_set_array_get k (Q : Z -> ldms_set -> Prop) : Q (section g s k) s -> runs (set_array_get k) s Q.
Proof.
  intros. pose proof (geom_bounds _ _ Hok). unfold set_array_get, __set_array_get.
  apply runs_bind, runs_gets. apply runs_bind, runs_gets. apply runs_on_mem_ld, runs_bind.
  eapply (runs_ld_word 4); [apply (so_header _ _ Hok)|lia|]. by apply runs_ret.
Qed.

Lemma trans_flags_ex : exists tf, trans_flags s tf.
Proof.
  pose proof (so_curr _ _ Hok) as Hc. pose proof (section_range _ _ Hok _ Hc). pose proof (geom_bounds _ _ Hok).
  pose proof (so_data _ _ Hok) as Hd.
  destruct (inside_has_ex (s_mem s) (s_data s + dh_trans_flags) 4) as (bs & Hbs & Hl).
  { rewrite Hd. apply (section_inside _ _ Hok (s_curr_idx s)); unfold dh_trans_flags; lia. }
  pose proof (bytes_ok_has _ _ _ (so_bytes _ _ Hok) Hbs) as Hb.
  exists (le_value bs). split; [|pose proof (le_value_range bs Hb) as Hr; by rewrite Hl in Hr].
  apply le_bytes_value in Hb. apply (Nat2Z.inj _ 4) in Hl. rewrite Hl in Hb. by rewrite Hb.
Qed.

Section slot.
Context (i : nat) (sl : slot) (Hsl : ly_slots ly !! i = Some sl).

Lemma slot_bounds :
  0 <= Z.of_nat i < ge_card g /\ 140 <= sl_desc sl /\ sl_desc sl + desc_len (sl_def sl) <= ge_meta_sz g /\
  0 <= sl_off sl < 2 ^ 31 /\ 0 <= slot_size (sl_def sl).
Proof.
  pose proof (lookup_lt_Some _ _ _ Hsl). destruct (so_wf _ _ Hok) as [Hc _ _ Hd _ Hv _ Hs _ _].
  destruct (Hs _ _ Hsl) as [_ Hz Hlo Hhi Hr]. pose proof (geom_bounds _ _ Hok). unfold sh_dict, sizeof_ldms_data_hdr, ge_vsz in *.
  destruct (is_data _); lia.
Qed.

Lemma runs_dict_desc (Q : Z -> ldms_set -> Prop) :
  Q (s_meta s + sl_desc sl) s -> runs (dict_desc (Z.of_nat i)) s Q.
Proof.
  intros HQ. pose proof slot_bounds. pose proof (geom_bounds _ _ Hok). destruct (so_slots _ _ Hok _ _ Hsl) as [Hd _].
  pose proof (desc_len_pos (sl_def sl)).
  apply runs_bind, runs_gets. apply runs_on_mem_ld, runs_bind. eapply (runs_ld_word 4); [exact Hd|lia|]. by apply runs_ret.
Qed.

Lemma runs_desc_get (Q : Z -> ldms_set -> Prop) :
  Q (s_meta s + sl_desc sl) s -> runs (__desc_get (Z.of_nat i)) s Q.
Proof.
  intros HQ. apply runs_bind, runs_card. pose proof slot_bounds.
  rewrite (proj2 (Z.leb_le _ _)), (proj2 (Z.ltb_lt _ _)) by lia. by apply runs_dict_desc.
Qed.

(** The fields of the descriptor. *)
Lemma runs_desc_off (Q : Z -> ldms_set -> Prop) :
  Q (sl_off sl) s -> runs (on_mem (ldw 4 (s_meta s + sl_desc sl + vd_data_offset))) s Q.
Proof.
  intros. pose proof slot_bounds. destruct (so_slots _ _ Hok _ _ Hsl) as [_ Hd].
  eapply runs_ld_on_mem; [apply Hd|lia|done].
Qed.

Lemma runs_desc_flags (Q : Z -> ldms_set -> Prop) :
  Q (md_flags (sl_def sl)) s -> runs (on_mem (ldw 1 (s_meta s + sl_desc sl + vd_flags))) s Q.
Proof.
  intros. destruct (so_slots _ _ Hok _ _ Hsl) as [_ Hd].
  eapply runs_ld_on_mem; [apply Hd|apply (mo_flags _ (sl_mdef _ _ _ (lw_slots _ (so_wf _ _ Hok) _ _ Hsl)))|done].
Qed.

Lemma runs_desc_type (Q : Z -> ldms_set -> Prop) :
  Q (md_type (sl_def sl)) s -> runs (on_mem (ldw 1 (s_meta s + sl_desc sl + vd_type))) s Q.
Proof.
  intros. destruct (so_slots _ _ Hok _ _ Hsl) as [_ Hd].
  eapply runs_ld_on_mem; [apply Hd|apply (mdef_ok_type _ (sl_mdef _ _ _ (lw_slots _ (so_wf _ _ Hok) _ _ Hsl)))|done].
Qed.

Lemma runs_desc_count (Q : Z -> ldms_set -> Prop) :
  Q (md_count (sl_def sl)) s -> runs (on_mem (ldw 4 (s_meta s + sl_desc sl + vd_array_count))) s Q.
Proof.
  intros. destruct (so_slots _ _ Hok _ _ Hsl) as [_ Hd].
  eapply runs_ld_on_mem; [apply Hd|apply (mo_count _ (sl_mdef _ _ _ (lw_slots _ (so_wf _ _ Hok) _ _ Hsl)))|done].
Qed.

Lemma index_ok : (Z.of_nat i <? 0) || (ge_card g <=? Z.of_nat i) = false.
Proof. pose proof slot_bounds. rewrite (proj2 (Z.ltb_ge _ _)), (proj2 (Z.leb_gt _ _)) by lia. done. Qed.

Lemma runs_mval_to_set (Q : option (Z * Z) -> ldms_set -> Prop) :
  Q (Some (value_in g s (s_curr_idx s) sl, s_meta s + sl_desc sl)) s -> runs (__mval_to_set (Z.of_nat i)) s Q.
Proof.
  intros HQ. apply runs_bind, runs_card. rewrite index_ok.
  apply runs_bind, runs_dict_desc, runs_bind, runs_desc_flags, runs_bind, runs_desc_off.
  unfold value_in in HQ. change (flag (md_flags (sl_def sl)) LDMS_MDESC_F_DATA) with (is_data (sl_def sl)).
  rewrite <- (so_data _ _ Hok) in HQ. destruct (is_data (sl_def sl)); (apply runs_bind, runs_gets; by apply runs_ret).
Qed.

Lemma runs_mval_to_get tf (Q : option (Z * Z) -> ldms_set -> Prop) :
  trans_flags s tf ->
  Q (Some (value_in g s (source g s tf sl) sl, s_meta s + sl_desc sl)) s -> runs (__mval_to_get (Z.of_nat i)) s Q.
Proof.
  intros [Htf Hr] HQ. apply runs_bind, runs_card. rewrite index_ok.
  apply runs_bind, runs_dict_desc, runs_bind, runs_desc_flags, runs_bind, runs_desc_off.
  unfold value_in, source in HQ. change (flag (md_flags (sl_def sl)) LDMS_MDESC_F_DATA) with (is_data (sl_def sl)).
  destruct (is_data (sl_def sl)); [|apply runs_bind, runs_gets; by apply runs_ret].
  apply runs_bind, runs_gets. apply runs_bind. eapply runs_ld_on_mem; [exact Htf|done|].
  apply runs_bind, runs_desc_type. destruct (_ && _).
  - apply runs_bind, runs_array_card. apply runs_bind, runs_gets.
    pose proof (geom_bounds _ _ Hok). apply runs_bind, runs_assert; [by rewrite (proj2 (Z.eqb_neq _ _)) by lia|].
    apply runs_bind, runs_set_array_get. by apply runs_ret.
  - rewrite <- (so_data _ _ Hok) in HQ. by apply runs_ret.
Qed.

(** ** Writes *)

(** The values are in the writable parts of the set. *)
Lemma value_range k :
  0 <= k < ge_n g ->
  if is_data (sl_def sl)
  then section g s k + 96 <= value_in g s k sl /\ value_in g s k sl + slot_size (sl_def sl) <= section g s k + ge_vsz g
  else s_meta s + ly_vals ly <= value_in g s k sl /\ value_in g s k sl + slot_size (sl_def sl) <= s_meta s + ge_meta_sz g.
Proof.
  intros Hk. destruct (lw_slots _ (so_wf _ _ Hok) _ _ Hsl) as [_ _ _ _ Hr]. unfold value_in, sizeof_ldms_data_hdr in *.
  destruct (is_data _); lia.
Qed.

Lemma value_inside k p n :
  0 <= k < ge_n g -> value_in g s k sl <= p -> 0 <= n -> p + n <= value_in g s k sl + slot_size (sl_def sl) ->
  inside (s_mem s) p n.
Proof.
  intros Hk ? ? ?. pose proof (value_range k Hk) as Hr. pose proof (geom_bounds _ _ Hok).
  pose proof (lw_vals _ (so_wf _ _ Hok)). destruct (is_data _).
  - apply (section_inside _ _ Hok k); lia.
  - apply (meta_inside _ _ Hok); lia.
Qed.

Lemma value_writable k p n :
  0 <= k < ge_n g -> value_in g s k sl <= p -> 0 <= n -> p + n <= value_in g s k sl + slot_size (sl_def sl) ->
  writable ly s p n.
Proof.
  intros Hk ? ? ?. pose proof (value_range k Hk) as Hr. destruct (is_data _).
  - replace p with (section g s k + (p - section g s k)) by lia. apply (writable_section _ _ Hok); lia.
  - apply (writable_vals _ _ Hok); lia.
Qed.

Lemma gn_writable : Forall (fun r => writable ly s r.1 r.2) (gn_ranges s sl).
Proof.
  pose proof (so_curr _ _ Hok). unfold gn_ranges. rewrite (so_data _ _ Hok). destruct (is_data _); rewrite ?Forall_cons, Forall_nil; cbn [fst snd]; split_and!; try done.
  - apply (writable_section _ _ Hok); unfold dh_gn; lia.
  - apply (writable_header _ _ Hok); unfold sh_meta_gn; lia.
  - apply (writable_section _ _ Hok); unfold dh_meta_gn; lia.
Qed.

(** The value a change increments. *)
Definition gn_addr : Z := if is_data (sl_def sl) then s_data s + dh_gn else s_meta s + sh_meta_gn.

End slot.
End metric.

(** [__ldms_gn_inc] on a set whose descriptors are those of [s]. *)
Lemma runs_gn_inc ly s i sl :
  set_ok ly s -> ly_slots ly !! i = Some sl ->
  runs (__ldms_gn_inc (s_meta s + sl_desc sl)) s (fun _ s' =>
    s' = with_mem s (s_mem s') /\ framel (s_mem s) (s_mem s') (gn_ranges s sl) /\
    forall v, has (s_mem s) (gn_addr s sl) (le_bytes 8 v) -> 0 <= v < 2 ^ 64 ->
      has (s_mem s') (gn_addr s sl) (le_bytes 8 (u64 (v + 1)))).
Proof.
  intros Hok Hsl. pose proof (so_curr _ _ Hok) as Hc. pose proof (section_range _ _ Hok _ Hc). pose proof (geom_bounds _ _ Hok).
  pose proof (so_data _ _ Hok) as Hd. unfold __ldms_gn_inc, gn_increment, gn_ranges, gn_addr.
  apply runs_bind, runs_gets. apply runs_bind, runs_gets. apply runs_on_mem, runs_bind.
  destruct (so_slots _ _ Hok _ _ Hsl) as [_ Hde].
  eapply (runs_ld_word 1); [apply Hde|apply (mo_flags _ (sl_mdef _ _ _ (lw_slots _ (so_wf _ _ Hok) _ _ Hsl)))|].
  change (flag (md_flags (sl_def sl)) LDMS_MDESC_F_DATA) with (is_data (sl_def sl)).
  assert (inside (s_mem s) (s_data s) 96) as Hin by (rewrite Hd; apply (section_inside _ _ Hok (s_curr_idx s)); lia).
  assert (inside (s_mem s) (s_meta s) 144) as Hin' by (apply (meta_inside _ _ Hok); lia).
  pose proof (so_bytes _ _ Hok) as Hb. unfold dh_gn, sh_meta_gn, dh_meta_gn.
  destruct (is_data (sl_def sl)).
  - apply runs_bind. eapply (runs_ldw_any 8 _ _ 8); [done|range|done|]. intros v Hv Hvr.
    eapply runs_stw'; [done|range|intros m1 H1 F1]. cbn [with_mem s_mem]. split_and!; [done| |].
    + eapply framel_of_frame; [exact F1|by left|lia..].
    + intros v' Hv' Hvr'. apply (has_inj _ _ _ _ Hv) in Hv'; [|by rewrite !length_le_bytes].
      apply (f_equal le_value) in Hv'. rewrite !le_value_bytes in Hv' by done. by subst v'.
  - apply runs_bind, runs_bind. eapply (runs_ldw_any 8 _ _ 8); [done|range|done|]. intros v Hv Hvr.
    eapply runs_stw'; [done|range|intros m1 H1 F1]. apply runs_bind.
    eapply (runs_ldw_any 8 _ _ 8); [done|in_range|by apply F1|]. intros v1 Hv1 Hv1r.
    eapply runs_stw'; [done|in_range|intros m2 H2 F2]. cbn [with_mem s_mem]. split_and!; [done| |].
    + eapply framel_trans; [eapply framel_of_frame; [exact F1|by left|lia..]|].
      eapply framel_of_frame; [exact F2|by right; left|lia..].
    + intros v' Hv' Hvr'. apply (has_inj _ _ _ _ Hv) in Hv'; [|by rewrite !length_le_bytes].
      apply (f_equal le_value) in Hv'. rewrite !le_value_bytes in Hv' by done. subst v'. from_before.
Qed.

(** The values are apart from the generation numbers. *)
Lemma value_gn_apart ly s i sl k q n :
  set_ok ly s -> ly_slots ly !! i = Some sl -> 0 <= k < ge_n (ly_geom ly) ->
  value_in (ly_geom ly) s k sl <= q -> 0 <= n -> q + n <= value_in (ly_geom ly) s k sl + slot_size (sl_def sl) ->
  forall sl', Forall (fun r => apart r.1 r.2 q n) (gn_ranges s sl').
Proof.
  intros Hok Hsl Hk ? ? ? sl'. pose proof (value_range _ _ Hok _ _ Hsl k Hk) as Hr. pose proof (geom_bounds _ _ Hok).
  pose proof (so_curr _ _ Hok) as Hc. pose proof (section_range _ _ Hok _ Hc). pose proof (section_range _ _ Hok _ Hk).
  pose proof (lw_vals _ (so_wf _ _ Hok)). pose proof (so_data _ _ Hok) as Hd.
  pose proof (sections_apart _ _ Hok k (s_curr_idx s)) as Hap.
  assert (apart (s_data s + dh_gn) 8 q n /\ apart (s_data s + dh_meta_gn) 8 q n /\ apart (s_meta s + sh_meta_gn) 8 q n) as (? & ? & ?).
  { unfold dh_gn, dh_meta_gn, sh_meta_gn, apart in *. rewrite Hd.
    destruct (is_data _); destruct (decide (k = s_curr_idx s)) as [->|]; lia. }
  unfold gn_ranges. destruct (is_data (sl_def sl')); rewrite ?Forall_cons, Forall_nil; done.
Qed.

(** A store into the slot of a metric, followed by the increment. *)
Lemma runs_store_inc ly s i sl q bs (store : M mem unit) :
  set_ok ly s -> ly_slots ly !! i = Some sl ->
  let v := value_in (ly_geom ly) s (s_curr_idx s) sl in
  v <= q -> q + zlen bs <= v + slot_size (sl_def sl) ->
  runs store (s_mem s) (fun _ m' => has m' q bs /\ frame (s_mem s) m' q (zlen bs)) ->
  runs (on_mem store;; __ldms_gn_inc (s_meta s + sl_desc sl)) s (fun _ s' =>
    stored s sl q bs s' /\ set_ok ly s' /\
    forall w, has (s_mem s) (gn_addr s sl) (le_bytes 8 w) -> 0 <= w < 2 ^ 64 ->
      has (s_mem s') (gn_addr s sl) (le_bytes 8 (u64 (w + 1)))).
Proof.
  intros Hok Hsl v Hlo Hhi Hst. pose proof (so_curr _ _ Hok) as Hc.
  apply runs_bind, runs_on_mem. eapply runs_mono; [exact Hst|]. intros [] m1 [Hq F1]. cbv beta.
  assert (framel (s_mem s) m1 [(q, zlen bs)]) as F1l by (eapply framel_of_frame; [exact F1|by left|lia..]).
  assert (set_ok ly (with_mem s m1)) as Hok1.
  { apply (set_ok_keep _ _ Hok _ _ F1l). rewrite Forall_singleton. cbn [fst snd].
    apply (value_writable _ _ Hok _ _ Hsl (s_curr_idx s)); [done|done|lia|done]. }
  change (s_meta s) with (s_meta (with_mem s m1)) at 1.
  eapply runs_mono; [by eapply runs_gn_inc|]. intros [] s2 (Heq & F2 & Hgn). cbn [with_mem s_mem] in *.
  change (gn_ranges (with_mem s m1) sl) with (gn_ranges s sl) in F2.
  change (gn_addr (with_mem s m1) sl) with (gn_addr s sl) in Hgn.
  pose proof (value_gn_apart _ _ _ _ (s_curr_idx s) q (zlen bs) Hok Hsl Hc Hlo ltac:(lia) Hhi sl) as Hap.
  split_and!.
  - constructor; [by rewrite Heq|by apply F2|].
    eapply framel_trans; [eapply framel_mono; [exact F1l|set_solver]|eapply framel_mono; [exact F2|set_solver]].
  - rewrite Heq. apply (set_ok_keep _ _ Hok1 _ _ F2), (gn_writable _ _ Hok1 sl).
  - intros w Hw Hwr. apply Hgn; [|done]. eapply frame_has; [exact F1|exact Hw|].
    revert Hap. unfold gn_addr, gn_ranges. rewrite zlen_le.
    destruct (is_data (sl_def sl)); rewrite ?Forall_cons; cbn [fst snd]; unfold apart; lia.
Qed.

Section store.
Context (ly : layout) (s : ldms_set) (i : nat) (sl : slot).
Context (Hok : set_ok ly s) (Hsl : ly_slots ly !! i = Some sl).
#[local] Abbreviation v := (value_in (ly_geom ly) s (s_curr_idx s) sl).

(** The effect of a setter: the value, the frame, and the generation number. *)
Definition set_post (q : Z) (bs : bytes) (s' : ldms_set) : Prop :=
  stored s sl q bs s' /\ set_ok ly s' /\
  forall w, has (s_mem s) (gn_addr s sl) (le_bytes 8 w) -> 0 <= w < 2 ^ 64 ->
    has (s_mem s') (gn_addr s sl) (le_bytes 8 (u64 (w + 1))).

Lemma runs_metric_store q bs (store : Z -> M mem unit) :
  v <= q -> q + zlen bs <= v + slot_size (sl_def sl) ->
  runs (store v) (s_mem s) (fun _ m' => has m' q bs /\ frame (s_mem s) m' q (zlen bs)) ->
  runs (metric_store (Z.of_nat i) store) s (fun _ => set_post q bs).
Proof.
  intros Hlo Hhi Hst. apply runs_bind, (runs_mval_to_set _ _ Hok _ _ Hsl).
  by apply (runs_store_inc _ _ _ _ _ _ _ Hok Hsl).
Qed.

(** A store of an integer at [p] in the slot. *)
Lemma runs_sti_value t p x :
  v <= p -> p + Z.of_nat (it_bytes t) <= v + slot_size (sl_def sl) ->
  runs (sti t p x) (s_mem s) (fun _ m' => has m' p (le_bytes (it_bytes t) x) /\
    frame (s_mem s) m' p (zlen (le_bytes (it_bytes t) x))).
Proof.
  intros. unfold sti. eapply runs_stw'; [done| |intros m' ? ?].
  - apply (value_inside _ _ Hok _ _ Hsl (s_curr_idx s)); [apply (so_curr _ _ Hok)|lia..].
  - by rewrite zlen_le.
Qed.

Lemma runs_metric_set_int t x :
  Z.of_nat (it_bytes t) <= slot_size (sl_def sl) ->
  runs (metric_store (Z.of_nat i) (fun mv => sti t mv x)) s (fun _ => set_post v (le_bytes (it_bytes t) x)).
Proof.
  intros. apply runs_metric_store; [lia|by rewrite zlen_le; lia|]. apply runs_sti_value; lia.
Qed.

Lemma runs_metric_get_int t x tf k :
  ity_ok t -> trans_flags s tf -> source (ly_geom ly) s tf sl = k ->
  has (s_mem s) (value_in (ly_geom ly) s k sl) (le_bytes (it_bytes t) x) ->
  runs (metric_load (Z.of_nat i) (ldi t)) s (fun r s' => r = wrap t x /\ s' = s).
Proof.
  intros Ht Htf <- Hx. apply runs_bind. eapply (runs_mval_to_get _ _ Hok _ _ Hsl); [exact Htf|].
  apply runs_on_mem_ld. eapply runs_ldi; [done|exact Hx|done].
Qed.

End store.
