(* ===== verification/SetBuild.v ===== *)
(** * Created sets are well-formed

    The bytes [write_set] leaves have the layout of the schema: a set made
    from them satisfies [set_ok], its values are zero, and its slots are those
    of the schema's metrics, in their order. *)

From stdpp Require Import prelude gmap strings.
From Stdlib Require Import Ascii String.
From S2P Require Import Prelude Bytes CStr Mem MemFrame CFloat MVal MValSpec Schema SchemaSpec Rrbt LdmsHeap.
From S2P Require Import HeapInit SetCreate SetOps SetLayout SetInit SetSpec SetMetric.

Open Scope Z_scope.

(** ** The slots of a schema *)

Fixpoint mk_slots (vd : Z) (l : list rentry) (offs : list Z) : list slot :=
  match l, offs with
  | e :: l, o :: offs => Slot (rentry_mdef e) vd o :: mk_slots (vd + md_meta_sz (rentry_mdef e)) l offs
  | _, _ => []
  end.

Lemma mk_slots_lookup vd l offs k sl :
  mk_slots vd l offs !! k = Some sl ->
  exists e o p, l !! k = Some e /\ offs !! k = Some o /\ desc_pos vd (rentry_mdef <$> l) !! k = Some p /\
    sl = Slot (rentry_mdef e) p o.
Proof.
  revert vd offs k. induction l as [|e l IH]; intros vd [|o offs] [|k] Hk; try done.
  - injection Hk as <-. by exists e, o, vd.
  - by apply IH in Hk.
Qed.

Lemma mk_slots_defs vd l offs :
  List.length offs = List.length l -> sl_def <$> mk_slots vd l offs = rentry_mdef <$> l.
Proof.
  revert vd offs. induction l as [|e l IH]; intros vd [|o offs] Hl; try done. injection Hl as Hl.
  cbn. by rewrite IH.
Qed.

Lemma length_mk_slots vd l offs : List.length offs = List.length l -> List.length (mk_slots vd l offs) = List.length l.
Proof. intros H. rewrite <- (length_fmap sl_def), mk_slots_defs by done. apply length_fmap. Qed.

(** Descriptors follow one another. *)
Lemma desc_pos_apart vd l i j p q a b :
  Forall mdef_ok l -> l !! i = Some a -> l !! j = Some b ->
  desc_pos vd l !! i = Some p -> desc_pos vd l !! j = Some q -> (i < j)%nat -> p + md_meta_sz a <= q.
Proof.
  intros Hok. revert vd i j. induction Hok as [|md l Hmd Hok IH]; intros vd i [|j] Ha Hb Hp Hq Hlt; try lia; [done|].
  destruct i as [|i].
  - injection Ha as ->. injection Hp as <-. destruct (desc_pos_range _ _ _ _ _ Hok Hb Hq). lia.
  - apply (IH (vd + md_meta_sz md) i j); try done. lia.
Qed.

(** Offsets that advance by at least the size of each value. *)
Definition step_ok (e : rentry) : Prop :=
  match e with
  | RRecArray md rec_type inst_sz =>
      is_data md = true /\ 0 <= rec_type < 2 ^ 32 /\ md_data_sz md <= vsize md + extra_size md /\
      sizeof_ldms_record_inst <= inst_sz /\
      sizeof_ldms_record_array + md_count md * inst_sz <= md_data_sz md < 2 ^ 31
  | _ => True
  end.

Lemma slot_size_nonneg e : entry_ok e -> step_ok e -> 0 <= slot_size (rentry_mdef e).
Proof.
  intros [Hm He] Hs. unfold slot_size. destruct e as [md|r|md ? ?]; cbn [rentry_mdef step_ok] in *.
  - destruct He as [H1 H2]. rewrite (proj2 (Z.eqb_neq _ _) H1), (proj2 (Z.eqb_neq _ _) H2). by apply vsize_nonneg.
  - destruct He as [Hr _]. rewrite (ro_type _ Hr). cbn. pose proof (record_size_nonneg _ Hr). lia.
  - rewrite He. cbn. pose proof (mo_count _ Hm). unfold sizeof_ldms_record_array, sizeof_ldms_record_inst in Hs. nia.
Qed.

Lemma data_step e off :
  entry_ok e -> step_ok e -> is_data (rentry_mdef e) = true ->
  off + slot_size (rentry_mdef e) <= next_off (rentry_mdef e) off.
Proof.
  intros [Hm He] Hs Hd. unfold next_off, slot_size. rewrite Hd. destruct e as [md|r|md ? ?]; cbn [rentry_mdef step_ok] in *.
  - destruct He as [H1 H2]. rewrite (proj2 (Z.eqb_neq _ _) H1), (proj2 (Z.eqb_neq _ _) H2). cbn [orb].
    unfold extra_size. rewrite (proj2 (Z.eqb_neq _ _) H2). lia.
  - destruct He as [_ He]. congruence.
  - rewrite He. cbn. lia.
Qed.

Lemma next_off_mono e off : entry_ok e -> step_ok e -> off <= next_off (rentry_mdef e) off.
Proof.
  intros He Hs. destruct (is_data (rentry_mdef e)) eqn:Hd.
  - pose proof (data_step e off He Hs Hd). pose proof (slot_size_nonneg e He Hs). lia.
  - unfold next_off. rewrite Hd. unfold extra_size. destruct (_ =? _); [|lia].
    pose proof (wrapu_range 64 (md_count (rentry_mdef e) * md_data_sz (rentry_mdef e))). lia.
Qed.

Lemma meta_slot_size e : entry_ok e -> step_ok e -> is_data (rentry_mdef e) = false ->
  slot_size (rentry_mdef e) = meta_size (rentry_mdef e).
Proof.
  intros [Hm He] Hs Hd. unfold slot_size, meta_size. rewrite Hd. destruct e as [md|r|md ? ?]; cbn [rentry_mdef step_ok] in *.
  - destruct He as [H1 H2]. by rewrite (proj2 (Z.eqb_neq _ _) H1), (proj2 (Z.eqb_neq _ _) H2).
  - destruct He as [Hr _]. by rewrite (ro_type _ Hr).
  - destruct Hs. congruence.
Qed.

Lemma data_offs_ge l off k o :
  Forall entry_ok l -> Forall step_ok l -> data_offs off (rentry_mdef <$> l) !! k = Some o -> off <= o.
Proof.
  intros Hok. revert off k. induction Hok as [|e l He Hok IH]; intros off [|k] Hst Hk; try done.
  - injection Hk as <-. lia.
  - apply Forall_cons in Hst as [Hs Hst]. pose proof (next_off_mono e off He Hs). specialize (IH _ _ Hst Hk). lia.
Qed.

Lemma meta_offs_ge l off k o : Forall entry_ok l -> meta_offs off (rentry_mdef <$> l) !! k = Some o -> off <= o.
Proof.
  intros Hok. revert off k. induction Hok as [|e l He Hok IH]; intros off [|k] Hk; try done.
  - injection Hk as <-. lia.
  - pose proof (meta_size_nonneg e He). specialize (IH _ _ Hk). lia.
Qed.

Lemma data_offs_apart l off i j a b o p :
  Forall entry_ok l -> Forall step_ok l -> l !! i = Some a -> l !! j = Some b ->
  data_offs off (rentry_mdef <$> l) !! i = Some o -> data_offs off (rentry_mdef <$> l) !! j = Some p ->
  (i < j)%nat -> is_data (rentry_mdef a) = true -> o + slot_size (rentry_mdef a) <= p.
Proof.
  intros Hok. revert off i j. induction Hok as [|e l He Hok IH]; intros off i [|j] Hst Ha Hb Ho Hp Hlt Hd; try lia; [done|].
  apply Forall_cons in Hst as [Hs Hst]. destruct i as [|i].
  - injection Ha as ->. injection Ho as <-. pose proof (data_step a off He Hs Hd).
    pose proof (data_offs_ge _ _ _ _ Hok Hst Hp). lia.
  - eapply (IH (next_off (rentry_mdef e) off) i j); try done. lia.
Qed.

Lemma meta_offs_apart l off i j a b o p :
  Forall entry_ok l -> l !! i = Some a -> l !! j = Some b ->
  meta_offs off (rentry_mdef <$> l) !! i = Some o -> meta_offs off (rentry_mdef <$> l) !! j = Some p ->
  (i < j)%nat -> o + meta_size (rentry_mdef a) <= p.
Proof.
  intros Hok. revert off i j. induction Hok as [|e l He Hok IH]; intros off i [|j] Ha Hb Ho Hp Hlt; try lia; [done|].
  destruct i as [|i].
  - injection Ha as ->. injection Ho as <-. pose proof (meta_offs_ge _ _ _ _ Hok Hp). lia.
  - eapply (IH (off + meta_size (rentry_mdef e)) i j); try done. lia.
Qed.

Lemma meta_offs_hi l off k e o :
  Forall entry_ok l -> l !! k = Some e -> meta_offs off (rentry_mdef <$> l) !! k = Some o ->
  o + meta_size (rentry_mdef e) <= off + meta_total (rentry_mdef <$> l).
Proof.
  intros Hok. revert off k. induction Hok as [|e' l He Hok IH]; intros off [|k] Hk Ho; try done.
  - injection Hk as ->. injection Ho as <-. rewrite fmap_cons, meta_total_cons. pose proof (meta_total_nonneg _ Hok). lia.
  - rewrite fmap_cons, meta_total_cons. specialize (IH _ _ Hk Ho). lia.
Qed.

Lemma length_meta_offs off l : List.length (meta_offs off l) = List.length l.
Proof. revert off. induction l as [|md l IH]; intros off; simpl; [done|]. by rewrite IH. Qed.

Lemma desc_pos_shift d vd l : desc_pos (d + vd) l = (Z.add d) <$> desc_pos vd l.
Proof.
  revert vd. induction l as [|md l IH]; intros vd; [done|]. cbn. f_equal.
  rewrite <- IH. f_equal. lia.
Qed.

(** ** The layout *)

(** The data metrics end before the heap. *)
Definition data_fits (x : ldms_schema) (l : list rentry) : Prop :=
  forall k e o, l !! k = Some e -> is_data (rentry_mdef e) = true ->
    data_offs sizeof_ldms_data_hdr (rentry_mdef <$> l) !! k = Some o ->
    o + slot_size (rentry_mdef e) <= sc_data_sz x.

Definition schema_layout (name : string) (x : ldms_schema) (l : list rentry) (sz : set_sizes) : layout :=
  Layout (schema_geom x sz) (first_value (sc_card x) name (sc_name x) l)
    (mk_slots (first_desc (sc_card x) name (sc_name x)) l (value_offs (sc_card x) name (sc_name x) l)).

Section build.
Context (name : string) (x : ldms_schema) (l : list rentry) (sz : set_sizes).
Context (Hlay : layout_ok name x l sz) (Hst : Forall step_ok l) (Hfit : data_fits x l).
#[local] Abbreviation ly := (schema_layout name x l sz).

Lemma length_value_offs : List.length (value_offs (sc_card x) name (sc_name x) l) = List.length l.
Proof.
  unfold value_offs. apply length_final_offs; [rewrite length_data_offs|rewrite length_meta_offs]; apply length_fmap.
Qed.

(** A slot of the layout, with its entry. *)
Lemma layout_slot k sl :
  ly_slots ly !! k = Some sl ->
  exists e p o mo, l !! k = Some e /\ entry_ok e /\ step_ok e /\ sl = Slot (rentry_mdef e) p (if is_data (rentry_mdef e) then o else mo) /\
    (rentry_mdef <$> l) !! k = Some (rentry_mdef e) /\
    desc_pos (first_desc (sc_card x) name (sc_name x)) (rentry_mdef <$> l) !! k = Some p /\
    data_offs sizeof_ldms_data_hdr (rentry_mdef <$> l) !! k = Some o /\
    meta_offs (first_value (sc_card x) name (sc_name x) l) (rentry_mdef <$> l) !! k = Some mo.
Proof.
  intros (e & o & p & He & Ho & Hp & ->)%mk_slots_lookup. pose proof (lookup_lt_Some _ _ _ He) as Hlt.
  destruct (lookup_lt_is_Some_2 (data_offs sizeof_ldms_data_hdr (rentry_mdef <$> l)) k) as [o1 Ho1].
  { by rewrite length_data_offs, length_fmap. }
  destruct (lookup_lt_is_Some_2 (meta_offs (first_value (sc_card x) name (sc_name x) l) (rentry_mdef <$> l)) k) as [o2 Ho2].
  { by rewrite length_meta_offs, length_fmap. }
  unfold value_offs in Ho. rewrite (final_offs_lookup _ _ _ _ _ _ _ He Ho1 Ho2) in Ho. injection Ho as <-.
  pose proof (proj1 (Forall_lookup _ _) (lo_entries _ _ _ _ Hlay) _ _ He).
  pose proof (proj1 (Forall_lookup _ _) Hst _ _ He).
  exists e, p, o1, o2. split_and!; try done. by rewrite list_lookup_fmap, He.
Qed.

Lemma schema_layout_wf : layout_wf ly.
Proof.
  destruct (layout_bounds _ _ _ _ Hlay) as (Hcl & Hnames & Hdt & Hmt & Hfv & Hmf & Had & Htot & Hdsz & Hhsz).
  pose proof Hlay as [Hc He Hi Hs _ [Hdata Hd8] [Hh Hh5] Hn Ha Ht Hm Hf].
  pose proof (entries_mdefs _ He) as Hmd.
  constructor; cbn [schema_layout ly_geom ly_vals ly_slots schema_geom ge_card ge_meta_sz ge_data_sz ge_heap_sz ge_n ge_vsz]; try done.
  - by rewrite length_mk_slots by apply length_value_offs.
  - unfold ge_vsz. cbn. lia.
  - lia.
  - lia.
  - intros k sl (e & p & o & mo & Hk & Hek & Hsk & -> & Hmk & Hp & Ho & Hmo)%layout_slot.
    destruct (desc_pos_range _ _ _ _ _ Hmd Hmk Hp) as [Hlo Hhi]. pose proof (mo_room _ (proj1 Hek)).
    constructor; unfold ge_vsz; cbn [sl_def sl_desc sl_off schema_geom ge_card ge_meta_sz ge_data_sz ge_heap_sz];
      [apply Hek|by apply slot_size_nonneg|unfold sh_dict; lia|lia|].
    destruct (is_data (rentry_mdef e)) eqn:Hd.
    + pose proof (data_offs_ge _ _ _ _ He Hst Ho). pose proof (Hfit _ _ _ Hk Hd Ho). lia.
    + pose proof (meta_offs_ge _ _ _ _ He Hmo). pose proof (meta_offs_hi _ _ _ _ _ He Hk Hmo).
      rewrite meta_slot_size by done. lia.
  - intros i j a b (e & p & o & mo & Hk & Hek & Hsk & -> & Hmk & Hp & Ho & Hmo)%layout_slot
      (e' & p' & o' & mo' & Hk' & Hek' & Hsk' & -> & Hmk' & Hp' & Ho' & Hmo')%layout_slot Hne Hdd.
    cbn [sl_def sl_off] in *. rewrite <- Hdd. unfold apart.
    destruct (is_data (rentry_mdef e)) eqn:Hd; destruct (decide (i < j)%nat).
    + left. by eapply (data_offs_apart l _ i j e e').
    + right. eapply (data_offs_apart l _ j i e' e); done || lia.
    + left. rewrite meta_slot_size by done. by eapply (meta_offs_apart l _ i j e e').
    + right. rewrite meta_slot_size by done. eapply (meta_offs_apart l _ j i e' e); done || lia.
  - intros i j a b (e & p & o & mo & Hk & Hek & Hsk & -> & Hmk & Hp & Ho & Hmo)%layout_slot
      (e' & p' & o' & mo' & Hk' & Hek' & Hsk' & -> & Hmk' & Hp' & Ho' & Hmo')%layout_slot Hne.
    cbn [sl_def sl_desc] in *. unfold apart. pose proof (mo_room _ (proj1 Hek)). pose proof (mo_room _ (proj1 Hek')).
    destruct (decide (i < j)%nat).
    + left. pose proof (desc_pos_apart _ _ _ _ _ _ _ _ Hmd Hmk Hmk' Hp Hp'). lia.
    + right. pose proof (desc_pos_apart _ _ _ _ _ _ _ _ Hmd Hmk' Hmk Hp' Hp). lia.
Qed.

(** A handle of the written set. *)
Lemma written_set_ok m uid gid perm s :
  block m (sz_meta sz + sz_array_data sz) -> set_written m (base m) name x l sz uid gid perm ->
  s_mem s = m -> s_meta s = base m -> s_data_array s = base m + sz_meta sz ->
  0 <= s_curr_idx s < sz_array_card sz ->
  s_data s = s_data_array s + s_curr_idx s * (sc_data_sz x + sz_heap sz) ->
  s_heap s = (if sz_heap sz =? 0 then None else Some (Heap (s_data s + dh_heap) (s_data s + sc_data_sz x))) ->
  set_ok ly s.
Proof.
  intros [Hbok Hsize Hpos Hal Hend] Hw Hm Hmeta Harr Hcurr Hdata Hheap.
  pose proof (lo_array _ _ _ _ Hlay) as Ha.
  constructor; cbn [schema_layout ly_geom ly_slots schema_geom ge_card ge_meta_sz ge_data_sz ge_heap_sz ge_n];
    rewrite ?Hm, ?Hmeta; try done; [apply schema_layout_wf|rewrite Hsize, Ha; lia|apply Hw| | |].
  - intros k Hk. unfold section. cbn [schema_geom ge_data_sz]. rewrite Harr.
    destruct (sw_sections _ _ _ _ _ _ _ _ _ Hw k Hk) as ((D1 & D2 & D3 & D4 & D5) & _ & Hh & _).
    unfold section_ok, ge_vsz. cbn [schema_geom ge_data_sz ge_heap_sz].
    replace (sc_data_sz x + sz_heap sz - sz_heap sz) with (sc_data_sz x) by lia. split_and!; [done|done| |].
    + destruct (Z.eqb_spec (sz_heap sz) 0) as [->|Hne]; [|apply Hh].
      exact (has_zeros _ _ 40 8 8 Hh ltac:(lia) ltac:(lia) ltac:(lia)).
    + intros Hne. rewrite (proj2 (Z.eqb_neq _ _) Hne) in Hh. apply Hh.
  - rewrite Hheap. unfold ge_vsz. cbn. destruct (sz_heap sz =? 0); [done|]. do 3 f_equal. lia.
  - intros i sl (e & o & p & He & Ho & Hp & ->)%mk_slots_lookup.
    pose proof (sw_descs _ _ _ _ _ _ _ _ _ Hw) as Hd. specialize (Hd i e (base m + p) o He).
    rewrite desc_pos_shift, list_lookup_fmap, Hp in Hd. specialize (Hd eq_refl Ho) as [Hd1 Hd2].
    unfold slot_at. cbn [sl_desc sl_def sl_off]. rewrite Z.add_0_l in Hd1.
    replace (base m + p - base m) with p in Hd1 by lia. done.
Qed.

End build.

(** ** Record arrays *)

Definition rec_inst_at (m : mem) (dh inst rec_type : Z) : Prop :=
  has m inst (le_bytes 4 LDMS_RECORD_F_INST) /\ has m (inst + ri_set_data_off) (le_bytes 4 (inst - dh)) /\
  has m (inst + ri_rec_type) (le_bytes 4 rec_type).

(** The record array at [ra], with [k] instances initialised. *)
Definition rec_array_at (m : mem) (dh ra count rec_type inst_sz k : Z) : Prop :=
  has m (ra + ra_array_len) (le_bytes 4 count) /\ has m (ra + ra_inst_sz) (le_bytes 4 inst_sz) /\
  has m (ra + ra_rec_type) (le_bytes 4 rec_type) /\
  forall j, 0 <= j < k -> rec_inst_at m dh (ra + ra_data + j * inst_sz) rec_type.

Ltac rfields := unfold ra_array_len, ra_inst_sz, ra_rec_type, ra_data, ri_rec_type, ri_set_data_off in *.

Lemma rec_array_at_keep m m' dh ra count rec_type inst_sz k :
  sizeof_ldms_record_inst <= inst_sz -> 0 <= k ->
  (forall q bs, has m q bs -> ra <= q -> q + zlen bs <= ra + 12 + k * inst_sz -> has m' q bs) ->
  rec_array_at m dh ra count rec_type inst_sz k -> rec_array_at m' dh ra count rec_type inst_sz k.
Proof.
  unfold sizeof_ldms_record_inst. intros Hi Hk0 Hk (H1 & H2 & H3 & H4). unfold rec_array_at, rec_inst_at in *. rfields.
  assert (0 <= k * inst_sz) by nia. split_and!; [apply Hk; [done|range..]..|].
  intros j Hj. destruct (H4 j Hj) as (A1 & A2 & A3). assert (0 <= j * inst_sz /\ j * inst_sz + inst_sz <= k * inst_sz) by nia.
  split_and!; (apply Hk; [done|range..]).
Qed.

Lemma runs_init_rec_array m dh ra count rec_type inst_sz :
  sizeof_ldms_record_inst <= inst_sz -> 0 <= count -> 0 <= rec_type < 2 ^ 32 ->
  sizeof_ldms_record_array + count * inst_sz < 2 ^ 31 ->
  inside m ra (sizeof_ldms_record_array + count * inst_sz) ->
  runs (init_rec_array dh ra count rec_type inst_sz) m (fun _ m' =>
    rec_array_at m' dh ra count rec_type inst_sz count /\
    frame m m' ra (sizeof_ldms_record_array + count * inst_sz)).
Proof.
  unfold sizeof_ldms_record_array, init_rec_array. intros Hi Hc Hrt Hlt Hin. pose proof Hi as Hi'. unfold sizeof_ldms_record_inst in Hi.
  assert (0 <= count * inst_sz) by nia.
  st_step m1 H1 F1; [rfields; in_range|]. st_step m2 H2 F2; [rfields; in_range|]. st_step m3 H3 F3; [rfields; in_range|].
  apply (runs_for_up (fun j m4 => rec_array_at m4 dh ra count rec_type inst_sz j /\
    frame m m4 ra (12 + j * inst_sz) /\ frame m3 m4 (ra + 12) (j * inst_sz))).
  - rfields. split_and!; [|frames|apply frame_refl]. unfold rec_array_at. rfields. split_and!; try from_before. lia.
  - intros j m4 Hj (Hra & F & F'). rewrite Z2Nat.id in Hj by lia.
    assert (0 <= j * inst_sz /\ j * inst_sz + inst_sz <= count * inst_sz) as [? ?] by nia.
    rewrite s32_small by lia. pose proof Hra as (A1 & A2 & A3 & A4). ld_step 4%nat.
    assert (inside m4 ra (12 + count * inst_sz)) as Hin4 by in_range.
    st_step m5 H5 F5; [rfields; range|]. st_step m6 H6 F6; [rfields; in_range|].
    eapply runs_stw'; [done|rfields; in_range|intros m7 H7 F7].
    assert (frame m4 m7 (ra + 12 + j * inst_sz) inst_sz) as F47 by (rfields; frames).
    split_and!.
    + split_and!; [rfields; from_before..|]. intros i Hi0. destruct (decide (i = j)) as [->|Hne].
      * unfold rec_inst_at. rfields. split_and!; from_before.
      * destruct (A4 i ltac:(lia)) as (B1 & B2 & B3).
        assert (0 <= i * inst_sz /\ i * inst_sz + inst_sz <= j * inst_sz) by nia. unfold rec_inst_at. rfields. split_and!; from_before.
    + eapply frame_trans; [eapply frame_sub; [exact F|lia|nia]|eapply frame_sub; [exact F47|lia|nia]].
    + eapply frame_trans; [eapply frame_sub; [exact F'|lia|nia]|eapply frame_sub; [exact F47|lia|nia]].
  - intros m4 (Hra & F & _). rewrite Z2Nat.id in * by lia. done.
Qed.

(** Only record arrays changed. *)
Definition rec_arrays_only (ly : layout) (s : ldms_set) (m m' : mem) : Prop :=
  forall q bs, has m q bs ->
    (forall i sl k, ly_slots ly !! i = Some sl -> md_type (sl_def sl) = code LDMS_V_RECORD_ARRAY ->
       0 <= k < ge_n (ly_geom ly) ->
       apart (value_in (ly_geom ly) s k sl) (slot_size (sl_def sl)) q (zlen bs)) ->
    has m' q bs.

Section rec_arrays.
Context (name : string) (x : ldms_schema) (l : list rentry) (sz : set_sizes).
Context (Hlay : layout_ok name x l sz) (Hst : Forall step_ok l).
Context (s : ldms_set).
#[local] Abbreviation ly := (schema_layout name x l sz).
#[local] Abbreviation g := (ly_geom (schema_layout name x l sz)).

Lemma layout_lookup idx e :
  l !! idx = Some e -> exists sl, ly_slots ly !! idx = Some sl /\ sl_def sl = rentry_mdef e.
Proof.
  intros He. pose proof (lookup_lt_Some _ _ _ He) as Hlt.
  destruct (lookup_lt_is_Some_2 (ly_slots ly) idx) as [sl Hsl].
  { cbn. by rewrite length_mk_slots by apply length_value_offs. }
  exists sl. split; [done|]. apply mk_slots_lookup in Hsl as (e' & o & p & He' & _ & _ & ->). rewrite He in He'. by injection He' as <-.
Qed.

(** One record array, in the sections [0], ..., [ac - 1]. *)
Lemma runs_init_rec_sections m idx md rec_type inst_sz sl ac :
  set_ok ly (with_mem s m) -> ly_slots ly !! idx = Some sl -> sl_def sl = md ->
  md_type md = code LDMS_V_RECORD_ARRAY -> step_ok (RRecArray md rec_type inst_sz) -> ac <= ge_n g ->
  runs (for_up (Z.to_nat ac) 0 (fun i =>
          dh ← __set_array_get (s_data_array s) (s_meta s) i;
          voff ← ldw 4 (s_meta s + sl_desc sl + vd_data_offset);
          init_rec_array dh (dh + voff) (md_count md) rec_type inst_sz)) m (fun _ m' =>
    set_ok ly (with_mem s m') /\ rec_arrays_only ly s m m').
Proof.
  intros Hok Hsl <- Ht (Hd & Hrt & Hsz & Hisz & Hlo & Hhi) Hac.
  assert (slot_size (sl_def sl) = md_data_sz (sl_def sl)) as Hss by (unfold slot_size; by rewrite Ht).
  apply (runs_for_up (fun _ m1 => set_ok ly (with_mem s m1) /\ rec_arrays_only ly s m m1)); [by split; [|intros ? ?]| |by intros m1].
  intros i m1 Hi [Hok1 Hra]. assert (0 <= i < ge_n g) as Hig by lia.
  pose proof (geom_bounds _ _ Hok1). pose proof (slot_bounds _ _ Hok1 _ _ Hsl).
  pose proof (mo_count _ (sl_mdef _ _ _ (lw_slots _ (so_wf _ _ Hok1) _ _ Hsl))) as Hcnt.
  destruct (so_slots _ _ Hok1 _ _ Hsl) as [_ Hde].
  unfold __set_array_get. apply runs_bind, runs_bind. eapply (runs_ld_word 4); [apply (so_header _ _ Hok1)|lia|]. apply runs_ret.
  apply runs_bind. eapply (runs_ld_word 4); [apply Hde|lia|].
  set (ra := s_data_array s + i * ge_data_sz g + sl_off sl).
  assert (value_in g (with_mem s m1) i sl = ra) as Hv by (unfold value_in; by rewrite Hd).
  assert (value_in g s i sl = ra) as Hv0 by (unfold value_in; by rewrite Hd).
  eapply runs_mono; [apply runs_init_rec_array; [done|lia|done|lia|]|].
  { apply (value_inside _ _ Hok1 _ _ Hsl i); [done|lia|unfold sizeof_ldms_record_array, sizeof_ldms_record_inst in *; nia|lia]. }
  intros [] m2 [_ F]. assert (framel m1 m2 [(ra, slot_size (sl_def sl))]) as Fl.
  { eapply framel_of_frame; [exact F|by left|lia..]. }
  split.
  - change (with_mem s m2) with (with_mem (with_mem s m1) m2). apply (set_ok_keep _ _ Hok1 _ _ Fl).
    rewrite Forall_singleton. cbn [fst snd]. apply (value_writable _ _ Hok1 _ _ Hsl i); [done|lia|lia|lia].
  - intros q bs Hq Hap. apply Fl; [by apply Hra|]. rewrite Forall_singleton. cbn [fst snd].
    rewrite <- Hv0. by eapply Hap.
Qed.

Lemma runs_init_rec_arrays ac l' idx m :
  set_ok ly (with_mem s m) -> drop idx l = l' -> ac <= ge_n g ->
  runs (__init_rec_array (s_data_array s) (s_meta s) ac l' (Z.of_nat idx)) m (fun _ m' =>
    set_ok ly (with_mem s m') /\ rec_arrays_only ly s m m').
Proof.
  revert idx m. induction l' as [|e l' IH]; intros idx m Hok Hdrop Hac; cbn [__init_rec_array].
  { apply runs_ret. split; [done|by intros ? ?]. }
  assert (l !! idx = Some e) as He by (rewrite <- (Nat.add_0_r idx), <- lookup_drop, Hdrop; done).
  assert (drop (S idx) l = l') as Hdrop' by (rewrite <- Nat.add_1_r, <- drop_drop, Hdrop; done).
  destruct (layout_lookup _ _ He) as (sl & Hsl & Hdef).
  pose proof (proj1 (Forall_lookup _ _) (lo_entries _ _ _ _ Hlay) _ _ He) as [Hmd Hek].
  pose proof (proj1 (Forall_lookup _ _) Hst _ _ He) as Hsk.
  apply runs_bind. eapply (runs_mono _ _ (fun _ m' => set_ok ly (with_mem s m') /\ rec_arrays_only ly s m m')).
  { destruct (Z.eqb_spec (md_type (rentry_mdef e)) (code LDMS_V_RECORD_ARRAY)) as [Ht|Ht]; cbn [negb];
      [|by apply runs_ret; split; [|intros ? ?]].
    destruct e as [md|r|md rt isz]; cbn [rentry_mdef] in *; [naive_solver| |].
    { destruct Hek as [Hr _]. by rewrite (ro_type _ Hr) in Ht. }
    pose proof (slot_bounds _ _ Hok _ _ Hsl). pose proof (geom_bounds _ _ Hok). pose proof (desc_len_pos (sl_def sl)).
    destruct (so_slots _ _ Hok _ _ Hsl) as [Hdict Hde]. apply runs_bind. eapply (runs_ld_word 4); [exact Hdict|lia|].
    apply runs_bind. eapply (runs_ld_word 1); [apply Hde|rewrite Hdef; by apply mdef_ok_type|].
    apply runs_bind, runs_assert; [rewrite Hdef; by apply Z.eqb_eq|].
    by apply (runs_init_rec_sections m idx md). }
  intros [] m1 [Hok1 Hra1]. replace (Z.of_nat idx + 1) with (Z.of_nat (S idx)) by lia.
  eapply runs_mono; [by apply IH|]. intros [] m2 [Hok2 Hra2]. split; [done|].
  intros q bs Hq Hap. apply Hra2; [by apply Hra1|done].
Qed.

End rec_arrays.
