(* ===== verification/SetTrans.v ===== *)
(** * Transactions

    A transaction moves the set to the next data section of the ring; readers
    see the section before it until the transaction ends. *)

From stdpp Require Import prelude gmap strings.
From Stdlib Require Import Ascii String.
From S2P Require Import Prelude Bytes CStr Mem MemFrame CFloat MVal MValSpec Schema SchemaSpec Rrbt LdmsHeap.
From S2P Require Import HeapInit SetCreate SetOps SetLayout SetInit SetSpec SetMetric.

Open Scope Z_scope.

(** The next section of a ring of [n]. *)
Definition next_idx (g : geom) (s : ldms_set) : Z := (s_curr_idx s + 1) mod ge_n g.

(** The words that hold the current index. *)
Definition curr_ranges (g : geom) (s : ldms_set) : list (Z * Z) :=
  (fun k => (section g s k + dh_curr_idx, 4)) <$> seqZ 0 (ge_n g).

Lemma elem_of_curr_ranges g s k : 0 <= k < ge_n g -> (section g s k + dh_curr_idx, 4) ∈ curr_ranges g s.
Proof. intros. apply list_elem_of_fmap. exists k. split; [done|]. apply elem_of_seqZ. lia. Qed.

Lemma curr_ranges_inv g s r : r ∈ curr_ranges g s -> exists k, 0 <= k < ge_n g /\ r = (section g s k + dh_curr_idx, 4).
Proof. intros (k & -> & Hk%elem_of_seqZ)%list_elem_of_fmap. exists k. split; [lia|done]. Qed.

(** The set after the switch to the next section. *)
Record switched (ly : layout) (s s' : ldms_set) : Prop := Switched {
  sx_ok : set_ok ly s';
  sx_curr : s_curr_idx s' = next_idx (ly_geom ly) s;
  sx_meta : s_meta s' = s_meta s;
  sx_array : s_data_array s' = s_data_array s;
  sx_flags : s_flags s' = s_flags s;
  sx_pushes : s_pushes s' = s_pushes s;
  sx_frame : framel (s_mem s) (s_mem s')
    ((section (ly_geom ly) s (next_idx (ly_geom ly) s), ge_data_sz (ly_geom ly)) :: curr_ranges (ly_geom ly) s);
  sx_copy off bs : flag (s_flags s) LDMS_SET_F_DATA_COPY = true ->
    has (s_mem s) (section (ly_geom ly) s (s_curr_idx s) + off) bs ->
    sizeof_ldms_data_hdr <= off -> off + zlen bs <= ge_data_sz (ly_geom ly) ->
    has (s_mem s') (section (ly_geom ly) s (next_idx (ly_geom ly) s) + off) bs;
  sx_index k : 0 <= k < ge_n (ly_geom ly) ->
    has (s_mem s') (section (ly_geom ly) s k + dh_curr_idx) (le_bytes 4 (next_idx (ly_geom ly) s))
}.

Lemma le_bytes_mod w v : le_bytes w (v mod 256 ^ Z.of_nat w) = le_bytes w v.
Proof.
  rewrite <- le_value_bytes_mod. rewrite <- (length_le_bytes w v) at 1. apply le_bytes_value, bytes_ok_le.
Qed.

Lemma le_bytes_u32 v : le_bytes 4 (u32 v) = le_bytes 4 v.
Proof. apply (le_bytes_mod 4). Qed.

Section trans.
Context (ly : layout) (s : ldms_set) (Hok : set_ok ly s).
#[local] Abbreviation g := (ly_geom ly).
#[local] Abbreviation k' := (next_idx (ly_geom ly) s).

Lemma next_idx_range : 0 <= k' < ge_n g.
Proof. pose proof (geom_bounds _ _ Hok). apply Z.mod_pos_bound. lia. Qed.

Lemma next_idx_ne : ge_n g <> 1 -> k' <> s_curr_idx s.
Proof.
  intros Hn E. pose proof (geom_bounds _ _ Hok). pose proof (so_curr _ _ Hok). unfold next_idx in E.
  destruct (decide (s_curr_idx s + 1 = ge_n g)) as [Heq|].
  - rewrite Heq, Z.mod_same in E by lia. lia.
  - rewrite Z.mod_small in E by lia. lia.
Qed.

(** A write of a whole section that restores what [section_ok] says. *)
Lemma set_ok_section k m' :
  0 <= k < ge_n g -> frame (s_mem s) m' (section g s k) (ge_data_sz g) ->
  section_ok m' (s_meta s) (section g s k) g -> set_ok ly (with_mem s m').
Proof.
  intros Hk F Hsec'. pose proof (section_range _ _ Hok k Hk) as Hr. pose proof (geom_bounds _ _ Hok) as Hgb.
  pose proof (lw_vals _ (so_wf _ _ Hok)).
  assert (forall q bs, has (s_mem s) q bs -> q + zlen bs <= s_meta s + ge_meta_sz g -> has m' q bs) as Hmeta.
  { intros q bs Hq ?. apply F; [done|]. unfold apart. lia. }
  pose proof (sections_apart _ _ Hok k) as Hsa. pose proof (slot_bounds _ _ Hok) as Hsb.
  destruct Hok as [Hwf Hb Hpos Hm Hsz (H1 & H2 & H3 & H4 & H5) Ha Hc Hd Hsec Hheap Hsl].
  constructor; cbn [with_mem s_mem s_meta s_data_array s_curr_idx s_data s_heap] in *;
    [done|by apply F|by rewrite (fr_base _ _ _ _ F)|by rewrite (fr_base _ _ _ _ F)|by rewrite (fr_size _ _ _ _ F)| |done..| |done|].
  - unfold header_at. fields. split_and!; (apply Hmeta; [done|range]).
  - intros j Hj. destruct (decide (j = k)) as [->|Hne]; [done|]. destruct (Hsec j Hj) as (A1 & A2 & A3 & A4).
    change (section g (with_mem s m') j) with (section g s j). unfold section_ok. dfields.
    specialize (Hsa j ltac:(lia) ltac:(lia) ltac:(lia)). pose proof (lw_heap5 _ Hwf).
    split_and!; [from_before..|]. intros Hne0. specialize (A4 Hne0).
    assert (512 <= ge_heap_sz g) by dlia. from_before.
  - intros i sl Hi. destruct (Hsl i sl Hi) as [A1 A2]. specialize (Hsb i sl Hi). fields.
    pose proof (lookup_lt_Some _ _ _ Hi). pose proof (lw_slots _ Hwf _ _ Hi) as Hs. destruct Hs. fields.
    pose proof (desc_len_pos (sl_def sl)).
    split; [apply Hmeta; [done|fields; range]|]. eapply desc_at_keep; [|exact A2]. intros q bs Hq ? ?. apply Hmeta; [done|lia].
Qed.

(** The copy of the previous section, or of its header, over the next one. *)
Lemma runs_copy_section full :
  ge_n g <> 1 ->
  runs ((if (full : bool) then memcpy (section g s k') (section g s (s_curr_idx s)) (ge_data_sz g)
         else memcpy (section g s k') (section g s (s_curr_idx s)) sizeof_ldms_data_hdr);;
        stw 4 (section g s k' + dh_set_off) (section g s k' - s_meta s)) (s_mem s) (fun _ m' =>
    frame (s_mem s) m' (section g s k') (ge_data_sz g) /\ section_ok m' (s_meta s) (section g s k') g /\
    (forall off bs, full = true -> has (s_mem s) (section g s (s_curr_idx s) + off) bs ->
       sizeof_ldms_data_hdr <= off -> off + zlen bs <= ge_data_sz g -> has m' (section g s k' + off) bs) /\
    (forall off bs, full = false -> has (s_mem s) (section g s k' + off) bs ->
       sizeof_ldms_data_hdr <= off -> has m' (section g s k' + off) bs)).
Proof.
  intros Hn. pose proof next_idx_range as Hk. pose proof (next_idx_ne Hn) as Hne. pose proof (so_curr _ _ Hok) as Hc.
  pose proof (section_range _ _ Hok _ Hk) as Hr. pose proof (section_range _ _ Hok _ Hc) as Hr'.
  pose proof (geom_bounds _ _ Hok) as Hgb. pose proof (so_bytes _ _ Hok) as Hb.
  pose proof (sections_apart _ _ Hok k' (s_curr_idx s) ltac:(lia) ltac:(lia) Hne) as Hap.
  destruct (so_sections _ _ Hok _ Hk) as (A1 & A2 & A3 & A4). destruct (so_sections _ _ Hok _ Hc) as (B1 & B2 & B3 & B4).
  pose proof (lw_heap5 _ (so_wf _ _ Hok)) as H5. set (q := section g s k') in *. set (p := section g s (s_curr_idx s)) in *.
  assert (inside (s_mem s) q (ge_data_sz g)) as Hiq by (apply (section_inside _ _ Hok k'); subst q; lia).
  assert (inside (s_mem s) p (ge_data_sz g)) as Hip by (apply (section_inside _ _ Hok (s_curr_idx s)); subst p; lia).
  assert (ge_heap_sz g <> 0 -> 512 <= ge_heap_sz g) as Hh5 by dlia. unfold section_ok, sizeof_ldms_data_hdr in *. dfields.
  apply runs_bind. destruct full; (eapply runs_memcpy; [range|range|done|intros m1 Hcp F1]).
  - eapply runs_stw'; [done|in_range|intros m2 H2 F2].
    pose proof (Hcp _ _ B1 ltac:(lia) ltac:(range)) as C1. rewrite <- Z.add_assoc in B3. pose proof (Hcp _ _ B3 ltac:(lia) ltac:(range)) as C3.
    rewrite Z.add_assoc in C3. split; [eapply frame_trans; [eapply frame_sub; [exact F1|lia..]|eapply frame_sub; [exact F2|lia..]]|].
    split; [split_and!; [from_before..|]|split; [|done]].
    + intros Hne0. specialize (B4 Hne0). pose proof (Hcp _ _ B4 ltac:(lia) ltac:(range)) as C4. from_before.
    + intros off bs _ Ho Hlo Hhi. pose proof (Hcp _ _ Ho ltac:(lia) ltac:(range)) as Co. from_before.
  - eapply runs_stw'; [done|in_range|intros m2 H2 F2].
    pose proof (Hcp _ _ B1 ltac:(lia) ltac:(range)) as C1. rewrite <- Z.add_assoc in B3. pose proof (Hcp _ _ B3 ltac:(lia) ltac:(range)) as C3.
    rewrite Z.add_assoc in C3. split; [eapply frame_trans; [eapply frame_sub; [exact F1|lia..]|eapply frame_sub; [exact F2|lia..]]|].
    split; [split_and!; [from_before..|]|split; [done|]].
    + intros Hne0. specialize (A4 Hne0). from_before.
    + intros off bs _ Ho Hlo. from_before.
Qed.

(** Moving to another section of a well-formed set. *)
Lemma set_ok_move k heap :
  0 <= k < ge_n g ->
  heap = (if ge_heap_sz g =? 0 then None else Some (Heap (section g s k + dh_heap) (section g s k + ge_vsz g))) ->
  set_ok ly (set_curr s k (section g s k) heap).
Proof. intros Hk Hh. destruct Hok. by constructor. Qed.

(** The loop that stores the current index in every section. *)
Lemma runs_store_index k :
  0 <= k < 2 ^ 32 ->
  runs (for_up (Z.to_nat (ge_n g)) 0 (fun i => d ← set_array_get i; on_mem (stw 4 (d + dh_curr_idx) k))) s (fun _ s' =>
    s' = with_mem s (s_mem s') /\ set_ok ly s' /\ framel (s_mem s) (s_mem s') (curr_ranges g s) /\
    forall j, 0 <= j < ge_n g -> has (s_mem s') (section g s j + dh_curr_idx) (le_bytes 4 k)).
Proof.
  intros Hk. pose proof (geom_bounds _ _ Hok) as Hgb.
  apply (runs_for_up (fun i s' => s' = with_mem s (s_mem s') /\ set_ok ly s' /\
    framel (s_mem s) (s_mem s') (curr_ranges g s) /\
    forall j, 0 <= j < i -> has (s_mem s') (section g s j + dh_curr_idx) (le_bytes 4 k))).
  - rewrite with_mem_id. split_and!; [done|done|apply framel_refl|lia].
  - intros i s1 Hi (Heq & Hok1 & F & Hall). rewrite Z2Nat.id in Hi by lia.
    assert (forall j, section g s1 j = section g s j) as Hsec by (intros j; by rewrite Heq).
    apply runs_bind, (runs_set_array_get _ _ Hok1). apply runs_on_mem. rewrite !Hsec.
    eapply runs_stw'; [done| |intros m2 H2 F2].
    { rewrite <- Hsec. apply (section_inside _ _ Hok1 i); unfold dh_curr_idx; lia. }
    assert (framel (s_mem s1) m2 [(section g s i + dh_curr_idx, 4)]) as F2l by (eapply framel_of_frame; [exact F2|by left|lia..]).
    cbn [with_mem s_mem]. split_and!.
    + by rewrite Heq.
    + apply (set_ok_keep _ _ Hok1 _ _ F2l). rewrite Forall_singleton. cbn [fst snd]. rewrite <- Hsec.
      apply (writable_section _ _ Hok1); unfold dh_curr_idx; lia.
    + eapply framel_trans; [exact F|]. eapply framel_mono; [exact F2l|].
      intros r ->%list_elem_of_singleton. apply elem_of_curr_ranges. lia.
    + intros j Hj. destruct (decide (j = i)) as [->|Hne]; [done|].
      eapply frame_has; [exact F2|apply Hall; lia|].
      pose proof (sections_apart _ _ Hok i j ltac:(lia) ltac:(lia) ltac:(lia)). unfold dh_curr_idx. range.
  - intros s1 (Heq & Hok1 & F & Hall). rewrite Z2Nat.id in Hall by lia. done.
Qed.

End trans.

Lemma u64_sub_small a b : 0 <= b <= a -> a < 2 ^ 64 -> u64 (a - b) = a - b.
Proof. intros. apply u64_small. lia. Qed.

Section switch.
Context (ly : layout).
#[local] Abbreviation g := (ly_geom ly).

Lemma runs_next_section s :
  set_ok ly s -> ge_n g <> 1 ->
  runs (next_data_section (ge_n g)) s (fun _ s' => switched ly s s').
Proof.
  intros Hok Hn. pose proof (next_idx_range _ _ Hok) as Hk. pose proof (so_curr _ _ Hok) as Hc.
  pose proof (geom_bounds _ _ Hok) as Hgb. pose proof (section_range _ _ Hok _ Hk) as Hr. pose proof (section_range _ _ Hok _ Hc) as Hr'.
  destruct (so_sections _ _ Hok _ Hk) as (A1 & A2 & A3 & A4). pose proof (so_bytes _ _ Hok) as Hb.
  pose proof (so_meta _ _ Hok). pose proof (so_size _ _ Hok) as Hsz. pose proof (lw_total _ (so_wf _ _ Hok)).
  unfold next_data_section. fold (next_idx g s).
  apply runs_bind, runs_gets. apply runs_bind, runs_gets. apply runs_bind, (runs_set_array_get _ _ Hok).
  fold (next_idx g s). apply runs_bind, (runs_set_array_get _ _ Hok). apply runs_bind, runs_gets.
  apply runs_bind. eapply runs_ld_on_mem; [exact A3|lia|]. apply runs_bind. eapply runs_ld_on_mem; [exact A1|lia|].
  apply runs_bind. eapply runs_ld_on_mem; [exact A2|lia|].
  apply runs_bind, runs_on_mem_ld. eapply (runs_ldw_any 4 _ _ 4); [done| |done|].
  { apply (section_inside _ _ Hok (next_idx g s)); unfold dh_heap; lia. }
  intros gn _ _. split; [done|]. apply runs_bind, runs_on_mem_ld. eapply (runs_ldw_any 4 _ _ 4); [done| |done|].
  { apply (section_inside _ _ Hok (s_curr_idx s)); unfold dh_heap; lia. }
  intros gn' _ _. split; [done|]. apply runs_bind, runs_on_mem. set (full := flag (s_flags s) LDMS_SET_F_DATA_COPY || negb (gn =? gn')).
  pose proof (runs_copy_section _ _ Hok full Hn) as Hcp.
  match type of Hcp with runs _ _ ?P => apply (runs_mono _ _ P) end.
  { destruct full eqn:Hf in Hcp |- *; unfold full in Hf.
    - destruct (flag (s_flags s) LDMS_SET_F_DATA_COPY); [exact Hcp|]. simpl in Hf. rewrite Hf. exact Hcp.
    - apply orb_false_iff in Hf as [-> ->]. exact Hcp. }
  clear Hcp.
  intros [] m1 (F1 & Hs1 & Hcp & _). cbv beta.
  pose proof (set_ok_section _ _ Hok _ _ Hk F1 Hs1) as Hok1. set (s1 := with_mem s m1) in *.
  apply runs_bind. eapply runs_ld_on_mem; [apply (so_header _ _ Hok1)|lia|].
  apply runs_bind, runs_gets. apply runs_bind. unfold ge_vsz in *. rewrite u64_sub_small by lia.
  eapply (runs_mono _ _ (fun h s2 => s2 = s1 /\ h = (if ge_heap_sz g =? 0 then None
    else Some (Heap (section g s1 (next_idx g s) + dh_heap) (section g s1 (next_idx g s) + ge_vsz g))))).
  { destruct (Z.eqb_spec (ge_heap_sz g) 0) as [Hz|Hz].
    - apply runs_ret. split; [done|]. rewrite (so_heap _ _ Hok1). by rewrite (proj2 (Z.eqb_eq _ _) Hz).
    - apply runs_bind, runs_on_mem_ld, runs_bind. eapply runs_peek; [by apply Hs1|done|].
      apply runs_bind, runs_assert; [by apply bool_decide_eq_true|]. apply runs_ret. split; [done|]. by apply runs_ret. }
  intros heap s2 [-> ->]. apply runs_bind, runs_modify.
  pose proof (set_ok_move _ _ Hok1 _ _ Hk eq_refl) as Hok2. 
  change (section g s (next_idx g s)) with (section g s1 (next_idx g s)) at 1.
  eapply runs_mono; [apply (runs_store_index _ _ Hok2 (next_idx g s)); lia|].
  cbn [set_curr s_mem]. intros [] s3 (Heq & Hok3 & F3 & Hidx). constructor; [exact Hok3|by rewrite Heq..| | |].
  - eapply framel_trans; [eapply framel_of_frame; [exact F1|by left|lia..]|]. eapply framel_mono; [exact F3|]. by apply list_subseteq_cons.
  - intros off bs Hfl Ho Hlo Hhi. pose proof (Hcp off bs ltac:(unfold full; by rewrite Hfl) Ho Hlo Hhi) as Hc1.
    apply F3; [exact Hc1|]. apply Forall_forall. intros r (j & Hj & ->)%curr_ranges_inv. cbn [fst snd].
    change (section _ _ j) with (section g s j). unfold sizeof_ldms_data_hdr, dh_curr_idx in *.
    destruct (decide (j = next_idx g s)) as [->|Hne]; [range|].
    pose proof (sections_apart _ _ Hok (next_idx g s) j ltac:(lia) ltac:(lia) ltac:(lia)). range.
  - intros j Hj. apply (Hidx j Hj).
Qed.

(** ** Begin *)

(** The time and the flag in the header of the current section. *)
Definition stamped (s : ldms_set) (sec usec tf : Z) : Prop :=
  trans_flags s tf /\ has (s_mem s) (s_data s + dh_ts_sec) (le_bytes 4 sec) /\
  has (s_mem s) (s_data s + dh_ts_usec) (le_bytes 4 usec).

Lemma runs_stamp s sec usec tf :
  set_ok ly s -> 0 <= tf < 2 ^ 32 ->
  runs (on_mem (stw 4 (s_data s + dh_trans_flags) tf;;
                stw 4 (s_data s + dh_ts_sec) sec;;
                stw 4 (s_data s + dh_ts_usec) usec)) s (fun _ s' =>
    s' = with_mem s (s_mem s') /\ set_ok ly s' /\ framel (s_mem s) (s_mem s') [(s_data s, 20)] /\ stamped s' sec usec tf).
Proof.
  intros Hok Htf. pose proof (so_curr _ _ Hok) as Hc. pose proof (geom_bounds _ _ Hok).
  assert (inside (s_mem s) (s_data s) 96) as Hin.
  { rewrite (so_data _ _ Hok). apply (section_inside _ _ Hok (s_curr_idx s)); lia. }
  apply runs_on_mem. dfields. st_step m1 H1 F1; [range|]. st_step m2 H2 F2; [in_range|].
  eapply runs_stw'; [done|in_range|intros m3 H3 F3].
  assert (framel (s_mem s) m3 [(s_data s, 20)]) as F.
  { eapply (framel_of_frame _ _ (s_data s) 20); [frames|by left|lia..]. }
  split_and!; [done| |exact F|].
  - apply (set_ok_keep _ _ Hok _ _ F). rewrite Forall_singleton. cbn [fst snd]. rewrite (so_data _ _ Hok).
    rewrite <- (Z.add_0_r (section _ _ _)). apply (writable_section _ _ Hok); lia.
  - unfold stamped, trans_flags. dfields. cbn [with_mem s_mem s_data]. split_and!; try from_before; lia.
Qed.

(** The rest of the section is what the switch left. *)
Lemma switched_write s s1 s2 :
  set_ok ly s -> switched ly s s1 -> s2 = with_mem s1 (s_mem s2) -> set_ok ly s2 ->
  framel (s_mem s1) (s_mem s2) [(s_data s1, 20)] -> switched ly s s2.
Proof.
  intros Hok [Hok1 Hc Hm Ha Hf Hp F Hcp Hix] Heq Hok2 F2.
  assert (s_data s1 = section g s (next_idx g s)) as Hd.
  { rewrite (so_data _ _ Hok1), Hc. unfold section. by rewrite Ha. }
  pose proof (geom_bounds _ _ Hok). constructor; [done|by rewrite Heq..| | |].
  - eapply framel_trans; [exact F|]. rewrite Hd in F2. destruct F2 as [F2b F2s F2o F2h].
    constructor; [done..|]. intros a bs Hx Hall. apply F2h; [done|]. rewrite Forall_singleton.
    apply Forall_cons in Hall as [Hall _]. unfold apart in *. cbn [fst snd] in *. lia.
  - intros off bs Hfl Ho Hlo Hhi. specialize (Hcp off bs Hfl Ho Hlo Hhi). rewrite Hd in F2.
    unfold sizeof_ldms_data_hdr in *. from_before.
  - intros k Hk. specialize (Hix k Hk). pose proof (next_idx_range _ _ Hok) as Hn.
    apply F2; [done|]. rewrite Forall_singleton. cbn [fst snd]. rewrite Hd. unfold dh_curr_idx.
    destruct (decide (k = next_idx g s)) as [->|Hne]; [range|].
    pose proof (sections_apart _ _ Hok k (next_idx g s) ltac:(lia) ltac:(lia) Hne). range.
Qed.

Lemma runs_begin s sec usec :
  set_ok ly s -> ge_n g <> 1 ->
  runs (ldms_transaction_begin sec usec) s (fun r s' =>
    r = 0 /\ switched ly s s' /\ stamped s' sec usec LDMS_TRANSACTION_BEGIN).
Proof.
  intros Hok Hn. apply runs_bind, (runs_array_card _ _ Hok). apply runs_bind.
  rewrite (proj2 (Z.eqb_neq _ _)) by lia. pose proof (geom_bounds _ _ Hok).
  apply runs_bind, runs_assert; [by rewrite (proj2 (Z.eqb_neq _ _)) by lia|].
  eapply runs_mono; [by apply runs_next_section|]. intros [] s1 Hsw. apply runs_bind, runs_gets. apply runs_bind.
  eapply runs_mono; [apply runs_stamp; [apply Hsw|done]|]. intros [] s2 (Heq & Hok2 & F2 & Hst). apply runs_ret.
  split_and!; [done|by eapply switched_write|done].
Qed.

(** A set of one section stays where it is. *)
Lemma runs_begin_single s sec usec :
  set_ok ly s -> ge_n g = 1 ->
  runs (ldms_transaction_begin sec usec) s (fun r s' =>
    r = 0 /\ s' = with_mem s (s_mem s') /\ set_ok ly s' /\ framel (s_mem s) (s_mem s') [(s_data s, 20)] /\
    stamped s' sec usec LDMS_TRANSACTION_BEGIN).
Proof.
  intros Hok Hn. apply runs_bind, (runs_array_card _ _ Hok). apply runs_bind. rewrite Hn. apply runs_ret.
  apply runs_bind, runs_gets. apply runs_bind. eapply runs_mono; [by apply runs_stamp|].
  intros [] s2 (Heq & Hok2 & F2 & Hst). by apply runs_ret.
Qed.

(** ** End *)

(** The duration in the header: seconds and microseconds, with the borrow. *)
Definition elapsed (ts tu sec usec : Z) : Z * Z :=
  let ds := u32 (sec - ts) in
  let du := u32 (usec - tu) in
  if s32 du <? 0 then (u32 (ds - 1), u32 (du + 1000000)) else (ds, du).

Definition pushed (s : ldms_set) (m : mem) : ldms_set :=
  Set_ (s_flags s) (s_set_id s) (s_meta s) (s_data s) (s_data_array s) (s_curr_idx s) (s_heap s)
    (s_pushes s ++ [LDMS_RBD_F_PUSH_CHANGE]) m.

Lemma set_ok_pushed s m : set_ok ly (with_mem s m) -> set_ok ly (pushed s m).
Proof. intros []. by constructor. Qed.

Definition duration_at (s : ldms_set) (d : Z * Z) : Prop :=
  has (s_mem s) (s_data s + dh_dur_sec) (le_bytes 4 d.1) /\ has (s_mem s) (s_data s + dh_dur_usec) (le_bytes 4 d.2).

Lemma le_value_u32 v : le_value (le_bytes 4 v) = u32 v.
Proof. by rewrite le_value_bytes_mod. Qed.

Lemma runs_ldw4 m p v (Q : Z -> mem -> Prop) : has m p (le_bytes 4 v) -> Q (u32 v) m -> runs (ldw 4 p) m Q.
Proof. intros H HQ. eapply runs_ldw; [done|done|]. by rewrite le_value_u32. Qed.

Lemma runs_end_bytes m d ts tu sec usec :
  bytes_ok (cells m) -> inside m d 96 -> 0 <= ts < 2 ^ 32 -> 0 <= tu < 2 ^ 32 ->
  has m (d + dh_ts_sec) (le_bytes 4 ts) -> has m (d + dh_ts_usec) (le_bytes 4 tu) ->
  runs (ts_sec ← ldw 4 (d + dh_ts_sec);
    stw 4 (d + dh_dur_sec) (sec - ts_sec);;
    ts_usec ← ldw 4 (d + dh_ts_usec);
    stw 4 (d + dh_dur_usec) (usec - ts_usec);;
    du ← ldw 4 (d + dh_dur_usec);
    (if s32 du <? 0 then
       ds ← ldw 4 (d + dh_dur_sec);
       stw 4 (d + dh_dur_sec) (ds - 1);;
       stw 4 (d + dh_dur_usec) (du + 1000000)
     else mret tt);;
    stw 4 (d + dh_ts_sec) sec;;
    stw 4 (d + dh_ts_usec) usec;;
    stw 4 (d + dh_trans_flags) LDMS_TRANSACTION_END;;
    gn_increment (d + dh_gn)) m (fun _ m' =>
    frame2 m m' d 20 (d + dh_gn) 8 /\
    has m' (d + dh_ts_sec) (le_bytes 4 sec) /\ has m' (d + dh_ts_usec) (le_bytes 4 usec) /\
    has m' (d + dh_trans_flags) (le_bytes 4 LDMS_TRANSACTION_END) /\
    has m' (d + dh_dur_sec) (le_bytes 4 (elapsed ts tu sec usec).1) /\
    has m' (d + dh_dur_usec) (le_bytes 4 (elapsed ts tu sec usec).2) /\
    forall v, has m (d + dh_gn) (le_bytes 8 v) -> 0 <= v < 2 ^ 64 -> has m' (d + dh_gn) (le_bytes 8 (u64 (v + 1)))).
Proof.
  intros Hb Hi Hts Htu H1 H2. dfields.
  apply runs_bind. eapply runs_ld_word; [exact H1|done|]. st_step m1 A1 F1; [range|].
  assert (has m1 (d + 4) (le_bytes 4 tu)) by from_before. ld_step 4%nat.
  st_step m2 A2 F2; [in_range|]. apply runs_bind, (runs_ldw4 _ _ _ _ A2). apply runs_bind.
  eapply (runs_mono _ _ (fun _ m3 => frame m2 m3 (d + 8) 8 /\ has m3 (d + 8) (le_bytes 4 (elapsed ts tu sec usec).1) /\
    has m3 (d + 12) (le_bytes 4 (elapsed ts tu sec usec).2))).
  { assert (has m2 (d + 8) (le_bytes 4 (sec - ts))) as A1' by from_before. unfold elapsed.
    destruct (s32 (u32 (usec - tu)) <? 0); cbn [fst snd].
    - apply runs_bind, (runs_ldw4 _ _ _ _ A1'). st_step m3 A3 F3; [in_range|].
      eapply runs_stw'; [done|in_range|intros m4 A4 F4]. rewrite !le_bytes_u32. split_and!; [frames|from_before|from_before].
    - apply runs_ret. rewrite !le_bytes_u32. split_and!; [apply frame_refl|done|done]. }
  intros [] m3 (F3 & D1 & D2). st_step m4 A4 F4; [in_range|]. st_step m5 A5 F5; [in_range|]. st_step m6 A6 F6; [in_range|].
  assert (frame m m6 d 20) as F by frames. unfold gn_increment. apply runs_bind.
  eapply (runs_ldw_any 8 _ _ 8); [done|in_range|by apply F|]. intros v Hv Hvr.
  eapply runs_stw'; [done|in_range|intros m7 A7 F7]. split_and!; try from_before.
  - eapply frame2_trans; [eapply frame2_l; [exact F|lia..]|eapply frame2_r; [exact F7|lia..]].
  - intros w Hw Hwr. assert (has m6 (d + 24) (le_bytes 8 w)) as Hw6 by from_before.
    apply (has_inj _ _ _ _ Hv) in Hw6; [|by rewrite !length_le_bytes].
    apply (f_equal le_value) in Hw6. rewrite !le_value_bytes in Hw6 by done. by subst w.
Qed.

(** What the end of a transaction does to the set. *)
Record ended (s : ldms_set) (ts tu sec usec : Z) (s' : ldms_set) : Prop := Ended {
  en_set : s' = pushed s (s_mem s');
  en_ok : set_ok ly s';
  en_stamp : stamped s' sec usec LDMS_TRANSACTION_END;
  en_duration : duration_at s' (elapsed ts tu sec usec);
  en_gn v : has (s_mem s) (s_data s + dh_gn) (le_bytes 8 v) -> 0 <= v < 2 ^ 64 ->
    has (s_mem s') (s_data s + dh_gn) (le_bytes 8 (u64 (v + 1)));
  en_frame : framel (s_mem s) (s_mem s') [(s_data s, 20); (s_data s + dh_gn, 8)]
}.

Lemma runs_end s tf ts tu sec usec :
  set_ok ly s -> stamped s ts tu tf -> 0 <= ts < 2 ^ 32 -> 0 <= tu < 2 ^ 32 ->
  runs (ldms_transaction_end sec usec) s (fun r s' => r = 0 /\ ended s ts tu sec usec s').
Proof.
  intros Hok (_ & Hts & Htu) Hr1 Hr2. pose proof (so_curr _ _ Hok) as Hc. pose proof (geom_bounds _ _ Hok).
  pose proof (so_data _ _ Hok) as Hd.
  assert (inside (s_mem s) (s_data s) 96) as Hin.
  { rewrite Hd. apply (section_inside _ _ Hok (s_curr_idx s)); lia. }
  apply runs_bind, runs_gets. apply runs_bind, (runs_set_array_get _ _ Hok). rewrite <- Hd. apply runs_bind, runs_gets.
  apply runs_bind, runs_on_mem. eapply runs_mono; [apply runs_end_bytes; [apply (so_bytes _ _ Hok)|done|exact Hr1|exact Hr2|done|done]|].
  intros [] m (F & A1 & A2 & A3 & A4 & A5 & A6). apply runs_bind, runs_modify. apply runs_ret. split; [done|].
  assert (framel (s_mem s) m [(s_data s, 20); (s_data s + dh_gn, 8)]) as Fl.
  { destruct F as [F1 F2 F3 F4]. constructor; [done..|]. intros a bs Ha. rewrite !Forall_cons. cbn [fst snd]. intros (? & ? & _). by apply F4. }
  assert (set_ok ly (pushed s m)) as Hok'.
  { apply set_ok_pushed, (set_ok_keep _ _ Hok _ _ Fl). rewrite !Forall_cons, Forall_nil. cbn [fst snd]. rewrite Hd. split_and!; [| |done].
    - rewrite <- (Z.add_0_r (section _ _ _)). apply (writable_section _ _ Hok); lia.
    - apply (writable_section _ _ Hok); unfold dh_gn; lia. }
  by constructor.
Qed.

Lemma elapsed_correct ts tu sec usec :
  0 <= ts -> sec < 2 ^ 32 -> 0 <= tu < 1000000 -> 0 <= usec < 1000000 ->
  ts * 1000000 + tu <= sec * 1000000 + usec ->
  let d := (sec - ts) * 1000000 + (usec - tu) in
  elapsed ts tu sec usec = (d / 1000000, d mod 1000000).
Proof.
  intros Hts Hsec Htu Hus Hle d. unfold elapsed. assert (ts <= sec) by lia.
  rewrite (u32_small (sec - ts)) by lia.
  destruct (decide (usec < tu)) as [Hlt|Hge].
  - replace (u32 (usec - tu)) with (usec - tu + 2 ^ 32).
    2:{ unfold wrapu. rewrite <- (Z.mod_add (usec - tu) 1) by lia. rewrite Z.mod_small; lia. }
    replace (s32 (usec - tu + 2 ^ 32)) with (usec - tu).
    2:{ unfold wraps. replace (usec - tu + 2 ^ 32 + 2 ^ (32 - 1)) with (usec - tu + 2 ^ (32 - 1) + 1 * 2 ^ 32) by lia.
        rewrite Z.mod_add by lia. rewrite Z.mod_small; lia. }
    rewrite (proj2 (Z.ltb_lt _ _)) by lia. rewrite u32_small by lia.
    replace (u32 (usec - tu + 2 ^ 32 + 1000000)) with (usec - tu + 1000000).
    2:{ unfold wrapu. replace (usec - tu + 2 ^ 32 + 1000000) with (usec - tu + 1000000 + 1 * 2 ^ 32) by lia.
        rewrite Z.mod_add by lia. rewrite Z.mod_small; lia. }
    subst d. f_equal; dlia.
  - rewrite (u32_small (usec - tu)) by lia. rewrite s32_small by lia. rewrite (proj2 (Z.ltb_ge _ _)) by lia.
    subst d. f_equal; dlia.
Qed.

End switch.
