(* ===== verification/SetProps.v ===== *)
(** * Properties of metric access

    The typed accessors of a set, and transactions as they appear to a
    reader. *)

From stdpp Require Import prelude gmap strings.
From Stdlib Require Import Ascii String.
From S2P Require Import Prelude Bytes CStr Mem MemFrame CFloat MVal MValSpec Schema SchemaSpec Rrbt LdmsHeap.
From S2P Require Import HeapInit SetCreate SetOps SetLayout SetInit SetSpec SetMetric SetTrans.

Open Scope Z_scope.

(** ** The accessors of the scalar types *)

(** The object type, the setter and the getter of a value type; floats are
    passed as their bits. *)
Definition scalar_access (t : ldms_value_type) : option (ity * (Z -> Z -> SM unit) * (Z -> SM Z)) :=
  match t with
  | LDMS_V_CHAR => Some (t_char, ldms_metric_set_char, ldms_metric_get_char)
  | LDMS_V_U8 => Some (t_u8, ldms_metric_set_u8, ldms_metric_get_u8)
  | LDMS_V_S8 => Some (t_s8, ldms_metric_set_s8, ldms_metric_get_s8)
  | LDMS_V_U16 => Some (t_u16, ldms_metric_set_u16, ldms_metric_get_u16)
  | LDMS_V_S16 => Some (t_s16, ldms_metric_set_s16, ldms_metric_get_s16)
  | LDMS_V_U32 => Some (t_u32, ldms_metric_set_u32, ldms_metric_get_u32)
  | LDMS_V_S32 => Some (t_s32, ldms_metric_set_s32, ldms_metric_get_s32)
  | LDMS_V_U64 => Some (t_u64, ldms_metric_set_u64, ldms_metric_get_u64)
  | LDMS_V_S64 => Some (t_s64, ldms_metric_set_s64, ldms_metric_get_s64)
  | LDMS_V_F32 => Some (t_u32, ldms_metric_set_float, ldms_metric_get_float)
  | LDMS_V_D64 => Some (t_u64, ldms_metric_set_double, ldms_metric_get_double)
  | _ => None
  end.

Lemma scalar_access_eq t it set get :
  scalar_access t = Some (it, set, get) ->
  set = (fun i x => metric_store i (fun mv => sti it mv x)) /\ get = (fun i => metric_load i (ldi it)) /\ ity_ok it.
Proof.
  destruct t; intros [= <- <- <-]; (split; [done|split; [done|]]); unfold ity_ok; cbn; rewrite !elem_of_cons; auto.
Qed.

Lemma scalar_slot t a sl g vals :
  scalar_access t = Some a -> md_type (sl_def sl) = code t -> slot_ok g vals sl ->
  8 <= slot_size (sl_def sl) /\ md_type (sl_def sl) <> code LDMS_V_LIST /\ md_type (sl_def sl) <> code LDMS_V_RECORD_ARRAY.
Proof.
  intros Ha Ht [Hm _ _ _ _]. destruct (mo_type _ Hm) as [sz Hsz]. pose proof (mo_count _ Hm) as Hc.
  destruct (value_size_bounds _ _ _ Hc Hsz) as (_ & _ & H8). unfold slot_size, vsize. rewrite Hsz.
  rewrite Ht in *. destruct t; try discriminate Ha; cbn; (split; [by apply H8|done]).
Qed.

Lemma it_bytes_le8 it : ity_ok it -> 1 <= Z.of_nat (it_bytes it) <= 8.
Proof. intros H. destruct (ity_ok_bytes it H) as (_ & -> & ?). lia. Qed.

(** ** Other metrics *)

(** Distinct slots are apart, in whatever sections they are looked at. *)
Lemma values_apart ly s i j a b k l :
  set_ok ly s -> ly_slots ly !! i = Some a -> ly_slots ly !! j = Some b ->
  0 <= k < ge_n (ly_geom ly) -> 0 <= l < ge_n (ly_geom ly) ->
  i <> j \/ k <> l /\ is_data (sl_def a) = true ->
  apart (value_in (ly_geom ly) s k a) (slot_size (sl_def a)) (value_in (ly_geom ly) s l b) (slot_size (sl_def b)).
Proof.
  intros Hok Ha Hb Hk Hl Hne. pose proof (value_range _ _ Hok _ _ Ha k Hk) as Ra. pose proof (value_range _ _ Hok _ _ Hb l Hl) as Rb.
  pose proof (section_range _ _ Hok _ Hk). pose proof (section_range _ _ Hok _ Hl). pose proof (geom_bounds _ _ Hok).
  pose proof (sections_apart _ _ Hok k l ltac:(lia) ltac:(lia)) as Hs.
  pose proof (lw_disjoint _ (so_wf _ _ Hok) i j a b Ha Hb) as Hd.
  destruct (is_data (sl_def a)) eqn:Ea; destruct (is_data (sl_def b)) eqn:Eb; unfold apart in *; [|lia|lia|].
  - destruct (decide (k = l)) as [->|Hkl]; [|lia]. destruct Hne as [Hne|[]]; [|done].
    specialize (Hd Hne eq_refl). unfold value_in. rewrite Ea, Eb. lia.
  - destruct Hne as [Hne|[_ ?]]; [|done]. specialize (Hd Hne eq_refl). unfold value_in. rewrite Ea, Eb. lia.
Qed.

(** A store into the slot [i] leaves the bytes of every other slot, and of
    the slot [i] in the other sections. *)
Lemma stored_other ly s i j a b l q bs s' p cs :
  set_ok ly s -> ly_slots ly !! i = Some a -> ly_slots ly !! j = Some b ->
  stored s a q bs s' ->
  value_in (ly_geom ly) s (s_curr_idx s) a <= q ->
  q + zlen bs <= value_in (ly_geom ly) s (s_curr_idx s) a + slot_size (sl_def a) ->
  0 <= l < ge_n (ly_geom ly) -> i <> j \/ s_curr_idx s <> l /\ is_data (sl_def a) = true ->
  value_in (ly_geom ly) s l b <= p -> p + zlen cs <= value_in (ly_geom ly) s l b + slot_size (sl_def b) ->
  has (s_mem s) p cs -> has (s_mem s') p cs.
Proof.
  intros Hok Ha Hb [_ _ F] Hlo Hhi Hl Hne Hplo Hphi Hp. apply F; [done|]. apply Forall_cons. split; cbn [fst snd].
  - pose proof (values_apart _ _ _ _ _ _ _ _ Hok Ha Hb (so_curr _ _ Hok) Hl Hne). unfold apart in *. lia.
  - apply (value_gn_apart _ _ _ _ l p (zlen cs) Hok Hb Hl); lia.
Qed.

(** ** A sequence of updates *)

Definition set_op : Type := nat * ldms_value_type * Z.

Fixpoint run_sets (ops : list set_op) : SM unit :=
  match ops with
  | [] => mret tt
  | (i, t, x) :: ops =>
      match scalar_access t with
      | Some (_, set, _) => set (Z.of_nat i) x;; run_sets ops
      | None => stuck
      end
  end.

(** The update names a metric of its type. *)
Definition op_ok (ly : layout) (op : set_op) : Prop :=
  exists sl, ly_slots ly !! op.1.1 = Some sl /\ md_type (sl_def sl) = code op.1.2 /\ is_Some (scalar_access op.1.2).

(** The last value a sequence of updates gives to the metric [i]. *)
Fixpoint last_set (ops : list set_op) (i : nat) (x : Z) : Z :=
  match ops with
  | [] => x
  | (j, _, y) :: ops => last_set ops i (if decide (j = i) then y else x)
  end.

(** The data metric [i] of the scalar type [t] holds [x] in the section [k]. *)
Definition holds (ly : layout) (s : ldms_set) (k : Z) (i : nat) (t : ldms_value_type) (x : Z) : Prop :=
  exists sl it set get, ly_slots ly !! i = Some sl /\ is_data (sl_def sl) = true /\ md_type (sl_def sl) = code t /\
    scalar_access t = Some (it, set, get) /\
    has (s_mem s) (value_in (ly_geom ly) s k sl) (le_bytes (it_bytes it) x).

Lemma code_inj t u : code t = code u -> t = u.
Proof. intros H. apply (f_equal of_code) in H. rewrite !of_code_code in H. by injection H. Qed.

Lemma header_gn_apart ly s sl :
  set_ok ly s -> Forall (fun r => apart r.1 r.2 (s_data s) 20) (gn_ranges s sl).
Proof.
  intros Hok. pose proof (so_curr _ _ Hok) as Hc. pose proof (section_range _ _ Hok _ Hc). pose proof (geom_bounds _ _ Hok).
  pose proof (so_data _ _ Hok). unfold gn_ranges, dh_gn, dh_meta_gn, sh_meta_gn.
  destruct (is_data _); rewrite ?Forall_cons, Forall_nil; unfold apart; cbn [fst snd]; split_and!; try done; lia.
Qed.

(** An update in a transaction leaves its time and flag. *)
Lemma stored_stamped ly s i sl q bs s' sec usec tf :
  set_ok ly s -> ly_slots ly !! i = Some sl -> stored s sl q bs s' ->
  value_in (ly_geom ly) s (s_curr_idx s) sl <= q ->
  q + zlen bs <= value_in (ly_geom ly) s (s_curr_idx s) sl + slot_size (sl_def sl) ->
  stamped s sec usec tf -> stamped s' sec usec tf.
Proof.
  intros Hok Hsl [Heq _ F] Hlo Hhi [[H1 Hr] [H2 H3]]. pose proof (so_curr _ _ Hok) as Hc.
  pose proof (value_range _ _ Hok _ _ Hsl _ Hc) as Rv. pose proof (section_range _ _ Hok _ Hc). pose proof (so_data _ _ Hok).
  pose proof (header_gn_apart _ _ sl Hok) as Hap.
  assert (forall p cs, has (s_mem s) p cs -> s_data s <= p -> p + zlen cs <= s_data s + 20 -> has (s_mem s') p cs) as Hk.
  { intros p cs Hp ? ?. apply F; [done|]. apply Forall_cons. split; cbn [fst snd].
    - unfold apart. destruct (is_data _); lia.
    - eapply Forall_impl; [exact Hap|]. intros r Hr'. unfold apart in *. lia. }
  unfold stamped, trans_flags. dfields.
  assert (s_data s' = s_data s) as -> by (by rewrite Heq). split_and!; try (apply Hk; [done|range..]); lia.
Qed.

Record updated (ly : layout) (s : ldms_set) (ops : list set_op) (s' : ldms_set) : Prop := Updated {
  up_ok : set_ok ly s';
  up_mem : s' = with_mem s (s_mem s');
  up_stamp sec usec tf : stamped s sec usec tf -> stamped s' sec usec tf;
  up_here i t x : holds ly s (s_curr_idx s) i t x -> holds ly s' (s_curr_idx s) i t (last_set ops i x);
  up_there i t x k : 0 <= k < ge_n (ly_geom ly) -> k <> s_curr_idx s -> holds ly s k i t x -> holds ly s' k i t x
}.

Lemma holds_slot ly s k i t x : holds ly s k i t x -> exists sl, ly_slots ly !! i = Some sl /\ md_type (sl_def sl) = code t.
Proof. intros (sl & _ & _ & _ & Hsl & _ & Ht & _). by exists sl. Qed.

(** One update. *)
Lemma runs_set_op ly s i t x it set get sl :
  set_ok ly s -> ly_slots ly !! i = Some sl -> md_type (sl_def sl) = code t -> scalar_access t = Some (it, set, get) ->
  runs (set (Z.of_nat i) x) s (fun _ s' => updated ly s [(i, t, x)] s').
Proof.
  intros Hok Hsl Ht Ha. destruct (scalar_access_eq _ _ _ _ Ha) as (-> & _ & Hity).
  destruct (scalar_slot _ _ _ _ _ Ha Ht (lw_slots _ (so_wf _ _ Hok) _ _ Hsl)) as (H8 & _).
  pose proof (it_bytes_le8 _ Hity) as Hw.
  eapply runs_mono; [apply (runs_metric_set_int _ _ _ _ Hok Hsl); lia|].
  intros _ s' (Hst & Hok' & _). pose proof (st_mem _ _ _ _ _ Hst) as Heq.
  assert (forall k b, value_in (ly_geom ly) s' k b = value_in (ly_geom ly) s k b) as Hv by (intros; by rewrite Heq).
  constructor; [done|done| | |].
  - intros sec usec tf. eapply stored_stamped; [exact Hok|exact Hsl|exact Hst|lia|rewrite zlen_le; lia].
  - intros j u y (b & it' & set' & get' & Hb & Hdb & Htb & Hab & Hy). cbn [last_set].
    exists b, it', set', get'. rewrite Hv. split_and!; try done. destruct (decide (i = j)) as [->|Hne].
    + rewrite Hsl in Hb. injection Hb as <-. rewrite Ht in Htb. apply code_inj in Htb as <-.
      rewrite Ha in Hab. injection Hab as <- _ _. apply Hst.
    + pose proof (it_bytes_le8 _ (proj2 (proj2 (scalar_access_eq _ _ _ _ Hab)))).
      destruct (scalar_slot _ _ _ _ _ Hab Htb (lw_slots _ (so_wf _ _ Hok) _ _ Hb)) as (H8b & _).
      eapply (stored_other _ _ _ _ _ _ (s_curr_idx s) _ _ _ _ _ Hok Hsl Hb Hst); rewrite ?zlen_le; first [lia|apply (so_curr _ _ Hok)|by left|done].
  - intros j u y k Hk Hkc (b & it' & set' & get' & Hb & Hdb & Htb & Hab & Hy).
    exists b, it', set', get'. rewrite Hv. split_and!; try done.
    pose proof (it_bytes_le8 _ (proj2 (proj2 (scalar_access_eq _ _ _ _ Hab)))).
    destruct (scalar_slot _ _ _ _ _ Hab Htb (lw_slots _ (so_wf _ _ Hok) _ _ Hb)) as (H8b & _).
    eapply (stored_other _ _ _ _ _ _ k _ _ _ _ _ Hok Hsl Hb Hst); rewrite ?zlen_le; try first [lia|done].
    destruct (decide (i = j)) as [->|]; [|by left]. right. rewrite Hsl in Hb. injection Hb as <-. split; [lia|done].
Qed.

Lemma runs_run_sets ly ops s :
  set_ok ly s -> Forall (op_ok ly) ops -> runs (run_sets ops) s (fun _ s' => updated ly s ops s').
Proof.
  intros Hok Hops. revert s Hok. induction Hops as [|[[i t] x] ops (sl & Hsl & Ht & [[[it set] get] Ha]) Hops IH]; intros s Hok.
  { apply runs_ret. constructor; [done|by rewrite with_mem_id|done..]. }
  cbn [run_sets fst snd] in *. rewrite Ha. apply runs_bind. eapply runs_mono; [by eapply runs_set_op|].
  intros [] s1 [Hok1 Heq1 Hst1 Hh1 Ht1]. eapply runs_mono; [by apply IH|].
  intros [] s2 [Hok2 Heq2 Hst2 Hh2 Ht2]. assert (s_curr_idx s1 = s_curr_idx s) as Hc by (by rewrite Heq1). rewrite Hc in *.
  constructor; [done| |by auto| |by auto].
  - rewrite Heq2, Heq1. done.
  - intros j u y Hy. cbn [last_set]. apply (Hh2 j u), (Hh1 j u y), Hy.
Qed.

(** ** Transactions *)

Lemma holds_range ly s k i t x sl it set get :
  set_ok ly s -> ly_slots ly !! i = Some sl -> is_data (sl_def sl) = true -> md_type (sl_def sl) = code t ->
  scalar_access t = Some (it, set, get) -> 0 <= k < ge_n (ly_geom ly) ->
  section (ly_geom ly) s k + 96 <= value_in (ly_geom ly) s k sl /\
  value_in (ly_geom ly) s k sl + zlen (le_bytes (it_bytes it) x) <= section (ly_geom ly) s k + ge_data_sz (ly_geom ly).
Proof.
  intros Hok Hsl Hd Ht Ha Hk. pose proof (value_range _ _ Hok _ _ Hsl k Hk) as Hr. rewrite Hd in Hr.
  pose proof (it_bytes_le8 _ (proj2 (proj2 (scalar_access_eq _ _ _ _ Ha)))). pose proof (geom_bounds _ _ Hok).
  destruct (scalar_slot _ _ _ _ _ Ha Ht (lw_slots _ (so_wf _ _ Hok) _ _ Hsl)) as (H8 & _). rewrite zlen_le. lia.
Qed.

(** The switch leaves the values of the other sections. *)
Lemma switched_there ly s s' k i t x :
  set_ok ly s -> switched ly s s' -> 0 <= k < ge_n (ly_geom ly) -> k <> next_idx (ly_geom ly) s ->
  holds ly s k i t x -> holds ly s' k i t x.
Proof.
  intros Hok Hsw Hk Hne (sl & it & set & get & Hsl & Hd & Ht & Ha & Hx).
  destruct (holds_range _ _ k _ _ x _ _ _ _ Hok Hsl Hd Ht Ha Hk) as [Hlo Hhi].
  exists sl, it, set, get. split_and!; try done.
  assert (value_in (ly_geom ly) s' k sl = value_in (ly_geom ly) s k sl) as ->.
  { unfold value_in, section. by rewrite (sx_array _ _ _ Hsw), (sx_meta _ _ _ Hsw). }
  apply (sx_frame _ _ _ Hsw); [done|]. pose proof (next_idx_range _ _ Hok). pose proof (geom_bounds _ _ Hok).
  apply Forall_cons. split; cbn [fst snd].
  - pose proof (sections_apart _ _ Hok k (next_idx (ly_geom ly) s) ltac:(lia) ltac:(lia) Hne). unfold apart in *. lia.
  - apply Forall_forall. intros r (j & Hj & ->)%curr_ranges_inv. cbn [fst snd]. unfold dh_curr_idx.
    destruct (decide (j = k)) as [->|Hjk]; [unfold apart; lia|].
    pose proof (sections_apart _ _ Hok k j ltac:(lia) ltac:(lia) ltac:(lia)). unfold apart in *. lia.
Qed.

(** With the copy of the data, the next section starts with the values of the
    current one. *)
Lemma switched_copy ly s s' i t x :
  set_ok ly s -> switched ly s s' -> flag (s_flags s) LDMS_SET_F_DATA_COPY = true ->
  holds ly s (s_curr_idx s) i t x -> holds ly s' (s_curr_idx s') i t x.
Proof.
  intros Hok Hsw Hf (sl & it & set & get & Hsl & Hd & Ht & Ha & Hx).
  destruct (holds_range _ _ _ _ _ x _ _ _ _ Hok Hsl Hd Ht Ha (so_curr _ _ Hok)) as [Hlo Hhi].
  exists sl, it, set, get. split_and!; try done. rewrite (sx_curr _ _ _ Hsw). unfold value_in, section in *. rewrite Hd in *.
  rewrite (sx_array _ _ _ Hsw). apply (sx_copy _ _ _ Hsw); [done|done|unfold sizeof_ldms_data_hdr; lia|lia].
Qed.

(** A data metric of the type [t]. *)
Definition data_metric (ly : layout) (i : nat) (t : ldms_value_type) : Prop :=
  exists sl, ly_slots ly !! i = Some sl /\ is_data (sl_def sl) = true /\ md_type (sl_def sl) = code t.

(** A metric of a scalar type holds some value. *)
Lemma metric_holds ly s k i t it set get :
  set_ok ly s -> 0 <= k < ge_n (ly_geom ly) -> data_metric ly i t -> scalar_access t = Some (it, set, get) ->
  exists y, holds ly s k i t y.
Proof.
  intros Hok Hk (sl & Hsl & Hd & Ht) Ha.
  destruct (holds_range _ _ k _ _ 0 _ _ _ _ Hok Hsl Hd Ht Ha Hk) as [Hlo Hhi]. rewrite zlen_le in Hhi.
  destruct (inside_has_ex (s_mem s) (value_in (ly_geom ly) s k sl) (Z.of_nat (it_bytes it))) as (bs & Hbs & Hl).
  { apply (section_inside _ _ Hok k); lia. }
  apply Nat2Z.inj in Hl. pose proof (bytes_ok_has _ _ _ (so_bytes _ _ Hok) Hbs) as Hb.
  exists (le_value bs), sl, it, set, get. split_and!; try done. by rewrite <- Hl, le_bytes_value.
Qed.

Lemma holds_ex ly s k i t x k' s0 :
  set_ok ly s -> 0 <= k < ge_n (ly_geom ly) -> holds ly s0 k' i t x -> exists y, holds ly s k i t y.
Proof.
  intros Hok Hk (sl & it & set & get & Hsl & Hd & Ht & Ha & _).
  eapply metric_holds; [done|done|by exists sl|exact Ha].
Qed.

(** A read of a scalar outside of a transaction, and in one. *)
Lemma runs_get_scalar ly s i t x it set get tf :
  set_ok ly s -> trans_flags s tf -> scalar_access t = Some (it, set, get) ->
  holds ly s (if tf =? LDMS_TRANSACTION_END then s_curr_idx s
              else (s_curr_idx s + (ge_n (ly_geom ly) - 1)) mod ge_n (ly_geom ly)) i t x ->
  runs (get (Z.of_nat i)) s (fun r s' => r = wrap it x /\ s' = s).
Proof.
  intros Hok Htf Ha (sl & it' & set' & get' & Hsl & Hd & Ht & Ha' & Hx). rewrite Ha in Ha'. injection Ha' as <- <- <-.
  destruct (scalar_access_eq _ _ _ _ Ha) as (_ & -> & Hity).
  destruct (scalar_slot _ _ _ _ _ Ha Ht (lw_slots _ (so_wf _ _ Hok) _ _ Hsl)) as (_ & Hl & Hr).
  eapply (runs_metric_get_int _ _ _ _ Hok Hsl); [done|exact Htf| |exact Hx].
  unfold source. rewrite (proj2 (Z.eqb_neq _ _) Hl), (proj2 (Z.eqb_neq _ _) Hr). by destruct (tf =? _).
Qed.

Lemma prev_of_next ly s : set_ok ly s ->
  (next_idx (ly_geom ly) s + (ge_n (ly_geom ly) - 1)) mod ge_n (ly_geom ly) = s_curr_idx s.
Proof.
  intros Hok. pose proof (so_curr _ _ Hok). unfold next_idx. rewrite Zplus_mod_idemp_l.
  replace (s_curr_idx s + 1 + (ge_n (ly_geom ly) - 1)) with (s_curr_idx s + 1 * ge_n (ly_geom ly)) by lia.
  rewrite Z.mod_add by lia. by apply Z.mod_small.
Qed.

(** Readers do not see a transaction in progress. *)
Lemma isolation ly s i t x it set get ops sec usec :
  set_ok ly s -> ge_n (ly_geom ly) <> 1 -> scalar_access t = Some (it, set, get) ->
  holds ly s (s_curr_idx s) i t x -> Forall (op_ok ly) ops ->
  runs (_ ← ldms_transaction_begin sec usec; run_sets ops;; get (Z.of_nat i)) s (fun r s' => r = wrap it x /\ set_ok ly s').
Proof.
  intros Hok Hn Ha Hx Hops. apply runs_bind. eapply runs_mono; [by apply (runs_begin ly)|]. intros _ s1 (_ & Hsw & Hst1).
  pose proof (next_idx_ne _ _ Hok Hn) as Hne. pose proof (so_curr _ _ Hok) as Hc.
  apply (switched_there _ _ s1) in Hx; [|done..|lia]. apply runs_bind.
  eapply runs_mono; [apply runs_run_sets; [apply Hsw|done]|]. intros [] s2 [Hok2 Heq2 Hst2 _ Hthere].
  apply Hthere in Hx; [|lia|rewrite (sx_curr _ _ _ Hsw); lia]. destruct (Hst2 _ _ _ Hst1) as [Htf2 _].
  eapply runs_mono; [eapply (runs_get_scalar ly s2 i t x); [done|exact Htf2|exact Ha|]|by intros r ? [-> ->]].
  cbn [Z.eqb LDMS_TRANSACTION_BEGIN LDMS_TRANSACTION_END]. assert (s_curr_idx s2 = next_idx (ly_geom ly) s) as ->.
  { rewrite Heq2. apply (sx_curr _ _ _ Hsw). }
  by rewrite prev_of_next.
Qed.

Lemma last_set_in ops i x y : i ∈ ops.*1.*1 -> last_set ops i x = last_set ops i y.
Proof.
  revert x y. induction ops as [|[[j t] z] ops IH]; intros x y Hi; [by apply not_elem_of_nil in Hi|].
  cbn [last_set]. apply elem_of_cons in Hi as [->|Hi]; [by rewrite !decide_True|]. by apply IH.
Qed.

(** Writes to the header of the current section leave the values. *)
Lemma holds_header ly s s' k i t x :
  set_ok ly s -> 0 <= k < ge_n (ly_geom ly) -> s_meta s' = s_meta s -> s_data_array s' = s_data_array s ->
  framel (s_mem s) (s_mem s') [(s_data s, 20); (s_data s + dh_gn, 8)] ->
  holds ly s k i t x -> holds ly s' k i t x.
Proof.
  intros Hok Hk Hm Hda F (sl & it & set & get & Hsl & Hd & Ht & Ha & Hx).
  destruct (holds_range _ _ k _ _ x _ _ _ _ Hok Hsl Hd Ht Ha Hk) as [Hlo Hhi].
  exists sl, it, set, get. split_and!; try done.
  assert (value_in (ly_geom ly) s' k sl = value_in (ly_geom ly) s k sl) as -> by (unfold value_in, section; by rewrite Hm, Hda).
  pose proof (so_data _ _ Hok) as Hsd. pose proof (so_curr _ _ Hok). pose proof (geom_bounds _ _ Hok).
  assert (k = s_curr_idx s \/ apart (section (ly_geom ly) s k) (ge_data_sz (ly_geom ly)) (s_data s) (ge_data_sz (ly_geom ly))) as Hap.
  { destruct (decide (k = s_curr_idx s)) as [|Hne]; [by left|right]. rewrite Hsd. apply (sections_apart _ _ Hok); lia. }
  apply F; [done|]. rewrite !Forall_cons, Forall_nil. cbn [fst snd]. unfold dh_gn, apart in *.
  destruct Hap as [->|Hap]; rewrite ?Hsd in *; lia.
Qed.

(** The set after the begin of a transaction, in a ring of any length. *)
Lemma runs_begin_any ly s i t x sec usec :
  set_ok ly s -> holds ly s (s_curr_idx s) i t x ->
  runs (ldms_transaction_begin sec usec) s (fun _ s' => set_ok ly s' /\ stamped s' sec usec LDMS_TRANSACTION_BEGIN /\
    s_flags s' = s_flags s /\
    exists y, holds ly s' (s_curr_idx s') i t y /\
      (flag (s_flags s) LDMS_SET_F_DATA_COPY = true \/ ge_n (ly_geom ly) = 1 -> y = x)).
Proof.
  intros Hok Hx. destruct (decide (ge_n (ly_geom ly) = 1)) as [Hn|Hn].
  - eapply runs_mono; [by apply (runs_begin_single ly)|]. intros _ s' (_ & Heq & Hok' & F & Hst).
    split_and!; [done|done|by rewrite Heq|]. exists x. split; [|done].
    assert (s_curr_idx s' = s_curr_idx s) as -> by (by rewrite Heq).
    eapply (holds_header ly s); [done|apply (so_curr _ _ Hok)|by rewrite Heq..| |done].
    eapply framel_mono; [exact F|set_solver].
  - eapply runs_mono; [by apply (runs_begin ly)|]. intros _ s' (_ & Hsw & Hst).
    split_and!; [apply Hsw|done|apply Hsw|]. destruct (flag (s_flags s) LDMS_SET_F_DATA_COPY) eqn:Hf.
    + exists x. split; [by eapply switched_copy|done].
    + destruct (holds_ex ly s' (s_curr_idx s') i t x _ _ (sx_ok _ _ _ Hsw) (so_curr _ _ (sx_ok _ _ _ Hsw)) Hx) as [y Hy].
      exists y. split; [done|]. by intros [].
Qed.

Lemma commit ly s i t x it set get ops sec usec sec' usec' :
  set_ok ly s -> scalar_access t = Some (it, set, get) ->
  holds ly s (s_curr_idx s) i t x -> Forall (op_ok ly) ops ->
  0 <= sec < 2 ^ 32 -> 0 <= usec < 2 ^ 32 ->
  flag (s_flags s) LDMS_SET_F_DATA_COPY = true \/ ge_n (ly_geom ly) = 1 \/ i ∈ ops.*1.*1 ->
  runs (_ ← ldms_transaction_begin sec usec; run_sets ops;; _ ← ldms_transaction_end sec' usec'; get (Z.of_nat i)) s
    (fun r s' => r = wrap it (last_set ops i x) /\ set_ok ly s').
Proof.
  intros Hok Ha Hx Hops Hsec Husec Hcase. apply runs_bind. eapply runs_mono; [by eapply runs_begin_any|].
  intros _ s1 (Hok1 & Hst1 & Hf1 & y & Hy & Hyx). apply runs_bind. eapply runs_mono; [by apply runs_run_sets|].
  intros [] s2 [Hok2 Heq2 Hst2 Hhere _]. apply runs_bind.
  eapply runs_mono; [eapply (runs_end ly); [done|by apply Hst2|done|done]|]. intros _ s3 [_ [Heq3 Hok3 [Htf3 _] _ _ F3]].
  assert (last_set ops i y = last_set ops i x) as Hlast.
  { destruct Hcase as [Hc|[Hc|Hc]]; [by rewrite (Hyx (or_introl Hc))|by rewrite (Hyx (or_intror Hc))|by apply last_set_in]. }
  apply Hhere in Hy. rewrite Hlast in Hy. 
  eapply runs_mono; [eapply (runs_get_scalar ly s3 i t (last_set ops i x)); [done|exact Htf3|exact Ha|]|by intros r ? [-> ->]].
  cbn [Z.eqb LDMS_TRANSACTION_END].
  assert (s_curr_idx s3 = s_curr_idx s2) as -> by (by rewrite Heq3).
  assert (s_curr_idx s1 = s_curr_idx s2) as Hc12 by (by rewrite Heq2). rewrite Hc12 in Hy.
  eapply (holds_header ly s2); [done|apply (so_curr _ _ Hok2)|by rewrite Heq3..|done|done].
Qed.
