(* ===== verification/SetMake.v ===== *)
(** * [ldms_set_create]

    The whole of set creation, on a schema whose layout fits: the set that is
    registered is well-formed, has a slot for each metric of the schema, and
    its data values are zero. *)

From stdpp Require Import prelude gmap strings.
From Stdlib Require Import Ascii String.
From S2P Require Import Prelude Bytes CStr Mem MemFrame CFloat MVal MValSpec Schema SchemaSpec Rrbt LdmsHeap.
From S2P Require Import HeapInit SetCreate SetOps SetLayout SetInit SetSpec SetMetric SetTrans SetProps.
From S2P Require Import SetBuild.

Open Scope Z_scope.

(** ** Strings in memory *)

Fixpoint no_nul (s : string) : Prop :=
  match s with
  | EmptyString => True
  | String c s => byte_of c <> 0 /\ no_nul s
  end.

Lemma name_allowed_no_nul s : name_allowed s = true -> no_nul s.
Proof.
  induction s as [|c s IH]; [done|]. cbn [name_allowed no_nul]. intros [Hc Hs]%andb_true_iff. split; [|auto].
  intros E. unfold ldms_set_instance_name_char_allowed in Hc. by rewrite E in Hc.
Qed.

Lemma ascii_of_byte c : ascii_of_N (Z.to_N (byte_of c)) = c.
Proof. unfold byte_of. by rewrite N2Z.id, ascii_N_embedding. Qed.

Lemma runs_ld_cstr m s p fuel (Q : string -> mem -> Prop) :
  has m p (cstr s) -> no_nul s -> (String.length s < fuel)%nat -> Q s m -> runs (ld_cstr fuel p) m Q.
Proof.
  revert p fuel Q. induction s as [|c s IH]; intros p fuel Q Hh Hn Hf HQ; (destruct fuel as [|fuel]; [simpl in Hf; lia|]); cbn [ld_cstr].
  - apply runs_bind. eapply runs_ldw; [exact Hh|done|]. by apply runs_ret.
  - change (cstr (String c s)) with ([byte_of c] ++ cstr s) in Hh. apply has_app in Hh as [Hc Hh]. destruct Hn as [Hc0 Hn].
    apply runs_bind. eapply runs_ldw; [exact Hc|done|].
    replace (le_value [byte_of c]) with (byte_of c) by (simpl; lia). rewrite (proj2 (Z.eqb_neq _ _) Hc0).
    apply runs_bind, (IH (p + 1)); [done|done|simpl in Hf; lia|]. apply runs_ret. by rewrite ascii_of_byte.
Qed.

Lemma runs_ld_str m s p (Q : string -> mem -> Prop) :
  has m p (cstr s) -> no_nul s -> Q s m -> runs (ld_str p) m Q.
Proof.
  intros Hh Hn HQ. apply runs_bind, runs_gets. eapply runs_ld_cstr; [done|done| |done].
  apply has_inside in Hh. rewrite zlen_cstr in Hh. unfold inside, msize, strlen in Hh. lia.
Qed.

(** ** Sizes *)

Definition counted (x : ldms_schema) : ldms_schema :=
  Schema (sc_name x) (sc_digest x) (sc_evp x) (sc_card x) (sc_meta_sz x) (sc_data_sz x) (sc_array_card x)
    (list_count <$> sc_list x).

(** The sizes [compute_set_sizes] returns. *)
Definition sizes_of (name : string) (x : ldms_schema) (heap_sz : Z) : set_sizes :=
  let hsz := u64 (sum_Z (list_heap <$> sc_list x)) in
  let heap_sz := ldms_heap_size (if heap_sz <? hsz then hsz else heap_sz) in
  let card := if sc_array_card x =? 0 then 1 else sc_array_card x in
  let meta_sz := mask_roundup (u64 (sc_meta_sz x + strlen (sc_name x) + 2 + LDMS_DIGEST_LENGTH + strlen name + 2)) 8 in
  let array_data_sz := u64 ((sc_data_sz x + heap_sz) * card) in
  Sizes card meta_sz array_data_sz heap_sz (u64 (meta_sz + array_data_sz)).

Definition with_schema (w : world) (s : Z) (x : ldms_schema) : world :=
  World (<[s := x]> (w_schemas w)) (w_records w) (w_next w) (w_alloc w).

Lemma runs_schema_at s w x (Q : ldms_schema -> world -> Prop) :
  w_schemas w !! s = Some x -> Q x w -> runs (schema_at s) w Q.
Proof. intros H HQ. exists x, w. split; [|done]. unfold schema_at. by rewrite H. Qed.

Lemma runs_set_schema s x w (Q : unit -> world -> Prop) : Q tt (with_schema w s x) -> runs (set_schema s x) w Q.
Proof. intros. by apply runs_modify. Qed.

Lemma runs_compute_set_sizes name s heap_sz w x (Q : option set_sizes -> world -> Prop) :
  w_schemas w !! s = Some x -> 0 <= sc_array_card x -> sc_data_sz x = mask_roundup (sc_data_sz x) 8 ->
  Q (Some (sizes_of name x heap_sz)) (with_schema w s (counted x)) -> runs (compute_set_sizes name s heap_sz) w Q.
Proof.
  intros Hx Hc Hd HQ. unfold compute_set_sizes. apply runs_bind. eapply runs_schema_at; [done|].
  apply runs_bind, runs_set_schema. rewrite (proj2 (Z.ltb_ge _ _)) by lia.
  apply runs_bind, runs_assert; [by apply Z.eqb_eq|]. by apply runs_ret.
Qed.

Lemma lift_runs {S A} (o : option A) a (s : S) (Q : A -> S -> Prop) : o = Some a -> Q a s -> runs (lift_opt o) s Q.
Proof. intros -> HQ. by exists a, s. Qed.

Lemma runs_eq {S A} (m : M S A) s a0 s0 : runs m s (fun a s' => a = a0 /\ s' = s0) -> m s = Some (a0, s0).
Proof. by intros (a & s' & H & -> & ->). Qed.

(** ** Registration *)

Record registered (env : registry -> registry) (g g' : registry) (name : string) (id : Z) : Prop := Registered {
  rg_name : g_names g' = <[name := id]> (g_names (env (Reg (g_names g) (g_next_id g + 1))));
  rg_id : id = g_next_id g
}.

Lemma record_set_ok env g name meta db m x l sz uid gid perm :
  layout_ok name x l sz -> set_written m meta name x l sz uid gid perm -> no_nul name ->
  g_names g !! name = None -> g_names (env (Reg (g_names g) (g_next_id g + 1))) !! name = None ->
  exists g', __record_set env (true, true) g name meta db LDMS_SET_F_LOCAL m =
    Some (g', inr (Set_ LDMS_SET_F_LOCAL (g_next_id g) meta
      (db + (sz_array_card sz - 1) * (sc_data_sz x + sz_heap sz)) db (sz_array_card sz - 1) None [] m)) /\
    registered env g g' name (g_next_id g).
Proof.
  intros Hlay Hw Hn Hg Henv. destruct (layout_bounds _ _ _ _ Hlay) as (Hcl & Hnames & Hdt & Hmt & Hfv & Hmf & Had & Htot & Hdsz & Hhsz).
  pose proof (lo_n _ _ _ _ Hlay). pose proof (lo_array _ _ _ _ Hlay) as Ha. pose proof (lo_data _ _ _ _ Hlay) as [Hd _].
  unfold sizeof_ldms_data_hdr in Hd.
  assert (sz_array_card sz < 2 ^ 31) by nia. assert (sc_data_sz x + sz_heap sz < 2 ^ 31) by nia.
  destruct (sw_header _ _ _ _ _ _ _ _ _ Hw) as (E1 & E2 & E3 & E4 & E5). cbn [schema_geom ge_card ge_meta_sz ge_data_sz ge_heap_sz ge_n] in *.
  unfold __record_set. rewrite Hg. cbn [fst snd negb].
  assert (ldw 4 (meta + sh_array_card) m = Some (sz_array_card sz, m)) as R1.
  { apply runs_eq. eapply (runs_ld_word 4); [exact E5|lia|done]. }
  rewrite R1. cbn [mbind option_bind]. rewrite s32_small by lia.
  assert (__set_array_get db meta (sz_array_card sz - 1) m =
    Some (db + (sz_array_card sz - 1) * (sc_data_sz x + sz_heap sz), m)) as R2.
  { apply runs_eq, runs_bind. eapply (runs_ld_word 4); [exact E3|lia|]. by apply runs_ret. }
  rewrite R2. cbn [mbind option_bind].
  assert ((p ← get_instance_name meta; ld_str (p + 1)) m = Some (name, m)) as R3.
  { destruct (sw_names _ _ _ _ _ _ _ _ _ Hw) as (N1 & N2 & _).
    apply runs_eq. unfold get_instance_name. apply runs_bind, runs_bind. eapply (runs_ld_word 4); [exact E1|lia|]. apply runs_ret.
    eapply runs_ld_str; [exact N2|done|done]. }
  rewrite R3. cbn [option_bind mbind]. rewrite Henv. eexists. split; [reflexivity|]. by constructor.
Qed.

(** ** Creation *)

(** Every data metric that is not a record array is zero in every section. *)
Definition zeroed (ly : layout) (s : ldms_set) : Prop :=
  forall i sl k, ly_slots ly !! i = Some sl -> is_data (sl_def sl) = true ->
    md_type (sl_def sl) <> code LDMS_V_RECORD_ARRAY -> 0 <= k < ge_n (ly_geom ly) ->
    has (s_mem s) (value_in (ly_geom ly) s k sl) (replicate (Z.to_nat (slot_size (sl_def sl))) 0).

Lemma written_zeroed name x l sz m uid gid perm s :
  layout_ok name x l sz -> Forall step_ok l -> data_fits x l ->
  set_written m (base m) name x l sz uid gid perm ->
  s_mem s = m -> s_meta s = base m -> s_data_array s = base m + sz_meta sz ->
  zeroed (schema_layout name x l sz) s.
Proof.
  intros Hlay Hst Hfit Hw Hm Hmeta Harr i sl k Hsl Hd Ht Hk. rewrite Hm. cbn [schema_layout ly_geom schema_geom ge_n] in Hk.
  pose proof (lw_slots _ (schema_layout_wf _ _ _ _ Hlay Hst Hfit) _ _ Hsl) as [Hmd Hss _ _ Hr]. rewrite Hd in Hr.
  cbn [schema_layout ly_geom schema_geom ge_vsz ge_data_sz ge_heap_sz] in Hr.
  replace (ge_vsz (schema_geom x sz)) with (sc_data_sz x) in Hr by (unfold ge_vsz; cbn; lia). unfold sizeof_ldms_data_hdr in Hr.
  destruct (sw_sections _ _ _ _ _ _ _ _ _ Hw k Hk) as (_ & _ & _ & Hz). unfold sizeof_ldms_data_hdr in Hz.
  unfold value_in, section. rewrite Hd, Harr. cbn [schema_layout ly_geom schema_geom ge_data_sz].
  replace (base m + sz_meta sz + k * (sc_data_sz x + sz_heap sz) + sl_off sl)
    with (base m + sz_meta sz + k * (sc_data_sz x + sz_heap sz) + 96 + (sl_off sl - 96)) by lia.
  eapply has_zeros; [exact Hz|lia..].
Qed.

(** The record arrays are apart from the other values. *)
Lemma zeroed_rec_arrays ly s m' :
  set_ok ly s -> zeroed ly s -> rec_arrays_only ly s (s_mem s) m' -> zeroed ly (with_mem s m').
Proof.
  intros Hok Hz Hra i sl k Hsl Hd Ht Hk.
  change (value_in (ly_geom ly) (with_mem s m') k sl) with (value_in (ly_geom ly) s k sl).
  apply Hra; [by eapply Hz|]. intros j sl' k' Hsl' Ht' Hk'. rewrite zlen_zeros.
  rewrite Z2Nat.id by (apply (lw_slots _ (so_wf _ _ Hok) _ _ Hsl)).
  apply (values_apart _ _ j i _ _ _ _ Hok Hsl' Hsl Hk' Hk). left. intros ->. rewrite Hsl in Hsl'. by injection Hsl' as <-.
Qed.

Section create.
Context (sha256 : bytes -> bytes) (blk : Z -> option mem) (env : registry -> registry).
Context (name : string) (s uid gid perm heap_sz : Z) (g : registry) (w : world) (x : ldms_schema) (l : list rentry) (m : mem).
#[local] Abbreviation sz := (sizes_of name x heap_sz).
#[local] Abbreviation x1 := (__ldms_schema_finalize sha256 (counted x)).
#[local] Abbreviation w1 := (with_schema (with_schema w s (counted x)) s (__ldms_schema_finalize sha256 (counted x))).

Lemma finalize_keeps y :
  sc_name (__ldms_schema_finalize sha256 y) = sc_name y /\ sc_list (__ldms_schema_finalize sha256 y) = sc_list y /\
  sc_data_sz (__ldms_schema_finalize sha256 y) = sc_data_sz y /\ sc_array_card (__ldms_schema_finalize sha256 y) = sc_array_card y /\
  sc_card (__ldms_schema_finalize sha256 y) = sc_card y /\ sc_meta_sz (__ldms_schema_finalize sha256 y) = sc_meta_sz y.
Proof. unfold __ldms_schema_finalize. by destruct (bool_decide _). Qed.

Lemma runs_set_create :
  name_allowed name = true -> w_schemas w !! s = Some x -> 0 <= sc_array_card x ->
  resolve (sc_list x1) w1 = Some (l, w1) ->
  layout_ok name x1 l sz -> Forall step_ok l -> data_fits x1 l ->
  blk (sz_meta sz + sz_array_data sz) = Some m -> block m (sz_meta sz + sz_array_data sz) ->
  g_names g !! name = None -> g_names (env (Reg (g_names g) (g_next_id g + 1))) !! name = None ->
  runs (ldms_set_create sha256 blk env (true, true, true) (Some name) (Some s) uid gid perm heap_sz g) w (fun r w' =>
    exists g' set, r = (g', inr set) /\ w' = w1 /\ registered env g g' name (s_set_id set) /\
      set_ok (schema_layout name x1 l sz) set /\ zeroed (schema_layout name x1 l sz) set).
Proof.
  intros Hname Hx Hcard Hres Hlay Hst Hfit Hblk Hbl Hg Henv.
  destruct (layout_bounds _ _ _ _ Hlay) as (Hcl & Hnames & Hdt & Hmt & Hfv & Hmf & Had & Htot & Hdsz & Hhsz).
  destruct (finalize_keeps (counted x)) as (_ & _ & Kd & Ka & _ & _). cbn [counted sc_data_sz sc_array_card] in Kd, Ka.
  pose proof (lo_data _ _ _ _ Hlay) as [_ Hd8]. rewrite Kd in *.
  unfold ldms_set_create. rewrite Hname. cbn [negb fst snd]. apply runs_bind.
  eapply runs_compute_set_sizes; [exact Hx|done|rewrite mask_roundup_8 by lia; dlia|].
  assert (sz_total sz = sz_meta sz + sz_array_data sz) as Ht by (apply u64_small; lia).
  rewrite Ht, s32_small by lia. pose proof (strlen_nonneg name). unfold names_end in *. pose proof (strlen_nonneg (sc_name x1)).
  rewrite (proj2 (Z.eqb_neq _ _)) by lia. rewrite u64_small by lia.
  apply runs_bind. eapply runs_schema_at; [apply lookup_insert_eq|]. apply runs_bind, runs_set_schema.
  apply runs_bind. eapply runs_schema_at; [apply lookup_insert_eq|].
  apply runs_bind. exists l, w1. split; [exact Hres|]. rewrite Hblk.
  destruct (runs_write_set name x1 l sz uid gid perm Hlay m Hbl) as ([] & m1 & Hwr & Hw & Hbl1 & Hb1).
  apply runs_bind, (lift_runs _ _ _ _ Hwr).
  destruct (sw_header _ _ _ _ _ _ _ _ _ Hw) as (E1 & E2 & E3 & E4 & E5). cbn [schema_geom ge_card ge_meta_sz ge_data_sz ge_heap_sz ge_n] in *.
  assert (ldw 4 (base m + sh_meta_sz) m1 = Some (sz_meta sz, m1)) as R1.
  { apply runs_eq. eapply (runs_ld_word 4); [exact E2|lia|done]. }
  apply runs_bind, (lift_runs _ _ _ _ R1).
  destruct (record_set_ok env g name (base m) (base m + sz_meta sz) m1 _ _ _ _ _ _ Hlay Hw (name_allowed_no_nul _ Hname) Hg Henv) as (g' & R2 & Hreg).
  apply runs_bind, (lift_runs _ _ _ _ R2). cbn [s_mem s_data s_data_array s_flags s_set_id s_curr_idx].
  assert (ldw 4 (base m + sh_heap_sz) m1 = Some (sz_heap sz, m1)) as R3.
  { apply runs_eq. eapply (runs_ld_word 4); [exact E4|lia|done]. }
  apply runs_bind, (lift_runs _ _ _ _ R3).
  set (sd := base m + sz_meta sz + (sz_array_card sz - 1) * (sc_data_sz x1 + sz_heap sz)).
  set (heap := if sz_heap sz =? 0 then None else Some (Heap (sd + dh_heap) (sd + sc_data_sz x1))).
  pose proof (lo_n _ _ _ _ Hlay) as Hn.
  apply runs_bind. eapply (runs_mono _ _ (fun h w' => h = heap /\ w' = w1)).
  { unfold heap. destruct (Z.eqb_spec (sz_heap sz) 0) as [Hz|Hz]; [by apply runs_ret|].
    destruct (sw_sections _ _ _ _ _ _ _ _ _ Hw (sz_array_card sz - 1) ltac:(lia)) as (_ & _ & Hh & _). fold sd in Hh.
    rewrite (proj2 (Z.eqb_neq _ _) Hz) in Hh.
    assert (ldms_heap_get (sd + dh_heap) (sd + sc_data_sz x1) m1 = Some (Heap (sd + dh_heap) (sd + sc_data_sz x1), m1)) as R4.
    { apply runs_eq, runs_bind. eapply runs_peek; [apply Hh|done|]. apply runs_bind, runs_assert; [by apply bool_decide_eq_true|].
      by apply runs_ret. }
    apply runs_bind, (lift_runs _ _ _ _ R4). by apply runs_ret. }
  intros h ? [-> ->].
  pose (set0 := Set_ LDMS_SET_F_LOCAL (g_next_id g) (base m) sd (base m + sz_meta sz) (sz_array_card sz - 1) heap [] m1).
  rewrite <- Hb1 in Hw.
  assert (set_ok (schema_layout name x1 l sz) set0) as Hok0.
  { eapply (written_set_ok _ _ _ _ Hlay Hst Hfit m1); try done; cbn [set0 s_meta s_data_array s_curr_idx s_data s_heap]; rewrite ?Hb1; try done. lia. }
  assert (zeroed (schema_layout name x1 l sz) set0) as Hz0.
  { eapply (written_zeroed name x1 l sz m1); try done; cbn [set0 s_meta s_data_array]; by rewrite Hb1. }
  destruct (runs_init_rec_arrays name x1 l sz Hlay Hst set0 (sc_array_card x1) l 0 m1) as ([] & m2 & R5 & Hok2 & Hra).
  { done. } { done. } { rewrite Ka. cbn. destruct (Z.eqb_spec (sc_array_card x) 0); lia. }
  apply runs_bind, (lift_runs _ _ _ _ R5). apply runs_ret. exists g', (with_mem set0 m2).
  split_and!; [done|done|done|done|]. by apply zeroed_rec_arrays.
Qed.

End create.
