(* ===== verification/SetPlain.v ===== *)
(** * Sets of plain schemas

    A schema of scalars, arrays, lists and timestamps that was built through
    the interface gives sets that are well-formed: the sizes the interface
    keeps have room for the descriptors and the values. *)

From stdpp Require Import prelude gmap strings.
From Stdlib Require Import Ascii String.
From S2P Require Import Prelude Bytes CStr Mem MemFrame CFloat MVal MValSpec Schema SchemaSpec Rrbt LdmsHeap.
From S2P Require Import HeapInit SetCreate SchemaInv SetOps SetLayout SetInit SetSpec SetMetric SetTrans.
From S2P Require Import SetProps SetBuild SetMake.

Open Scope Z_scope.

(** A metric of a plain type whose name and unit are not absurdly long. *)
Definition plain_mdef (m : mdef) : Prop :=
  md_type m <> code LDMS_V_RECORD_TYPE /\ md_type m <> code LDMS_V_RECORD_ARRAY /\
  strlen (md_name m) < 2 ^ 32 /\ unit_len (md_unit m) < 2 ^ 32.

Definition plain_entry (e : mentry) : Prop :=
  match e with MPlain m => plain_mdef m | _ => False end.

Definition plain_of (e : mentry) : rentry :=
  match e with MPlain m => RPlain m | MRecArray m rt isz => RRecArray m rt isz | MRecord r => RRecArray (Mdef EmptyString None 0 0 0 0 0) 0 0 end.

Lemma sized_ok m :
  sized m -> plain_mdef m -> 0 <= md_flags m < 256 ->
  mdef_ok m /\ md_data_sz m = vsize m /\ md_meta_sz m mod 8 = 0 /\ md_data_sz m mod 8 = 0 /\ 0 <= md_data_sz m.
Proof.
  intros [Hs Hc] (H1 & H2 & Hn & Hu) Hf. unfold __ldms_metric_size_get in Hs.
  destruct (__ldms_value_size_get (md_type m) (md_count m)) as [sz|] eqn:Hsz; [|done]. injection Hs as Hm Hd.
  destruct (value_size_bounds _ _ _ Hc Hsz) as (H8 & Hr & _). pose proof (strlen_nonneg (md_name m)).
  unfold sizeof_ldms_value_desc in Hm. unfold vsize. rewrite Hsz. cbn [default].
  assert (md_meta_sz m = (desc_len m + 1 + 7) / 8 * 8) as Hmm.
  { rewrite <- Hm. unfold desc_len. destruct (md_unit m) as [u|]; cbn [unit_len] in *.
    - pose proof (strlen_nonneg u). rewrite mask_roundup_8 by lia. do 2 f_equal. lia.
    - rewrite mask_roundup_8 by lia. do 2 f_equal. lia. }
  pose proof (desc_len_pos m). split_and!; [|done|rewrite Hmm; by apply Z.mod_mul|by rewrite <- Hd|lia].
  constructor; [rewrite Hmm; dlia|by rewrite Hsz|done|done].
Qed.

Lemma list_count_plain e : plain_entry e -> plain_entry (list_count e).
Proof.
  destruct e as [[n u t f c ms ds]|r|m rt isz]; [|done|done]. cbn. intros (H1 & H2 & H3 & H4). by destruct (_ && _).
Qed.

Lemma resolve_plain l w : Forall plain_entry l -> resolve l w = Some (plain_of <$> l, w).
Proof.
  induction 1 as [|e l He _ IH]; [done|]. destruct e as [m|r|m rt isz]; [|done|done]. cbn [resolve fmap list_fmap plain_of].
  unfold mbind, M_bind. cbn [mret M_ret]. change (list_fmap mentry rentry plain_of l) with (plain_of <$> l). by rewrite IH.
Qed.

Lemma plain_inv_ok e m :
  e = MPlain m -> plain_entry e -> entry_inv e ->
  entry_ok (RPlain m) /\ md_data_sz m = vsize m /\ md_meta_sz m mod 8 = 0 /\ md_data_sz m mod 8 = 0 /\ 0 <= md_data_sz m /\
  slot_size m = md_data_sz m /\ meta_size m = (if is_data m then 0 else md_data_sz m) /\ extra_size m = 0.
Proof.
  intros -> Hp [Hs Hf]. pose proof Hp as (H1 & H2 & _).
  assert (0 <= md_flags m < 256) as Hfr by (destruct Hf as [-> | ->]; done).
  destruct (sized_ok _ Hs Hp Hfr) as (Hok & Hv & Hm8 & Hd8 & Hd0).
  split_and!; try done.
  - unfold slot_size. by rewrite (proj2 (Z.eqb_neq _ _) H1), (proj2 (Z.eqb_neq _ _) H2).
  - unfold meta_size. rewrite (proj2 (Z.eqb_neq _ _) H1). by destruct (is_data m).
  - unfold extra_size. by rewrite (proj2 (Z.eqb_neq _ _) H2).
Qed.

(** The sums the schema keeps are those of the layout. *)
Lemma plain_sums recs L :
  Forall plain_entry L -> Forall entry_inv L ->
  let mds := rentry_mdef <$> (plain_of <$> L) in
  sumZ (meta_part recs) L = desc_total mds + 4 * Z.of_nat (List.length L) + meta_total mds /\
  desc_total mds mod 8 = 0 /\ meta_total mds mod 8 = 0 /\ sumZ data_part L mod 8 = 0 /\ 0 <= sumZ data_part L /\
  forall added, sumZ (twice_part added recs) L = 0.
Proof.
  intros Hp. induction Hp as [|e L He Hp IH]; intros Hi; [done|]. apply Forall_cons in Hi as [Hie Hi].
  destruct e as [m|r|m rt isz]; [|done|done].
  destruct (plain_inv_ok _ m eq_refl He Hie) as (_ & Hv & Hm8 & Hd8 & Hd0 & _ & Hms & _). destruct (IH Hi) as (E1 & E2 & E3 & E4 & E5 & E6).
  cbv zeta. rewrite !fmap_cons, !sumZ_cons, desc_total_cons, meta_total_cons, E1. cbn [plain_of rentry_mdef meta_part data_part List.length].
  assert (forall added, sumZ (twice_part added recs) (MPlain m :: L) = 0) as E7 by (intros added; by rewrite sumZ_cons, E6).
  rewrite Hms. clear -E2 E3 E4 E5 E7 Hm8 Hd8 Hd0. destruct (is_data m); split_and!; try exact E7; try lia; dlia.
Qed.

Lemma plain_data_fits L off k e o :
  Forall plain_entry L -> Forall entry_inv L -> (plain_of <$> L) !! k = Some e -> is_data (rentry_mdef e) = true ->
  data_offs off (rentry_mdef <$> (plain_of <$> L)) !! k = Some o ->
  o + slot_size (rentry_mdef e) <= off + sumZ data_part L.
Proof.
  intros Hp. revert off k. induction Hp as [|e0 L He Hp IH]; intros off k Hi Hk Hd Ho; [done|]. apply Forall_cons in Hi as [Hie Hi].
  destruct e0 as [m|r|m rt isz]; [|done|done].
  destruct (plain_inv_ok _ m eq_refl He Hie) as (_ & Hv & _ & _ & Hd0 & Hss & _ & Hx).
  pose proof (plain_sums ∅ L Hp Hi) as (_ & _ & _ & _ & Hnn & _). rewrite sumZ_cons. cbn [data_part].
  rewrite !fmap_cons in *. cbn [plain_of rentry_mdef] in *. destruct k as [|k].
  - injection Hk as <-. injection Ho as <-. cbn [rentry_mdef] in *. rewrite Hd, Hss. lia.
  - cbn in Hk, Ho. specialize (IH _ _ Hi Hk Hd Ho). unfold next_off in IH. rewrite Hx, <- Hv in IH. destruct (is_data m); lia.
Qed.

Lemma plain_entries L : Forall plain_entry L -> Forall entry_inv L ->
  Forall entry_ok (plain_of <$> L) /\ Forall step_ok (plain_of <$> L).
Proof.
  intros Hp Hi. split; apply Forall_fmap; rewrite Forall_forall in *; intros e Hin.
  - destruct e as [m|r|m rt isz]; [|by destruct (Hp _ Hin)..]. by apply (plain_inv_ok _ m eq_refl (Hp _ Hin) (Hi _ Hin)).
  - destruct e as [m|r|m rt isz]; [done|by destruct (Hp _ Hin)..].
Qed.

(** The bounds under which the sizes do not overflow. *)
Record small (w : world) (name : string) (x : ldms_schema) (heap_sz : Z) : Prop := Small {
  sm_plain : Forall plain_entry (sc_list x);
  sm_name : strlen name < 255;
  sm_schema : strlen (sc_name x) < 222;
  sm_meta : sumZ (meta_part (w_records w)) (sc_list x) < 2 ^ 29;
  sm_heap : 0 <= heap_sz < 2 ^ 31 /\ 0 <= sum_Z (list_heap <$> sc_list x) < 2 ^ 31;
  sm_data : (sizeof_ldms_data_hdr + sumZ data_part (sc_list x) + sz_heap (sizes_of name x heap_sz))
              * sz_array_card (sizes_of name x heap_sz) < 2 ^ 30
}.

Lemma heap_size_mod n : 0 <= n < 2 ^ 32 -> 0 <= ldms_heap_size n < 2 ^ 33 /\ ldms_heap_size n mod 512 = 0.
Proof.
  intros Hn. unfold ldms_heap_size, LDMS_HEAP_MIN_SIZE. rewrite (mask_roundup_pow2 9) by lia. change (2 ^ 9) with 512.
  split; [dlia|]. by apply Z.mod_mul.
Qed.

Lemma plain_layout_ok sha256 w s name x heap_sz :
  sha_ok sha256 -> schema_inv (w_records w) s x -> small w name x heap_sz ->
  let x1 := __ldms_schema_finalize sha256 (counted x) in
  let l := plain_of <$> sc_list x1 in
  layout_ok name x1 l (sizes_of name x heap_sz) /\ Forall step_ok l /\ data_fits x1 l.
Proof.
  intros Hsha Hinv [Hpl Hn Hsn Hm [Hh1 Hh2] Hdt] x1 l.
  pose proof (schema_inv_counted _ _ _ (sc_digest x) (sc_evp x) Hinv (si_digest _ _ _ Hinv)) as Hinvc.
  destruct (finalize_keeps sha256 (counted x)) as (K1 & K2 & K3 & K4 & K5 & K6). fold x1 in K1, K2, K3, K4, K5, K6.
  cbn [counted sc_name sc_list sc_data_sz sc_array_card sc_card sc_meta_sz] in *.
  set (L := list_count <$> sc_list x) in *.
  assert (Forall plain_entry L) as HpL by (apply Forall_fmap; eapply Forall_impl; [exact Hpl|apply list_count_plain]).
  pose proof (si_entries _ _ _ Hinvc) as HiL. cbn [sc_list] in HiL. fold L in HiL.
  destruct (plain_sums (w_records w) L HpL HiL) as (E1 & E2 & E3 & E4 & E5 & E6). subst l. rewrite K2.
  destruct (plain_entries L HpL HiL) as [Hent Hstep].
  assert (sumZ data_part L = sumZ data_part (sc_list x)) as Edata.
  { unfold L. rewrite sumZ_fmap. apply sumZ_ext. intros e _. apply (list_count_parts ∅). }
  assert (sumZ (meta_part (w_records w)) L = sumZ (meta_part (w_records w)) (sc_list x)) as Emeta.
  { unfold L. rewrite sumZ_fmap. apply sumZ_ext. intros e _. apply list_count_parts. }
  assert (forall added, sumZ (twice_part added (w_records w)) (sc_list x) = 0) as Etwice.
  { intros added. rewrite <- (E6 added). unfold L. rewrite sumZ_fmap. symmetry. apply sumZ_ext. intros e _. apply list_count_parts. }
  pose proof (desc_total_nonneg _ (entries_mdefs _ Hent)) as Hdt0. pose proof (meta_total_nonneg _ Hent) as Hmt0.
  pose proof (si_card _ _ _ Hinvc) as Ecard. cbn [sc_card sc_list] in Ecard. fold L in Ecard.
  destruct (si_meta _ _ _ Hinv) as (sl & _ & Emsz). rewrite Etwice in Emsz.
  pose proof (si_data _ _ _ Hinv) as Edsz. pose proof (si_array _ _ _ Hinv) as Hac.
  unfold sizeof_ldms_set_hdr, sizeof_ldms_data_hdr in *.
  set (n := sz_array_card (sizes_of name x heap_sz)) in *. set (h := sz_heap (sizes_of name x heap_sz)) in *.
  assert (1 <= n) as Hn1 by (unfold n; cbn; destruct (Z.eqb_spec (sc_array_card x) 0); lia).
  assert (0 <= h /\ h mod 512 = 0) as [Hh0 Hh5].
  { unfold h. cbn [sizes_of sz_heap]. rewrite (u64_small (sum_Z _)) by lia. split; apply heap_size_mod; destruct (_ <? _); lia. }
  assert (96 + sumZ data_part (sc_list x) + h < 2 ^ 30) as Hd30 by nia.
  rewrite u64_small in Edsz, Emsz by lia.
  assert (sz_array_data (sizes_of name x heap_sz) = (sc_data_sz x + h) * n) as Earr.
  { cbn [sizes_of sz_array_data]. fold h n. rewrite Edsz. apply u64_small. nia. }
  pose proof (strlen_nonneg name). pose proof (strlen_nonneg (sc_name x)).
  assert (sz_meta (sizes_of name x heap_sz) = roundup8 (180 + sumZ (meta_part (w_records w)) (sc_list x) + strlen (sc_name x) + strlen name)) as Emz.
  { cbn [sizes_of sz_meta]. unfold LDMS_DIGEST_LENGTH. rewrite u64_small by lia. rewrite mask_roundup_8 by lia. unfold roundup8. do 2 f_equal. lia. }
  assert (sumZ (meta_part (w_records w)) (sc_list x) = desc_total (rentry_mdef <$> (plain_of <$> L)) + 4 * sc_card x +
    meta_total (rentry_mdef <$> (plain_of <$> L))) as Esum by (rewrite Ecard, <- E1; done).
  destruct (roundup8_range (180 + sumZ (meta_part (w_records w)) (sc_list x) + strlen (sc_name x) + strlen name)) as [Hmr Hm8]; [lia|].
  split; [|split; [done|]].
  - constructor; rewrite ?K1, ?K3, ?K4, ?K5; fold h n; try done.
    + by rewrite length_fmap.
    + unfold x1, __ldms_schema_finalize. destruct (bool_decide _); [apply Hsha|apply Hinv].
    + unfold sizeof_ldms_data_hdr. rewrite Edsz, <- Edata. split; [lia|]. clear -E4. dlia.
    + rewrite Earr, Emz, Edsz. nia.
    + by rewrite Emz.
    + rewrite Emz, Esum. unfold first_value, first_desc, names_end, roundup8. clear -E2 E3. dlia.
  - intros k e o Hk Hd Ho. rewrite K3, Edsz, <- Edata. by eapply (plain_data_fits L 96).
Qed.

(** The layout of a set of a plain schema. *)
Definition plain_layout (sha256 : bytes -> bytes) (name : string) (x : ldms_schema) (heap_sz : Z) : layout :=
  let x1 := __ldms_schema_finalize sha256 (counted x) in
  schema_layout name x1 (plain_of <$> sc_list x1) (sizes_of name x heap_sz).

(** Creation of a set from a plain schema. *)
Lemma runs_set_create_plain sha256 blk env name s uid gid perm heap_sz g w x m :
  sha_ok sha256 -> world_inv w -> w_schemas w !! s = Some x -> small w name x heap_sz -> name_allowed name = true ->
  let sz := sizes_of name x heap_sz in
  blk (sz_meta sz + sz_array_data sz) = Some m -> block m (sz_meta sz + sz_array_data sz) ->
  g_names g !! name = None -> g_names (env (Reg (g_names g) (g_next_id g + 1))) !! name = None ->
  runs (ldms_set_create sha256 blk env (true, true, true) (Some name) (Some s) uid gid perm heap_sz g) w (fun r _ =>
    exists g' set, let ly := plain_layout sha256 name x heap_sz in
      r = (g', inr set) /\ registered env g g' name (s_set_id set) /\
      set_ok ly set /\ zeroed ly set /\ MPlain <$> (sl_def <$> ly_slots ly) = list_count <$> sc_list x).
Proof.
  intros Hsha Hw Hx Hsm Hname sz Hblk Hbl Hg Henv. pose proof (wi_schemas _ Hw _ _ Hx) as Hinv.
  destruct (plain_layout_ok _ _ _ _ _ _ Hsha Hinv Hsm) as (Hlay & Hst & Hfit).
  destruct (finalize_keeps sha256 (counted x)) as (_ & K2 & _). cbn [counted sc_list] in K2.
  assert (Forall plain_entry (list_count <$> sc_list x)) as HpL.
  { apply Forall_fmap. eapply Forall_impl; [apply (sm_plain _ _ _ _ Hsm)|apply list_count_plain]. }
  eapply runs_mono; [eapply (runs_set_create sha256 blk env name s uid gid perm heap_sz g w x); try done|].
  - apply (si_array _ _ _ Hinv).
  - apply resolve_plain. by rewrite K2.
  - intros r w' (g' & set & -> & _ & Hreg & Hok & Hz). exists g', set. cbn zeta. split_and!; [done|done|exact Hok|exact Hz|].
    unfold plain_layout. cbn [schema_layout ly_slots]. rewrite mk_slots_defs by apply length_value_offs. rewrite K2.
    clear -HpL. induction HpL as [|e L He _ IH]; [done|]. rewrite !fmap_cons, IH. by destruct e.
Qed.
