(* ===== verification/SetArray.v ===== *)
(** * Generic and array accessors

    The setters that select the type at run time store what the typed ones
    store, and the bulk setter of an array stores the elements one by one. *)

From stdpp Require Import prelude gmap strings.
From Stdlib Require Import Ascii String.
From S2P Require Import Prelude Bytes CStr Mem MemFrame CFloat MVal MValSpec Schema SchemaSpec Rrbt LdmsHeap.
From S2P Require Import HeapInit SetCreate SetOps SetLayout SetInit SetSpec SetMetric SetMake SetTrans.
From S2P Require Import SetProps SetBuild.

Open Scope Z_scope.

Lemma bind_eq {S A B} (m : M S A) (f : A -> M S B) s a s' : m s = Some (a, s') -> (m ≫= f) s = f a s'.
Proof. intros H. unfold mbind, M_bind. by rewrite H. Qed.

Lemma on_mem_bind_eq {A} (c c' : M mem A) s : c (s_mem s) = c' (s_mem s) -> on_mem c s = on_mem c' s.
Proof. intros H. unfold on_mem. by rewrite H. Qed.

(** ** Scalars *)

Lemma generic_set_eq ly s i sl t it set get x :
  set_ok ly s -> ly_slots ly !! i = Some sl -> md_type (sl_def sl) = code t -> scalar_access t = Some (it, set, get) ->
  ldms_metric_set (Z.of_nat i) x s = set (Z.of_nat i) x s.
Proof.
  intros Hok Hsl Ht Ha. unfold ldms_metric_set.
  rewrite (bind_eq _ _ _ _ _ (runs_eq _ _ _ _ (runs_card _ _ Hok _ (conj eq_refl eq_refl)))).
  rewrite (index_ok _ _ Hok _ _ Hsl).
  destruct (scalar_access_eq _ _ _ _ Ha) as (-> & _ & _). unfold metric_store.
  rewrite !(bind_eq _ _ _ _ _ (runs_eq _ _ _ _ (runs_mval_to_set _ _ Hok _ _ Hsl _ (conj eq_refl eq_refl)))).
  unfold mbind at 1, M_bind at 1. rewrite (on_mem_bind_eq _ (sti it (value_in (ly_geom ly) s (s_curr_idx s) sl) x)); [done|].
  unfold __metric_set. destruct (so_slots _ _ Hok _ _ Hsl) as [_ Hd].
  rewrite (bind_eq _ _ (s_mem s) (code t) (s_mem s)).
  - rewrite of_code_code. by destruct t; try discriminate Ha; injection Ha as <- _ _.
  - apply runs_eq. rewrite <- Ht. eapply (runs_ld_word 1); [apply Hd| |done].
    apply mdef_ok_type, (sl_mdef _ _ _ (lw_slots _ (so_wf _ _ Hok) _ _ Hsl)).
Qed.

(** ** Arrays *)

(** The element type, the setter and the getter of an array type. *)
Definition array_access (t : ldms_value_type) : option (ity * (Z -> Z -> Z -> SM unit) * (Z -> Z -> SM Z)) :=
  match t with
  | LDMS_V_CHAR_ARRAY => Some (t_char, ldms_metric_array_set_char, ldms_metric_array_get_char)
  | LDMS_V_U8_ARRAY => Some (t_u8, ldms_metric_array_set_u8, ldms_metric_array_get_u8)
  | LDMS_V_S8_ARRAY => Some (t_s8, ldms_metric_array_set_s8, ldms_metric_array_get_s8)
  | LDMS_V_U16_ARRAY => Some (t_u16, ldms_metric_array_set_u16, ldms_metric_array_get_u16)
  | LDMS_V_S16_ARRAY => Some (t_s16, ldms_metric_array_set_s16, ldms_metric_array_get_s16)
  | LDMS_V_U32_ARRAY => Some (t_u32, ldms_metric_array_set_u32, ldms_metric_array_get_u32)
  | LDMS_V_S32_ARRAY => Some (t_s32, ldms_metric_array_set_s32, ldms_metric_array_get_s32)
  | LDMS_V_U64_ARRAY => Some (t_u64, ldms_metric_array_set_u64, ldms_metric_array_get_u64)
  | LDMS_V_S64_ARRAY => Some (t_s64, ldms_metric_array_set_s64, ldms_metric_array_get_s64)
  | LDMS_V_F32_ARRAY => Some (t_u32, ldms_metric_array_set_float, ldms_metric_array_get_float)
  | LDMS_V_D64_ARRAY => Some (t_u64, ldms_metric_array_set_double, ldms_metric_array_get_double)
  | _ => None
  end.

Lemma array_access_eq t it set get :
  array_access t = Some (it, set, get) ->
  set = (fun mid idx x => metric_array_store mid idx (fun mv => sti it (elt it mv idx) x)) /\
  get = (fun mid idx => metric_array_load mid idx (fun mv => ldi it (elt it mv idx))) /\
  ity_ok it /\ it_bits it / 8 = type_width t /\ ldms_type_is_array (code t) = true.
Proof.
  destruct t; intros [= <- <- <-]; split_and!; try done; unfold ity_ok; cbn; rewrite !elem_of_cons; auto.
Qed.

Lemma generic_array_set_eq ly s i sl t it set get idx x :
  set_ok ly s -> ly_slots ly !! i = Some sl -> md_type (sl_def sl) = code t -> array_access t = Some (it, set, get) ->
  0 <= idx < md_count (sl_def sl) ->
  ldms_metric_array_set_val (Z.of_nat i) idx x s = set (Z.of_nat i) idx x s.
Proof.
  intros Hok Hsl Ht Ha Hidx. unfold ldms_metric_array_set_val. pose proof (slot_bounds _ _ Hok _ _ Hsl). pose proof (geom_bounds _ _ Hok).
  pose proof (mo_count _ (sl_mdef _ _ _ (lw_slots _ (so_wf _ _ Hok) _ _ Hsl))) as Hcnt.
  rewrite (bind_eq _ _ _ _ _ (runs_eq _ _ _ _ (runs_card _ _ Hok _ (conj eq_refl eq_refl)))).
  rewrite u32_small by lia. rewrite (proj2 (Z.leb_gt _ _)) by lia. cbn [negb c_assert].
  destruct (array_access_eq _ _ _ _ Ha) as (-> & _ & _). unfold metric_array_store.
  rewrite (bind_eq (mret tt) _ s tt s) by done.
  rewrite !(bind_eq _ _ _ _ _ (runs_eq _ _ _ _ (runs_mval_to_set _ _ Hok _ _ Hsl _ (conj eq_refl eq_refl)))).
  rewrite (bind_eq (on_mem (ldw 4 _)) _ _ _ _ (runs_eq _ _ _ _ (runs_desc_count _ _ Hok _ _ Hsl _ (conj eq_refl eq_refl)))).
  rewrite (u32_small idx) by lia. rewrite (proj2 (Z.ltb_lt _ _)) by lia.
  set (p := value_in (ly_geom ly) s (s_curr_idx s) sl).
  unfold mbind at 1, M_bind at 1. rewrite (on_mem_bind_eq _ (sti it (elt it p idx) x)); [done|].
  unfold __metric_array_set. destruct (so_slots _ _ Hok _ _ Hsl) as [_ Hd].
  rewrite (bind_eq _ _ (s_mem s) (md_count (sl_def sl)) (s_mem s)).
  2:{ apply runs_eq. eapply (runs_ld_word 4); [apply Hd|lia|done]. }
  rewrite (proj2 (Z.ltb_ge _ _)), (proj2 (Z.leb_gt _ _)) by lia. cbn [orb negb c_assert].
  rewrite (bind_eq (mret tt) _ (s_mem s) tt (s_mem s)) by done.
  rewrite (bind_eq _ _ (s_mem s) (code t) (s_mem s)).
  - rewrite of_code_code. unfold elt.
    destruct t; try discriminate Ha; injection Ha as <- _ _; unfold sti; cbn [it_bytes it_bits]; rewrite ?Z.mul_1_r; done.
  - apply runs_eq. rewrite <- Ht. eapply (runs_ld_word 1); [apply Hd| |done].
    apply mdef_ok_type, (sl_mdef _ _ _ (lw_slots _ (so_wf _ _ Hok) _ _ Hsl)).
Qed.

(** ** The bulk setter *)

(** The bytes of the elements [i], ..., [i + c - 1] of an array. *)
Definition elements (w : nat) (src : bytes) (i : Z) (c : nat) : bytes :=
  take (c * w) (drop (Z.to_nat i * w) src).

Lemma elements_S w src i c :
  0 <= i -> elements w src i (S c) = elements w src i 1 ++ elements w src (i + 1) c.
Proof.
  intros. unfold elements. replace (Z.to_nat (i + 1) * w)%nat with (Z.to_nat i * w + w)%nat by lia.
  rewrite <- drop_drop. generalize (drop (Z.to_nat i * w) src). intros l.
  replace (S c * w)%nat with (w + c * w)%nat by lia. rewrite Nat.mul_1_l. by rewrite take_take_drop.
Qed.

Lemma zlen_elements w src i c :
  0 <= i -> (i + Z.of_nat c) * Z.of_nat w <= zlen src -> zlen (elements w src i c) = Z.of_nat c * Z.of_nat w.
Proof. intros. unfold elements. rewrite length_take, length_drop. nia. Qed.

Lemma runs_array_copy w val src c m fuel i lim n :
  (0 < w)%nat -> bytes_ok src -> 0 <= i -> i + Z.of_nat c = Z.min lim n -> n < 2 ^ 32 -> lim < 2 ^ 64 ->
  (i + Z.of_nat c) * Z.of_nat w <= zlen src -> (c < fuel)%nat ->
  inside m (val + i * Z.of_nat w) (Z.of_nat c * Z.of_nat w) ->
  runs (array_copy fuel w val src i lim n) m (fun _ m' =>
    has m' (val + i * Z.of_nat w) (elements w src i c) /\
    frame m m' (val + i * Z.of_nat w) (Z.of_nat c * Z.of_nat w)).
Proof.
  intros Hw Hb. revert m fuel i. induction c as [|c IH]; intros m fuel i Hi Hc Hn Hlim Hlen Hf Hin;
    (destruct fuel as [|fuel]; [lia|]); cbn [array_copy]; rewrite u64_small, u32_small by lia.
  - assert ((i <? lim) && (i <? n) = false) as ->.
    { destruct (Z.ltb_spec i lim); destruct (Z.ltb_spec i n); done || lia. }
    apply runs_ret. unfold elements. rewrite Nat.mul_0_l, take_0. split; [|apply frame_refl].
    destruct (inside_has_ex _ _ _ Hin) as (bs & Hbs & Hl). by destruct bs.
  - rewrite (proj2 (Z.ltb_lt i lim)), (proj2 (Z.ltb_lt i n)) by lia. cbn [andb].
    assert ((i + 1) * Z.of_nat w <= zlen src) as Hlen1 by nia.
    pose proof (zlen_elements w src i 1 Hi ltac:(lia)) as Hl1.
    apply runs_bind. exists (le_value (elements w src i 1)), m. split.
    { rewrite (proj2 (Z.ltb_ge _ _)) by lia. unfold read. rewrite bool_decide_true by nia. unfold elements. by rewrite Nat.mul_1_l. }
    assert (bytes_ok (elements w src i 1)) as Hbe by (unfold elements; apply Forall_take, Forall_drop, Hb).
    assert (le_bytes w (le_value (elements w src i 1)) = elements w src i 1) as Heq.
    { replace w with (List.length (elements w src i 1)) at 1 by lia. by apply le_bytes_value. }
    st_step m1 H1 F1; [unfold inside in *; nia|]. rewrite Heq in H1.
    eapply runs_mono; [apply IH; [lia|lia|done|done|nia|lia|]|].
    { apply (proj2 (frame_inside _ _ _ _ _ _ F1)). unfold inside in *. nia. }
    intros [] m2 [H2 F2]. replace (val + (i + 1) * Z.of_nat w) with (val + i * Z.of_nat w + Z.of_nat w) in * by lia. split.
    + rewrite elements_S by done. apply has_app. rewrite Hl1, Z.mul_1_l. split; [|done].
      eapply frame_has; [exact F2|exact H1|]. rewrite Hl1. unfold apart. lia.
    + eapply frame_trans; [eapply frame_sub; [exact F1|lia|nia]|eapply frame_sub; [exact F2|lia|nia]].
Qed.

(** The width of the elements of an array type. *)
Lemma runs_bulk_dispatch t it set get (copy : nat -> M mem unit) (Q : unit -> mem -> Prop) m :
  array_access t = Some (it, set, get) -> runs (copy (it_bytes it)) m Q ->
  runs (match of_code (code t) with
        | Some (LDMS_V_CHAR_ARRAY | LDMS_V_U8_ARRAY | LDMS_V_S8_ARRAY) => copy 1%nat
        | Some (LDMS_V_U16_ARRAY | LDMS_V_S16_ARRAY) => copy 2%nat
        | Some (LDMS_V_U32_ARRAY | LDMS_V_S32_ARRAY | LDMS_V_F32_ARRAY) => copy 4%nat
        | Some (LDMS_V_U64_ARRAY | LDMS_V_S64_ARRAY | LDMS_V_D64_ARRAY) => copy 8%nat
        | _ => stuck
        end) m Q.
Proof. intros Ha. rewrite of_code_code. by destruct t; try discriminate Ha; injection Ha as <- _ _. Qed.

Lemma array_slot t a sl g vals :
  array_access t = Some a -> md_type (sl_def sl) = code t -> slot_ok g vals sl ->
  md_count (sl_def sl) * (it_bits a.1.1 / 8) <= slot_size (sl_def sl).
Proof.
  intros Ha Ht [Hm _ _ _ _]. destruct (mo_type _ Hm) as [sz Hsz]. pose proof (mo_count _ Hm) as Hc.
  destruct a as [[it set] get]. destruct (array_access_eq _ _ _ _ Ha) as (_ & _ & _ & Hw & Harr).
  unfold slot_size, vsize. rewrite Hsz. cbn [fst].
  assert ((md_type (sl_def sl) =? code LDMS_V_RECORD_TYPE) || (md_type (sl_def sl) =? code LDMS_V_RECORD_ARRAY) = false) as ->.
  { rewrite Ht. by destruct t. }
  change (default 0 (Some sz)) with sz. destruct (decide (md_count (sl_def sl) = 0)) as [->|Hne].
  { destruct (value_size_bounds _ _ _ Hc Hsz) as (_ & ? & _). lia. }
  rewrite Ht in Hsz. pose proof (value_size_elt t _ (md_count (sl_def sl) - 1) _ Hc Hsz) as He.
  unfold type_len in He. rewrite Harr in He. rewrite Hw. replace (md_count (sl_def sl) - 1 + 1) with (md_count (sl_def sl)) in He by lia.
  apply He. lia.
Qed.

Lemma runs_bulk_set ly s i sl t it set get src start count :
  set_ok ly s -> ly_slots ly !! i = Some sl -> md_type (sl_def sl) = code t -> array_access t = Some (it, set, get) ->
  bytes_ok src -> 0 <= start -> 0 <= count -> start + count <= md_count (sl_def sl) -> md_count (sl_def sl) < 2 ^ 31 ->
  (start + count) * (it_bits it / 8) <= zlen src ->
  runs (ldms_metric_array_set (Z.of_nat i) src start count) s (fun _ =>
    set_post ly s sl (elt it (value_in (ly_geom ly) s (s_curr_idx s) sl) start)
      (elements (it_bytes it) src start (Z.to_nat count))).
Proof.
  intros Hok Hsl Ht Ha Hb Hst Hcnt Hle Hn Hlen. pose proof (mo_count _ (sl_mdef _ _ _ (lw_slots _ (so_wf _ _ Hok) _ _ Hsl))) as Hc.
  pose proof (array_slot _ _ _ _ _ Ha Ht (lw_slots _ (so_wf _ _ Hok) _ _ Hsl)) as Hsz. cbn [fst] in Hsz.
  destruct (array_access_eq _ _ _ _ Ha) as (_ & _ & Hity & Hw & _). destruct (ity_ok_bytes _ Hity) as (_ & Hbw & Hw8).
  pose proof (zlen_elements (it_bytes it) src start (Z.to_nat count) Hst ltac:(rewrite Hbw; nia)) as Hel. rewrite Hbw in Hel.
  unfold ldms_metric_array_set. apply runs_bind, (runs_dict_desc _ _ Hok _ _ Hsl), runs_bind, (runs_mval_to_set _ _ Hok _ _ Hsl).
  set (v := value_in (ly_geom ly) s (s_curr_idx s) sl).
  apply (runs_store_inc _ _ _ _ _ _ _ Hok Hsl); [unfold elt; fold v; nia|rewrite Hel; unfold elt; fold v; nia|].
  destruct (so_slots _ _ Hok _ _ Hsl) as [_ Hd].
  apply runs_bind. eapply (runs_ld_word 1); [apply Hd|apply mdef_ok_type, (sl_mdef _ _ _ (lw_slots _ (so_wf _ _ Hok) _ _ Hsl))|].
  apply runs_bind. eapply (runs_ld_word 4); [apply Hd|lia|]. rewrite Ht.
  apply (runs_bulk_dispatch _ _ _ _ (fun w => array_copy (S (Z.to_nat (md_count (sl_def sl)))) w v src
    (s32 start) (u64 (start + count)) (md_count (sl_def sl))) _ _ Ha). rewrite s32_small, u64_small by lia. unfold elt. rewrite <- Hbw.
  eapply runs_mono; [apply (runs_array_copy _ _ _ (Z.to_nat count)); try lia; try done|].
  - rewrite Hbw. apply (value_inside _ _ Hok _ _ Hsl (s_curr_idx s)); [apply (so_curr _ _ Hok)|fold v; nia..].
  - intros [] m' [H1 F1]. split; [done|]. by rewrite Hel, <- Hbw.
Qed.

(** ** Reading elements *)

(** The bytes of an element of a range of elements. *)
Lemma elements_nth w src i c j :
  0 <= i -> (j < c)%nat -> (i + Z.of_nat c) * Z.of_nat w <= zlen src ->
  elements w src i c = elements w src i j ++ elements w src (i + Z.of_nat j) 1 ++ elements w src (i + Z.of_nat j + 1) (c - j - 1).
Proof.
  revert i j. induction c as [|c IH]; intros i j Hi Hj Hlen; [lia|]. rewrite elements_S by done. destruct j as [|j].
  - rewrite Z.add_0_r. replace (S c - 0 - 1)%nat with c by lia. done.
  - rewrite (elements_S _ _ _ j) by done. rewrite <- app_assoc. f_equal.
    replace (i + Z.of_nat (S j)) with (i + 1 + Z.of_nat j) by lia. replace (S c - S j - 1)%nat with (c - j - 1)%nat by lia.
    apply IH; lia.
Qed.

Lemma runs_array_get ly s i sl t it set get tf idx bs :
  set_ok ly s -> ly_slots ly !! i = Some sl -> md_type (sl_def sl) = code t -> array_access t = Some (it, set, get) ->
  trans_flags s tf -> 0 <= idx < md_count (sl_def sl) ->
  has (s_mem s) (elt it (value_in (ly_geom ly) s (source (ly_geom ly) s tf sl) sl) idx) bs -> List.length bs = it_bytes it ->
  runs (get (Z.of_nat i) idx) s (fun r s' => r = wrap it (le_value bs) /\ s' = s).
Proof.
  intros Hok Hsl Ht Ha Htf Hidx Hbs Hlen. destruct (array_access_eq _ _ _ _ Ha) as (_ & -> & Hity & _).
  pose proof (mo_count _ (sl_mdef _ _ _ (lw_slots _ (so_wf _ _ Hok) _ _ Hsl))) as Hcnt.
  apply runs_bind, (runs_mval_to_get _ _ Hok _ _ Hsl tf); [done|]. apply runs_bind, (runs_desc_count _ _ Hok _ _ Hsl).
  rewrite u32_small by lia. rewrite (proj2 (Z.ltb_lt _ _)) by lia. apply runs_on_mem_ld. eapply runs_ldi; [done| |].
  - rewrite <- Hlen, le_bytes_value; [exact Hbs|]. by eapply bytes_ok_has; [apply (so_bytes _ _ Hok)|].
  - done.
Qed.

(** Elements written in bulk are read one by one. *)
Lemma bulk_set_get ly s i sl t it set get src start count j :
  set_ok ly s -> trans_flags s LDMS_TRANSACTION_END -> ly_slots ly !! i = Some sl -> md_type (sl_def sl) = code t ->
  array_access t = Some (it, set, get) ->
  bytes_ok src -> 0 <= start -> 0 <= count -> start + count <= md_count (sl_def sl) -> md_count (sl_def sl) < 2 ^ 31 ->
  (start + count) * (it_bits it / 8) <= zlen src -> start <= j < start + count ->
  runs (ldms_metric_array_set (Z.of_nat i) src start count;; get (Z.of_nat i) j) s (fun r s' =>
    r = wrap it (le_value (elements (it_bytes it) src j 1)) /\
    set_post ly s sl (elt it (value_in (ly_geom ly) s (s_curr_idx s) sl) start)
      (elements (it_bytes it) src start (Z.to_nat count)) s').
Proof.
  intros Hok [Htf Htr] Hsl Ht Ha Hb Hst Hcnt Hle Hn Hlen Hj. apply runs_bind.
  eapply runs_mono; [by eapply (runs_bulk_set ly s)|]. intros [] s' Hpost. pose proof Hpost as ([Heq Hh F] & Hok' & _).
  destruct (array_access_eq _ _ _ _ Ha) as (_ & _ & Hity & Hw & _). destruct (ity_ok_bytes _ Hity) as (_ & Hbw & Hw8).
  assert (source (ly_geom ly) s' LDMS_TRANSACTION_END sl = s_curr_idx s) as Hsrc.
  { unfold source. cbn [Z.eqb negb andb]. by rewrite Heq. }
  assert (zlen (elements (it_bytes it) src start (Z.to_nat count)) = count * Z.of_nat (it_bytes it)) as Hel.
  { rewrite zlen_elements; [by rewrite Z2Nat.id|done|rewrite Hbw; nia]. }
  pose proof (array_slot _ _ _ _ _ Ha Ht (lw_slots _ (so_wf _ _ Hok) _ _ Hsl)) as Hsz. cbn [fst] in Hsz.
  eapply runs_mono; [eapply (runs_array_get ly s' i sl t it set get LDMS_TRANSACTION_END j); try done; [split; [|done]|lia| |]|].
  - assert (s_data s' = s_data s) as -> by (by rewrite Heq). apply F; [done|]. apply Forall_cons. split; cbn [fst snd].
    + pose proof (value_range _ _ Hok _ _ Hsl _ (so_curr _ _ Hok)) as Hv. pose proof (so_data _ _ Hok) as Hd.
      pose proof (section_range _ _ Hok _ (so_curr _ _ Hok)). pose proof (geom_bounds _ _ Hok).
      rewrite Hel, zlen_le. unfold apart, elt, dh_trans_flags. destruct (is_data _); rewrite ?Hd; nia.
    + eapply Forall_impl; [apply (header_gn_apart _ _ sl Hok)|]. intros r Hr. rewrite zlen_le. unfold apart, dh_trans_flags in *. lia.
  - assert (value_in (ly_geom ly) s' (s_curr_idx s) sl = value_in (ly_geom ly) s (s_curr_idx s) sl) as Hv by (by rewrite Heq).
    rewrite Hsrc, Hv. rewrite (elements_nth _ _ _ _ (Z.to_nat (j - start))) in Hh; [|done|lia|rewrite Hbw; nia].
    apply has_app in Hh as [_ Hh]. apply has_app in Hh as [Hh _].
    rewrite zlen_elements in Hh; [|done|rewrite Hbw; nia]. replace (start + Z.of_nat (Z.to_nat (j - start))) with j in Hh by lia.
    unfold elt in *. rewrite <- Hbw in *. rewrite Z2Nat.id in Hh by lia.
    rewrite <- Z.add_assoc, <- Z.mul_add_distr_r, Zplus_minus in Hh.
    exact Hh.
  - apply Nat2Z.inj. rewrite zlen_elements; [lia|lia|rewrite Hbw; nia].
  - intros r s2 [-> ->]. done.
Qed.

(** ** Metrics by name

    The metric of a name is found, and the name and the unit of a metric are
    those of the schema. *)

(** C strings. *)
Definition names_ok (ly : layout) : Prop :=
  forall i sl, ly_slots ly !! i = Some sl -> no_nul (md_name (sl_def sl)).

(** The first metric of the name. *)
Fixpoint first_named (k : Z) (l : list slot) (name : string) : Z :=
  match l with
  | [] => -1
  | sl :: l => if decide (md_name (sl_def sl) = name) then k else first_named (k + 1) l name
  end.

Section names.
Context (ly : layout) (s : ldms_set) (Hok : set_ok ly s) (Hnm : names_ok ly).

Lemma runs_slot_name i sl (Q : string -> ldms_set -> Prop) :
  ly_slots ly !! i = Some sl -> Q (md_name (sl_def sl)) s ->
  runs (on_mem (ld_str (s_meta s + sl_desc sl + vd_name_unit))) s Q.
Proof.
  intros Hsl HQ. apply runs_on_mem_ld. destruct (so_slots _ _ Hok _ _ Hsl) as (_ & _ & _ & _ & _ & _ & Hs).
  apply has_app in Hs as [Hs _]. eapply runs_ld_str; [exact Hs|by apply (Hnm i)|done].
Qed.

Lemma runs_by_name name fuel k :
  (List.length (ly_slots ly) - k < fuel)%nat -> (k <= List.length (ly_slots ly))%nat ->
  runs (by_name fuel (Z.of_nat k) (ge_card (ly_geom ly)) name) s (fun r s' =>
    r = first_named (Z.of_nat k) (drop k (ly_slots ly)) name /\ s' = s).
Proof.
  revert k. induction fuel as [|fuel IH]; intros k Hf Hk; [lia|]. cbn [by_name]. rewrite (lw_card _ (so_wf _ _ Hok)).
  destruct (decide (k = List.length (ly_slots ly))) as [->|Hne].
  { rewrite (proj2 (Z.ltb_ge _ _)), drop_all by lia. by apply runs_ret. }
  rewrite (proj2 (Z.ltb_lt _ _)) by lia. destruct (lookup_lt_is_Some_2 (ly_slots ly) k) as [sl Hsl]; [lia|].
  apply runs_bind, (runs_desc_get _ _ Hok _ _ Hsl), runs_bind, (runs_slot_name k); [done|].
  rewrite (drop_S _ _ _ Hsl). cbn [first_named]. destruct (Z.eqb_spec (strcmp (md_name (sl_def sl)) name) 0) as [He|He].
  - apply strcmp_eq in He. rewrite decide_True by done. by apply runs_ret.
  - rewrite decide_False by (intros E; apply He, strcmp_eq, E).
    replace (Z.of_nat k + 1) with (Z.of_nat (S k)) by lia. rewrite <- (lw_card _ (so_wf _ _ Hok)). apply IH; lia.
Qed.

Lemma runs_metric_by_name name :
  runs (ldms_metric_by_name name) s (fun r s' => r = first_named 0 (ly_slots ly) name /\ s' = s).
Proof.
  apply runs_bind, (runs_card _ _ Hok). apply (runs_by_name name _ 0); [rewrite (lw_card _ (so_wf _ _ Hok)); lia|lia].
Qed.

End names.

(** With distinct names, the metric [i] is the one its name denotes. *)
Lemma first_named_unique l name i sl k :
  NoDup ((fun sl => md_name (sl_def sl)) <$> l) -> l !! i = Some sl -> md_name (sl_def sl) = name ->
  first_named k l name = k + Z.of_nat i.
Proof.
  revert i k. induction l as [|a l IH]; intros i k Hnd Hi Hname; [done|]. cbn [first_named]. rewrite fmap_cons in Hnd.
  apply NoDup_cons in Hnd as [Hna Hnd]. destruct i as [|i].
  - injection Hi as ->. rewrite decide_True by done. lia.
  - rewrite decide_False; [rewrite (IH i) by done; lia|]. intros E. apply Hna. rewrite E, <- Hname.
    apply list_elem_of_fmap. exists sl. split; [done|]. by eapply list_elem_of_lookup_2.
Qed.

Lemma first_named_none l name k :
  name ∉ ((fun sl => md_name (sl_def sl)) <$> l) -> first_named k l name = -1.
Proof.
  revert k. induction l as [|a l IH]; intros k Hn; [done|]. rewrite fmap_cons, not_elem_of_cons in Hn. destruct Hn as [Hne Hn].
  cbn [first_named]. rewrite decide_False by congruence. by apply IH.
Qed.
