(* ===== verification/SetExample.v ===== *)
(** * A concrete set

    A schema of five metrics in a ring of three sections, and the set created
    from it: the inputs at which the theorems on sets are evaluated. *)

From stdpp Require Import prelude gmap strings.
From Stdlib Require Import Ascii String.
From S2P Require Import Prelude Bytes CStr Mem MemFrame CFloat MVal MValSpec Schema SchemaSpec Rrbt LdmsHeap.
From S2P Require Import HeapInit SetCreate SchemaInv SetOps SetLayout SetInit SetSpec SetMetric SetBuild.
From S2P Require Import SetTrans SetProps SetMake SetPlain.

Open Scope Z_scope.

(** The state after a computation. *)
Definition after_run {S A} (m : M S A) (s : S) : S := from_option snd s (m s).

Lemma after_run_eq {S A} (m : M S A) s Q : runs m s Q -> exists a, m s = Some (a, after_run m s) /\ Q a (after_run m s).
Proof. intros (a & s' & Hm & HQ). exists a. unfold after_run. by rewrite Hm. Qed.

(** ** The schema *)

Definition ex_template : list metric_template :=
  [Tmpl (Some "load") LDMS_MDESC_F_DATA (code LDMS_V_U64) (Some "jobs") 1 None;
   Tmpl (Some "temp") LDMS_MDESC_F_DATA (code LDMS_V_S16) None 1 None;
   Tmpl (Some "node") LDMS_MDESC_F_META (code LDMS_V_U32) None 1 None;
   Tmpl (Some "irqs") LDMS_MDESC_F_DATA (code LDMS_V_U32_ARRAY) None 4 None;
   Tmpl (Some "mode") LDMS_MDESC_F_DATA (code LDMS_V_CHAR) None 1 None;
   Tmpl None 0 0 None 0 None]%string.

Definition ex_world0 : world := after_run (ldms_schema_from_template "demo" ex_template) (empty_world []).
Definition ex_world : world := after_run (ldms_schema_array_card_set 1 3) ex_world0.

Definition ex_schema : ldms_schema :=
  default (Schema EmptyString [] [] 0 0 0 0 []) (w_schemas ex_world !! 1).

Lemma ex_schema_at : w_schemas ex_world !! 1 = Some ex_schema.
Proof. vm_compute. reflexivity. Qed.

Lemma ex_reachable : rtc schema_step (empty_world []) ex_world.
Proof.
  eapply (rtc_l _ _ ex_world0); [|eapply rtc_l; [|apply rtc_refl]].
  - exists _, (ldms_schema_from_template "demo" ex_template), (Some 1, [0; 1; 2; 3; 4]). split.
    + apply if_schema_template. unfold ex_template, template_ok. rewrite !Forall_cons, Forall_nil. cbn. split_and!; lia.
    + vm_compute. reflexivity.
  - exists _, (ldms_schema_array_card_set 1 3), 0. split; [apply if_array_card|vm_compute; reflexivity].
Qed.

(** ** The set *)

Definition ex_sha (bs : bytes) : bytes := replicate 32 (zlen bs mod 256).
Definition ex_blk (n : Z) : option mem := Some (Mem 4096 (replicate (Z.to_nat n) 0)).
Definition ex_reg : registry := Reg ∅ 1.
Definition ex_env (g : registry) : registry := Reg (<["other"%string := 7]> (g_names g)) (g_next_id g).

Lemma ex_sha_ok : sha_ok ex_sha.
Proof. intros bs. split; [|by unfold ex_sha; rewrite length_replicate]. apply Forall_replicate. apply Z.mod_pos_bound. lia. Qed.

Lemma ex_blk_ok n : 0 <= n < 2 ^ 31 -> block (Mem 4096 (replicate (Z.to_nat n) 0)) n.
Proof.
  intros Hn. split; cbn [cells base]; [by apply Forall_replicate| |lia|done|lia].
  unfold msize. cbn [cells]. rewrite length_replicate. lia.
Qed.

Lemma ex_small : small ex_world "node1/demo" ex_schema 0.
Proof.
  constructor; [|vm_compute; reflexivity..|split; vm_compute; (split; [discriminate|reflexivity])|vm_compute; reflexivity].
  let l := eval vm_compute in (sc_list ex_schema) in replace (sc_list ex_schema) with l by (vm_compute; reflexivity).
  rewrite !Forall_cons, Forall_nil. unfold plain_entry, plain_mdef. cbn [md_type md_name md_unit].
  split_and!; first [discriminate|vm_compute; reflexivity|exact I].
Qed.

Definition ex_size : Z := sz_meta (sizes_of "node1/demo" ex_schema 0) + sz_array_data (sizes_of "node1/demo" ex_schema 0).

Definition ex_create : W (registry * (Z + ldms_set)) :=
  ldms_set_create ex_sha ex_blk ex_env (true, true, true) (Some "node1/demo"%string) (Some 1) 0 0 511 0 ex_reg.

Definition ex_set : ldms_set :=
  match ex_create ex_world with
  | Some ((_, inr s), _) => s
  | _ => Set_ 0 0 0 0 0 0 None [] (Mem 0 [])
  end.

Definition ex_layout : layout := plain_layout ex_sha "node1/demo" ex_schema 0.

Lemma ex_set_ok : set_ok ex_layout ex_set /\ zeroed ex_layout ex_set.
Proof.
  destruct (runs_set_create_plain ex_sha ex_blk ex_env "node1/demo" 1 0 0 511 0 ex_reg ex_world ex_schema
    (Mem 4096 (replicate (Z.to_nat ex_size) 0))) as (r & w' & Hr & g' & set & -> & _ & Hok & Hz & _).
  - apply ex_sha_ok.
  - apply (schema_steps_inv _ _ ex_reachable), empty_world_inv.
  - apply ex_schema_at.
  - apply ex_small.
  - vm_compute. reflexivity.
  - unfold ex_blk, ex_size. reflexivity.
  - apply ex_blk_ok. split; vm_compute; [discriminate|reflexivity].
  - done.
  - vm_compute. reflexivity.
  - unfold ex_set, ex_create. rewrite Hr. exact (conj Hok Hz).
Qed.

(** The set after a first transaction. *)
Definition ex_sets : list set_op := [(0%nat, LDMS_V_U64, 41); (1%nat, LDMS_V_S16, -5); (4%nat, LDMS_V_CHAR, 7)].

Definition ex_first : SM Z :=
  _ ← ldms_transaction_begin 10 999990; run_sets ex_sets;; ldms_transaction_end 11 20.

Definition ex_set1 : ldms_set := after_run ex_first ex_set.

Lemma ex_ops_ok : Forall (op_ok ex_layout) ex_sets.
Proof.
  repeat (apply Forall_cons; split; [eexists; split; [vm_compute; reflexivity|split; [reflexivity|eexists; reflexivity]]|]).
  apply Forall_nil. exact I.
Qed.

Lemma ex_set1_ok : set_ok ex_layout ex_set1 /\ trans_flags ex_set1 LDMS_TRANSACTION_END.
Proof.
  destruct ex_set_ok as [Hok _].
  destruct (after_run_eq ex_first ex_set (fun _ s' => set_ok ex_layout s' /\ trans_flags s' LDMS_TRANSACTION_END)) as (a & _ & H); [|exact H].
  apply runs_bind. eapply runs_mono; [apply (runs_begin ex_layout); [exact Hok|vm_compute; discriminate]|].
  intros _ s1 (_ & Hsw & Hst). apply runs_bind. eapply runs_mono; [apply runs_run_sets; [apply Hsw|apply ex_ops_ok]|].
  intros [] s2 [Hok2 _ Hst2 _ _]. eapply runs_mono; [eapply (runs_end ex_layout); [exact Hok2|by apply Hst2|lia|lia]|].
  intros _ s3 [_ [_ Hok3 [Htf3 _] _ _ _]]. exact (conj Hok3 Htf3).
Qed.
