(* ===== verification/SetClaims.v ===== *)
(** * Theorems on schemas and metric sets

    What the set interface promises to samplers and readers, from the lemmas
    of the preceding files; each theorem with hypotheses is applied to the set
    of [SetExample]. *)

From stdpp Require Import prelude gmap strings.
From Stdlib Require Import Ascii String.
From S2P Require Import Prelude Bytes CStr Mem MemFrame CFloat MVal MValSpec Schema SchemaSpec Rrbt LdmsHeap.
From S2P Require Import HeapInit SetCreate SchemaInv SetOps SetLayout SetInit SetSpec SetMetric SetBuild.
From S2P Require Import SetTrans SetProps SetMake SetPlain SetArray SetExample.

Open Scope Z_scope.

Lemma runs_det {S A} (m : M S A) s Q a s' : runs m s Q -> m s = Some (a, s') -> Q a s'.
Proof. intros (b & s1 & Hm & HQ) H. rewrite Hm in H. by injection H as <- <-. Qed.

(** ** Schemas *)



(** C4: Creating a set from any reachable schema of plain metrics whose sizes
    fit succeeds: the set is registered under its name, its bytes are laid
    out as the schema says (every metric has a dictionary entry, a descriptor
    with its type, flags and count, and a slot of its size in the meta data
    or in each data section, no two slots overlapping), and its data is
    zero. *)
Theorem set_create_typed sha256 blk env name s uid gid perm heap_sz g alloc w x m :
  sha_ok sha256 -> rtc schema_step (empty_world alloc) w -> w_schemas w !! s = Some x ->
  small w name x heap_sz -> name_allowed name = true ->
  blk (sz_meta (sizes_of name x heap_sz) + sz_array_data (sizes_of name x heap_sz)) = Some m ->
  block m (sz_meta (sizes_of name x heap_sz) + sz_array_data (sizes_of name x heap_sz)) ->
  g_names g !! name = None -> g_names (env (Reg (g_names g) (g_next_id g + 1))) !! name = None ->
  runs (ldms_set_create sha256 blk env (true, true, true) (Some name) (Some s) uid gid perm heap_sz g) w (fun r _ =>
    exists g' set ly, r = (g', inr set) /\ registered env g g' name (s_set_id set) /\
      set_ok ly set /\ zeroed ly set /\ MPlain <$> (sl_def <$> ly_slots ly) = list_count <$> sc_list x).
Proof.
  intros Hsha Hr Hx Hsm Hname Hblk Hbl Hg Henv.
  pose proof (schema_steps_inv _ _ Hr (empty_world_inv alloc)) as Hw.
  eapply runs_mono; [by eapply (runs_set_create_plain sha256 blk env name s uid gid perm heap_sz g w x m)|].
  intros r _ (g' & set & -> & H). by exists g', set, (plain_layout sha256 name x heap_sz).
Qed.

Lemma set_create_typed_witness :
  rtc schema_step (empty_world []) ex_world /\ small ex_world "node1/demo" ex_schema 0 /\
  runs ex_create ex_world (fun r _ =>
    exists g' set ly, r = (g', inr set) /\ registered ex_env ex_reg g' "node1/demo" (s_set_id set) /\
      set_ok ly set /\ zeroed ly set /\ MPlain <$> (sl_def <$> ly_slots ly) = list_count <$> sc_list ex_schema).
Proof.
  split; [exact ex_reachable|split; [exact ex_small|]].
  apply (set_create_typed ex_sha ex_blk ex_env "node1/demo" 1 0 0 511 0 ex_reg [] ex_world ex_schema
    (Mem 4096 (replicate (Z.to_nat ex_size) 0))).
  - exact ex_sha_ok.
  - exact ex_reachable.
  - exact ex_schema_at.
  - exact ex_small.
  - vm_compute. reflexivity.
  - unfold ex_blk, ex_size. reflexivity.
  - apply ex_blk_ok. split; vm_compute; [discriminate|reflexivity].
  - vm_compute. reflexivity.
  - vm_compute. reflexivity.
Defined.

(** ** Transactions *)

(** What a reader gets before a transaction is the value the current section
    holds. *)
Lemma read_holds ly s i t it set get v s0 :
  set_ok ly s -> trans_flags s LDMS_TRANSACTION_END -> scalar_access t = Some (it, set, get) -> data_metric ly i t ->
  get (Z.of_nat i) s = Some (v, s0) -> exists x, holds ly s (s_curr_idx s) i t x /\ v = wrap it x.
Proof.
  intros Hok Htf Ha Hm Hget. destruct (metric_holds ly s (s_curr_idx s) i t it set get) as [x Hx]; [done|apply (so_curr _ _ Hok)|done|done|].
  exists x. split; [done|]. pose proof (runs_get_scalar ly s i t x it set get _ Hok Htf Ha Hx) as Hr.
  by destruct (runs_det _ _ _ _ _ Hr Hget).
Qed.

(** C3: While a transaction is in progress on a set of two or more sections,
    after any sequence of updates to its metrics, a reader of any scalar data
    metric still gets the value it got before the transaction began. *)
Theorem transaction_isolation ly s i t it set get ops sec usec v s0 :
  set_ok ly s -> ge_n (ly_geom ly) <> 1 -> trans_flags s LDMS_TRANSACTION_END ->
  scalar_access t = Some (it, set, get) -> data_metric ly i t -> Forall (op_ok ly) ops ->
  get (Z.of_nat i) s = Some (v, s0) ->
  runs (_ ← ldms_transaction_begin sec usec; run_sets ops;; get (Z.of_nat i)) s (fun r s' => r = v /\ set_ok ly s').
Proof.
  intros Hok Hn Htf Ha Hm Hops Hget. destruct (read_holds _ _ _ _ _ _ _ _ _ Hok Htf Ha Hm Hget) as (x & Hx & ->).
  by apply (isolation ly s i t x it set get).
Qed.

Lemma transaction_isolation_witness :
  ldms_metric_get_s16 1 ex_set1 = Some (-5, ex_set1) /\
  runs (_ ← ldms_transaction_begin 12 0; run_sets [(1%nat, LDMS_V_S16, 33); (0%nat, LDMS_V_U64, 2 ^ 64 + 8)];;
        ldms_metric_get_s16 1) ex_set1 (fun r s' => r = -5 /\ set_ok ex_layout s').
Proof.
  assert (ldms_metric_get_s16 1 ex_set1 = Some (-5, ex_set1)) as Hget by (vm_compute; reflexivity).
  split; [exact Hget|].
  apply (transaction_isolation ex_layout ex_set1 1 LDMS_V_S16 t_s16 ldms_metric_set_s16 ldms_metric_get_s16 _ 12 0 (-5) ex_set1).
  - apply ex_set1_ok.
  - vm_compute. discriminate.
  - apply ex_set1_ok.
  - reflexivity.
  - eexists. split; [vm_compute; reflexivity|split; reflexivity].
  - repeat (apply Forall_cons; split; [eexists; split; [vm_compute; reflexivity|split; [reflexivity|eexists; reflexivity]]|]).
    apply Forall_nil. exact I.
  - exact Hget.
Defined.

Lemma wrap_wrap it x : ity_ok it -> wrap it (wrap it x) = wrap it x.
Proof. intros H%ity_ok_pos. apply wrap_id; [done|]. by apply wrap_in. Qed.

Lemma wrap_last_set it ops i x : ity_ok it -> wrap it (last_set ops i (wrap it x)) = wrap it (last_set ops i x).
Proof.
  intros Hit. revert x. induction ops as [|[[j t] y] ops IH]; intros x; cbn [last_set]; [by apply wrap_wrap|].
  case_decide; [done|apply IH].
Qed.

(** C10: After a transaction a reader gets the last value the transaction gave
    to a scalar data metric, converted to the type of the metric; a metric
    that was not updated keeps its value when the set copies its data to the
    next section or has one section. *)
Theorem transaction_commit ly s i t it set get ops sec usec sec' usec' v s0 :
  set_ok ly s -> trans_flags s LDMS_TRANSACTION_END ->
  scalar_access t = Some (it, set, get) -> data_metric ly i t -> Forall (op_ok ly) ops ->
  0 <= sec < 2 ^ 32 -> 0 <= usec < 2 ^ 32 ->
  flag (s_flags s) LDMS_SET_F_DATA_COPY = true \/ ge_n (ly_geom ly) = 1 \/ i ∈ ops.*1.*1 ->
  get (Z.of_nat i) s = Some (v, s0) ->
  runs (_ ← ldms_transaction_begin sec usec; run_sets ops;; _ ← ldms_transaction_end sec' usec'; get (Z.of_nat i)) s
    (fun r s' => r = wrap it (last_set ops i v) /\ set_ok ly s').
Proof.
  intros Hok Htf Ha Hm Hops Hsec Husec Hcase Hget. destruct (read_holds _ _ _ _ _ _ _ _ _ Hok Htf Ha Hm Hget) as (x & Hx & ->).
  rewrite wrap_last_set by apply (scalar_access_eq _ _ _ _ Ha). by apply (commit ly s i t x it set get).
Qed.

Lemma transaction_commit_witness :
  runs (_ ← ldms_transaction_begin 12 0; run_sets [(1%nat, LDMS_V_S16, 33); (0%nat, LDMS_V_U64, 2 ^ 64 + 8)];;
        _ ← ldms_transaction_end 12 5; ldms_metric_get_u64 0) ex_set1 (fun r s' => r = 8 /\ set_ok ex_layout s').
Proof.
  eapply runs_mono; [apply (transaction_commit ex_layout ex_set1 0 LDMS_V_U64 t_u64 ldms_metric_set_u64 ldms_metric_get_u64
    [(1%nat, LDMS_V_S16, 33); (0%nat, LDMS_V_U64, 2 ^ 64 + 8)] 12 0 12 5 41 ex_set1)|].
  - apply ex_set1_ok.
  - apply ex_set1_ok.
  - reflexivity.
  - eexists. split; [vm_compute; reflexivity|split; reflexivity].
  - repeat (apply Forall_cons; split; [eexists; split; [vm_compute; reflexivity|split; [reflexivity|eexists; reflexivity]]|]).
    apply Forall_nil. exact I.
  - lia.
  - lia.
  - right. right. by right; left.
  - vm_compute. reflexivity.
  - intros r s' [Hr Hok]. split; [rewrite Hr; vm_compute; reflexivity|exact Hok].
Defined.

(** C23: Ending a transaction records its end time and its duration, the
    difference of the two times in whole seconds and microseconds with the
    borrow carried, marks the data consistent, increments the data
    generation number and pushes the set; nothing else changes. *)
Theorem transaction_end_correct ly s ts tu sec usec :
  set_ok ly s -> stamped s ts tu LDMS_TRANSACTION_BEGIN ->
  0 <= ts -> sec < 2 ^ 32 -> 0 <= tu < 1000000 -> 0 <= usec < 1000000 ->
  ts * 1000000 + tu <= sec * 1000000 + usec ->
  runs (ldms_transaction_end sec usec) s (fun r s' =>
    r = 0 /\ set_ok ly s' /\ stamped s' sec usec LDMS_TRANSACTION_END /\
    s' = pushed s (s_mem s') /\ framel (s_mem s) (s_mem s') [(s_data s, 20); (s_data s + dh_gn, 8)] /\
    (forall v, has (s_mem s) (s_data s + dh_gn) (le_bytes 8 v) -> 0 <= v < 2 ^ 64 ->
       has (s_mem s') (s_data s + dh_gn) (le_bytes 8 (u64 (v + 1)))) /\
    let d := (sec - ts) * 1000000 + (usec - tu) in duration_at s' (d / 1000000, d mod 1000000)).
Proof.
  intros Hok Hst Hts Hsec Htu Hus Hle. eapply runs_mono; [eapply (runs_end ly); [done|exact Hst|lia|lia]|].
  intros r s' [-> [H1 H2 H3 H4 H5 H6]]. rewrite elapsed_correct in H4 by done. by split_and!.
Qed.

Lemma transaction_end_correct_witness :
  exists s, after_run (ldms_transaction_begin 10 999990) ex_set1 = s /\
  runs (ldms_transaction_end 11 20) s (fun r s' => r = 0 /\ set_ok ex_layout s' /\ duration_at s' (0, 30)).
Proof.
  exists (after_run (ldms_transaction_begin 10 999990) ex_set1). split; [reflexivity|].
  destruct ex_set1_ok as [Hok _].
  destruct (after_run_eq (ldms_transaction_begin 10 999990) ex_set1 (fun r s' => r = 0 /\ switched ex_layout ex_set1 s' /\
    stamped s' 10 999990 LDMS_TRANSACTION_BEGIN)) as (a & _ & _ & Hsw & Hst).
  { apply (runs_begin ex_layout); [exact Hok|vm_compute; discriminate]. }
  eapply runs_mono; [apply (transaction_end_correct ex_layout _ 10 999990 11 20); [apply Hsw|exact Hst|lia..]|].
  intros r s' (H1 & H2 & _ & _ & _ & _ & H3). split; [exact H1|split; [exact H2|exact H3]].
Defined.

(** ** Metrics *)

(** C20: A typed setter writes its value at the slot of its metric, leaves the
    bytes of every other metric, and of the same data metric in the other
    sections, as they were, increments the generation number of the data or
    of the meta data, and keeps the set well-formed. *)
Theorem metric_set_safe ly s i sl t it set get x :
  set_ok ly s -> ly_slots ly !! i = Some sl -> md_type (sl_def sl) = code t -> scalar_access t = Some (it, set, get) ->
  runs (set (Z.of_nat i) x) s (fun _ s' =>
    set_ok ly s' /\ has (s_mem s') (value_in (ly_geom ly) s (s_curr_idx s) sl) (le_bytes (it_bytes it) x) /\
    (forall j b l p cs, ly_slots ly !! j = Some b -> 0 <= l < ge_n (ly_geom ly) ->
       i <> j \/ s_curr_idx s <> l /\ is_data (sl_def sl) = true ->
       value_in (ly_geom ly) s l b <= p -> p + zlen cs <= value_in (ly_geom ly) s l b + slot_size (sl_def b) ->
       has (s_mem s) p cs -> has (s_mem s') p cs) /\
    forall w, has (s_mem s) (gn_addr s sl) (le_bytes 8 w) -> 0 <= w < 2 ^ 64 ->
      has (s_mem s') (gn_addr s sl) (le_bytes 8 (u64 (w + 1)))).
Proof.
  intros Hok Hsl Ht Ha. destruct (scalar_access_eq _ _ _ _ Ha) as (-> & _ & Hity).
  destruct (scalar_slot _ _ _ _ _ Ha Ht (lw_slots _ (so_wf _ _ Hok) _ _ Hsl)) as (H8 & _).
  pose proof (it_bytes_le8 _ Hity) as Hw.
  eapply runs_mono; [apply (runs_metric_set_int _ _ _ _ Hok Hsl); lia|].
  intros _ s' (Hst & Hok' & Hgn). split_and!; [done|apply Hst| |done].
  intros j b l p cs Hb Hl Hne Hlo Hhi. eapply (stored_other ly s i j sl b l); try done; rewrite ?zlen_le; lia.
Qed.

(** The slots of the example. *)
Definition ex_slot (i : nat) : slot := default (Slot (Mdef EmptyString None 0 0 0 0 0) 0 0) (ly_slots ex_layout !! i).

Lemma metric_set_safe_witness :
  runs (ldms_metric_set_u32 2 77) ex_set1 (fun _ s' =>
    set_ok ex_layout s' /\ has (s_mem s') (value_in (ly_geom ex_layout) ex_set1 (s_curr_idx ex_set1) (ex_slot 2)) [77; 0; 0; 0]).
Proof.
  eapply runs_mono; [apply (metric_set_safe ex_layout ex_set1 2 (ex_slot 2) LDMS_V_U32 t_u32 ldms_metric_set_u32 ldms_metric_get_u32 77)|].
  - apply ex_set1_ok.
  - vm_compute. reflexivity.
  - vm_compute. reflexivity.
  - reflexivity.
  - intros [] s' (H1 & H2 & _). split; [exact H1|exact H2].
Defined.

(** C21: The setters that find the type of the metric at run time, for a
    scalar and for an element of an array, do exactly what the setter of the
    type of the metric does. *)
Theorem generic_setters_equal_typed ly s i sl t :
  set_ok ly s -> ly_slots ly !! i = Some sl -> md_type (sl_def sl) = code t ->
  (forall it set get x, scalar_access t = Some (it, set, get) ->
     ldms_metric_set (Z.of_nat i) x s = set (Z.of_nat i) x s) /\
  (forall it set get idx x, array_access t = Some (it, set, get) -> 0 <= idx < md_count (sl_def sl) ->
     ldms_metric_array_set_val (Z.of_nat i) idx x s = set (Z.of_nat i) idx x s).
Proof.
  intros Hok Hsl Ht. split; intros.
  - by eapply generic_set_eq.
  - by eapply generic_array_set_eq.
Qed.

Lemma generic_setters_equal_typed_witness :
  ldms_metric_set 1 (-9) ex_set1 = ldms_metric_set_s16 1 (-9) ex_set1 /\
  ldms_metric_array_set_val 3 2 500 ex_set1 = ldms_metric_array_set_u32 3 2 500 ex_set1.
Proof.
  split.
  - assert (set_ok ex_layout ex_set1 /\ ly_slots ex_layout !! 1%nat = Some (ex_slot 1)) as [H1 H2].
    { split; [apply ex_set1_ok|vm_compute; reflexivity]. }
    exact (proj1 (generic_setters_equal_typed ex_layout ex_set1 1 (ex_slot 1) LDMS_V_S16 H1 H2 eq_refl)
      t_s16 ldms_metric_set_s16 ldms_metric_get_s16 (-9) eq_refl).
  - assert (set_ok ex_layout ex_set1 /\ ly_slots ex_layout !! 3%nat = Some (ex_slot 3)) as [H1 H2].
    { split; [apply ex_set1_ok|vm_compute; reflexivity]. }
    assert (0 <= 2 < md_count (sl_def (ex_slot 3))) as H3 by (vm_compute; split; [discriminate|reflexivity]).
    exact (proj2 (generic_setters_equal_typed ex_layout ex_set1 3 (ex_slot 3) LDMS_V_U32_ARRAY H1 H2 eq_refl)
      t_u32 ldms_metric_array_set_u32 ldms_metric_array_get_u32 2 500 eq_refl H3).
Defined.

(** C22: Setting a range of an array from a buffer and reading an element of
    the range with the getter of the type gives the element of the buffer;
    the range of the array holds the bytes of the buffer and nothing else but
    the generation number changes. *)
Theorem array_set_get_roundtrip ly s i sl t it set get src start count j :
  set_ok ly s -> trans_flags s LDMS_TRANSACTION_END -> ly_slots ly !! i = Some sl -> md_type (sl_def sl) = code t ->
  array_access t = Some (it, set, get) ->
  bytes_ok src -> 0 <= start -> 0 <= count -> start + count <= md_count (sl_def sl) -> md_count (sl_def sl) < 2 ^ 31 ->
  (start + count) * (it_bits it / 8) <= zlen src -> start <= j < start + count ->
  runs (ldms_metric_array_set (Z.of_nat i) src start count;; get (Z.of_nat i) j) s (fun r s' =>
    r = wrap it (le_value (elements (it_bytes it) src j 1)) /\
    set_post ly s sl (elt it (value_in (ly_geom ly) s (s_curr_idx s) sl) start)
      (elements (it_bytes it) src start (Z.to_nat count)) s').
Proof. apply bulk_set_get. Qed.

Lemma array_set_get_roundtrip_witness :
  runs (ldms_metric_array_set 3 (le_bytes 4 10 ++ le_bytes 4 20 ++ le_bytes 4 30) 1 2;; ldms_metric_array_get_u32 3 2) ex_set1
    (fun r s' => r = 30 /\ set_ok ex_layout s').
Proof.
  eapply runs_mono; [apply (array_set_get_roundtrip ex_layout ex_set1 3 (ex_slot 3) LDMS_V_U32_ARRAY t_u32
    ldms_metric_array_set_u32 ldms_metric_array_get_u32 (le_bytes 4 10 ++ le_bytes 4 20 ++ le_bytes 4 30) 1 2 2)|].
  - apply ex_set1_ok.
  - apply ex_set1_ok.
  - vm_compute. reflexivity.
  - vm_compute. reflexivity.
  - reflexivity.
  - repeat (apply Forall_cons; split; [vm_compute; split; [discriminate|reflexivity]|]). apply Forall_nil. exact I.
  - lia.
  - lia.
  - vm_compute. discriminate.
  - vm_compute. reflexivity.
  - vm_compute. discriminate.
  - lia.
  - intros r s' (H1 & _ & H2 & _). split; [rewrite H1; vm_compute; reflexivity|exact H2].
Defined.

(** C24: Looking a metric up by name gives the index of the metric of that
    name, and -1 when no metric has the name; the set is not changed. *)
Theorem metric_by_name_correct ly s name :
  set_ok ly s -> names_ok ly -> NoDup ((fun sl => md_name (sl_def sl)) <$> ly_slots ly) ->
  runs (ldms_metric_by_name name) s (fun r s' => s' = s /\
    (r = -1 /\ name ∉ ((fun sl => md_name (sl_def sl)) <$> ly_slots ly) \/
     exists i sl, r = Z.of_nat i /\ ly_slots ly !! i = Some sl /\ md_name (sl_def sl) = name)).
Proof.
  intros Hok Hnm Hnd. eapply runs_mono; [by apply (runs_metric_by_name ly)|]. intros r s' [-> ->]. split; [done|].
  destruct (decide (name ∈ ((fun sl => md_name (sl_def sl)) <$> ly_slots ly))) as [Hin|Hnin].
  - right. apply list_elem_of_fmap in Hin as (sl & -> & Hin). apply list_elem_of_lookup in Hin as [i Hi].
    exists i, sl. split; [|done]. by apply (first_named_unique _ _ i sl 0).
  - left. split; [by apply first_named_none|done].
Qed.

Lemma metric_by_name_correct_witness :
  runs (ldms_metric_by_name "irqs") ex_set1 (fun r s' => s' = ex_set1 /\
    (r = -1 /\ "irqs"%string ∉ ((fun sl => md_name (sl_def sl)) <$> ly_slots ex_layout) \/
     exists i sl, r = Z.of_nat i /\ ly_slots ex_layout !! i = Some sl /\ md_name (sl_def sl) = "irqs"%string)).
Proof.
  apply (metric_by_name_correct ex_layout).
  - apply ex_set1_ok.
  - intros i sl Hsl. do 5 (destruct i as [|i]; [vm_compute in Hsl; injection Hsl as <-; vm_compute; split_and!; first [discriminate|exact I]|]).
    vm_compute in Hsl. discriminate.
  - apply (bool_decide_unpack (NoDup ((fun sl => md_name (sl_def sl)) <$> ly_slots ex_layout))). vm_compute. exact I.
Defined.
