(* ===== verification/SetFindings.v ===== *)
(** * Executions of the set interface that go wrong

    Closed runs of the definitions, from an empty program. *)

From stdpp Require Import prelude gmap strings.
From Stdlib Require Import Ascii String.
From S2P Require Import Prelude Bytes CStr Mem MVal Schema Rrbt LdmsHeap SetCreate SchemaInv SetOps RecOps ListOps SetExample.

Open Scope Z_scope.

(** A set of the schema that [make] builds. *)
Definition set_of (make : W Z) : option ldms_set :=
  '(s, w) ← make (empty_world []);
  '(r, _) ← ldms_set_create ex_sha ex_blk ex_env (true, true, true) (Some "bug"%string) (Some s) 0 0 511 0 ex_reg w;
  if r.2 is inr set then Some set else None.

(** A record type with one member, an array of four such records, and a
    counter after it. *)
Definition array_then_counter : W Z :=
  '(s, _) ← ldms_schema_from_template "s" [Tmpl None 0 0 None 0 None];
  s ← lift_opt s;
  r ← ldms_record_create (Some "rec"%string);
  r ← lift_opt r;
  _ ← ldms_record_metric_add r (Some "x"%string) None (code LDMS_V_U64) 1;
  _ ← ldms_schema_record_add s r;
  _ ← ldms_schema_record_array_add s (Some "recs"%string) r 4;
  _ ← ldms_schema_metric_add_with_unit (Some s) (Some "z"%string) None (code LDMS_V_U64);
  mret s.

(** A list with a heap of 512 bytes, and one that holds records. *)
Definition list_of_bytes : W Z :=
  s ← ldms_schema_new "s";
  s ← lift_opt s;
  _ ← ldms_schema_metric_list_add (Some s) (Some "l"%string) None 512;
  mret s.

Definition list_of_records : W Z :=
  s ← ldms_schema_new "s";
  s ← lift_opt s;
  r ← ldms_record_create (Some "rec"%string);
  r ← lift_opt r;
  _ ← ldms_record_metric_add r (Some "x"%string) None (code LDMS_V_U64) 1;
  _ ← ldms_schema_record_add s r;
  _ ← ldms_schema_metric_list_add (Some s) (Some "l"%string) None 512;
  mret s.


(** The same record instance appended twice, then removed. *)
Definition double_append : SM (Z * Z * Z * option (Z * Z * Z) * bool) :=
  lh ← ldms_metric_get 1;
  r ← ldms_record_alloc 0;
  r ← lift_opt (match r with inr r => Some r | inl _ => None end);
  e1 ← ldms_list_append_record lh r;
  e2 ← ldms_list_append_record lh r;
  n ← ldms_list_len lh;
  next ← ldms_list_next r;
  _ ← ldms_list_remove_item 2 lh r;
  first ← ldms_list_first lh;
  mret (e1, e2, n, next, match first with Some (v, _, _) => v =? r | None => false end).

(** Whether a computation is stuck: a failed assertion or an access out of
    bounds. *)
Definition is_stuck {A} (o : option A) : bool := if o is None then true else false.

(** In a set with a record array, the offset of a data metric that comes
    after the array is advanced by the array's size once per element: the
    metric "z" is found by its name as the metric 2, but the address of its
    value, 5048, is past the end 4704 of the memory of the set, and setting it
    is an access out of bounds. *)
Theorem record_array_displaces_next :
  (s ← set_of array_then_counter;
   '(i, _) ← ldms_metric_by_name "z" s;
   '(p, _) ← ldms_metric_get i s;
   Some (i, p, base (s_mem s) + msize (s_mem s), is_stuck (ldms_metric_set_u64 i 7 s)))
  = Some (2, 5048, 4704, true).
Proof. vm_compute. reflexivity. Qed.

(** The first chunk of a set's heap starts after the eight bytes of the
    signature but is as long as the whole heap: the heap grants 508 bytes at
    4444 though the memory of the set ends at 4944, and appending an item of
    489 bytes to a list of the set is an access out of bounds, while one of
    488 bytes is not. *)
Theorem heap_last_chunk_overruns :
  (s ← set_of list_of_bytes;
   '(p, _) ← (h ← the_heap; on_mem (ldms_heap_alloc h 508)) s;
   let append n := (lh ← ldms_metric_get 0; ldms_list_append_item lh (code LDMS_V_CHAR_ARRAY) n) s in
   Some (p, base (s_mem s) + msize (s_mem s), is_stuck (append 488), is_stuck (append 489)))
  = Some (4444, 4944, false, true).
Proof. vm_compute. reflexivity. Qed.

(** Appending a record instance that is already the only entry of a list
    is not refused with EBUSY: both calls return 0, the list then counts two
    entries but has one, and removing the entry leaves the freed instance as
    the first of the list. *)
Theorem double_append_corrupts_list :
  (s ← set_of list_of_records; fst <$> double_append s) = Some (0, 0, 2, None, true).
Proof. vm_compute. reflexivity. Qed.
