(* ===== verification/RowKey.v ===== *)
(** * Keys of the row cache: ldmsd_row_cache.c

    A row is cached under two indexes, arrays of typed values: one names its
    group, the other its place in the group.  [tree_comparator] compares two
    indexes value by value.  The comparison trips an assertion on indexes of
    different shapes and on types it does not know; on the indexes of one
    shape, which one decomposition makes, it is the lexicographic order of
    the values' ranks, hence what the trees ask of their callback. *)

From stdpp Require Import prelude.
From Stdlib Require Import Floats.SpecFloat.
From S2P Require Import Prelude RbtIns RbtSpec CFloat Bytes MVal.

Open Scope Z_scope.

(** ** Data *)

Record ldmsd_row_cache_key_s := RowKey {
  k_type : ldms_value_type;
  k_count : Z;
  k_mval_size : Z;
  k_mval : bytes
}.

(** The array and its [key_count]. *)
Abbreviation row_idx := (list ldmsd_row_cache_key_s).

#[export] Instance row_key_eq_dec : EqDecision ldmsd_row_cache_key_s.
Proof. solve_decision. Defined.

(** [None] is the failed assertion on the type; the value is zero. *)
Definition ldmsd_row_cache_key_create (t : ldms_value_type) (len : Z) : option ldmsd_row_cache_key_s :=
  size ← ldms_metric_value_size_get (code t) len;
  Some (RowKey t len size (replicate (Z.to_nat size) 0)).

(** The copy of an index; [allocs] are the results of the three kinds of
    [calloc] calls in their order. *)
Definition ldmsd_row_cache_idx_dup (alloc_idx alloc_keys : bool) (allocs : list bool) (idx : row_idx) : option row_idx :=
  if negb alloc_idx then None else
  if negb alloc_keys then None else
  mapM (fun '(ok, k) =>
    if ok : bool then Some (RowKey (k_type k) (k_count k) (k_mval_size k) (take (Z.to_nat (k_mval_size k)) (k_mval k)))
    else None) (zip allocs idx).

(** ** Comparison *)

(** Reading a member of the union. *)
Definition mv_u (w : nat) (m : bytes) : Z := le_value (take w m).
Definition mv_s (w : nat) (m : bytes) : Z := wraps (8 * Z.of_nat w) (mv_u w m).
Definition mv_f (m : bytes) : spec_float := f32_of_bits (mv_u 4 m).
Definition mv_d (m : bytes) : spec_float := f64_of_bits (mv_u 8 m).
Definition mv_sec (m : bytes) : Z := mv_u 4 m.
Definition mv_usec (m : bytes) : Z := mv_u 4 (drop 4 m).

Definition cmp_num (a b : Z) : Z := if a =? b then 0 else if b <? a then 1 else -1.
Definition cmp_float (a b : spec_float) : Z := if SFeqb a b then 0 else if SFltb b a then 1 else -1.

(** The sign of [strncmp]; [None] is a read past the end of a value. *)
Fixpoint strncmp (n : nat) (a b : bytes) : option Z :=
  match n with
  | O => Some 0
  | S n =>
      match a, b with
      | x :: a, y :: b =>
          if x =? y then if x =? 0 then Some 0 else strncmp n a b
          else Some (if x <? y then -1 else 1)
      | _, _ => None
      end
  end.

(** One round of the loop: zero is [continue]. *)
Definition compare_keys (ka kb : ldmsd_row_cache_key_s) : option Z :=
  let a := k_mval ka in
  let b := k_mval kb in
  if bool_decide (k_type ka <> k_type kb) then None else
  match k_type ka with
  | LDMS_V_TIMESTAMP => Some (
      if mv_sec a <? mv_sec b then -1 else
      if mv_sec b <? mv_sec a then 1 else
      if mv_usec a <? mv_usec b then -1 else
      if mv_usec b <? mv_usec a then 1 else 0)
  | LDMS_V_CHAR_ARRAY => strncmp (Z.to_nat (k_count ka)) a b
  | LDMS_V_CHAR => Some (cmp_num (mv_s 1 a) (mv_s 1 b))
  | LDMS_V_U8 => Some (cmp_num (mv_u 1 a) (mv_u 1 b))
  | LDMS_V_S8 => Some (cmp_num (mv_s 1 a) (mv_s 1 b))
  | LDMS_V_U16 => Some (cmp_num (mv_u 2 a) (mv_u 2 b))
  | LDMS_V_S16 => Some (cmp_num (mv_s 2 a) (mv_s 2 b))
  | LDMS_V_U32 => Some (cmp_num (mv_u 4 a) (mv_u 4 b))
  | LDMS_V_S32 => Some (cmp_num (mv_s 4 a) (mv_s 4 b))
  | LDMS_V_U64 => Some (cmp_num (mv_u 8 a) (mv_u 8 b))
  | LDMS_V_S64 => Some (cmp_num (mv_s 8 a) (mv_s 8 b))
  | LDMS_V_F32 => Some (cmp_float (mv_f a) (mv_f b))
  | LDMS_V_D64 => Some (cmp_float (mv_d a) (mv_d b))
  | _ => None
  end.

Fixpoint compare_from (ia ib : row_idx) : option Z :=
  match ia, ib with
  | [], _ => Some 0
  | ka :: ia, kb :: ib =>
      rc ← compare_keys ka kb;
      if rc =? 0 then compare_from ia ib else Some rc
  | _ :: _, [] => None
  end.

Definition tree_comparator (ia ib : row_idx) : option Z :=
  if bool_decide (length ia = length ib) then compare_from ia ib else None.

(** ** Ranks *)

Section lex.
Context {A : Type} (cmp : A -> A -> Z).

Fixpoint lexcmp (a b : list A) : Z :=
  match a, b with
  | [], [] => 0
  | [], _ :: _ => -1
  | _ :: _, [] => 1
  | x :: a, y :: b => if cmp x y =? 0 then lexcmp a b else cmp x y
  end.

#[export] Instance lexcmp_comparator `{!Comparator cmp} : Comparator lexcmp.
Proof.
  split.
  - intros a. induction a as [|x a IH]; intros [|y b]; simpl; try lia.
    pose proof (cmp_opp (cmp := cmp) x y). pose proof (cmp_opp (cmp := cmp) y x).
    destruct (Z.eqb_spec (cmp x y) 0), (Z.eqb_spec (cmp y x) 0); try lia. apply IH.
  - intros a. induction a as [|x a IH]; intros [|y b] [|z c]; simpl; try lia.
    pose proof (cmp_trans (cmp := cmp) x y z). pose proof (cmp_trans (cmp := cmp) z x y).
    pose proof (cmp_trans (cmp := cmp) y z x).
    pose proof (cmp_opp (cmp := cmp) x y). pose proof (cmp_opp (cmp := cmp) y z).
    pose proof (cmp_opp (cmp := cmp) x z). pose proof (cmp_opp (cmp := cmp) y x).
    pose proof (cmp_opp (cmp := cmp) z y). pose proof (cmp_opp (cmp := cmp) z x).
    specialize (IH b c).
    destruct (Z.eqb_spec (cmp x y) 0), (Z.eqb_spec (cmp y z) 0), (Z.eqb_spec (cmp x z) 0); lia.
Qed.
End lex.

#[export] Instance cmp_num_comparator : Comparator cmp_num.
Proof.
  split; unfold cmp_num; intros *; repeat case_match; lia.
Qed.

Definition sgn (s : bool) (z : Z) : Z := if s then - z else z.

(** A number that is not a NaN, as three integers in the order of its weight. *)
Definition float_rank (f : spec_float) : list Z :=
  match f with
  | S754_zero _ | S754_nan => [0; 0; 0]
  | S754_infinity s => [sgn s 2; 0; 0]
  | S754_finite s m e => [sgn s 1; sgn s e; sgn s (Z.pos m)]
  end.

(** The bytes of a string of at most [n] bytes. *)
Fixpoint str_rank (n : nat) (bs : bytes) : list Z :=
  match n, bs with
  | S n, x :: bs => if x =? 0 then [] else x :: str_rank n bs
  | _, _ => []
  end.

Definition rank (k : ldmsd_row_cache_key_s) : list Z :=
  let m := k_mval k in
  match k_type k with
  | LDMS_V_TIMESTAMP => [mv_sec m; mv_usec m]
  | LDMS_V_CHAR_ARRAY => str_rank (Z.to_nat (k_count k)) m
  | LDMS_V_CHAR => [mv_s 1 m]
  | LDMS_V_U8 => [mv_u 1 m]
  | LDMS_V_S8 => [mv_s 1 m]
  | LDMS_V_U16 => [mv_u 2 m]
  | LDMS_V_S16 => [mv_s 2 m]
  | LDMS_V_U32 => [mv_u 4 m]
  | LDMS_V_S32 => [mv_s 4 m]
  | LDMS_V_U64 => [mv_u 8 m]
  | LDMS_V_S64 => [mv_s 8 m]
  | LDMS_V_F32 => float_rank (mv_f m)
  | LDMS_V_D64 => float_rank (mv_d m)
  | _ => []
  end.

(** ** Shapes *)

(** The columns that make an index: their types and array lengths. *)
Abbreviation shape := (list (ldms_value_type * Z)).

Definition is_nan (f : spec_float) : bool := match f with S754_nan => true | _ => false end.

(** The types the comparison knows. *)
Definition comparable (t : ldms_value_type) : bool :=
  match t with
  | LDMS_V_TIMESTAMP | LDMS_V_CHAR_ARRAY | LDMS_V_CHAR | LDMS_V_U8 | LDMS_V_S8 | LDMS_V_U16
  | LDMS_V_S16 | LDMS_V_U32 | LDMS_V_S32 | LDMS_V_U64 | LDMS_V_S64 | LDMS_V_F32 | LDMS_V_D64 => true
  | _ => false
  end.

(** A value of column [c]: a comparable type, an array inside the value's
    bytes, none of which is negative, and no NaN. *)
Definition key_fits (c : ldms_value_type * Z) (k : ldmsd_row_cache_key_s) : bool :=
  bool_decide (k_type k = c.1) && (k_count k =? c.2) && comparable c.1 &&
  (k_count k <=? Z.of_nat (length (k_mval k))) && forallb (fun b => 0 <=? b) (k_mval k) &&
  match c.1 with
  | LDMS_V_F32 => negb (is_nan (mv_f (k_mval k)))
  | LDMS_V_D64 => negb (is_nan (mv_d (k_mval k)))
  | _ => true
  end.

Fixpoint idx_fits (sh : shape) (i : row_idx) : bool :=
  match sh, i with
  | [], [] => true
  | c :: sh, k :: i => key_fits c k && idx_fits sh i
  | _, _ => false
  end.

(** The indexes of one decomposition. *)
Definition index (sh : shape) : Type := { i : row_idx | idx_fits sh i = true }.

(** The callback on them. *)
Definition index_cmp {sh} (a b : index sh) : Z := default 0 (tree_comparator (`a) (`b)).

(** ** The comparison is the order of the ranks *)

Lemma lexcmp_num a b : lexcmp cmp_num [a] [b] = cmp_num a b.
Proof. simpl. by destruct (Z.eqb_spec (cmp_num a b) 0). Qed.

Lemma cmp_float_rank a b :
  is_nan a = false -> is_nan b = false -> cmp_float a b = lexcmp cmp_num (float_rank a) (float_rank b).
Proof.
  intros Ha Hb. unfold cmp_float, SFeqb, SFltb, cmp_num.
  destruct a as [sa|sa| |sa ma ea], b as [sb|sb| |sb mb eb]; try done; simpl;
    repeat match goal with s : bool |- _ => destruct s end; try done; simpl.
  all: change (Pos.compare_cont Eq mb ma) with (mb ?= ma)%positive;
    change (Pos.compare_cont Eq ma mb) with (ma ?= mb)%positive;
    destruct (Z.compare_spec ea eb), (Z.compare_spec eb ea); try lia;
    destruct (Pos.compare_spec ma mb), (Pos.compare_spec mb ma); try lia; simpl; subst;
    rewrite ?Z.eqb_refl, ?Pos.eqb_refl; simpl; rewrite ?Z.eqb_refl; simpl;
    repeat case_match; simpl in *; rewrite ?Pos.eqb_eq in *; lia.
Qed.

Lemma strncmp_rank n a b :
  (n <= length a)%nat -> (n <= length b)%nat ->
  Forall (fun x => 0 <= x) a -> Forall (fun x => 0 <= x) b ->
  strncmp n a b = Some (lexcmp cmp_num (str_rank n a) (str_rank n b)).
Proof.
  revert a b. induction n as [|n IH]; intros [|x a] [|y b] Hla Hlb Ha Hb; simpl in *; try lia; try done.
  apply Forall_cons in Ha as [Hx Ha]. apply Forall_cons in Hb as [Hy Hb].
  destruct (Z.eqb_spec x y) as [->|Hne].
  - destruct (Z.eqb_spec y 0); [done|]. rewrite IH by (done || lia). simpl. unfold cmp_num. by rewrite Z.eqb_refl.
  - destruct (Z.eqb_spec x 0), (Z.eqb_spec y 0); simpl; unfold cmp_num; repeat case_match; try lia; done.
Qed.

Lemma cmp_timestamp_rank a1 a2 b1 b2 :
  (if a1 <? b1 then -1 else if b1 <? a1 then 1 else if a2 <? b2 then -1 else if b2 <? a2 then 1 else 0) =
  lexcmp cmp_num [a1; a2] [b1; b2].
Proof. simpl. unfold cmp_num. repeat case_match; lia. Qed.

Lemma forallb_nonneg l : forallb (fun b => 0 <=? b) l = true -> Forall (fun b => 0 <= b) l.
Proof. induction l; simpl; [constructor|]. rewrite andb_true_iff, Z.leb_le. intros [??]. constructor; auto. Qed.

Lemma compare_keys_rank c ka kb :
  key_fits c ka = true -> key_fits c kb = true ->
  compare_keys ka kb = Some (lexcmp cmp_num (rank ka) (rank kb)).
Proof.
  unfold key_fits. rewrite !andb_true_iff, !bool_decide_eq_true, !Z.eqb_eq, !Z.leb_le.
  intros (((((Hta & Hca) & Hcmp) & Hla) & Hpa) & Hna) (((((Htb & Hcb) & _) & Hlb) & Hpb) & Hnb).
  unfold compare_keys, rank. rewrite Hta, Htb, bool_decide_false by tauto.
  destruct c as [t n]. cbn [fst snd] in *.
  destruct t; try discriminate Hcmp; try (rewrite lexcmp_num; reflexivity).
  - apply negb_true_iff in Hna, Hnb. f_equal. apply cmp_float_rank; assumption.
  - apply negb_true_iff in Hna, Hnb. f_equal. apply cmp_float_rank; assumption.
  - rewrite Hca, Hcb. apply strncmp_rank; [lia|lia|by apply forallb_nonneg..].
  - f_equal. apply cmp_timestamp_rank.
Qed.

Lemma compare_from_rank sh ia ib :
  idx_fits sh ia = true -> idx_fits sh ib = true ->
  length ia = length ib /\ compare_from ia ib = Some (lexcmp (lexcmp cmp_num) (rank <$> ia) (rank <$> ib)).
Proof.
  revert ia ib. induction sh as [|c sh IH]; intros [|ka ia] [|kb ib]; try done. simpl.
  intros [Ha Hia]%andb_true_iff [Hb Hib]%andb_true_iff. destruct (IH _ _ Hia Hib) as [Hl Hc].
  split; [lia|]. rewrite (compare_keys_rank c ka kb) by done. simpl. by rewrite Hc; case_match.
Qed.

Lemma index_cmp_rank {sh} (a b : index sh) :
  tree_comparator (`a) (`b) = Some (index_cmp a b) /\
  index_cmp a b = lexcmp (lexcmp cmp_num) (rank <$> `a) (rank <$> `b).
Proof.
  destruct a as [ia Ha], b as [ib Hb]. unfold index_cmp, tree_comparator. simpl.
  destruct (compare_from_rank sh ia ib Ha Hb) as [Hl ->]. by rewrite bool_decide_true.
Qed.

#[export] Instance index_comparator sh : Comparator (@index_cmp sh).
Proof.
  split; intros *; rewrite ?(proj2 (index_cmp_rank _ _)); [apply cmp_opp|apply cmp_trans].
Qed.

(** A copy whose allocations succeed is equal. *)
Lemma ldmsd_row_cache_idx_dup_same idx :
  Forall (fun k => length (k_mval k) = Z.to_nat (k_mval_size k)) idx ->
  ldmsd_row_cache_idx_dup true true (replicate (length idx) true) idx = Some idx.
Proof.
  unfold ldmsd_row_cache_idx_dup. simpl. induction 1 as [|k idx Hk _ IH]; [done|]. simpl. rewrite IH. simpl.
  rewrite firstn_all2 by lia. by destruct k.
Qed.
