(* ===== verification/RowCache.v ===== *)
(** * The row cache: ldmsd_row_cache.c

    A decomposition that computes a column from a row and its predecessors
    keeps the last rows of every group.  Groups are in a tree ordered by their
    index; the rows of a group are in a tree of their own, ordered by theirs.
    A group that gets no row for the configured time is dropped: it sits in
    one of three lists (buckets), the lists rotate as time passes, and the
    oldest is emptied.

    The addresses [calloc] returns and the clock are inputs.  The indexes
    of groups and of rows are of the types [GK] and [K], addresses of values
    that [tree_comparator] compares (RowKey).  [held_rows] are the rows the
    cache has taken over and not freed, [indexes] the indexes: those of the
    rows it was given, and the copies it made for its groups.  The cache is
    not NULL (the code returns EINVAL then), and [row_key_count], which
    nothing reads, is left out. *)

From stdpp Require Import prelude gmap.
From S2P Require Import Prelude Rbt Ev.

Open Scope Z_scope.

(** ** Times: ldmsd_strgp.c *)

Definition ldmsd_timespec_diff (start stop : timespec) : timespec :=
  if tv_nsec stop - tv_nsec start <? 0 then
    Ts (s64 (tv_sec stop - tv_sec start - 1)) (tv_nsec stop - tv_nsec start + 1000000000)
  else Ts (s64 (tv_sec stop - tv_sec start)) (tv_nsec stop - tv_nsec start).

Definition ldmsd_timespec_cmp (a b : timespec) : Z :=
  if tv_sec a <? tv_sec b then -1 else
  if tv_sec b <? tv_sec a then 1 else
  if tv_nsec a <? tv_nsec b then -1 else
  if tv_nsec b <? tv_nsec a then 1 else 0.

Definition ldmsd_timespec_add (a b : timespec) : timespec :=
  let sec := s64 (tv_sec a + tv_sec b) in
  if tv_nsec a + tv_nsec b <? 1000000000 then Ts sec (tv_nsec a + tv_nsec b)
  else Ts (s64 (sec + 1)) (tv_nsec a + tv_nsec b - 1000000000).

(** ** Indexes

    Where an index is, and its copy at another address, as
    [ldmsd_row_cache_idx_dup] makes it.  An index, the array of its keys and
    the keys are allocated and freed together, as one object. *)
Class IndexRef (I : Type) := {
  idx_addr : I -> loc;
  idx_at : loc -> I -> I;
  idx_addr_at p i : idx_addr (idx_at p i) = p
}.

(** A comparison looks at the values only. *)
Class ByValue {I : Type} `{!IndexRef I} (cmp : I -> I -> Z) : Prop :=
  cmp_idx_at p i j : cmp (idx_at p i) j = cmp i j.

Section cache.
Context {GK K : Type} `{!IndexRef GK, !IndexRef K} (gcmp : GK -> GK -> Z) (cmp : K -> K -> Z).

(** ** Data *)

Record ldmsd_row_cache_entry_s := Entry { ce_row : loc; ce_idx : K }.

(** [rbn_key] is the key of the node that the group has in the tree. *)
Record ldmsd_row_group_s := Group {
  rbn_key : GK;
  row_tree : rbt K;
  last_update : timespec
}.

Record ldmsd_row_cache_s := Cache {
  row_limit : Z;
  group_tree : rbt GK;
  group_bucket : list (list loc);
  gb_idx : Z;
  bucket_ts : timespec;
  cfg_timeout : timespec;
  groups : gmap loc ldmsd_row_group_s;
  entries : gmap loc ldmsd_row_cache_entry_s;
  held_rows : gset loc;
  indexes : gset loc
}.

Definition set_group_tree x s := Cache (row_limit s) x (group_bucket s) (gb_idx s) (bucket_ts s) (cfg_timeout s)
  (groups s) (entries s) (held_rows s) (indexes s).
Definition set_bucket f s := Cache (row_limit s) (group_tree s) (f (group_bucket s)) (gb_idx s) (bucket_ts s)
  (cfg_timeout s) (groups s) (entries s) (held_rows s) (indexes s).
Definition set_gb_idx x s := Cache (row_limit s) (group_tree s) (group_bucket s) x (bucket_ts s) (cfg_timeout s)
  (groups s) (entries s) (held_rows s) (indexes s).
Definition set_bucket_ts x s := Cache (row_limit s) (group_tree s) (group_bucket s) (gb_idx s) x (cfg_timeout s)
  (groups s) (entries s) (held_rows s) (indexes s).
Definition set_groups f s := Cache (row_limit s) (group_tree s) (group_bucket s) (gb_idx s) (bucket_ts s)
  (cfg_timeout s) (f (groups s)) (entries s) (held_rows s) (indexes s).
Definition set_entries f s := Cache (row_limit s) (group_tree s) (group_bucket s) (gb_idx s) (bucket_ts s)
  (cfg_timeout s) (groups s) (f (entries s)) (held_rows s) (indexes s).
Definition set_held_rows f s := Cache (row_limit s) (group_tree s) (group_bucket s) (gb_idx s) (bucket_ts s)
  (cfg_timeout s) (groups s) (entries s) (f (held_rows s)) (indexes s).
Definition set_indexes f s := Cache (row_limit s) (group_tree s) (group_bucket s) (gb_idx s) (bucket_ts s)
  (cfg_timeout s) (groups s) (entries s) (held_rows s) (f (indexes s)).

(** ** Memory *)

Definition GB_LEN : Z := 3.

Definition ld_group (g : loc) : M ldmsd_row_cache_s ldmsd_row_group_s := fun s => (., s) <$> groups s !! g.
Definition st_group (g : loc) (f : ldmsd_row_group_s -> ldmsd_row_group_s) : M ldmsd_row_cache_s unit :=
  x ← ld_group g; modify (set_groups (insert g (f x))).
Definition ld_entry (e : loc) : M ldmsd_row_cache_s ldmsd_row_cache_entry_s := fun s => (., s) <$> entries s !! e.

(** Operations on the two kinds of trees. *)
Definition on_groups {A} (m : M (rbt GK) A) : M ldmsd_row_cache_s A :=
  t ← gets group_tree;
  '(a, t) ← lift_opt (m t);
  modify (set_group_tree t);;
  mret a.
Definition on_rows {A} (g : loc) (m : M (rbt K) A) : M ldmsd_row_cache_s A :=
  x ← ld_group g;
  '(a, t) ← lift_opt (m (row_tree x));
  st_group g (fun x => Group (rbn_key x) t (last_update x));;
  mret a.

(** [free]; freeing what is not held, or not allocated, is an error. *)
Definition free_row (r : loc) : M ldmsd_row_cache_s unit :=
  ok ← gets (fun s => bool_decide (r ∈ held_rows s));
  c_assert ok;;
  modify (set_held_rows (.∖ {[r]})).
Definition ldmsd_row_cache_idx_free (i : loc) : M ldmsd_row_cache_s unit :=
  ok ← gets (fun s => bool_decide (i ∈ indexes s));
  c_assert ok;;
  modify (set_indexes (.∖ {[i]})).
Definition free_entry (e : loc) : M ldmsd_row_cache_s unit :=
  _ ← ld_entry e; modify (set_entries (delete e)).
Definition free_group (g : loc) : M ldmsd_row_cache_s unit :=
  _ ← ld_group g; modify (set_groups (delete g)).

(** [LIST_REMOVE] unlinks the group from the list it is in. *)
Definition bucket_remove (g : loc) : M ldmsd_row_cache_s unit :=
  bs ← gets group_bucket;
  c_assert (existsb (fun l => bool_decide (g ∈ l)) bs);;
  modify (set_bucket (fmap (filter (.≠ g)))).
Definition bucket_insert_head (i : Z) (g : loc) : M ldmsd_row_cache_s unit :=
  modify (set_bucket (alter (cons g) (Z.to_nat i))).
Definition bucket_first (i : Z) : M ldmsd_row_cache_s ptr :=
  bs ← gets group_bucket; b ← lift_opt (bs !! Z.to_nat i); mret (head b).

(** ** Operations *)

Definition ldmsd_row_cache_create (rcache : option unit) (limit : Z) (timeout : option timespec) : option ldmsd_row_cache_s :=
  _ ← rcache;
  Some (Cache limit (rbt_init ∅) [[]; []; []] 0 (Ts 0 0) (default (Ts 0 0) timeout) ∅ ∅ ∅ ∅).

(** Unlink and free an entry of a group. *)
Definition drop_entry (g e : loc) : M ldmsd_row_cache_s unit :=
  on_rows g (rbt_del (Some e));;
  cent ← ld_entry e;
  ldmsd_row_cache_idx_free (idx_addr (ce_idx cent));;
  free_row (ce_row cent);;
  free_entry e.

(** The loop over the rows of a group that is dropped. *)
Definition drop_rows (fuel : nat) (g : loc) : M ldmsd_row_cache_s unit :=
  loopM fuel (fun _ =>
    rbn ← on_rows g rbt_min;
    match rbn with
    | None => mret (inr tt)
    | Some e => drop_entry g e;; mret (inl tt)
    end) tt.

(** A group is unlinked and freed. *)
Definition drop_group (ne : nat) (g : loc) : M ldmsd_row_cache_s unit :=
  bucket_remove g;;
  on_groups (rbt_del (Some g));;
  drop_rows (S ne) g;;
  x ← ld_group g;
  ldmsd_row_cache_idx_free (idx_addr (rbn_key x));;
  free_group g.

Definition cleanup_step (ne : nat) (ci : Z) (_ : unit) : M ldmsd_row_cache_s (unit + unit) :=
  g ← bucket_first ci;
  match g with
  | None => mret (inr tt)
  | Some g => drop_group ne g;; mret (inl tt)
  end.

(** The loops run over the groups of the bucket and their entries. *)
Definition ldmsd_row_group_bucket_cleanup (ci : Z) : M ldmsd_row_cache_s unit :=
  ng ← gets (fun s => size (groups s));
  ne ← gets (fun s => size (entries s));
  loopM (S ng) (cleanup_step ne ci) tt.

(** One round of the loop that advances the buckets. *)
Definition advance : M ldmsd_row_cache_s unit :=
  modify (fun s => set_gb_idx (Z.rem (gb_idx s + 1) GB_LEN) s);;
  modify (fun s => set_bucket_ts (ldmsd_timespec_add (bucket_ts s) (cfg_timeout s)) s);;
  ci ← gets (fun s => Z.rem (gb_idx s + 1) GB_LEN);
  ldmsd_row_group_bucket_cleanup ci.

Definition behind (ts : timespec) (s : ldmsd_row_cache_s) : bool := ldmsd_timespec_cmp (bucket_ts s) ts <? 0.

(** The buckets are advanced [count] times at most; the result is what is
    left of [count]. *)
Fixpoint advance_loop (count : nat) (ts : timespec) : M ldmsd_row_cache_s nat :=
  match count with
  | O => mret O
  | S n =>
      late ← gets (behind ts);
      if late : bool then advance;; advance_loop n ts else mret (S n)
  end.

Definition row_cache_expire (ts : timespec) : M ldmsd_row_cache_s unit :=
  to ← gets cfg_timeout;
  if (tv_sec to =? 0) && (tv_nsec to =? 0) then mret tt else
  count ← advance_loop (Z.to_nat GB_LEN) ts;
  late ← gets (behind ts);
  if (Z.of_nat count =? 0) && late then
    modify (fun s => set_bucket_ts (ldmsd_timespec_add ts (cfg_timeout s)) s)
  else mret tt.

(** The copy of an index at the address [dup], NULL when there is no memory.
    The code does not look; a NULL index ends the run here, in the code with
    the next comparison or free that meets it. *)
Definition dup_index (dup : ptr) (idx : GK) : M ldmsd_row_cache_s GK :=
  p ← lift_opt dup;
  modify (set_indexes (union {[p]}));;
  mret (idx_at p idx).

(** The group of an index, made when there is none; [new] is the address
    [calloc] returns and [dup] that of the copy of the index. *)
Definition row_cache_group (new dup : ptr) (group_key : GK) : M ldmsd_row_cache_s loc :=
  group_rbn ← on_groups (rbt_find gcmp group_key);
  match group_rbn with
  | Some g => mret g
  | None =>
      g ← lift_opt new;
      group_key ← dup_index dup group_key;
      modify (set_groups (insert g (Group group_key (rbt_init ∅) (Ts 0 0))));;
      on_groups (rbt_add gcmp g group_key);;
      i ← gets gb_idx;
      bucket_insert_head i g;;
      mret g
  end.

(** A full group loses its first row. *)
Definition row_cache_evict (group : loc) : M ldmsd_row_cache_s unit :=
  c ← on_rows group rbt_card;
  limit ← gets row_limit;
  if c =? u64 limit then
    rbn ← on_rows group rbt_min;
    e ← lift_opt rbn;
    drop_entry group e
  else mret tt.

(** The rest of a call, once there is room in the group: the row and its
    index are taken over. *)
Definition store_row (e : loc) (ts : timespec) (group : loc) (row_key : K) (row : loc) : M ldmsd_row_cache_s Z :=
  modify (set_entries (insert e (Entry row row_key)));;
  modify (set_held_rows (union {[row]}));;
  modify (set_indexes (union {[idx_addr row_key]}));;
  on_rows group (rbt_add cmp e row_key);;
  st_group group (fun x => Group (rbn_key x) (row_tree x) ts);;
  bucket_remove group;;
  i ← gets gb_idx;
  bucket_insert_head i group;;
  mret 0.

(** [clock] is the result of [clock_gettime], or its error number. *)
Definition ldmsd_row_cache (entry : ptr) (clock : Z + timespec) (new dup : ptr) (group_key : GK) (row_key : K) (row : loc)
    : M ldmsd_row_cache_s Z :=
  match entry with
  | None => mret ENOMEM
  | Some e =>
      match clock with
      | inl errno => mret errno
      | inr ts =>
          row_cache_expire ts;;
          group ← row_cache_group new dup group_key;
          row_cache_evict group;;
          store_row e ts group row_key row
      end
  end.

(** The newest [row_count] rows of a group. *)
Fixpoint list_rows (g : loc) (count : nat) (rbn : ptr) : M ldmsd_row_cache_s (list loc) :=
  match rbn, count with
  | None, _ | _, O => mret []
  | Some e, S n =>
      entry ← ld_entry e;
      rbn ← on_rows g (rbn_pred (Some e));
      l ← list_rows g n rbn;
      mret (ce_row entry :: l)
  end.

Definition ldmsd_row_cache_make_list (row_count : Z) (group_key : GK) : M ldmsd_row_cache_s (list loc * Z) :=
  rbn ← on_groups (rbt_find gcmp group_key);
  match rbn with
  | None => mret ([], 0)
  | Some g =>
      rbn ← on_rows g rbt_max;
      l ← list_rows g (Z.to_nat row_count) rbn;
      mret (l, Z.of_nat (length l))
  end.
End cache.

Arguments Entry {K}.
Arguments ce_row {K}.
Arguments ce_idx {K}.
Arguments Group {GK K}.
Arguments rbn_key {GK K}.
Arguments row_tree {GK K}.
Arguments last_update {GK K}.
Arguments Cache {GK K}.
Arguments row_limit {GK K}.
Arguments group_tree {GK K}.
Arguments group_bucket {GK K}.
Arguments gb_idx {GK K}.
Arguments bucket_ts {GK K}.
Arguments cfg_timeout {GK K}.
Arguments groups {GK K}.
Arguments entries {GK K}.
Arguments held_rows {GK K}.
Arguments indexes {GK K}.
