(* ===== verification/RowCacheRep.v ===== *)
(** * The row cache: abstraction

    The abstract cache: the groups with their rows in order, the two lists of
    groups the buckets hold, and the time at which they rotate.  [rep] relates
    it to the store of RowCache; this file has the effect of dropping groups
    and of advancing the buckets. *)

From stdpp Require Import prelude gmap sorting.
From S2P Require Import Prelude Rbt RbtRep RbtRot RbtIns RbtOps RbtSearch RbtSpec Ev RowCache.

Open Scope Z_scope.

(** ** Times in nanoseconds *)

Definition ns (t : timespec) : Z := tv_sec t * 1000000000 + tv_nsec t.

(** Years the clock does not reach. *)
Definition TIME_MAX : Z := 2 ^ 60 * 1000000000.

Lemma time_max_pos : 0 < TIME_MAX.
Proof. done. Qed.

Definition ts_wf (t : timespec) : Prop := 0 <= tv_sec t /\ 0 <= tv_nsec t < 1000000000.

Lemma timespec_cmp_ns a b : ts_wf a -> ts_wf b -> (ldmsd_timespec_cmp a b <? 0) = (ns a <? ns b).
Proof.
  unfold ts_wf, ns, ldmsd_timespec_cmp. intros. symmetry.
  repeat case_match; simpl; (apply Z.ltb_lt || apply Z.ltb_ge); lia.
Qed.

Lemma timespec_add_ns a b :
  ts_wf a -> ts_wf b -> ns a < 2 * TIME_MAX -> ns b < 2 * TIME_MAX ->
  ts_wf (ldmsd_timespec_add a b) /\ ns (ldmsd_timespec_add a b) = ns a + ns b.
Proof.
  unfold ts_wf, ns, TIME_MAX, ldmsd_timespec_add. intros.
  assert (tv_sec a < 2 ^ 61 /\ tv_sec b < 2 ^ 61) by lia.
  rewrite (s64_small (tv_sec a + tv_sec b)) by lia. case_match; simpl; [lia|]. rewrite s64_small by lia. lia.
Qed.

(** A map without some keys. *)
Definition drop_keys {V} (ks : list loc) (m : gmap loc V) : gmap loc V := filter (fun p => p.1 ∉ ks) m.

Lemma lookup_drop {V} ks (m : gmap loc V) k : drop_keys ks m !! k = if decide (k ∈ ks) then None else m !! k.
Proof.
  unfold drop_keys. destruct (decide (k ∈ ks)).
  - apply map_lookup_filter_None. right. simpl. tauto.
  - destruct (m !! k) eqn:He; [by apply map_lookup_filter_Some|apply map_lookup_filter_None; by left].
Qed.

Lemma lookup_drop_Some {V} ks (m : gmap loc V) k v : drop_keys ks m !! k = Some v <-> k ∉ ks /\ m !! k = Some v.
Proof. rewrite lookup_drop. case_decide; naive_solver. Qed.

Lemma drop_keys_app {V} ks1 ks2 (m : gmap loc V) : drop_keys (ks1 ++ ks2) m = drop_keys ks2 (drop_keys ks1 m).
Proof.
  apply map_eq. intros k. rewrite !lookup_drop. repeat case_decide; set_solver.
Qed.

Section rep.
Context {GK K : Type} `{!IndexRef GK, !IndexRef K} (gcmp : GK -> GK -> Z) {Hgcmp : Comparator gcmp} (cmp : K -> K -> Z) {Hcmp : Comparator cmp}.
Abbreviation cache := (@ldmsd_row_cache_s GK K).
Abbreviation entry_map := (gmap loc (@ldmsd_row_cache_entry_s K)).
Implicit Types (s : cache) (E : entry_map).

(** ** The abstract cache *)

Record agroup := AGroup { ag_key : GK; ag_rows : list (loc * K); ag_last : Z }.

Record acache := ACache {
  a_ts : Z;
  a_cur : list loc;
  a_prev : list loc;
  a_groups : gmap loc agroup;
  a_entries : entry_map
}.

(** The rows of some entries, and what is left when they are freed. *)
Definition rows_of E (es : list loc) : list loc := omap (fun e => ce_row <$> E !! e) es.
Definition drop_live (es : list loc) E (L : gset loc) : gset loc := L ∖ list_to_set (rows_of E es).

(** The indexes of some entries, and what is left when they are freed. *)
Definition idxs_of E (es : list loc) : list loc := omap (fun e => idx_addr ∘ ce_idx <$> E !! e) es.
Definition drop_idxs (es : list loc) E (L : gset loc) : gset loc := L ∖ list_to_set (idxs_of E es).

(** The entries of some groups. *)
Definition ents_of (G : gmap loc agroup) (gs : list loc) : list loc :=
  gs ≫= fun g => match G !! g with Some x => (ag_rows x).*1 | None => [] end.

(** Dropping groups that are in neither list. *)
Definition a_drop (gs : list loc) (a : acache) : acache :=
  let es := ents_of (a_groups a) gs in
  ACache (a_ts a) (a_cur a) (a_prev a) (drop_keys gs (a_groups a)) (drop_keys es (a_entries a)).

(** The buckets rotate: the groups of the older one are dropped. *)
Definition a_rotate (T : Z) (a : acache) : acache :=
  let a' := a_drop (a_prev a) a in
  ACache (a_ts a + T) [] (a_cur a) (a_groups a') (a_entries a').

Fixpoint a_advance (n : nat) (T now : Z) (a : acache) : acache * nat :=
  match n with
  | O => (a, O)
  | S m => if a_ts a <? now then a_advance m T now (a_rotate T a) else (a, n)
  end.

(** What a call at time [now] does first, with the timeout [T]. *)
Definition a_expire (T now : Z) (a : acache) : acache :=
  if T =? 0 then a else
  let '(a, n) := a_advance 3 T now a in
  if (Z.of_nat n =? 0) && (a_ts a <? now) then
    ACache (now + T) (a_cur a) (a_prev a) (a_groups a) (a_entries a)
  else a.

(** ** The relation *)

(** The rows held are the rows of the entries, which share none. *)
Record owned (E : entry_map) (L : gset loc) : Prop := {
  own_rows r : r ∈ L <-> exists e c, E !! e = Some c /\ ce_row c = r;
  own_inj e e' c c' : E !! e = Some c -> E !! e' = Some c' -> ce_row c = ce_row c' -> e = e'
}.

(** The address is that of the index of a group or of an entry. *)
Definition group_idx (G : gmap loc agroup) (i : loc) : Prop := exists g x, G !! g = Some x /\ idx_addr (ag_key x) = i.
Definition entry_idx (E : entry_map) (i : loc) : Prop := exists e c, E !! e = Some c /\ idx_addr (ce_idx c) = i.
Definition idx_used (a : acache) (i : loc) : Prop := group_idx (a_groups a) i \/ entry_idx (a_entries a) i.

(** The indexes held are those of the groups and of the entries, which share
    none. *)
Record idx_owned (G : gmap loc agroup) (E : entry_map) (L : gset loc) : Prop := {
  io_mem i : i ∈ L <-> group_idx G i \/ entry_idx E i;
  io_groups g g' x x' : G !! g = Some x -> G !! g' = Some x' -> idx_addr (ag_key x) = idx_addr (ag_key x') -> g = g';
  io_entries e e' c c' : E !! e = Some c -> E !! e' = Some c' -> idx_addr (ce_idx c) = idx_addr (ce_idx c') -> e = e';
  io_apart i : group_idx G i -> ~ entry_idx E i
}.

Record groups_rep (G : gmap loc agroup) (E : entry_map) (limit : Z) (m : gmap loc (@ldmsd_row_group_s GK K)) : Prop := {
  gr_none g : G !! g = None -> m !! g = None;
  gr_some g x : G !! g = Some x -> exists t lu,
    m !! g = Some (Group (ag_key x) t lu) /\ models cmp (ag_rows x) t /\ ns lu = ag_last x;
  gr_limit g x : G !! g = Some x -> Z.of_nat (length (ag_rows x)) <= limit;
  gr_entry g x e k : G !! g = Some x -> (e, k) ∈ ag_rows x -> exists r, E !! e = Some (Entry r k);
  gr_apart g g' x x' e : G !! g = Some x -> G !! g' = Some x' -> e ∈ (ag_rows x).*1 -> e ∈ (ag_rows x').*1 -> g = g';
  gr_all e : is_Some (E !! e) -> exists g x, G !! g = Some x /\ e ∈ (ag_rows x).*1
}.

Record tree_rep (G : gmap loc agroup) (t : rbt GK) : Prop := {
  tr_models : exists l, models gcmp l t /\ forall g k, (g, k) ∈ l <-> exists x, G !! g = Some x /\ ag_key x = k;
  tr_inj g g' x x' : G !! g = Some x -> G !! g' = Some x' -> gcmp (ag_key x) (ag_key x') = 0 -> g = g'
}.

(** The list at the index, the one before it, and the one after it. *)
Definition buckets_rep (i : Z) (cur prev next : list loc) (bs : list (list loc)) : Prop :=
  (i = 0 /\ bs = [cur; next; prev]) \/ (i = 1 /\ bs = [prev; cur; next]) \/ (i = 2 /\ bs = [next; prev; cur]).

(** [next] are the groups in the bucket that is being emptied. *)
Record rep_with (next : list loc) (s : cache) (a : acache) : Prop := {
  rep_tree : tree_rep (a_groups a) (group_tree s);
  rep_groups : groups_rep (a_groups a) (a_entries a) (u64 (row_limit s)) (groups s);
  rep_entries : entries s = a_entries a;
  rep_owned : owned (a_entries a) (held_rows s);
  rep_indexes : idx_owned (a_groups a) (a_entries a) (indexes s);
  rep_buckets : buckets_rep (gb_idx s) (a_cur a) (a_prev a) next (group_bucket s);
  rep_nodup : NoDup (a_cur a ++ a_prev a ++ next);
  rep_members g : g ∈ a_cur a ++ a_prev a ++ next <-> is_Some (a_groups a !! g);
  rep_limit : u64 (row_limit s) <> 0;
  rep_ts : ts_wf (bucket_ts s) /\ ns (bucket_ts s) = a_ts a /\ a_ts a < 2 * TIME_MAX;
  rep_timeout : ts_wf (cfg_timeout s) /\ ns (cfg_timeout s) < TIME_MAX
}.

Definition rep (s : cache) (a : acache) : Prop := rep_with [] s a.

(** ** Tree operations *)

Lemma runs_on_rows {A} g (m : M (rbt K) A) s gk t lu P :
  groups s !! g = Some (Group gk t lu) -> runs m t P ->
  runs (on_rows g m) s (fun r s' => exists t', P r t' /\ s' = set_groups (insert g (Group gk t' lu)) s).
Proof.
  intros Hg (r & t' & Hm & HP). exists r, (set_groups (insert g (Group gk t' lu)) s). split; [|by exists t'].
  unfold on_rows, st_group, ld_group, lift_opt, modify, mbind, M_bind. rewrite Hg. simpl. rewrite Hm. simpl.
  by rewrite Hg.
Qed.

Lemma set_groups_id g x s : groups s !! g = Some x -> set_groups (insert g x) s = s.
Proof. intros Hg. unfold set_groups. rewrite insert_id by done. by destruct s. Qed.

(** An operation that only reads. *)
Lemma runs_on_rows_read {A} g (m : M (rbt K) A) s gk t lu (P : A -> Prop) :
  groups s !! g = Some (Group gk t lu) -> runs m t (fun r t' => t' = t /\ P r) ->
  runs (on_rows g m) s (fun r s' => s' = s /\ P r).
Proof.
  intros Hg Hm. eapply runs_mono; [by eapply runs_on_rows|]. cbv beta.
  intros r s' (? & (-> & HP) & ->). by rewrite set_groups_id.
Qed.

Lemma runs_on_groups {A} (m : M (rbt GK) A) s P :
  runs m (group_tree s) P ->
  runs (on_groups m) s (fun r s' => exists t', P r t' /\ s' = set_group_tree t' s).
Proof.
  intros (r & t' & Hm & HP). exists r, (set_group_tree t' s). split; [|by exists t'].
  unfold on_groups, gets, lift_opt, modify, mbind, M_bind. by rewrite Hm.
Qed.

Lemma models_card l (t : rbt K) : models cmp l t -> card t = Z.of_nat (length l).
Proof. intros (u & (_ & _ & Hc) & <- & _). done. Qed.

(** ** Dropping rows *)

Lemma elem_of_rows_of E es r : r ∈ rows_of E es <-> exists e c, e ∈ es /\ E !! e = Some c /\ ce_row c = r.
Proof.
  unfold rows_of. rewrite list_elem_of_omap. split.
  - intros (e & He & (c & ? & ?)%fmap_Some). naive_solver.
  - intros (e & c & He & Hc & <-). exists e. by rewrite Hc.
Qed.

Lemma drop_live_app es1 es2 E L :
  drop_live (es1 ++ es2) E L = drop_live es2 (drop_keys es1 E) (drop_live es1 E L).
Proof.
  unfold drop_live. apply set_eq. intros r. rewrite !elem_of_difference, !elem_of_list_to_set, !elem_of_rows_of.
  setoid_rewrite lookup_drop. split.
  - intros [Hr Hn]. split_and!; [done|set_solver|]. intros (e & c & ? & Hc & ?). case_decide; [done|].
    apply Hn. exists e, c. set_solver.
  - intros [[Hr H1] H2]. split; [done|]. intros (e & c & He & Hc & Hce). destruct (decide (e ∈ es1)) as [Hi|Hi].
    + apply H1. by exists e, c.
    + apply H2. exists e, c. rewrite decide_False by done. set_solver.
Qed.

Lemma owned_drop es E L : owned E L -> owned (drop_keys es E) (drop_live es E L).
Proof.
  intros [Hr Hi]. split.
  - intros r. unfold drop_live. rewrite elem_of_difference, elem_of_list_to_set, elem_of_rows_of, Hr.
    setoid_rewrite lookup_drop. split.
    + intros [(e & c & Hc & <-) Hn]. exists e, c. rewrite decide_False; [done|]. intros He. apply Hn. by exists e, c.
    + intros (e & c & Hc & <-). case_decide; [done|]. split; [by exists e, c|].
      intros (e' & c' & He' & Hc' & Heq). assert (e = e') as <- by (by eapply Hi). done.
  - intros e e' c c'. rewrite !lookup_drop. repeat case_decide; try done. apply Hi.
Qed.

(** The same for the indexes, of which the entries have some. *)
Record idx_held (E : entry_map) (L : gset loc) : Prop := {
  ih_in e c : E !! e = Some c -> idx_addr (ce_idx c) ∈ L;
  ih_inj e e' c c' : E !! e = Some c -> E !! e' = Some c' -> idx_addr (ce_idx c) = idx_addr (ce_idx c') -> e = e'
}.

Lemma idx_owned_held G E L : idx_owned G E L -> idx_held E L.
Proof. intros [Hm _ He _]. split; [|done]. intros e c Hc. apply Hm. right. by exists e, c. Qed.

Lemma elem_of_idxs_of E es i : i ∈ idxs_of E es <-> exists e c, e ∈ es /\ E !! e = Some c /\ idx_addr (ce_idx c) = i.
Proof.
  unfold idxs_of. rewrite list_elem_of_omap. split.
  - intros (e & He & (c & ? & ?)%fmap_Some). naive_solver.
  - intros (e & c & He & Hc & <-). exists e. by rewrite Hc.
Qed.

Lemma elem_of_drop_idxs es E L i :
  i ∈ drop_idxs es E L <-> i ∈ L /\ forall e c, e ∈ es -> E !! e = Some c -> idx_addr (ce_idx c) <> i.
Proof.
  unfold drop_idxs. rewrite elem_of_difference, elem_of_list_to_set, elem_of_idxs_of. naive_solver.
Qed.

Lemma drop_idxs_app es1 es2 E L :
  drop_idxs (es1 ++ es2) E L = drop_idxs es2 (drop_keys es1 E) (drop_idxs es1 E L).
Proof.
  apply set_eq. intros i. rewrite !elem_of_drop_idxs. setoid_rewrite lookup_drop_Some. setoid_rewrite elem_of_app. split.
  - intros [Hi Hn]. split_and!; [done|eauto|]. intros e c ? [? ?]. eauto.
  - intros [[Hi H1] H2]. split; [done|]. intros e c He Hc. destruct (decide (e ∈ es1)); [by eapply H1|].
    destruct He; [done|]. by eapply H2.
Qed.

Lemma idx_held_drop es E L : idx_held E L -> idx_held (drop_keys es E) (drop_idxs es E L).
Proof.
  intros [Hin Hi]. split.
  - intros e c [Hne Hc]%lookup_drop_Some. apply elem_of_drop_idxs. split; [by eapply Hin|].
    intros e' c' He' Hc' Heq. by rewrite (Hi e e' c c') in Hne.
  - intros e e' c c' [_ ?]%lookup_drop_Some [_ ?]%lookup_drop_Some. by apply Hi.
Qed.

(** The store after a group's tree has changed and entries have gone. *)
Definition freed (g : loc) gk (t : rbt K) lu (es : list loc) s : cache :=
  Cache (row_limit s) (group_tree s) (group_bucket s) (gb_idx s) (bucket_ts s) (cfg_timeout s)
    (<[g := Group gk t lu]> (groups s)) (drop_keys es (entries s)) (drop_live es (entries s) (held_rows s))
    (drop_idxs es (entries s) (indexes s)).

Lemma runs_drop_entry s g gk t lu l1 e k l2 r :
  groups s !! g = Some (Group gk t lu) -> models cmp (l1 ++ (e, k) :: l2) t ->
  entries s !! e = Some (Entry r k) -> r ∈ held_rows s -> idx_addr k ∈ indexes s ->
  runs (drop_entry g e) s (fun _ s' => exists t', models cmp (l1 ++ l2) t' /\ s' = freed g gk t' lu [e] s).
Proof.
  intros Hg Hm He Hr Hi. unfold drop_entry. apply runs_bind.
  eapply runs_mono; [eapply (runs_on_rows g _ s gk t lu); [done|apply (models_del cmp _ _ e Hm); rewrite fmap_app; set_solver]|].
  cbv beta. intros _ s1 (t' & Hm' & ->). rewrite (seq_del_split cmp) in Hm' by exact (models_nodup cmp _ _ Hm).
  exists tt, (freed g gk t' lu [e] s). split; [|by exists t'].
  unfold ldmsd_row_cache_idx_free, free_row, free_entry, ld_entry, gets, modify, mbind, M_bind, c_assert. simpl. rewrite He. simpl.
  rewrite bool_decide_true by done. simpl. rewrite bool_decide_true by done. simpl. rewrite He. simpl. do 2 f_equal.
  unfold freed, drop_live, rows_of, drop_idxs, idxs_of. simpl. rewrite He. simpl.
  unfold set_entries, set_held_rows, set_indexes, set_groups. simpl. f_equal.
  - apply map_eq. intros e'. rewrite lookup_drop.
    case_decide as Hd; rewrite list_elem_of_singleton in Hd; [subst; apply lookup_delete_eq|by apply lookup_delete_ne].
  - set_solver.
  - set_solver.
Qed.

Lemma freed_freed g gk t t' lu es es' s : freed g gk t' lu es' (freed g gk t lu es s) = freed g gk t' lu (es ++ es') s.
Proof.
  unfold freed. simpl. by rewrite drop_keys_app, drop_live_app, drop_idxs_app, insert_insert_eq.
Qed.

Lemma freed_nil g gk t lu s : groups s !! g = Some (Group gk t lu) -> freed g gk t lu [] s = s.
Proof.
  intros Hg. destruct s. unfold freed. simpl in *. f_equal.
  - by apply insert_id.
  - apply map_eq. intros e. rewrite lookup_drop. by rewrite decide_False by set_solver.
  - unfold drop_live. simpl. set_solver.
  - unfold drop_idxs. simpl. set_solver.
Qed.

Lemma runs_drop_rows l g gk lu : forall n s t,
  groups s !! g = Some (Group gk t lu) -> models cmp l t ->
  (forall e k, (e, k) ∈ l -> exists r, entries s !! e = Some (Entry r k)) ->
  owned (entries s) (held_rows s) -> idx_held (entries s) (indexes s) -> (length l < n)%nat ->
  runs (drop_rows n g) s (fun _ s' => exists t', s' = freed g gk t' lu l.*1 s).
Proof.
  unfold drop_rows. induction l as [|[e k] l IH]; intros [|n] s t Hg Hm He Ho Hi Hn; simpl in Hn; [lia| |lia|]; cbn [loopM].
  - do 2 apply runs_bind. eapply runs_mono; [eapply runs_on_rows_read; [done|by apply (models_min cmp)]|].
    cbv beta. intros ? ? [-> ->]. apply runs_ret, runs_ret. exists t. by rewrite freed_nil.
  - do 2 apply runs_bind. eapply runs_mono; [eapply runs_on_rows_read; [done|by apply (models_min cmp)]|].
    cbv beta. intros ? ? [-> ->]. simpl. apply runs_bind. destruct (He e k) as [r Hr]; [by left|].
    eapply runs_mono; [eapply (runs_drop_entry s g gk t lu [] e k l r); [done..| |]|].
    { apply Ho. by exists e, (Entry r k). }
    { apply (ih_in _ _ Hi e (Entry r k) Hr). }
    cbv beta. intros _ s' (t' & Hm' & ->). apply runs_ret. eapply runs_mono.
    { apply (IH n _ t'); [unfold freed; simpl; apply lookup_insert_eq|done| |by apply owned_drop|by apply idx_held_drop|lia].
      pose proof (models_nodup cmp _ _ Hm) as Hnd. simpl in Hnd. apply NoDup_cons in Hnd as [Hnd _].
      intros e' k' Hin. simpl. rewrite lookup_drop, decide_False; [by apply He; right|].
      rewrite list_elem_of_singleton. intros ->. apply Hnd. by apply (list_elem_of_fmap_2' fst _ _ _ Hin). }
    cbv beta. intros _ s' (t'' & ->). exists t''. by rewrite freed_freed.
Qed.

(** A group is dropped with its entries. *)
Lemma idx_owned_del G E L g x es :
  idx_owned G E L -> G !! g = Some x ->
  idx_owned (drop_keys [g] G) (drop_keys es E) (drop_idxs es E L ∖ {[idx_addr (ag_key x)]}).
Proof.
  intros [Hm Hg He Ha] Hx.
  assert (forall i, group_idx (drop_keys [g] G) i <-> group_idx G i /\ i <> idx_addr (ag_key x)) as Hgi.
  { intros i. unfold group_idx. setoid_rewrite lookup_drop_Some. setoid_rewrite list_elem_of_singleton. split.
    - intros (g' & x' & [Hne Hx'] & <-). split; [by exists g', x'|]. intros Heq. apply Hne. by eapply Hg.
    - intros [(g' & x' & Hx' & <-) Hne]. exists g', x'. split; [|done]. split; [|done]. intros ->. by simplify_eq. }
  assert (forall i, entry_idx (drop_keys es E) i -> entry_idx E i) as Hsub.
  { intros i (e & c & [_ Hc]%lookup_drop_Some & <-). by exists e, c. }
  split.
  - intros i. rewrite elem_of_difference, elem_of_singleton, elem_of_drop_idxs, Hm, Hgi. split.
    + intros [[[Hi|(e & c & Hc & <-)] Hes] Hne]; [by left|]. right. exists e, c. split; [|done]. apply lookup_drop_Some.
      split; [|done]. intros Hin. by eapply Hes.
    + intros [[Hi Hne]|(e & c & [Hin Hc]%lookup_drop_Some & <-)].
      * split; [|done]. split; [by left|]. intros e c _ Hc <-. apply (Ha _ Hi). by exists e, c.
      * split; [split; [right; by exists e, c|]|].
        -- intros e' c' Hin' Hc' Heq. by rewrite (He e e' c c') in Hin.
        -- intros Heq. apply (Ha (idx_addr (ag_key x))); [by exists g, x|]. by exists e, c.
  - intros g1 g2 x1 x2 [_ ?]%lookup_drop_Some [_ ?]%lookup_drop_Some. by apply Hg.
  - intros e1 e2 c1 c2 [_ ?]%lookup_drop_Some [_ ?]%lookup_drop_Some. by apply He.
  - intros i [Hi _]%Hgi Hei. by apply (Ha i Hi), Hsub.
Qed.

(** ** Dropping groups *)

(** What the rest of a call relies on. *)
Definition same_clock s s' : Prop :=
  gb_idx s' = gb_idx s /\ bucket_ts s' = bucket_ts s /\ cfg_timeout s' = cfg_timeout s /\ row_limit s' = row_limit s.

Lemma same_clock_trans s1 s2 s3 : same_clock s1 s2 -> same_clock s2 s3 -> same_clock s1 s3.
Proof. unfold same_clock. intuition congruence. Qed.

Lemma filter_ne_id (g : loc) (l : list loc) : g ∉ l -> filter (.≠ g) l = l.
Proof.
  induction l as [|x l IH]; [done|]. rewrite not_elem_of_cons. intros [??].
  rewrite filter_cons_True by congruence. by rewrite IH.
Qed.

Lemma runs_bucket_remove g s cur prev next :
  buckets_rep (gb_idx s) cur prev next (group_bucket s) -> g ∈ cur ++ prev ++ next ->
  runs (bucket_remove g) s (fun _ s' => exists bs, s' = set_bucket (fun _ => bs) s /\
    buckets_rep (gb_idx s) (filter (.≠ g) cur) (filter (.≠ g) prev) (filter (.≠ g) next) bs).
Proof.
  intros Hb Hg. unfold bucket_remove. apply runs_bind, runs_gets, runs_bind, runs_assert.
  { apply existsb_exists. rewrite !elem_of_app in Hg.
    destruct Hb as [[_ ->]|[[_ ->]|[_ ->]]], Hg as [H|[H|H]];
      (eexists; split; [|by apply bool_decide_eq_true_2]); simpl; tauto. }
  apply runs_modify. eexists. split; [reflexivity|].
  destruct Hb as [[-> ->]|[[-> ->]|[-> ->]]]; unfold buckets_rep; simpl; tauto.
Qed.

Lemma runs_bucket_first s cur prev next :
  buckets_rep (gb_idx s) cur prev next (group_bucket s) ->
  runs (bucket_first (Z.rem (gb_idx s + 1) GB_LEN)) s (fun r s' => s' = s /\ r = head next).
Proof.
  intros [[-> Hb]|[[-> Hb]|[-> Hb]]]; exists (head next), s; split; try done;
    unfold bucket_first, gets, mbind, M_bind; simpl; rewrite Hb; done.
Qed.

Lemma tree_rep_del G t g x :
  tree_rep G t -> G !! g = Some x ->
  runs (rbt_del (Some g)) t (fun _ t' => tree_rep (drop_keys [g] G) t').
Proof.
  intros [(l & Hm & Hl) Hi] Hg. eapply runs_mono.
  { apply (models_del gcmp l t g Hm). apply (list_elem_of_fmap_2' fst _ (g, ag_key x)); [|done]. apply Hl. by exists x. }
  cbv beta. intros _ t' Hm'. split.
  - exists (seq_del g l). split; [done|]. intros g' k. rewrite elem_of_seq_del, Hl.
    setoid_rewrite lookup_drop_Some. setoid_rewrite list_elem_of_singleton. naive_solver.
  - intros g1 g2 x1 x2. rewrite !lookup_drop_Some. intros [_ ?] [_ ?]. by apply Hi.
Qed.

Lemma groups_rep_del G E limit m g x :
  groups_rep G E limit m -> G !! g = Some x ->
  groups_rep (drop_keys [g] G) (drop_keys (ag_rows x).*1 E) limit (delete g m).
Proof.
  intros [Hn Hs Hl He Ha Hall] Hg. split.
  - intros g'. rewrite lookup_drop. case_decide as Hd; rewrite list_elem_of_singleton in Hd.
    + intros _. subst. apply lookup_delete_eq.
    + rewrite lookup_delete_ne by done. apply Hn.
  - intros g' x'. rewrite lookup_drop_Some, list_elem_of_singleton. intros [? Hg'].
    rewrite lookup_delete_ne by done. by apply Hs.
  - intros g' x'. rewrite lookup_drop_Some. intros [_ ?]. by eapply Hl.
  - intros g' x' e k. rewrite lookup_drop_Some, list_elem_of_singleton. intros [Hne Hg'] Hin.
    destruct (He g' x' e k) as [r Hr]; [done..|]. exists r. apply lookup_drop_Some. split; [|done].
    intros Hx. apply Hne. eapply (Ha g' g x' x e); try done. by apply (list_elem_of_fmap_2' fst _ _ _ Hin).
  - intros g1 g2 x1 x2 e. rewrite !lookup_drop_Some. intros [_ ?] [_ ?]. by apply Ha.
  - intros e [c Hc]. apply lookup_drop_Some in Hc as [Hne Hc]. destruct (Hall e) as (g' & x' & Hg' & Hin); [by eexists|].
    exists g', x'. rewrite lookup_drop_Some, list_elem_of_singleton. split; [|done]. split; [|done].
    intros ->. by simplify_eq.
Qed.
End rep.

Section expire.
Context {GK K : Type} `{!IndexRef GK, !IndexRef K} (gcmp : GK -> GK -> Z) {Hgcmp : Comparator gcmp} (cmp : K -> K -> Z) {Hcmp : Comparator cmp}.
Abbreviation cache := (@ldmsd_row_cache_s GK K).
Abbreviation rep_with := (rep_with gcmp cmp).
Implicit Types (s : cache) (a : @acache GK K) (G : gmap loc (@agroup GK K)).

(** ** Emptying a bucket

    Dropping the groups of a bucket terminates and never touches memory that
    is gone. *)

Lemma rows_bound G E limit m g x :
  groups_rep cmp G E limit m -> G !! g = Some x -> (length (ag_rows x) <= size E)%nat.
Proof.
  intros [_ Hs _ He _ _] Hg. destruct (Hs g x Hg) as (t & lu & _ & Hm & _).
  pose proof (models_nodup cmp _ _ Hm) as Hnd.
  rewrite <- (length_fmap fst), <- (size_list_to_set (C := gset loc)) by done.
  rewrite <- (size_dom (D := gset loc)). apply subseteq_size. intros e.
  rewrite elem_of_list_to_set, elem_of_dom, list_elem_of_fmap. intros ([e' k] & -> & Hin).
  destruct (He g x e' k) as [r Hr]; [done..|]. by eexists.
Qed.

Lemma drop_keys_size {V} ks (m : gmap loc V) : (size (drop_keys ks m) <= size m)%nat.
Proof.
  rewrite <- !(size_dom (D := gset loc)). apply subseteq_size. intros k. rewrite !elem_of_dom.
  intros [v Hv]. apply lookup_drop_Some in Hv as [_ ?]. by eexists.
Qed.

Lemma runs_drop_group g gs s a ne :
  rep_with (g :: gs) s a -> (size (entries s) <= ne)%nat ->
  runs (drop_group ne g) s (fun _ s' =>
    rep_with gs s' (a_drop [g] a) /\ same_clock s s' /\ (size (entries s') <= ne)%nat).
Proof.
  intros [Ht Hg He Ho Hio Hb Hnd Hmem Hlim Hts Hto] Hne.
  destruct (proj1 (Hmem g)) as [x Hx]; [set_solver|].
  assert (g ∉ a_cur a /\ g ∉ a_prev a /\ g ∉ gs) as (Hc & Hp & Hgs).
  { apply NoDup_app_disj in Hnd as (_ & Hd1 & Hnd). apply NoDup_app_disj in Hnd as (_ & Hd2 & Hnd).
    apply NoDup_cons in Hnd as [? _]. set_solver. }
  unfold drop_group. apply runs_bind. eapply runs_mono; [apply (runs_bucket_remove g s _ _ _ Hb); set_solver|].
  cbv beta. intros _ ? (bs & -> & Hb'). rewrite filter_cons_False, !filter_ne_id in Hb' by tauto.
  apply runs_bind. eapply runs_mono; [apply runs_on_groups; by eapply (tree_rep_del gcmp)|].
  cbv beta. intros _ ? (t' & Ht' & ->). destruct (gr_some _ _ _ _ _ Hg g x Hx) as (t & lu & Hgt & Hm & _).
  apply runs_bind. eapply runs_mono.
  { apply (runs_drop_rows gcmp cmp (ag_rows x) g (ag_key x) lu (S ne) _ t); simpl; [done|done| |by rewrite He| |].
    - rewrite He. intros e k. by eapply gr_entry.
    - rewrite He. exact (idx_owned_held _ _ _ Hio).
    - pose proof (rows_bound _ _ _ _ _ _ Hg Hx). rewrite He in Hne. lia. }
  cbv beta. intros _ ? (t'' & ->). apply runs_bind. eexists _, _.
  split; [unfold ld_group; cbn; rewrite lookup_insert_eq; reflexivity|]. cbn [rbn_key].
  apply runs_bind. unfold ldmsd_row_cache_idx_free. apply runs_bind, runs_gets, runs_bind, runs_assert.
  { apply bool_decide_eq_true. cbn. apply elem_of_drop_idxs. rewrite He. split; [apply Hio; left; by exists g, x|].
    intros e c _ Hec Heq. apply (io_apart _ _ _ Hio (idx_addr (ag_key x))); [by exists g, x|by exists e, c]. }
  apply runs_modify. eexists tt, _. split.
  { unfold free_group, ld_group, modify, mbind, M_bind. simpl. rewrite lookup_insert_eq. reflexivity. }
  assert (ents_of (a_groups a) [g] = (ag_rows x).*1) as Hents by (simpl; rewrite Hx; apply app_nil_r).
  split; [|split; [done|]].
  2: { simpl. etrans; [apply drop_keys_size|done]. }
  unfold a_drop. rewrite Hents. split; simpl; try done.
  - rewrite delete_insert_eq. by apply groups_rep_del.
  - by rewrite He.
  - rewrite He. by apply owned_drop.
  - rewrite He. by apply idx_owned_del.
  - apply NoDup_app_disj in Hnd as (H1 & Hd1 & Hnd). apply NoDup_app_disj in Hnd as (H2 & Hd2 & Hnd).
    apply NoDup_cons in Hnd as [_ Hnd]. apply NoDup_app_disj. split_and!; [done|set_solver|].
    apply NoDup_app_disj. split_and!; [done|set_solver|done].
  - intros g'. rewrite lookup_drop. specialize (Hmem g'). case_decide as Hd; rewrite list_elem_of_singleton in Hd.
    + subst. split; [set_solver|by intros [??]].
    + rewrite <- Hmem. set_solver.
Qed.

Lemma drop_keys_nil {V} (m : gmap loc V) : drop_keys [] m = m.
Proof. apply map_eq. intros k. rewrite lookup_drop. by rewrite decide_False by set_solver. Qed.

Lemma a_drop_nil a : a_drop [] a = a.
Proof. destruct a. unfold a_drop. simpl. by rewrite !drop_keys_nil. Qed.

Lemma ents_of_drop (G : gmap loc (@agroup GK K)) g gs : g ∉ gs -> ents_of (drop_keys [g] G) gs = ents_of G gs.
Proof.
  induction gs as [|g' gs IH]; [done|]. rewrite not_elem_of_cons. intros [Hne Hg].
  change (ents_of ?G (g' :: gs)) with (match G !! g' with Some x => (ag_rows x).*1 | None => [] end ++ ents_of G gs).
  rewrite IH, lookup_drop, decide_False by set_solver. done.
Qed.

Lemma a_drop_cons g gs a : g ∉ gs -> a_drop gs (a_drop [g] a) = a_drop (g :: gs) a.
Proof.
  intros Hg. unfold a_drop. cbn [a_ts a_cur a_prev a_groups a_entries].
  rewrite ents_of_drop, <- !drop_keys_app by done. do 2 f_equal. unfold ents_of. simpl. by rewrite app_nil_r.
Qed.

Lemma next_bound gs s a : rep_with gs s a -> (length gs <= size (groups s))%nat.
Proof.
  intros [_ Hg _ _ _ _ Hnd Hmem _ _ _]. apply NoDup_app_disj in Hnd as (_ & _ & Hnd).
  apply NoDup_app_disj in Hnd as (_ & _ & Hnd).
  rewrite <- (size_list_to_set (C := gset loc)), <- (size_dom (D := gset loc)) by done.
  apply subseteq_size. intros g. rewrite elem_of_list_to_set, elem_of_dom. intros Hin.
  destruct (proj1 (Hmem g)) as [x Hx]; [set_solver|].
  destruct (gr_some _ _ _ _ _ Hg g x Hx) as (t & lu & -> & _). by eexists.
Qed.

Lemma runs_cleanup_loop i ne gs : forall n s a,
  rep_with gs s a -> i = gb_idx s -> (size (entries s) <= ne)%nat -> (length gs < n)%nat ->
  runs (loopM n (cleanup_step ne (Z.rem (i + 1) GB_LEN)) tt) s (fun _ s' =>
    rep_with [] s' (a_drop gs a) /\ same_clock s s').
Proof.
  induction gs as [|g gs IH]; intros [|n] s a Hrep -> Hne Hn; simpl in Hn; try lia; cbn [loopM];
    apply runs_bind; unfold cleanup_step; apply runs_bind;
    (eapply runs_mono; [by eapply runs_bucket_first, (rep_buckets _ _ _ _ _ Hrep)|]); cbv beta; intros ? ? [-> ->]; cbn [head].
  - apply runs_ret, runs_ret. by rewrite a_drop_nil.
  - apply runs_bind. eapply runs_mono; [by eapply runs_drop_group|]. cbv beta. intros _ s' (Hrep' & Hc & Hne').
    apply runs_ret. eapply runs_mono; [apply (IH n s' _ Hrep'); [by destruct Hc as (-> & _)|done|lia]|].
    cbv beta. intros _ s'' [Hrep'' Hc']. split; [|by eapply same_clock_trans].
    rewrite <- a_drop_cons; [done|]. pose proof (rep_nodup _ _ _ _ _ Hrep) as Hnd.
    apply NoDup_app_disj in Hnd as (_ & _ & Hnd). apply NoDup_app_disj in Hnd as (_ & _ & Hnd).
    by apply NoDup_cons in Hnd as [? _].
Qed.

Lemma runs_cleanup gs s a :
  rep_with gs s a ->
  runs (ldmsd_row_group_bucket_cleanup (Z.rem (gb_idx s + 1) GB_LEN)) s (fun _ s' =>
    rep_with [] s' (a_drop gs a) /\ same_clock s s').
Proof.
  intros Hrep. unfold ldmsd_row_group_bucket_cleanup. apply runs_bind, runs_gets, runs_bind, runs_gets.
  pose proof (next_bound _ _ _ Hrep). eapply runs_cleanup_loop; [done|done|done|lia].
Qed.

(** ** Advancing the buckets *)

Lemma buckets_rotate i cur prev bs :
  buckets_rep i cur prev [] bs -> buckets_rep (Z.rem (i + 1) GB_LEN) [] cur prev bs.
Proof. intros [[-> ->]|[[-> ->]|[-> ->]]]; unfold buckets_rep; simpl; tauto. Qed.

Lemma runs_advance s a :
  rep gcmp cmp s a -> a_ts a < TIME_MAX ->
  runs advance s (fun _ s' => rep gcmp cmp s' (a_rotate (ns (cfg_timeout s)) a) /\ cfg_timeout s' = cfg_timeout s /\ row_limit s' = row_limit s).
Proof.
  intros [Ht Hg He Ho Hio Hb Hnd Hmem Hlim (Hw & Hns & Hmax) (Hwt & Hnt)] Hlt.
  unfold advance. apply runs_bind, runs_modify, runs_bind, runs_modify, runs_bind, runs_gets.
  pose proof time_max_pos. destruct (timespec_add_ns (bucket_ts s) (cfg_timeout s)) as [Hw' Hns']; [done|done|lia|lia|].
  eapply runs_mono.
  { apply (runs_cleanup (a_prev a) _ (ACache (a_ts a + ns (cfg_timeout s)) [] (a_cur a) (a_groups a) (a_entries a))).
    split; simpl; try done.
    - by apply buckets_rotate.
    - by rewrite app_nil_r in Hnd.
    - intros g. specialize (Hmem g). by rewrite app_nil_r in Hmem.
    - split_and!; [done|lia|lia]. }
  cbv beta. intros _ s' [Hrep (_ & _ & Hc & Hr)]. split; [exact Hrep|done].
Qed.

Lemma runs_advance_loop now : forall n s a,
  rep gcmp cmp s a -> ts_wf now -> ns now < TIME_MAX ->
  runs (advance_loop n now) s (fun m s' =>
    (exists a', a_advance n (ns (cfg_timeout s)) (ns now) a = (a', m) /\ rep gcmp cmp s' a') /\
    cfg_timeout s' = cfg_timeout s /\ row_limit s' = row_limit s).
Proof.
  induction n as [|n IH]; intros s a Hrep Hw Hmax; cbn [advance_loop].
  { apply runs_ret. split; [by exists a|done]. }
  apply runs_bind, runs_gets. destruct (rep_ts _ _ _ _ _ Hrep) as (Hwb & Hns & _).
  unfold behind. rewrite timespec_cmp_ns, Hns by done. cbn [a_advance].
  destruct (Z.ltb_spec (a_ts a) (ns now)); [|apply runs_ret; split; [by exists a|done]].
  apply runs_bind. eapply runs_mono; [apply (runs_advance s a Hrep); lia|].
  cbv beta. intros _ s' (Hrep' & Hc & Hr). rewrite <- Hc in Hrep' |- *. rewrite <- Hr. by apply IH.
Qed.

Lemma ns_zero t : ts_wf t -> (tv_sec t =? 0) && (tv_nsec t =? 0) = (ns t =? 0).
Proof. unfold ts_wf, ns. intros. destruct (Z.eqb_spec (tv_sec t) 0), (Z.eqb_spec (tv_nsec t) 0); simpl; lia. Qed.

Lemma runs_expire now s a :
  rep gcmp cmp s a -> ts_wf now -> ns now < TIME_MAX ->
  runs (row_cache_expire now) s (fun _ s' =>
    rep gcmp cmp s' (a_expire (ns (cfg_timeout s)) (ns now) a) /\ cfg_timeout s' = cfg_timeout s /\ row_limit s' = row_limit s).
Proof.
  intros Hrep Hw Hmax. unfold row_cache_expire, a_expire. apply runs_bind, runs_gets.
  destruct (rep_timeout _ _ _ _ _ Hrep) as [Hwt Hnt]. rewrite ns_zero by done.
  case_match; [by apply runs_ret|]. apply runs_bind.
  eapply runs_mono; [by eapply runs_advance_loop|]. cbv beta. intros m s' ((a' & Ha & Hrep') & Hc & Hr).
  change (Z.to_nat GB_LEN) with 3%nat in Ha. rewrite Ha. apply runs_bind, runs_gets.
  destruct (rep_ts _ _ _ _ _ Hrep') as (Hwb & Hns & _). unfold behind. rewrite timespec_cmp_ns, Hns by done.
  case_match; [|by apply runs_ret]. apply runs_modify. rewrite Hc. split; [|done].
  pose proof time_max_pos. destruct (timespec_add_ns now (cfg_timeout s)) as [Hw' Hns']; [done|done|lia|lia|].
  destruct Hrep' as [Ht' Hg' He' Ho' Hio' Hb' Hnd' Hmem' Hlim' _ Hto']. split; simpl; try done.
  split_and!; [done|done|lia].
Qed.
End expire.
