(* ===== verification/RowCacheSpec.v ===== *)
(** * The row cache: correctness

    A call stores the row in the group of its index and evicts the first row
    of a full group; listing a group gives its newest rows.  A group lives at
    least as long as the configured timeout after its last row, and at most
    twice as long once the cache is used again. *)

From stdpp Require Import prelude gmap sorting.
From S2P Require Import Prelude Rbt RbtRep RbtRot RbtIns RbtOps RbtSearch RbtSpec Ev RowCache RowCacheRep.

Open Scope Z_scope.

Section spec.
Context {GK K : Type} `{!IndexRef GK, !IndexRef K}.
Context (gcmp : GK -> GK -> Z) {Hgcmp : Comparator gcmp} {Hval : ByValue gcmp} (cmp : K -> K -> Z) {Hcmp : Comparator cmp}.
Abbreviation cache := (@ldmsd_row_cache_s GK K).
Abbreviation rep := (rep gcmp cmp).
Implicit Types (s : cache) (a : @acache GK K) (G : gmap loc (@agroup GK K)).

(** ** The abstract operations *)

Definition a_new (g : loc) (gk : GK) a : acache :=
  ACache (a_ts a) (g :: a_cur a) (a_prev a) (<[g := AGroup gk [] 0]> (a_groups a)) (a_entries a).

(** The group of an index: the one that has it, or a new one with a copy. *)
Inductive chosen (gk : GK) (new dup : loc) a : loc -> acache -> Prop :=
| chosen_old g x : a_groups a !! g = Some x -> gcmp (ag_key x) gk = 0 -> chosen gk new dup a g a
| chosen_new : (forall g x, a_groups a !! g = Some x -> gcmp (ag_key x) gk <> 0) ->
    chosen gk new dup a new (a_new new (idx_at dup gk) a).

Definition a_evict (limit : Z) (g : loc) a : acache :=
  match a_groups a !! g with
  | Some (AGroup k (e :: rows) last) =>
      if Z.of_nat (length (e :: rows)) =? limit then
        ACache (a_ts a) (a_cur a) (a_prev a) (<[g := AGroup k rows last]> (a_groups a)) (drop_keys [e.1] (a_entries a))
      else a
  | _ => a
  end.

Definition a_insert (now : Z) (g e : loc) (rk : K) (row : loc) a : acache :=
  match a_groups a !! g with
  | Some x =>
      ACache (a_ts a) (g :: filter (.≠ g) (a_cur a)) (filter (.≠ g) (a_prev a))
        (<[g := AGroup (ag_key x) (seq_ins cmp (e, rk) (ag_rows x)) now]> (a_groups a))
        (<[e := Entry row rk]> (a_entries a))
  | None => a
  end.

(** ** The group of an index *)

Lemma cmp_zero_sym x y : gcmp x y = 0 -> gcmp y x = 0.
Proof. pose proof (cmp_opp (cmp := gcmp) x y). pose proof (cmp_opp (cmp := gcmp) y x). lia. Qed.

Lemma tree_rep_find G t gk :
  tree_rep gcmp G t ->
  runs (rbt_find gcmp gk) t (fun r t' => t' = t /\
    match r with
    | Some g => exists x, G !! g = Some x /\ gcmp (ag_key x) gk = 0
    | None => forall g x, G !! g = Some x -> gcmp (ag_key x) gk <> 0
    end).
Proof.
  intros [(l & Hm & Hl) _]. eapply runs_mono; [by apply models_find|]. cbv beta. intros r ? [-> Hr]. split; [done|].
  destruct r as [g|].
  - destruct Hr as (k & Hin & Hk). apply Hl in Hin as (x & Hx & <-). by exists x.
  - intros g x Hx. apply (Hr (g, ag_key x)), Hl. by exists x.
Qed.

Lemma tree_rep_add G t g gk x :
  tree_rep gcmp G t -> G !! g = None -> ag_key x = gk -> (forall g' x', G !! g' = Some x' -> gcmp (ag_key x') gk <> 0) ->
  runs (rbt_add gcmp g gk) t (fun _ t' => tree_rep gcmp (<[g := x]> G) t').
Proof.
  intros [(l & Hm & Hl) Hi] Hg <- Hno. eapply runs_mono.
  { apply (models_add gcmp l t g (ag_key x) Hm). intros ([g' k] & -> & Hin)%list_elem_of_fmap.
    apply Hl in Hin as (? & ? & _). simpl in Hg. congruence. }
  cbv beta. intros _ t' Hm'. split.
  - eexists. split; [done|]. intros g' k. rewrite (elem_of_seq_ins gcmp), Hl. setoid_rewrite lookup_insert_Some. split.
    + intros [[= -> ->]|(x' & Hx' & <-)]; [exists x; by split; [left|]|].
      exists x'. split; [right; split; [congruence|done]|done].
    + intros (x' & [[-> ->]|[Hne Hx']] & <-); [by left|right; by exists x'].
  - intros g1 g2 x1 x2. rewrite !lookup_insert_Some. intros [[<- <-]|[Hn1 H1]] [[<- <-]|[Hn2 H2]] Hc; try done.
    + by destruct (Hno g2 x2 H2); apply cmp_zero_sym.
    + by destruct (Hno g1 x1 H1).
    + by apply (Hi g1 g2 x1 x2).
Qed.

(** Only the key matters to the tree. *)
Lemma tree_rep_update G t g x x' :
  tree_rep gcmp G t -> G !! g = Some x -> ag_key x' = ag_key x -> tree_rep gcmp (<[g := x']> G) t.
Proof.
  intros [(l & Hm & Hl) Hi] Hg Hk. split.
  - exists l. split; [done|]. intros g' k. rewrite Hl. setoid_rewrite lookup_insert_Some. split.
    + intros (y & Hy & <-). destruct (decide (g = g')) as [<-|]; [|naive_solver].
      exists x'. simplify_eq. naive_solver.
    + intros (y & [[<- <-]|[? Hy]] & <-); [exists x; naive_solver|by exists y].
  - intros g1 g2 x1 x2. rewrite !lookup_insert_Some. intros [[<- <-]|[Hn1 H1]] [[<- <-]|[Hn2 H2]] Hc; try done;
      eapply Hi; try done; by rewrite <- ?Hk.
Qed.

Lemma groups_rep_new G E limit m g gk :
  groups_rep cmp G E limit m -> G !! g = None -> 0 <= limit ->
  groups_rep cmp (<[g := AGroup gk [] 0]> G) E limit (<[g := Group gk (rbt_init ∅) (Ts 0 0)]> m).
Proof.
  intros [Hn Hs Hl He Ha Hall] Hg Hlim. split.
  - intros g'. rewrite !lookup_insert_None. intros [??]. split; [by apply Hn|done].
  - intros g' x'. rewrite lookup_insert_Some. intros [[<- <-]|[Hne Hx]].
    + exists (rbt_init ∅), (Ts 0 0). rewrite lookup_insert_eq. split_and!; [done|apply models_empty|done].
    + rewrite lookup_insert_ne by done. by apply Hs.
  - intros g' x'. rewrite lookup_insert_Some. intros [[<- <-]|[Hne Hx]]; [done|by eapply Hl].
  - intros g' x' e k. rewrite lookup_insert_Some. intros [[<- <-]|[Hne Hx]]; [set_solver|by eapply He].
  - intros g1 g2 x1 x2 e. rewrite !lookup_insert_Some.
    intros [[<- <-]|[Hn1 H1]] [[<- <-]|[Hn2 H2]]; simpl; set_solver.
  - intros e Hin. destruct (Hall e Hin) as (g' & x' & Hx' & Hin'). exists g', x'.
    rewrite lookup_insert_ne by congruence. done.
Qed.

Lemma buckets_insert_head i cur prev next bs g :
  buckets_rep i cur prev next bs -> buckets_rep i (g :: cur) prev next (alter (cons g) (Z.to_nat i) bs).
Proof. intros [[-> ->]|[[-> ->]|[-> ->]]]; unfold buckets_rep; simpl; tauto. Qed.

(** A group with a new index. *)
Lemma idx_owned_new G E L g gk :
  idx_owned G E L -> G !! g = None -> ~ (group_idx G (idx_addr gk) \/ entry_idx E (idx_addr gk)) ->
  idx_owned (<[g := AGroup gk [] 0]> G) E ({[idx_addr gk]} ∪ L).
Proof.
  intros [Hm Hg He Ha] Hnew Hno.
  assert (forall i, group_idx (<[g := AGroup gk [] 0]> G) i <-> i = idx_addr gk \/ group_idx G i) as Hgi.
  { intros i. unfold group_idx. setoid_rewrite lookup_insert_Some. split.
    - intros (g' & x & [[<- <-]|[Hne Hx]] & <-); [by left|right; by exists g', x].
    - intros [->|(g' & x & Hx & <-)]; [eexists g, _; by split; [left|]|].
      exists g', x. split; [right; split; [congruence|done]|done]. }
  split.
  - intros i. rewrite elem_of_union, elem_of_singleton, Hgi, Hm. tauto.
  - intros g1 g2 x1 x2. rewrite !lookup_insert_Some. intros [[<- <-]|[Hn1 H1]] [[<- <-]|[Hn2 H2]] Heq; try done.
    + destruct Hno. left. by exists g2, x2.
    + destruct Hno. left. by exists g1, x1.
    + by eapply Hg.
  - done.
  - intros i [->|Hi]%Hgi Hei; [tauto|by eapply Ha].
Qed.

(** Only the keys of the groups matter. *)
Lemma idx_owned_update G E L g x x' :
  idx_owned G E L -> G !! g = Some x -> ag_key x' = ag_key x -> idx_owned (<[g := x']> G) E L.
Proof.
  intros [Hm Hg He Ha] Hx Hk.
  assert (forall i, group_idx (<[g := x']> G) i <-> group_idx G i) as Hgi.
  { intros i. unfold group_idx. setoid_rewrite lookup_insert_Some. split.
    - intros (g' & y & [[<- <-]|[Hne Hy]] & <-); [exists g, x; by rewrite Hk|by exists g', y].
    - intros (g' & y & Hy & <-). destruct (decide (g = g')) as [<-|]; [|naive_solver].
      simplify_eq. exists g, x'. rewrite Hk. naive_solver. }
  split; [|..|].
  - intros i. by rewrite Hgi.
  - intros g1 g2 x1 x2. rewrite !lookup_insert_Some. intros [[<- <-]|[Hn1 H1]] [[<- <-]|[Hn2 H2]] Heq; try done;
      rewrite ?Hk in Heq; by eapply Hg.
  - done.
  - intros i. rewrite Hgi. apply Ha.
Qed.

(** Entries go, or a new one comes. *)
Lemma idx_owned_drop G E L es : idx_owned G E L -> idx_owned G (drop_keys es E) (drop_idxs es E L).
Proof.
  intros [Hm Hg He Ha]. split.
  - intros i. rewrite elem_of_drop_idxs, Hm. split.
    + intros [[Hi|(e & c & Hc & <-)] Hes]; [by left|]. right. exists e, c. split; [|done]. apply lookup_drop_Some.
      split; [|done]. intros Hin. by eapply Hes.
    + intros [Hi|(e & c & [Hin Hc]%lookup_drop_Some & <-)].
      * split; [by left|]. intros e c _ Hc <-. apply (Ha _ Hi). by exists e, c.
      * split; [right; by exists e, c|]. intros e' c' Hin' Hc' Heq. by rewrite (He e e' c c') in Hin.
  - done.
  - intros e1 e2 c1 c2 [_ ?]%lookup_drop_Some [_ ?]%lookup_drop_Some. by apply He.
  - intros i Hi (e & c & [_ Hc]%lookup_drop_Some & <-). apply (Ha _ Hi). by exists e, c.
Qed.

Lemma idx_owned_insert G (E : gmap loc (@ldmsd_row_cache_entry_s K)) L e row rk :
  idx_owned G E L -> E !! e = None -> ~ (group_idx G (idx_addr rk) \/ entry_idx E (idx_addr rk)) ->
  idx_owned G (<[e := Entry row rk]> E) ({[idx_addr rk]} ∪ L).
Proof.
  intros [Hm Hg He Ha] Hnew Hno.
  assert (forall i, entry_idx (<[e := Entry row rk]> E) i <-> i = idx_addr rk \/ entry_idx E i) as Hei.
  { intros i. unfold entry_idx. setoid_rewrite lookup_insert_Some. split.
    - intros (e' & c & [[<- <-]|[Hne Hc]] & <-); [by left|right; by exists e', c].
    - intros [->|(e' & c & Hc & <-)]; [eexists e, _; by split; [left|]|].
      exists e', c. split; [right; split; [congruence|done]|done]. }
  split.
  - intros i. rewrite elem_of_union, elem_of_singleton, Hei, Hm. tauto.
  - done.
  - intros e1 e2 c1 c2. rewrite !lookup_insert_Some. intros [[<- <-]|[Hn1 H1]] [[<- <-]|[Hn2 H2]] Heq; try done.
    + destruct Hno. right. by exists e2, c2.
    + destruct Hno. right. by exists e1, c1.
    + by eapply He.
  - intros i Hi [->|Hie]%Hei; [tauto|by eapply Ha].
Qed.

Lemma runs_row_cache_group new dup gk s a :
  rep s a -> a_groups a !! new = None -> ~ idx_used a dup ->
  runs (row_cache_group gcmp (Some new) (Some dup) gk) s (fun g s' =>
    exists a', chosen gk new dup a g a' /\ rep s' a' /\ same_clock s s').
Proof.
  intros Hrep Hnew Hdup. pose proof Hrep as [Ht Hg He Ho Hio Hb Hnd Hmem Hlim Hts Hto]. unfold row_cache_group. apply runs_bind.
  eapply runs_mono; [by apply runs_on_groups, tree_rep_find|]. cbv beta. intros r ? (t' & [-> Hr] & ->).
  replace (set_group_tree (group_tree s) s) with s by (by destruct s). destruct r as [g|].
  { apply runs_ret. destruct Hr as (x & Hx & Hk). exists a. split; [by eapply chosen_old|done]. }
  apply runs_bind. exists new, s. split; [done|]. apply runs_bind. unfold dup_index. apply runs_bind.
  exists dup, s. split; [done|]. apply runs_bind, runs_modify, runs_ret, runs_bind, runs_modify, runs_bind.
  eapply runs_mono; [apply runs_on_groups; apply (tree_rep_add _ _ new (idx_at dup gk) (AGroup (idx_at dup gk) [] 0) Ht);
    [done|done|]|].
  { intros g x Hx Hc. apply (Hr g x Hx). apply cmp_zero_sym. rewrite <- (cmp_idx_at dup). by apply cmp_zero_sym. }
  cbv beta. intros _ ? (t' & Ht' & ->). apply runs_bind, runs_gets, runs_bind, runs_modify, runs_ret.
  exists (a_new new (idx_at dup gk) a). split; [by apply chosen_new|]. split; [|done].
  assert (new ∉ a_cur a ++ a_prev a ++ []) as Hni by (rewrite Hmem, Hnew; by intros [??]).
  split; simpl; try done.
  - apply groups_rep_new; [done|done|]. pose proof (wrapu_range 64 (row_limit s)). lia.
  - pose proof (idx_owned_new _ _ _ new (idx_at dup gk) Hio Hnew) as Hown. rewrite idx_addr_at in Hown. by apply Hown.
  - by apply buckets_insert_head.
  - by apply NoDup_cons.
  - intros g. rewrite elem_of_cons, Hmem. destruct (decide (g = new)) as [->|Hne].
    + rewrite lookup_insert_eq. naive_solver.
    + rewrite lookup_insert_ne by done. naive_solver.
Qed.

(** ** Eviction *)

Lemma groups_rep_evict G E limit m g k e rows last t lu :
  groups_rep cmp G E limit m -> G !! g = Some (AGroup k (e :: rows) last) ->
  NoDup (e :: rows).*1 -> models cmp rows t -> ns lu = last ->
  groups_rep cmp (<[g := AGroup k rows last]> G) (drop_keys [e.1] E) limit (<[g := Group k t lu]> m).
Proof.
  intros [Hn Hs Hl He Ha Hall] Hg Hnd Hm Hlu. simpl in Hnd. apply NoDup_cons in Hnd as [Hnd _].
  assert (Hsub : forall g' x', <[g := AGroup k rows last]> G !! g' = Some x' -> exists x0,
    G !! g' = Some x0 /\ (forall p, p ∈ ag_rows x' -> p ∈ ag_rows x0) /\ e.1 ∉ (ag_rows x').*1).
  { intros g' x'. rewrite lookup_insert_Some. intros [[<- <-]|[Hne Hx]].
    - eexists. split; [done|]. simpl. split; [set_solver|done].
    - exists x'. split_and!; [done|done|]. intros Hin. apply Hne.
      eapply (Ha g g' _ x'); [done..| |done]. simpl. set_solver. }
  split.
  - intros g'. rewrite !lookup_insert_None. intros [??]. split; [by apply Hn|done].
  - intros g' x'. rewrite lookup_insert_Some. intros [[<- <-]|[Hne Hx]].
    + exists t, lu. by rewrite lookup_insert_eq.
    + rewrite lookup_insert_ne by done. by apply Hs.
  - intros g' x'. rewrite lookup_insert_Some. intros [[<- <-]|[Hne Hx]]; [|by eapply Hl].
    apply Hl in Hg. simpl in *. lia.
  - intros g' x' e' k' Hx' Hin. destruct (Hsub g' x' Hx') as (x0 & Hx0 & Hrows & Hne).
    destruct (He g' x0 e' k') as [r Hr]; [done|by apply Hrows|]. exists r. apply lookup_drop_Some.
    rewrite list_elem_of_singleton. split; [|done]. intros ->. apply Hne. by apply (list_elem_of_fmap_2' fst _ _ _ Hin).
  - intros g1 g2 x1 x2 e' H1 H2 Hi1 Hi2. destruct (Hsub g1 x1 H1) as (y1 & Hy1 & Hr1 & _).
    destruct (Hsub g2 x2 H2) as (y2 & Hy2 & Hr2 & _). apply (Ha g1 g2 y1 y2 e' Hy1 Hy2);
      [apply list_elem_of_fmap in Hi1 as (p & -> & ?)|apply list_elem_of_fmap in Hi2 as (p & -> & ?)];
      apply list_elem_of_fmap; eauto.
  - intros e' [c Hc]. apply lookup_drop_Some in Hc as [Hne Hc]. rewrite list_elem_of_singleton in Hne.
    destruct (Hall e') as (g' & x' & Hx' & Hin); [by eexists|]. destruct (decide (g' = g)) as [->|Hng].
    + simplify_eq. exists g, (AGroup k rows (ns lu)). rewrite lookup_insert_eq. split; [done|]. simpl in *. set_solver.
    + exists g', x'. by rewrite lookup_insert_ne.
Qed.

Lemma runs_row_cache_evict g x s a :
  rep s a -> a_groups a !! g = Some x ->
  runs (row_cache_evict g) s (fun _ s' => rep s' (a_evict (u64 (row_limit s)) g a) /\ same_clock s s').
Proof.
  intros Hrep Hx. pose proof Hrep as [Ht Hg He Ho Hio Hb Hnd Hmem Hlim Hts Hto]. unfold row_cache_evict.
  destruct (gr_some _ _ _ _ _ Hg g x Hx) as (t & lu & Hgt & Hm & Hlu). apply runs_bind.
  eapply runs_mono; [eapply (runs_on_rows_read g _ s _ t lu (fun c => c = card t)); [done|by apply runs_gets]|].
  cbv beta. intros ? ? [-> ->]. apply runs_bind, runs_gets. rewrite (models_card cmp _ _ Hm).
  destruct x as [k rows last]. cbn [ag_rows ag_last] in *. unfold a_evict. rewrite Hx. destruct rows as [|[e ke] rows].
  { destruct (Z.eqb_spec (Z.of_nat (length (@nil (loc * K)))) (u64 (row_limit s))); [simpl in *; lia|by apply runs_ret]. }
  case_match eqn:Hfull; [|by apply runs_ret]. apply runs_bind.
  eapply runs_mono; [eapply runs_on_rows_read; [done|by apply (models_min cmp)]|]. cbv beta. intros ? ? [-> ->].
  cbn [head fmap option_fmap option_map fst]. apply runs_bind. exists e, s. split; [done|].
  destruct (gr_entry _ _ _ _ _ Hg g _ e ke Hx) as [r Hr]; [by left|].
  eapply runs_mono; [eapply (runs_drop_entry gcmp cmp s g _ t lu [] e ke rows r); [done|done|by rewrite He| |]|].
  { apply (own_rows _ _ Ho). by exists e, (Entry r ke). }
  { apply (io_mem _ _ _ Hio). right. by exists e, (Entry r ke). }
  cbv beta. intros _ s' (t' & Hm' & ->). split; [|done]. split; simpl; try done.
  - by eapply tree_rep_update.
  - eapply (groups_rep_evict _ _ _ _ g k (e, ke)); [done..| |done|done]. by eapply (models_nodup cmp).
  - by rewrite He.
  - rewrite He. by apply owned_drop.
  - rewrite He. eapply idx_owned_update; [by apply idx_owned_drop|exact Hx|done].
  - intros g'. rewrite Hmem. destruct (decide (g' = g)) as [->|Hne].
    + rewrite lookup_insert_eq, Hx. split; by eexists.
    + by rewrite lookup_insert_ne.
Qed.

Lemma a_evict_room limit g x a :
  a_groups a !! g = Some x -> Z.of_nat (length (ag_rows x)) <= limit -> 0 < limit ->
  exists x', a_groups (a_evict limit g a) !! g = Some x' /\ ag_key x' = ag_key x /\ ag_last x' = ag_last x /\
    Z.of_nat (length (ag_rows x')) < limit.
Proof.
  intros Hx Hl Hlim. unfold a_evict. rewrite Hx. destruct x as [k [|e rows] last]; cbn [ag_rows] in *.
  - exists (AGroup k [] last). by rewrite Hx.
  - case_match.
    + exists (AGroup k rows last). cbn [a_groups]. rewrite lookup_insert_eq. simpl in *. split_and!; [done..|lia].
    + exists (AGroup k (e :: rows) last). rewrite Hx. split_and!; [done..|]. cbn [ag_rows]. lia.
Qed.

(** ** Insertion *)

Lemma seq_ins_length p l : length (seq_ins cmp p l) = S (length l).
Proof. induction l as [|q l IH]; simpl; [done|]. case_match; simpl; [done|by rewrite IH]. Qed.

Lemma groups_rep_insert G E limit m g x e rk row now t lu :
  groups_rep cmp G E limit m -> G !! g = Some x -> E !! e = None -> Z.of_nat (length (ag_rows x)) < limit ->
  models cmp (seq_ins cmp (e, rk) (ag_rows x)) t -> ns lu = now ->
  groups_rep cmp (<[g := AGroup (ag_key x) (seq_ins cmp (e, rk) (ag_rows x)) now]> G) (<[e := Entry row rk]> E) limit
    (<[g := Group (ag_key x) t lu]> m).
Proof.
  intros [Hn Hs Hl He Ha Hall] Hg Hnew Hroom Hm Hlu.
  assert (Hfresh : forall g' x', G !! g' = Some x' -> e ∉ (ag_rows x').*1).
  { intros g' x' Hx' ([e' k'] & -> & Hin)%list_elem_of_fmap. destruct (He g' x' e' k' Hx' Hin) as [r Hr].
    simpl in *. congruence. }
  assert (Hins : forall e', e' ∈ (seq_ins cmp (e, rk) (ag_rows x)).*1 <-> e' = e \/ e' ∈ (ag_rows x).*1).
  { intros e'. rewrite !list_elem_of_fmap. setoid_rewrite (elem_of_seq_ins cmp). naive_solver. }
  split.
  - intros g'. rewrite !lookup_insert_None. intros [??]. split; [by apply Hn|done].
  - intros g' x'. rewrite lookup_insert_Some. intros [[<- <-]|[Hne Hx]].
    + exists t, lu. by rewrite lookup_insert_eq.
    + rewrite lookup_insert_ne by done. by apply Hs.
  - intros g' x'. rewrite lookup_insert_Some. intros [[<- <-]|[Hne Hx]]; [|by eapply Hl].
    cbn [ag_rows]. rewrite seq_ins_length. lia.
  - intros g' x' e' k'. rewrite lookup_insert_Some. intros [[<- <-]|[Hne Hx]] Hin.
    + cbn [ag_rows] in Hin. apply (elem_of_seq_ins cmp) in Hin as [[= -> ->]|Hin];
        [exists row; by rewrite lookup_insert_eq|]. destruct (He g x e' k') as [r Hr]; [done..|].
      exists r. rewrite lookup_insert_ne; [done|congruence].
    + destruct (He g' x' e' k') as [r Hr]; [done..|]. exists r. rewrite lookup_insert_ne; [done|congruence].
  - intros g1 g2 x1 x2 e'. rewrite !lookup_insert_Some.
    intros [[<- <-]|[Hn1 H1]] [[<- <-]|[Hn2 H2]]; cbn [ag_rows]; rewrite ?Hins; [done| | |by apply Ha].
    + intros [->|Hi1] Hi2; [by destruct (Hfresh g2 x2)|by apply (Ha g g2 x x2 e')].
    + intros Hi1 [->|Hi2]; [by destruct (Hfresh g1 x1)|by apply (Ha g1 g x1 x e')].
  - intros e'. rewrite lookup_insert_is_Some. intros [<-|[Hne Hin]].
    + eexists g, _. rewrite lookup_insert_eq. split; [done|]. apply Hins. by left.
    + destruct (Hall e' Hin) as (g' & x' & Hx' & Hin'). destruct (decide (g' = g)) as [->|Hng].
      * eexists g, _. rewrite lookup_insert_eq. split; [done|]. simplify_eq. apply Hins. by right.
      * exists g', x'. by rewrite lookup_insert_ne.
Qed.

Lemma owned_insert (E : gmap loc (@ldmsd_row_cache_entry_s K)) L e row rk :
  owned E L -> E !! e = None -> row ∉ L -> owned (<[e := Entry row rk]> E) ({[row]} ∪ L).
Proof.
  intros [Hr Hi] He Hrow. split.
  - intros r. rewrite elem_of_union, elem_of_singleton, Hr. setoid_rewrite lookup_insert_Some. split.
    + intros [->|(e' & c & Hc & <-)]; [eexists e, _; by split; [left|]|].
      exists e', c. split; [right; split; [congruence|done]|done].
    + intros (e' & c & [[<- <-]|[Hne Hc]] & <-); [by left|right; by exists e', c].
  - intros e1 e2 c1 c2. rewrite !lookup_insert_Some. intros [[<- <-]|[Hn1 H1]] [[<- <-]|[Hn2 H2]] Heq; try done.
    + destruct Hrow. apply Hr. simpl in Heq. by exists e2, c2.
    + destruct Hrow. apply Hr. simpl in Heq. by exists e1, c1.
    + by eapply Hi.
Qed.

Lemma runs_store_row e now g rk row x s a :
  rep s a -> a_groups a !! g = Some x -> Z.of_nat (length (ag_rows x)) < u64 (row_limit s) ->
  a_entries a !! e = None -> row ∉ held_rows s -> ~ idx_used a (idx_addr rk) ->
  runs (store_row cmp e now g rk row) s (fun rc s' => rc = 0 /\ rep s' (a_insert (ns now) g e rk row a) /\ same_clock s s').
Proof.
  intros [Ht Hg He Ho Hio Hb Hnd Hmem Hlim Hts Hto] Hx Hroom Hnew Hrow Hidx.
  destruct (gr_some _ _ _ _ _ Hg g x Hx) as (t & lu & Hgt & Hm & Hlu).
  unfold store_row. do 3 apply runs_bind, runs_modify. apply runs_bind. eapply runs_mono.
  { eapply (runs_on_rows g _ _ _ t lu); [done|]. apply (models_add cmp _ _ e rk Hm).
    intros ([e' k'] & -> & Hin)%list_elem_of_fmap. destruct (gr_entry _ _ _ _ _ Hg g x e' k' Hx Hin) as [r Hr].
    simpl in *. congruence. }
  cbv beta. intros _ ? (t' & Hm' & ->). apply runs_bind. unfold st_group. apply runs_bind.
  eexists _, _. split; [unfold ld_group; cbn; rewrite lookup_insert_eq; reflexivity|]. apply runs_modify. cbn [row_tree rbn_key].
  assert (g ∈ a_cur a ++ a_prev a ++ []) as Hin by (apply Hmem; by eexists).
  apply runs_bind. eapply runs_mono; [by eapply (runs_bucket_remove g _ (a_cur a) (a_prev a) [])|].
  cbv beta. intros _ ? (bs & -> & Hb'). apply runs_bind, runs_gets, runs_bind, runs_modify, runs_ret.
  split; [done|]. split; [|done]. unfold a_insert. rewrite Hx. split; cbn; try done.
  - by eapply tree_rep_update.
  - rewrite insert_insert_eq. by eapply groups_rep_insert.
  - by rewrite He.
  - by apply owned_insert.
  - eapply idx_owned_update; [by apply idx_owned_insert|exact Hx|done].
  - by apply buckets_insert_head.
  - rewrite app_nil_r in *. rewrite <- filter_app. constructor; [|by apply NoDup_filter].
    rewrite list_elem_of_filter. tauto.
  - intros g'. rewrite elem_of_cons, app_nil_r, <- filter_app, list_elem_of_filter.
    specialize (Hmem g'). rewrite app_nil_r in Hmem. rewrite Hmem. destruct (decide (g' = g)) as [->|Hne].
    + rewrite lookup_insert_eq. naive_solver.
    + rewrite lookup_insert_ne by done. tauto.
Qed.

(** ** The whole call *)

Lemma a_drop_sub gs a :
  a_groups (a_drop gs a) ⊆ a_groups a /\ a_entries (a_drop gs a) ⊆ a_entries a.
Proof. split; apply map_subseteq_spec; intros k v; cbn; by intros [_ ?]%lookup_drop_Some. Qed.

Lemma a_advance_sub T now : forall n a,
  a_groups (a_advance n T now a).1 ⊆ a_groups a /\ a_entries (a_advance n T now a).1 ⊆ a_entries a.
Proof.
  induction n as [|n IH]; intros a; cbn [a_advance]; [done|]. case_match; [|done].
  destruct (IH (a_rotate T a)) as [H1 H2]. destruct (a_drop_sub (a_prev a) a). split; by etrans.
Qed.

Lemma a_expire_sub T now a :
  a_groups (a_expire T now a) ⊆ a_groups a /\ a_entries (a_expire T now a) ⊆ a_entries a.
Proof.
  unfold a_expire. case_match; [done|]. pose proof (a_advance_sub T now 3 a) as H'.
  destruct (a_advance 3 T now a). by case_match.
Qed.

(** What a call leaves of the abstract cache. *)
Definition a_stored (T limit now : Z) (new dup e : loc) (gk : GK) (rk : K) (row g : loc) a a' : Prop :=
  exists a1, chosen gk new dup (a_expire T now a) g a1 /\ a' = a_insert now g e rk row (a_evict limit g a1).

Lemma chosen_lookup gk new dup a g a1 : chosen gk new dup a g a1 -> exists x, a_groups a1 !! g = Some x.
Proof. intros [g' x Hx _|_]; [by exists x|]. eexists. apply lookup_insert_eq. Qed.

Lemma a_evict_entries limit g a : a_entries (a_evict limit g a) ⊆ a_entries a.
Proof.
  unfold a_evict. repeat case_match; try done. apply map_subseteq_spec. intros e c. cbn.
  by intros [_ ?]%lookup_drop_Some.
Qed.

Lemma not_held s a (E : gmap loc (@ldmsd_row_cache_entry_s K)) row s0 :
  rep s a -> a_entries a ⊆ E -> owned E (held_rows s0) -> row ∉ held_rows s0 -> row ∉ held_rows s.
Proof.
  intros Hrep Hsub Ho Hrow (e & c & Hc & <-)%(own_rows _ _ (rep_owned _ _ _ _ _ Hrep)).
  apply Hrow, (own_rows _ _ Ho). exists e, c. split; [|done]. by eapply lookup_weaken.
Qed.

(** What an index address is free of stays so when groups and entries go. *)
Lemma idx_used_sub a a' i :
  a_groups a' ⊆ a_groups a -> a_entries a' ⊆ a_entries a -> idx_used a' i -> idx_used a i.
Proof.
  intros Hg He [(g & x & Hx & <-)|(e & c & Hc & <-)]; [left; exists g, x|right; exists e, c];
    (split; [by eapply lookup_weaken|done]).
Qed.

Lemma idx_used_chosen gk new dup a g a1 i :
  chosen gk new dup a g a1 -> idx_used a1 i -> i = dup \/ idx_used a i.
Proof.
  intros [g' x Hx _|_]; [by right|]. intros [(g' & x & Hx & <-)|He]; [|by right; right].
  cbn in Hx. apply lookup_insert_Some in Hx as [[<- <-]|[_ Hx]]; [left; apply idx_addr_at|].
  right; left. by exists g', x.
Qed.

Lemma idx_used_evict limit g a i : idx_used (a_evict limit g a) i -> idx_used a i.
Proof.
  unfold a_evict. destruct (a_groups a !! g) as [[k [|e rows] last]|] eqn:Hx; try done. case_match; [|done].
  intros [(g' & x & Hg' & <-)|(e' & c & [_ Hc]%lookup_drop_Some & <-)]; [left|right; by exists e', c].
  cbn in Hg'. apply lookup_insert_Some in Hg' as [[<- <-]|[_ Hg']]; [by eexists g, _|by exists g', x].
Qed.

(** The addresses a call is given are not in use: those of the entry and of
    the row's index when it starts, those of a new group and of the copy of
    its index when the expired groups are gone. *)
Record fresh_call s a (now : timespec) (e new dup : loc) (rk : K) (row : loc) : Prop := {
  fc_entry : entries s !! e = None;
  fc_row : row ∉ held_rows s;
  fc_idx : ~ idx_used a (idx_addr rk);
  fc_group : a_groups (a_expire (ns (cfg_timeout s)) (ns now) a) !! new = None;
  fc_dup : ~ idx_used (a_expire (ns (cfg_timeout s)) (ns now) a) dup;
  fc_apart : dup <> idx_addr rk
}.

Lemma runs_row_cache s a e now new dup gk rk row :
  rep s a -> ts_wf now -> ns now < TIME_MAX -> fresh_call s a now e new dup rk row ->
  runs (ldmsd_row_cache gcmp cmp (Some e) (inr now) (Some new) (Some dup) gk rk row) s (fun rc s' =>
    rc = 0 /\ cfg_timeout s' = cfg_timeout s /\ row_limit s' = row_limit s /\
    exists g a', a_stored (ns (cfg_timeout s)) (u64 (row_limit s)) (ns now) new dup e gk rk row g a a' /\ rep s' a').
Proof.
  intros Hrep Hw Hmax [He Hrow Hidx Hnew Hdup Hapart]. pose proof (rep_entries _ _ _ _ _ Hrep) as HE. rewrite HE in He.
  pose proof (rep_owned _ _ _ _ _ Hrep) as Ho. unfold ldmsd_row_cache. apply runs_bind.
  eapply runs_mono; [by apply (runs_expire gcmp cmp now s a)|]. cbv beta. intros _ s1 (Hrep1 & Hc1 & Hl1).
  destruct (a_expire_sub (ns (cfg_timeout s)) (ns now) a) as [Hsubg Hsub].
  apply runs_bind. eapply runs_mono; [by eapply runs_row_cache_group|].
  cbv beta. intros g s2 (a2 & Hch & Hrep2 & (_ & _ & Hc2 & Hl2)).
  assert (a_entries a2 = a_entries (a_expire (ns (cfg_timeout s)) (ns now) a)) as HE2 by (by destruct Hch).
  destruct (chosen_lookup _ _ _ _ _ _ Hch) as [x Hx]. apply runs_bind.
  eapply runs_mono; [by eapply runs_row_cache_evict|]. cbv beta. intros _ s3 (Hrep3 & (_ & _ & Hc3 & Hl3)).
  pose proof (rep_limit _ _ _ _ _ Hrep2). pose proof (wrapu_range 64 (row_limit s2)).
  destruct (a_evict_room (u64 (row_limit s2)) g x a2 Hx) as (x' & Hx' & _ & _ & Hroom);
    [by apply (gr_limit _ _ _ _ _ (rep_groups _ _ _ _ _ Hrep2) g)|lia|].
  pose proof (a_evict_entries (u64 (row_limit s2)) g a2) as Hsub3. rewrite HE2 in Hsub3.
  eapply runs_mono.
  { eapply (runs_store_row e now g rk row x' s3 _ Hrep3 Hx'); [by rewrite Hl3| | |].
    - destruct (_ !! e) as [c|] eqn:Hc in |- *; [|done]. exfalso.
      eapply lookup_weaken in Hc; [|exact Hsub3]. eapply lookup_weaken in Hc; [|exact Hsub]. congruence.
    - eapply (not_held s3 _ (a_entries a) row s Hrep3); [by etrans|done|done].
    - intros Hu%idx_used_evict. destruct (idx_used_chosen _ _ _ _ _ _ _ Hch Hu) as [|Hu']; [congruence|].
      by apply Hidx, (idx_used_sub a (a_expire (ns (cfg_timeout s)) (ns now) a)). }
  cbv beta. intros rc s4 (-> & Hrep4 & (_ & _ & Hc4 & Hl4)). split_and!; [done|congruence|congruence|].
  exists g. eexists. split; [|exact Hrep4]. exists a2. split; [done|]. by rewrite Hl2, Hl1.
Qed.
End spec.
