(* ===== verification/RowCacheProps.v ===== *)
(** * The row cache: theorems

    The refinement of the abstract cache, the listing of a group, and the
    lifetime of a group. *)

From stdpp Require Import prelude gmap sorting.
From S2P Require Import Prelude Rbt RbtRep RbtRot RbtIns RbtOps RbtSearch RbtSpec Bytes MVal RowKey.
From S2P Require Import Ev RowCache RowCacheRep RowCacheSpec.

Open Scope Z_scope.

Section props.
Context {GK K : Type} `{!IndexRef GK, !IndexRef K}.
Context (gcmp : GK -> GK -> Z) {Hgcmp : Comparator gcmp} {Hval : ByValue gcmp} (cmp : K -> K -> Z) {Hcmp : Comparator cmp}.
Abbreviation cache := (@ldmsd_row_cache_s GK K).
Abbreviation rep := (rep gcmp cmp).
Implicit Types (s : cache) (a : @acache GK K) (G : gmap loc (@agroup GK K)).

(** ** Listing *)

Lemma runs_list_rows g s gk t lu l : forall n l2,
  groups s !! g = Some (Group gk t lu) -> models cmp (l ++ l2) t ->
  (forall e k, (e, k) ∈ l -> exists r, entries s !! e = Some (Entry r k)) ->
  runs (list_rows g n (fst <$> last l)) s (fun r s' => s' = s /\ r = rows_of (entries s) (take n (reverse l.*1))).
Proof.
  induction l as [|[e k] l IH] using rev_ind; intros n l2 Hg Hm He.
  { destruct n; cbn; by apply runs_ret. }
  rewrite last_snoc. destruct n as [|n]; cbn [list_rows fmap option_fmap option_map fst]; [by apply runs_ret|].
  destruct (He e k) as [r Hr]; [set_solver|]. apply runs_bind. exists (Entry r k), s.
  split; [unfold ld_entry; by rewrite Hr|]. rewrite <- app_assoc in Hm. apply runs_bind.
  eapply runs_mono; [eapply runs_on_rows_read; [done|exact (models_pred cmp l e k l2 t Hm)]|]. cbv beta.
  intros ? ? [-> ->]. apply runs_bind. eapply runs_mono; [eapply (IH n); [done|exact Hm|]; intros; apply He; set_solver|].
  cbv beta. intros ? ? [-> ->]. apply runs_ret. split; [done|].
  rewrite fmap_app, reverse_app. unfold rows_of. cbn. by rewrite Hr.
Qed.

(** The entries of the group of an index. *)
Definition group_entries (a : @acache GK K) (gk : GK) (es : list loc) : Prop :=
  (exists g x, a_groups a !! g = Some x /\ gcmp (ag_key x) gk = 0 /\ es = (ag_rows x).*1) \/
  ((forall g x, a_groups a !! g = Some x -> gcmp (ag_key x) gk <> 0) /\ es = []).

Lemma runs_make_list s a n gk :
  rep s a ->
  runs (ldmsd_row_cache_make_list gcmp n gk) s (fun r s' => s' = s /\ r.2 = Z.of_nat (length r.1) /\
    exists es, group_entries a gk es /\ r.1 = rows_of (a_entries a) (take (Z.to_nat n) (reverse es))).
Proof.
  intros Hrep. pose proof Hrep as [Ht Hg He Ho Hio Hb Hnd Hmem Hlim Hts Hto]. unfold ldmsd_row_cache_make_list.
  apply runs_bind. eapply runs_mono; [apply runs_on_groups; exact (tree_rep_find gcmp _ _ gk Ht)|]. cbv beta.
  intros r ? (t' & [-> Hr] & ->). replace (set_group_tree (group_tree s) s) with s by (by destruct s).
  destruct r as [g|].
  - destruct Hr as (x & Hx & Hk). destruct (gr_some _ _ _ _ _ Hg g x Hx) as (t & lu & Hgt & Hm & _).
    apply runs_bind. eapply runs_mono; [eapply runs_on_rows_read; [done|by apply (models_max cmp)]|].
    cbv beta. intros ? ? [-> ->]. apply runs_bind.
    eapply runs_mono; [eapply (runs_list_rows g s _ t lu (ag_rows x) _ []); [done|by rewrite app_nil_r|]|].
    { rewrite He. intros e k. by eapply gr_entry. }
    cbv beta. intros ? ? [-> ->]. apply runs_ret. split_and!; [done|done|].
    exists (ag_rows x).*1. split; [left; by exists g, x|by rewrite He].
  - apply runs_ret. split_and!; [done|done|]. exists []. split; [by right|].
    by destruct (Z.to_nat n).
Qed.

(** ** Lifetimes *)

(** The windows of the two buckets, as of the last call at [clock]. *)
Definition timed (T clock : Z) a : Prop :=
  a_ts a - T <= clock /\ forall g x, a_groups a !! g = Some x -> ag_last x <= clock /\
    ((g ∈ a_cur a /\ g ∉ a_prev a /\ a_ts a - T <= ag_last x <= a_ts a) \/
     (g ∈ a_prev a /\ a_ts a - 2 * T <= ag_last x <= a_ts a - T)).

(** [a'] keeps the groups that are active at [now]. *)
Definition keeps_active (T now : Z) a a' : Prop :=
  forall g x, a_groups a !! g = Some x -> now <= ag_last x + T -> a_groups a' !! g = Some x.

Lemma timed_rotate T clock now a :
  timed T clock a -> clock <= now -> a_ts a < now -> 0 < T ->
  timed T now (a_rotate T a) /\ keeps_active T now a (a_rotate T a).
Proof.
  intros [Hts Hg] Hc Hlt HT. split; [split; [cbn; lia|]|].
  - intros g x. cbn. intros [Hp Hx]%lookup_drop_Some. destruct (Hg g x Hx) as [Hl [(Hcur & _ & Hw)|[Hprev _]]]; [|done].
    split; [lia|]. right. split; [done|lia].
  - intros g x Hx Hact. cbn. apply lookup_drop_Some. split; [|done]. intros Hp.
    destruct (Hg g x Hx) as [_ [(_ & Hn & _)|[_ Hw]]]; [done|lia].
Qed.

Lemma timed_advance T now : forall n clock a,
  timed T clock a -> clock <= now -> 0 < T ->
  let '(a', m) := a_advance n T now a in
  timed T now a' /\ keeps_active T now a a' /\ (m <> O -> now <= a_ts a').
Proof.
  induction n as [|n IH]; intros clock a Ht Hc HT; cbn [a_advance].
  { destruct Ht as [H1 H2]. split_and!; [|by intros ???|done]. split; [lia|]. intros g x Hx. destruct (H2 g x Hx). split; [lia|done]. }
  destruct (Z.ltb_spec (a_ts a) now).
  - destruct (timed_rotate T clock now a) as [Ht' Hk]; [done..|]. specialize (IH now (a_rotate T a) Ht').
    destruct (a_advance n T now (a_rotate T a)) as [a' m]. destruct IH as (H1 & H2 & H3); [done|done|].
    split_and!; [done| |done]. intros g x Hx Hact. apply H2; [by apply Hk|done].
  - destruct Ht as [H1 H2]. split_and!; [|by intros ???|done]. split; [lia|]. intros g x Hx. destruct (H2 g x Hx). split; [lia|done].
Qed.

(** Three rotations leave both buckets empty. *)
Lemma advance_all T now a a' : a_advance 3 T now a = (a', O) -> a_cur a' = [] /\ a_prev a' = [].
Proof. cbn. intros. repeat case_match; by simplify_eq. Qed.

Lemma timed_expire T clock now a :
  timed T clock a -> clock <= now -> 0 < T ->
  timed T now (a_expire T now a) /\ keeps_active T now a (a_expire T now a) /\ now <= a_ts (a_expire T now a).
Proof.
  intros Ht Hc HT. unfold a_expire. destruct (Z.eqb_spec T 0); [lia|].
  pose proof (timed_advance T now 3 clock a Ht Hc HT) as Hadv. pose proof (advance_all T now a) as Hall.
  destruct (a_advance 3 T now a) as [a' m]. destruct Hadv as (H1 & H2 & H3).
  destruct (Z.eqb_spec (Z.of_nat m) 0); simpl; [|split_and!; [done|done|apply H3; lia]].
  destruct (Z.ltb_spec (a_ts a') now); [|split_and!; [done|done|lia]].
  destruct (Hall a') as [Hcur Hprev]; [f_equal; lia|]. split_and!; [|done|cbn; lia].
  split; [cbn; lia|]. intros g x Hx. cbn in Hx. destruct H1 as [_ H1]. destruct (H1 g x Hx) as [_ Hin].
  rewrite Hcur, Hprev in Hin. set_solver.
Qed.

(** What a call leaves of a group it does not store into. *)
Lemma call_other_group T limit now new dup e gk rk row g a a' g' :
  a_stored gcmp cmp T limit now new dup e gk rk row g a a' -> g' <> g ->
  a_groups a' !! g' = a_groups (a_expire T now a) !! g' /\
  (g' ∈ a_cur (a_expire T now a) -> g' ∈ a_cur a') /\ (g' ∈ a_prev (a_expire T now a) -> g' ∈ a_prev a') /\
  (g' ∉ a_prev (a_expire T now a) -> g' ∉ a_prev a') /\ a_ts a' = a_ts (a_expire T now a).
Proof.
  intros (a1 & Hch & ->) Hne. set (a0 := a_expire T now a) in *.
  assert (H1 : a_groups a1 !! g' = a_groups a0 !! g' /\ (g' ∈ a_cur a0 -> g' ∈ a_cur a1) /\
    a_prev a1 = a_prev a0 /\ a_ts a1 = a_ts a0).
  { destruct Hch; [done|]. cbn. rewrite lookup_insert_ne by done. split_and!; [done|set_solver|done|done]. }
  assert (H2 : a_groups (a_evict limit g a1) !! g' = a_groups a1 !! g' /\ a_cur (a_evict limit g a1) = a_cur a1 /\
    a_prev (a_evict limit g a1) = a_prev a1 /\ a_ts (a_evict limit g a1) = a_ts a1).
  { unfold a_evict. repeat case_match; try done. cbn. by rewrite lookup_insert_ne. }
  destruct H1 as (H1 & Hc1 & Hp1 & Ht1), H2 as (H2 & Hc2 & Hp2 & Ht2). unfold a_insert.
  case_match; cbn; [rewrite lookup_insert_ne by done; setoid_rewrite elem_of_cons; setoid_rewrite list_elem_of_filter|];
    rewrite ?H2, ?H1, ?Hc2, ?Hp2, ?Ht2, ?Hp1, ?Ht1; split_and!; naive_solver.
Qed.

(** The group it stores into. *)
Lemma stored_group T limit now new dup e gk rk row g a a' :
  a_stored gcmp cmp T limit now new dup e gk rk row g a a' ->
  (forall g' x, a_groups (a_expire T now a) !! g' = Some x -> Z.of_nat (length (ag_rows x)) <= limit) -> 0 < limit ->
  a_groups (a_expire T now a) !! new = None ->
  exists x', a_groups a' !! g = Some x' /\ ag_last x' = now /\ gcmp (ag_key x') gk = 0 /\ g ∈ a_cur a' /\ g ∉ a_prev a' /\
    a_entries a' !! e = Some (Entry row rk) /\ (e, rk) ∈ ag_rows x' /\ Z.of_nat (length (ag_rows x')) <= limit /\
    forall x, a_groups (a_expire T now a) !! g = Some x -> ag_key x' = ag_key x.
Proof.
  intros (a1 & Hch & ->) Hroom Hlim Hnew.
  assert (exists x, a_groups a1 !! g = Some x /\ gcmp (ag_key x) gk = 0 /\ Z.of_nat (length (ag_rows x)) <= limit /\
    forall x0, a_groups (a_expire T now a) !! g = Some x0 -> ag_key x = ag_key x0) as (x & Hx & Hk & Hl & Hsame).
  { destruct Hch as [g x Hx Hk|Hno].
    - exists x. split_and!; [done|done|by eapply Hroom|]. intros. by simplify_eq.
    - eexists. cbn. rewrite lookup_insert_eq. split; [done|]. cbn. rewrite cmp_idx_at. pose proof (cmp_opp (cmp := gcmp) gk gk).
      split_and!; [lia|lia|]. intros x0 Hx0. congruence. }
  destruct (a_evict_room limit g x a1 Hx Hl Hlim) as (x' & Hx' & Hk' & _ & Hroom').
  unfold a_insert. rewrite Hx'. eexists. cbn. rewrite !lookup_insert_eq. split; [done|]. cbn.
  rewrite Hk', !elem_of_cons, !list_elem_of_filter, (elem_of_seq_ins cmp), seq_ins_length.
  split_and!; first [done|by left|tauto|lia].
Qed.

Lemma stored_timed T limit clock now new dup e gk rk row g a a' :
  a_stored gcmp cmp T limit now new dup e gk rk row g a a' ->
  (forall g' x, a_groups (a_expire T now a) !! g' = Some x -> Z.of_nat (length (ag_rows x)) <= limit) -> 0 < limit ->
  a_groups (a_expire T now a) !! new = None -> timed T clock a -> clock <= now -> 0 < T ->
  timed T now a' /\ now <= a_ts a'.
Proof.
  intros Hst Hroom Hlim Hnew Ht Hc HT. destruct (timed_expire T clock now a) as ((H1 & H2) & _ & H3); [done..|].
  destruct (stored_group _ _ _ _ _ _ _ _ _ _ _ _ Hst Hroom Hlim Hnew) as (x' & Hx' & Hl & _ & Hcur & Hprev & _).
  assert (a_ts a' = a_ts (a_expire T now a)) as Hts.
  { destruct Hst as (a1 & Hch & ->). unfold a_insert, a_evict in *. destruct Hch; repeat case_match; done. }
  rewrite Hts in *. split; [split; [lia|]|done]. intros g' x Hx. destruct (decide (g' = g)) as [->|Hne].
  - simplify_eq. split; [lia|]. left. rewrite Hts. split_and!; [done|done|lia|lia].
  - destruct (call_other_group _ _ _ _ _ _ _ _ _ _ _ _ g' Hst Hne) as (Hg & Hc' & Hp' & Hn' & _). rewrite Hg in Hx.
    destruct (H2 g' x Hx) as [? [(?&?&?)|(?&?)]]; rewrite Hts; (split; [done|]); [left|right]; auto.
Qed.

(** C8: Storing a row refines the abstract cache.  From a store that holds
    the abstract cache [a], with a free entry, an unused row and a usable
    clock, [ldmsd_row_cache] terminates with 0 without a bad access, double
    free or failed assertion; the result is the abstract cache after dropping
    the expired groups, taking the group of the index (or a new one with a
    copy of it), evicting its first row when it holds as many rows as the
    limit, and inserting the new row in order.  The representation ties the
    memory to the abstract cache on both sides: the rows and the indexes held
    are exactly those of the entries and of the groups, no two of them share
    one, so each is freed once, with its entry or its group, and none leaks. *)
Theorem row_cache_refines s a e now new dup gk rk row :
  rep s a -> ts_wf now -> ns now < TIME_MAX -> fresh_call s a now e new dup rk row ->
  runs (ldmsd_row_cache gcmp cmp (Some e) (inr now) (Some new) (Some dup) gk rk row) s (fun rc s' =>
    rc = 0 /\ exists g a', a_stored gcmp cmp (ns (cfg_timeout s)) (u64 (row_limit s)) (ns now) new dup e gk rk row g a a' /\ rep s' a').
Proof.
  intros. eapply runs_mono; [by apply (runs_row_cache gcmp cmp s a)|]. cbv beta.
  intros rc s' (-> & _ & _ & g & a' & ? & ?). split; [done|]. by exists g, a'.
Qed.

Lemma expired_room s a T now g x :
  rep s a -> a_groups (a_expire T now a) !! g = Some x -> Z.of_nat (length (ag_rows x)) <= u64 (row_limit s).
Proof.
  intros Hrep Hx. eapply lookup_weaken in Hx; [|by apply a_expire_sub].
  by eapply (gr_limit _ _ _ _ _ (rep_groups _ _ _ _ _ Hrep)).
Qed.

(** An address that is no group is none after the expiry. *)
Lemma fresh_expired s a T now g : rep s a -> groups s !! g = None -> a_groups (a_expire T now a) !! g = None.
Proof.
  intros Hrep Hg. destruct (_ !! g) as [x|] eqn:Hx in |- *; [|done].
  eapply lookup_weaken in Hx; [|by apply a_expire_sub].
  destruct (gr_some _ _ _ _ _ (rep_groups _ _ _ _ _ Hrep) g x Hx) as (t & lu & Ht & _). congruence.
Qed.

Lemma limit_pos s a : rep s a -> 0 < u64 (row_limit s).
Proof. intros Hrep. pose proof (rep_limit _ _ _ _ _ Hrep). pose proof (wrapu_range 64 (row_limit s)). lia. Qed.

(** C25: The lifetime of a group.  When the cache is used at time [now] with a
    timeout [T], a group whose last row came at most [T] ago is kept, and no
    group is left whose last row came more than [2 * T] ago; the windows of
    the buckets hold again for the next call. *)
Theorem row_cache_expiry s a e clock now new dup gk rk row :
  rep s a -> timed (ns (cfg_timeout s)) clock a -> clock <= ns now -> 0 < ns (cfg_timeout s) ->
  ts_wf now -> ns now < TIME_MAX -> fresh_call s a now e new dup rk row ->
  runs (ldmsd_row_cache gcmp cmp (Some e) (inr now) (Some new) (Some dup) gk rk row) s (fun rc s' =>
    exists a', rep s' a' /\ cfg_timeout s' = cfg_timeout s /\ timed (ns (cfg_timeout s)) (ns now) a' /\
      (forall g x, a_groups a !! g = Some x -> ns now <= ag_last x + ns (cfg_timeout s) ->
         exists x', a_groups a' !! g = Some x' /\ ag_key x' = ag_key x /\ (x' = x \/ ag_last x' = ns now)) /\
      (forall g x', a_groups a' !! g = Some x' -> ns now <= ag_last x' + 2 * ns (cfg_timeout s))).
Proof.
  intros Hrep Ht Hc HT Hw Hmax Hfr. pose proof (fc_group _ _ _ _ _ _ _ _ Hfr) as Hnew. eapply runs_mono; [by apply (runs_row_cache gcmp cmp s a)|]. cbv beta.
  intros rc s' (-> & Hcfg & _ & g & a' & Hst & Hrep'). exists a'.
  pose proof (limit_pos _ _ Hrep) as Hlim. pose proof (fun g' x => expired_room s a (ns (cfg_timeout s)) (ns now) g' x Hrep) as Hroom.
  destruct (stored_timed _ _ clock _ _ _ _ _ _ _ _ _ _ Hst Hroom Hlim Hnew Ht Hc HT) as [Ht' Hts].
  destruct (timed_expire _ _ _ a Ht Hc HT) as (_ & Hkeep & _).
  destruct (stored_group _ _ _ _ _ _ _ _ _ _ _ _ Hst Hroom Hlim Hnew) as (xg & Hxg & Hlast & _ & _ & _ & _ & _ & _ & Hsame).
  split_and!; [done..| |].
  - intros g' x Hx Hact. specialize (Hkeep g' x Hx Hact). destruct (decide (g' = g)) as [->|Hne].
    + exists xg. split_and!; [done|by apply Hsame|by right].
    + destruct (call_other_group _ _ _ _ _ _ _ _ _ _ _ _ g' Hst Hne) as (Hg & _). exists x.
      rewrite Hg. split_and!; [done|done|by left].
  - intros g' x' Hx'. destruct Ht' as [_ Ht']. destruct (Ht' g' x' Hx') as [_ [(_&_&?)|(_&?)]]; lia.
Qed.

Lemma cmp_zero_trans x y z : gcmp x z = 0 -> gcmp y z = 0 -> gcmp x y = 0.
Proof.
  intros H1 H2%cmp_zero_sym; [|done]. pose proof (cmp_trans (cmp := gcmp) x z y). pose proof (cmp_trans (cmp := gcmp) y z x).
  pose proof (cmp_opp (cmp := gcmp) x z). pose proof (cmp_opp (cmp := gcmp) z x). pose proof (cmp_opp (cmp := gcmp) z y).
  pose proof (cmp_opp (cmp := gcmp) y z). pose proof (cmp_opp (cmp := gcmp) x y). pose proof (cmp_opp (cmp := gcmp) y x). lia.
Qed.

(** The listing gives the rows of one group, the one of the index. *)
Lemma group_entries_eq s a g x gk es :
  rep s a -> a_groups a !! g = Some x -> gcmp (ag_key x) gk = 0 -> group_entries a gk es -> es = (ag_rows x).*1.
Proof.
  intros Hrep Hx Hk [(g2 & x2 & Hx2 & Hk2 & ->)|[Hno _]]; [|by destruct (Hno g x Hx)].
  assert (g2 = g) as -> by (eapply (tr_inj _ _ _ (rep_tree _ _ _ _ _ Hrep)); [done|done|by eapply cmp_zero_trans]).
  by simplify_eq.
Qed.

(** C28: What is stored is found again.  Storing a row leaves the store of
    the abstract cache [a'] after the call, with the new row in one group,
    which has the index of the call; listing that index changes nothing and
    gives the rows of that group's entries in the cache, from the last one
    down, at most [n].  The entries are in the order of the row index, at most
    as many as the limit, and the new one is among them, so a listing of
    [row_limit] rows contains its row. *)
Theorem row_cache_store_then_list s a e now new dup gk rk row n :
  rep s a -> ts_wf now -> ns now < TIME_MAX -> fresh_call s a now e new dup rk row ->
  runs (ldmsd_row_cache gcmp cmp (Some e) (inr now) (Some new) (Some dup) gk rk row;; ldmsd_row_cache_make_list gcmp n gk) s
    (fun r s' => exists g a' x,
       a_stored gcmp cmp (ns (cfg_timeout s)) (u64 (row_limit s)) (ns now) new dup e gk rk row g a a' /\ rep s' a' /\
       a_groups a' !! g = Some x /\ gcmp (ag_key x) gk = 0 /\
       r.1 = rows_of (a_entries a') (take (Z.to_nat n) (reverse (ag_rows x).*1)) /\ r.2 = Z.of_nat (length r.1) /\
       sorted cmp (ag_rows x) /\ Z.of_nat (length (ag_rows x)) <= u64 (row_limit s) /\
       (e, rk) ∈ ag_rows x /\ a_entries a' !! e = Some (Entry row rk) /\
       (u64 (row_limit s) <= n -> row ∈ r.1)).
Proof.
  intros Hrep Hw Hmax Hfr. pose proof (fc_group _ _ _ _ _ _ _ _ Hfr) as Hnew.
  apply runs_bind. eapply runs_mono; [by apply (runs_row_cache gcmp cmp s a)|]. cbv beta.
  intros rc s' (-> & _ & _ & g & a' & Hst & Hrep'). eapply runs_mono; [by apply runs_make_list|]. cbv beta.
  intros [l c] s'' (-> & Hc & es & Hes & Hl). cbn [fst snd] in *.
  pose proof (limit_pos _ _ Hrep) as Hlim. pose proof (fun g' x => expired_room s a (ns (cfg_timeout s)) (ns now) g' x Hrep) as Hroom.
  destruct (stored_group _ _ _ _ _ _ _ _ _ _ _ _ Hst Hroom Hlim Hnew) as (xg & Hxg & _ & Hk & _ & _ & HE & Hin & Hlen & _).
  rewrite (group_entries_eq s' a' g xg gk es Hrep' Hxg Hk Hes) in Hl.
  destruct (gr_some _ _ _ _ _ (rep_groups _ _ _ _ _ Hrep') g xg Hxg) as (t & lu & _ & (u & _ & _ & Hs) & _).
  exists g, a', xg. split_and!; [done..|]. intros Hn. rewrite Hl. apply elem_of_rows_of.
  exists e, (Entry row rk). split_and!; [|done|done]. rewrite take_ge.
  - apply elem_of_reverse. by apply (list_elem_of_fmap_2' fst _ _ _ Hin).
  - rewrite length_reverse, length_fmap. lia.
Qed.
End props.

(** ** Examples

    A cache with the real comparison of indexes: groups by a component number,
    rows by their time stamp, two rows to a group, a timeout of ten seconds;
    and what happens at the limits of what the configuration may ask for. *)

(** An index in memory: its address and the keys there. *)
Definition index_ref (sh : list (ldms_value_type * Z)) : Type := loc * index sh.

#[export] Instance index_ref_ref sh : IndexRef (index_ref sh) :=
  {| idx_addr := fst; idx_at p i := (p, i.2); idx_addr_at p i := eq_refl |}.

(** The comparison reads the keys and not the address. *)
Definition ref_cmp {sh} (i j : index_ref sh) : Z := index_cmp i.2 j.2.

#[export] Instance ref_cmp_value sh : ByValue (@ref_cmp sh).
Proof. done. Qed.

#[export] Instance ref_cmp_comparator sh : Comparator (@ref_cmp sh).
Proof. split; intros; [apply (cmp_opp (cmp := index_cmp))|by eapply (cmp_trans (cmp := index_cmp))]. Qed.

Abbreviation gidx := (index_ref [(LDMS_V_U64, 1)]).
Abbreviation ridx := (index_ref [(LDMS_V_TIMESTAMP, 1)]).
Abbreviation ex_cache := (@ldmsd_row_cache_s gidx ridx).

Definition u64_key (n : Z) : ldmsd_row_cache_key_s := RowKey LDMS_V_U64 1 8 (le_bytes 8 n).
Definition ts_key (sec : Z) : ldmsd_row_cache_key_s := RowKey LDMS_V_TIMESTAMP 1 8 (le_bytes 4 sec ++ le_bytes 4 0).

Definition comp1 : gidx := (90%positive, exist _ [u64_key 1] eq_refl).
Definition comp2 : gidx := (91%positive, exist _ [u64_key 2] eq_refl).
Definition at100 : ridx := (11%positive, exist _ [ts_key 100] eq_refl).
Definition at105 : ridx := (12%positive, exist _ [ts_key 105] eq_refl).

Definition cache_of (limit : Z) (timeout : timespec) : ex_cache :=
  Cache limit (rbt_init ∅) [[]; []; []] 0 (Ts 0 0) timeout ∅ ∅ ∅ ∅.

(** The cache [ldmsd_row_cache_create] returns is the empty one. *)
Lemma rep_create limit timeout :
  u64 limit <> 0 -> ts_wf timeout -> ns timeout < TIME_MAX ->
  ldmsd_row_cache_create (Some tt) limit (Some timeout) = Some (cache_of limit timeout) /\
  rep ref_cmp ref_cmp (cache_of limit timeout) (ACache 0 [] [] ∅ ∅).
Proof.
  intros Hlim Hw Hmax. split; [done|]. split; cbn; try done.
  - split; [|by intros ????]. exists []. split; [apply RbtSpec.models_empty|]. intros g k. split; [by intros ?%not_elem_of_nil|].
    intros (x & Hx & _). by rewrite lookup_empty in Hx.
  - split; intros *; rewrite ?lookup_empty; done.
  - split; [|by intros ????]. intros r. split; [set_solver|]. intros (e & c & Hc & _). by rewrite lookup_empty in Hc.
  - split; [|by intros ????..|by intros i (g & x & Hx & _); rewrite lookup_empty in Hx]. intros i.
    split; [set_solver|]. intros [(g & x & Hx & _)|(g & x & Hx & _)]; by rewrite lookup_empty in Hx.
  - by left.
  - constructor.
  - intros g. rewrite lookup_empty. split; [by intros ?%not_elem_of_nil|by intros [??]].
Qed.

Definition ex0 : ex_cache := cache_of 2 (Ts 10 0).

(** One row of component 1 at time 100. *)
Definition ex1 : ex_cache :=
  default ex0 (snd <$> ldmsd_row_cache ref_cmp ref_cmp (Some 1%positive) (inr (Ts 100 0)) (Some 1%positive) (Some 21%positive) comp1 at100 7%positive ex0).

Lemma ex0_rep : rep ref_cmp ref_cmp ex0 (ACache 0 [] [] ∅ ∅).
Proof. apply (rep_create 2 (Ts 10 0)); [done|split; cbn; lia|done]. Qed.

Lemma ex0_row : 7%positive ∉ held_rows ex0.
Proof. apply not_elem_of_empty. Qed.

Abbreviation ex_empty := (@ACache gidx ridx 0 [] [] ∅ ∅).

Lemma ex0_expired g : a_groups (a_expire (ns (Ts 10 0)) (ns (Ts 100 0)) ex_empty) !! g = None.
Proof. exact (fresh_expired ref_cmp ref_cmp ex0 ex_empty _ _ g ex0_rep (lookup_empty g)). Qed.

Lemma expired_idx s a T now i : rep ref_cmp ref_cmp s a -> i ∉ indexes s -> ~ idx_used (@a_expire gidx ridx T now a) i.
Proof.
  intros Hrep Hi Hu. apply Hi. apply (io_mem _ _ _ (rep_indexes _ _ _ _ _ Hrep)).
  apply (idx_used_sub a (a_expire T now a)); [apply a_expire_sub|apply a_expire_sub|exact Hu].
Qed.

(** Addresses the store does not use can be given to a call. *)
Lemma fresh_of (s : ex_cache) a now (e new dup : loc) rk row :
  rep ref_cmp ref_cmp s a -> entries s !! e = None -> row ∉ held_rows s -> idx_addr rk ∉ indexes s ->
  groups s !! new = None -> dup ∉ indexes s -> dup <> idx_addr rk -> fresh_call s a now e new dup rk row.
Proof.
  intros Hrep He Hrow Hrk Hnew Hdup Hne. split; [done|done| | | |done].
  - intros Hu. by apply Hrk, (io_mem _ _ _ (rep_indexes _ _ _ _ _ Hrep)).
  - by apply (fresh_expired ref_cmp ref_cmp s).
  - by apply (expired_idx s).
Qed.

Lemma ex0_fresh : fresh_call ex0 ex_empty (Ts 100 0) 1%positive 1%positive 21%positive at100 7%positive.
Proof. apply fresh_of; [apply ex0_rep|done|apply ex0_row|apply not_elem_of_empty|done|apply not_elem_of_empty|done]. Qed.

Lemma ex0_timed : timed (ns (Ts 10 0)) 0 ex_empty.
Proof. split; [unfold ns; cbn; lia|]. intros g x Hx. destruct (lookup_empty_Some (M := gmap loc) g x Hx). Qed.

Lemma ex1_run :
  ldmsd_row_cache ref_cmp ref_cmp (Some 1%positive) (inr (Ts 100 0)) (Some 1%positive) (Some 21%positive) comp1 at100 7%positive ex0 = Some (0, ex1).
Proof. vm_compute. reflexivity. Qed.

Lemma ex1_stored : exists g a, rep ref_cmp ref_cmp ex1 a /\
  a_stored ref_cmp ref_cmp (ns (Ts 10 0)) 2 (ns (Ts 100 0)) 1%positive 21%positive 1%positive comp1 at100 7%positive g ex_empty a.
Proof.
  assert (ts_wf (Ts 100 0)) as Hw by (split; cbn; lia).
  destruct (runs_inv _ _ _ _ _ ex1_run (runs_row_cache ref_cmp ref_cmp ex0 ex_empty 1%positive (Ts 100 0) 1%positive 21%positive comp1 at100 7%positive
    ex0_rep Hw eq_refl ex0_fresh)) as (_ & _ & _ & g & a & Hst & Hrep).
  exists g, a. split; [exact Hrep|exact Hst].
Qed.

Lemma ex1_rep : exists a, rep ref_cmp ref_cmp ex1 a /\ timed (ns (Ts 10 0)) (ns (Ts 100 0)) a /\
  exists x, a_groups a !! 1%positive = Some x /\ ag_last x = ns (Ts 100 0).
Proof.
  destruct ex1_stored as (g & a & Hrep & Hst). exists a. split; [exact Hrep|].
  assert (forall g' x, a_groups (a_expire (ns (Ts 10 0)) (ns (Ts 100 0)) ex_empty) !! g' = Some x ->
    Z.of_nat (length (ag_rows x)) <= 2) as Hroom by (intros g' x Hx; rewrite ex0_expired in Hx; discriminate Hx).
  assert (0 <= ns (Ts 100 0)) as Hc by (unfold ns; cbn; lia).
  split.
  - exact (proj1 (stored_timed ref_cmp ref_cmp _ _ 0 _ _ _ _ _ _ _ _ _ _ Hst Hroom eq_refl (ex0_expired _) ex0_timed
      Hc eq_refl)).
  - destruct (stored_group ref_cmp ref_cmp _ _ _ _ _ _ _ _ _ _ _ _ Hst Hroom eq_refl (ex0_expired _)) as (x & Hx & Hl & _).
    destruct Hst as (a1 & Hch & _). inversion Hch as [g' x' Hx' _ Hg'|]; subst.
    + rewrite ex0_expired in Hx'. discriminate Hx'.
    + exists x. split; [exact Hx|exact Hl].
Qed.

Lemma at105_wf : ts_wf (Ts 105 0).
Proof. split; cbn; lia. Qed.

Lemma ex1_timeout : cfg_timeout ex1 = Ts 10 0.
Proof. vm_compute. reflexivity. Qed.
Lemma ex1_entry : entries ex1 !! 2%positive = None.
Proof. vm_compute. reflexivity. Qed.
Lemma ex1_group : groups ex1 !! 2%positive = None.
Proof. vm_compute. reflexivity. Qed.
Lemma ex1_row : 8%positive ∉ held_rows ex1.
Proof. apply (bool_decide_eq_false_1 (8%positive ∈ held_rows ex1)). vm_compute. reflexivity. Qed.

Lemma ex1_idx i : bool_decide (i ∈ indexes ex1) = false -> i ∉ indexes ex1.
Proof. apply bool_decide_eq_false_1. Qed.

Lemma ex1_fresh a :
  rep ref_cmp ref_cmp ex1 a -> fresh_call ex1 a (Ts 105 0) 2%positive 2%positive 22%positive at105 8%positive.
Proof.
  intros Hrep. apply fresh_of; [exact Hrep|exact ex1_entry|exact ex1_row| |exact ex1_group| |discriminate];
    apply ex1_idx; vm_compute; reflexivity.
Qed.

(** A row of another component five seconds later. *)
Lemma row_cache_refines_witness :
  exists a, rep ref_cmp ref_cmp ex1 a /\
    runs (ldmsd_row_cache ref_cmp ref_cmp (Some 2%positive) (inr (Ts 105 0)) (Some 2%positive) (Some 22%positive) comp2 at105 8%positive) ex1
      (fun rc s' => rc = 0 /\ exists a', rep ref_cmp ref_cmp s' a').
Proof.
  destruct ex1_rep as (a & Hrep & _). exists a. split; [exact Hrep|]. eapply runs_mono.
  - exact (row_cache_refines ref_cmp ref_cmp ex1 a 2%positive (Ts 105 0) 2%positive 22%positive comp2 at105 8%positive Hrep at105_wf
      eq_refl (ex1_fresh a Hrep)).
  - cbv beta. intros rc s' (-> & g & a' & _ & Hrep'). split; [reflexivity|]. exists a'. exact Hrep'.
Defined.

(** The group of component 1 is still there five seconds later. *)
Lemma row_cache_expiry_witness :
  exists a, rep ref_cmp ref_cmp ex1 a /\
    runs (ldmsd_row_cache ref_cmp ref_cmp (Some 2%positive) (inr (Ts 105 0)) (Some 2%positive) (Some 22%positive) comp2 at105 8%positive) ex1
      (fun rc s' => exists a' x, rep ref_cmp ref_cmp s' a' /\ a_groups a' !! 1%positive = Some x).
Proof.
  destruct ex1_rep as (a & Hrep & Ht & x & Hx & Hl). exists a. split; [exact Hrep|]. eapply runs_mono.
  - refine (row_cache_expiry ref_cmp ref_cmp ex1 a 2%positive (ns (Ts 100 0)) (Ts 105 0) 2%positive 22%positive comp2 at105 8%positive Hrep
      _ _ _ at105_wf eq_refl (ex1_fresh a Hrep)).
    + rewrite ex1_timeout. exact Ht.
    + vm_compute. discriminate.
    + rewrite ex1_timeout. reflexivity.
  - cbv beta. intros rc s' (a' & Hrep' & _ & _ & Hkeep & _). destruct (Hkeep 1%positive x Hx) as (x' & Hx' & _).
    + rewrite Hl, ex1_timeout. vm_compute. discriminate.
    + exists a', x'. split; [exact Hrep'|exact Hx'].
Defined.

(** The row just stored is listed. *)
Lemma row_cache_store_then_list_witness :
  runs (ldmsd_row_cache ref_cmp ref_cmp (Some 2%positive) (inr (Ts 105 0)) (Some 2%positive) (Some 22%positive) comp1 at105 8%positive;;
        ldmsd_row_cache_make_list ref_cmp 2 comp1) ex1 (fun r _ => 8%positive ∈ r.1).
Proof.
  destruct ex1_rep as (a & Hrep & _). eapply runs_mono.
  - exact (row_cache_store_then_list ref_cmp ref_cmp ex1 a 2%positive (Ts 105 0) 2%positive 22%positive comp1 at105 8%positive 2 Hrep at105_wf
      eq_refl (ex1_fresh a Hrep)).
  - cbv beta. intros r s' (g & a' & x & _ & _ & _ & _ & _ & _ & _ & _ & _ & _ & Hin). apply Hin. vm_compute. discriminate.
Defined.

(** Evaluated, the listing has the two rows of component 1, the newer first. *)
Lemma ex_listing :
  fst <$> (ldmsd_row_cache ref_cmp ref_cmp (Some 2%positive) (inr (Ts 105 0)) (Some 2%positive) (Some 22%positive) comp1 at105 8%positive;;
           ldmsd_row_cache_make_list ref_cmp 2 comp1) ex1 = Some ([8%positive; 7%positive], 2).
Proof. vm_compute. reflexivity. Qed.

(** A configured limit of no rows makes the first call take the container of
    a null pointer. *)
Lemma row_limit_zero_fails :
  ldmsd_row_cache ref_cmp ref_cmp (Some 1%positive) (inr (Ts 100 0)) (Some 1%positive) (Some 21%positive) comp1 at100 7%positive
    (cache_of 0 (Ts 10 0)) = None.
Proof. vm_compute. reflexivity. Qed.

(** A NaN compares as smaller than itself, so its group is never found again. *)
Lemma nan_key_unequal :
  let nan := [RowKey LDMS_V_D64 1 8 (le_bytes 8 0x7ff8000000000000)] in tree_comparator nan nan = Some (-1).
Proof. vm_compute. reflexivity. Qed.

(** Columns of numeric arrays trip the assertion. *)
Lemma array_key_asserts : let k := [RowKey LDMS_V_U64_ARRAY 1 8 (le_bytes 8 1)] in tree_comparator k k = None.
Proof. vm_compute. reflexivity. Qed.
